(** * CodeMind: memory selection, context compression and validation

    A shallow embedding of the algorithmic core of the CodeMind extension
    (src/memoryInjector.ts, src/codePatternRecognizer.ts, codeValidator.ts
    and architectureChecker.ts) together with the properties stated for it.

    Conventions of the model.

    - A JavaScript string is the list of its UTF-16 code units ([jsstring]).
      Every string operation the sources use ([includes], [trim],
      [substring], [split], the regular expressions) works on code units,
      so the model computes on the same data as the program.
    - [String.prototype.toLowerCase] belongs to the host runtime; it is a
      section variable wherever the sources call it.  Closed examples
      instantiate it with [asciiToLower], which agrees with the runtime on
      strings made of ASCII and CJK code units.
    - JavaScript numbers are IEEE doubles.  The numbers the modelled code
      computes are small integers, halves of integers, integers scaled by
      1.2 and quotients of integers below 101; on these the comparisons of
      the sources agree with the exact rational comparisons, so scores and
      similarities are rationals ([Q]) and counters are integers ([Z]).
    - [Array.prototype.sort] is stable (ECMAScript 2019); with a comparator
      that is a total preorder its result is the unique stable sorted
      arrangement, computed here by a stable insertion sort ([jsSort]). *)

From Stdlib Require Import List ZArith NArith QArith Qround Bool Lia Lqa.
From Stdlib Require Import Permutation Sorted.
From Stdlib Require Ascii String.
Import ListNotations.
Import String.StringSyntax.
Delimit Scope string_scope with string.

Local Open Scope Z_scope.
Local Open Scope list_scope.

(* ================================================================= *)
(** ** The runtime: strings as UTF-16 code units, arrays as lists *)

Module JS.

Definition jsstring := list N.

(** ASCII literals. *)
Definition str (s : String.string) : jsstring :=
  map Ascii.N_of_ascii (String.list_ascii_of_string s).
Arguments str s%_string.

Definition nl : jsstring := [10%N].

(** [s.length] *)
Definition strlen (s : jsstring) : Z := Z.of_nat (length s).

Fixpoint startsWith (s p : jsstring) : bool :=
  match p, s with
  | [], _ => true
  | _ :: _, [] => false
  | c :: p', d :: s' => (c =? d)%N && startsWith s' p'
  end.

(** [s.includes(sub)] *)
Fixpoint includes (s sub : jsstring) : bool :=
  startsWith s sub ||
  match s with
  | [] => false
  | _ :: s' => includes s' sub
  end.

Fixpoint streq (a b : jsstring) : bool :=
  match a, b with
  | [], [] => true
  | c :: a', d :: b' => (c =? d)%N && streq a' b'
  | _, _ => false
  end.

(** [l.includes(x)] on an array of strings *)
Definition arrayIncludes (l : list jsstring) (x : jsstring) : bool :=
  existsb (streq x) l.

(** The class [\s] of regular expressions, which is also the set
    [String.prototype.trim] strips: WhiteSpace and LineTerminator. *)
Definition isWhiteSpace (c : N) : bool :=
  ((9 <=? c) && (c <=? 13) || (c =? 32) || (c =? 160) || (c =? 5760)
   || (8192 <=? c) && (c <=? 8202) || (c =? 8232) || (c =? 8233)
   || (c =? 8239) || (c =? 8287) || (c =? 12288) || (c =? 65279))%N.

Fixpoint dropWhile {A} (p : A -> bool) (l : list A) : list A :=
  match l with
  | [] => []
  | x :: l' => if p x then dropWhile p l' else l
  end.

(** [s.trim()] *)
Definition trim (s : jsstring) : jsstring :=
  rev (dropWhile isWhiteSpace (rev (dropWhile isWhiteSpace s))).

(** [s.replace(/\s+/g, ' ')]: every maximal run of white space becomes one
    space.  [prevWs] records that the previous code unit was white space. *)
Fixpoint collapseWs (prevWs : bool) (s : jsstring) : jsstring :=
  match s with
  | [] => []
  | c :: s' =>
      if isWhiteSpace c
      then if prevWs then collapseWs true s' else 32%N :: collapseWs true s'
      else c :: collapseWs false s'
  end.

(** [s.replace(new RegExp(w, 'g'), '')] for a literal, non-empty [w]
    without metacharacters: the leftmost non-overlapping occurrences of [w]
    are deleted.  [skip] counts the code units of the occurrence being
    deleted that are still to be passed over. *)
Fixpoint removeAllFrom (w : jsstring) (skip : nat) (s : jsstring) : jsstring :=
  match s with
  | [] => []
  | c :: s' =>
      match skip with
      | S k => removeAllFrom w k s'
      | O => if startsWith s w
             then removeAllFrom w (length w - 1) s'
             else c :: removeAllFrom w 0 s'
      end
  end.

Definition removeAll (w s : jsstring) : jsstring := removeAllFrom w 0 s.

(** [s.substring(a, b)] with both indices clamped to [0, s.length] and
    swapped when [a > b]; [s.substring(a)] is [substring s a (strlen s)]. *)
Definition substring (s : jsstring) (a b : Z) : jsstring :=
  let len := strlen s in
  let a' := Z.min (Z.max a 0) len in
  let b' := Z.min (Z.max b 0) len in
  let lo := Z.min a' b' in
  let hi := Z.max a' b' in
  firstn (Z.to_nat (hi - lo)) (skipn (Z.to_nat lo) s).

(** [l.slice(start, end)]: a negative index counts from the end. *)
Definition slice {A} (l : list A) (start end_ : Z) : list A :=
  let len := Z.of_nat (length l) in
  let k := if start <? 0 then Z.max (len + start) 0 else Z.min start len in
  let final := if end_ <? 0 then Z.max (len + end_) 0 else Z.min end_ len in
  firstn (Z.to_nat (final - k)) (skipn (Z.to_nat k) l).

(** [s.split(/\s+/)]: the pieces between the maximal runs of white space.
    The result always has a first piece (the empty string splits into one
    empty piece); leading or trailing white space gives an empty piece. *)
Fixpoint splitWsFrom (prevWs : bool) (s : jsstring) : list jsstring :=
  match s with
  | [] => [[]]
  | c :: s' =>
      if isWhiteSpace c
      then if prevWs then splitWsFrom true s' else [] :: splitWsFrom true s'
      else match splitWsFrom false s' with
           | p :: ps => (c :: p) :: ps
           | [] => [[c]]
           end
  end.

Definition splitWs (s : jsstring) : list jsstring := splitWsFrom false s.

(** [l.join(sep)] *)
Fixpoint join (sep : jsstring) (l : list jsstring) : jsstring :=
  match l with
  | [] => []
  | [x] => x
  | x :: l' => x ++ sep ++ join sep l'
  end.

(** [s.split(c)] for a one-character separator. *)
Fixpoint splitChar (sep : N) (s : jsstring) : list jsstring :=
  match s with
  | [] => [[]]
  | c :: s' =>
      if (c =? sep)%N then [] :: splitChar sep s'
      else match splitChar sep s' with
           | p :: ps => (c :: p) :: ps
           | [] => [[c]]
           end
  end.

(** The lower-casing used by closed examples: exact on ASCII, and the
    identity on CJK ideographs and punctuation, which have no case. *)
Definition asciiToLower (s : jsstring) : jsstring :=
  map (fun c => if ((65 <=? c) && (c <=? 90))%N then (c + 32)%N else c) s.

(** Decimal rendering of a non-negative integer, as template literals
    print counters. *)
Fixpoint digitsFrom (fuel : nat) (n : N) (acc : jsstring) : jsstring :=
  match fuel with
  | O => acc
  | S fuel' =>
      let acc' := (48 + n mod 10)%N :: acc in
      if (n <? 10)%N then acc' else digitsFrom fuel' (n / 10)%N acc'
  end.

Definition numberToString (n : Z) : jsstring :=
  digitsFrom (S (N.to_nat (N.log2 (Z.to_N n)))) (Z.to_N n) [].

(** A stable insertion sort: [Array.prototype.sort] with comparator [cmp].
    An element is placed before the first element it does not compare
    greater than, so that equal elements keep their order. *)
Section Sort.
Context {A : Type} (cmp : A -> A -> Q).

Fixpoint insertSorted (x : A) (l : list A) : list A :=
  match l with
  | [] => [x]
  | y :: l' => if Qle_bool (cmp x y) 0%Q then x :: l else y :: insertSorted x l'
  end.

Definition jsSort (l : list A) : list A := fold_right insertSorted [] l.

(** [notAfter a b]: the comparator does not put [a] after [b]. *)
Definition notAfter (a b : A) : Prop := Qle_bool (cmp a b) 0%Q = true.
End Sort.

End JS.

Import JS.

(* ================================================================= *)
(** ** The runtime: regular expressions

    A backtracking matcher for the fragment of ECMAScript regular
    expressions the sources use, written in continuation-passing style
    after the specification of the language (ECMA-262, 22.2.2): the
    alternatives of [|] are tried left to right, a greedy quantifier tries
    one more iteration before the continuation and a lazy one the
    continuation first, and an iteration that consumes nothing is
    rejected.  The source regular expressions are written as terms of
    [regex]; the comment next to each term quotes the literal. *)

Module Regex.

Inductive regex :=
| Empty                                   (* the empty pattern *)
| Chr (p : N -> bool)                     (* a class, a literal, [.] *)
| Seq (r1 r2 : regex)
| Alt (r1 r2 : regex)                     (* [r1|r2] *)
| Star (greedy : bool) (r : regex)        (* [r*] and [r*?] *)
| Group (i : nat) (r : regex)             (* the capturing group number i *)
| WordBoundary                            (* [\b] *)
| Bol (multiline : bool)                  (* [^] *)
| Eol (multiline : bool).                 (* [$] *)

(** The position of the matcher: the code unit before the position, the
    input from the position on, the index of the position, the captures. *)
Record state := mkState {
  prev : option N;
  rest : jsstring;
  pos : nat;
  caps : list (nat * jsstring)
}.

Definition isLineTerminator (c : N) : bool :=
  ((c =? 10) || (c =? 13) || (c =? 8232) || (c =? 8233))%N.

Definition isDigit (c : N) : bool := ((48 <=? c) && (c <=? 57))%N.

Definition isWordChar (c : N) : bool :=
  ((65 <=? c) && (c <=? 90) || (97 <=? c) && (c <=? 122)
   || (48 <=? c) && (c <=? 57) || (c =? 95))%N.

Definition isWordOpt (c : option N) : bool :=
  match c with Some c => isWordChar c | None => false end.

Fixpoint run (r : regex) (st : state) (k : state -> option state)
  : option state :=
  match r with
  | Empty => k st
  | Chr p =>
      match rest st with
      | c :: rest' =>
          if p c then k (mkState (Some c) rest' (S (pos st)) (caps st))
          else None
      | [] => None
      end
  | Seq r1 r2 => run r1 st (fun st' => run r2 st' k)
  | Alt r1 r2 =>
      match run r1 st k with
      | Some e => Some e
      | None => run r2 st k
      end
  | Star greedy r1 =>
      let once := run r1 in
      (fix star (fuel : nat) (st : state) : option state :=
         match fuel with
         | O => k st
         | S fuel' =>
             let more :=
               fun _ : unit =>
                 once st (fun st' =>
                   if Nat.eqb (pos st') (pos st) then None
                   else star fuel' st') in
             if greedy
             then match more tt with
                  | Some e => Some e
                  | None => k st
                  end
             else match k st with
                  | Some e => Some e
                  | None => more tt
                  end
         end) (S (length (rest st))) st
  | Group i r1 =>
      run r1 st (fun st' =>
        k (mkState (prev st') (rest st') (pos st')
                   ((i, firstn (pos st' - pos st) (rest st)) :: caps st')))
  | WordBoundary =>
      if xorb (isWordOpt (prev st)) (isWordOpt (hd_error (rest st)))
      then k st else None
  | Bol multiline =>
      match prev st with
      | None => k st
      | Some c => if multiline && isLineTerminator c then k st else None
      end
  | Eol multiline =>
      match rest st with
      | [] => k st
      | c :: _ => if multiline && isLineTerminator c then k st else None
      end
  end.

(** Derived forms. *)
Definition Plus (greedy : bool) (r : regex) : regex := Seq r (Star greedy r).
Definition Opt (r : regex) : regex := Alt r Empty.
Definition lit1 (c : N) : regex := Chr (N.eqb c).
Definition oneOf (cs : list N) : regex := Chr (fun c => existsb (N.eqb c) cs).
Definition noneOf (cs : list N) : regex :=
  Chr (fun c => negb (existsb (N.eqb c) cs)).
Definition dot : regex := Chr (fun c => negb (isLineTerminator c)).
Definition anyChar : regex := Chr (fun _ => true).          (* [\s\S] *)
Definition space : regex := Chr isWhiteSpace.                (* \s *)
Definition wordChar : regex := Chr isWordChar.               (* \w *)
Definition digit : regex := Chr isDigit.                     (* \d *)
Definition range (lo hi : N) (c : N) : bool := ((lo <=? c) && (c <=? hi))%N.

Fixpoint seqs (rs : list regex) : regex :=
  match rs with
  | [] => Empty
  | [r] => r
  | r :: rs' => Seq r (seqs rs')
  end.

Fixpoint alts (rs : list regex) : regex :=
  match rs with
  | [] => Empty
  | [r] => r
  | r :: rs' => Alt r (alts rs')
  end.

(** A literal string, and the same under the flag [i].  Under [i] two code
    units match when their canonical forms agree; for the ASCII letters,
    ideographs and punctuation of the patterns of the sources this is
    equality up to the case of ASCII letters. *)
Definition lit (s : jsstring) : regex := seqs (map lit1 s).

Definition canonicalize (c : N) : N :=
  if ((97 <=? c) && (c <=? 122))%N then (c - 32)%N else c.

Definition litI (s : jsstring) : regex :=
  seqs (map (fun c => Chr (fun d => (canonicalize d =? canonicalize c)%N)) s).

(** A match: where it starts, and the state at its end. *)
Record found := mkFound {
  start : nat;
  stop : state
}.

Definition matched (input : jsstring) (m : found) : jsstring :=
  firstn (pos (stop m) - start m) (skipn (start m) input).

(** The capture number [i] of a match: [None] is [undefined]. *)
Definition capture (m : found) (i : nat) : option jsstring :=
  match find (fun c => Nat.eqb (fst c) i) (caps (stop m)) with
  | Some c => Some (snd c)
  | None => None
  end.

(** The match that starts exactly at a position. *)
Definition matchAt (r : regex) (st : state) : option found :=
  match run r (mkState (prev st) (rest st) (pos st) []) Some with
  | Some e => Some (mkFound (pos st) e)
  | None => None
  end.

(** The first match at or after a position ([RegExp.prototype.exec]). *)
Fixpoint searchFrom (r : regex) (p : option N) (s : jsstring) (i : nat)
  : option found :=
  match matchAt r (mkState p s i []) with
  | Some m => Some m
  | None =>
      match s with
      | [] => None
      | c :: s' => searchFrom r (Some c) s' (S i)
      end
  end.

(** [s.match(r)] without the flag [g], and [r.test(s)]. *)
Definition exec (r : regex) (s : jsstring) : option found :=
  searchFrom r None s 0.

Definition test (r : regex) (s : jsstring) : bool :=
  match exec r s with Some _ => true | None => false end.

(** All matches under the flag [g], left to right: after a match the search
    resumes at its end, one code unit further after an empty match.
    [skip] counts the code units of the current match still to pass. *)
Fixpoint matchesFrom (r : regex) (p : option N) (s : jsstring) (i skip : nat)
  : list found :=
  match skip with
  | S skip' =>
      match s with
      | [] => []
      | c :: s' => matchesFrom r (Some c) s' (S i) skip'
      end
  | O =>
      match matchAt r (mkState p s i []) with
      | Some m =>
          m :: match s with
               | [] => []
               | c :: s' =>
                   matchesFrom r (Some c) s' (S i) (pos (stop m) - i - 1)
               end
      | None =>
          match s with
          | [] => []
          | c :: s' => matchesFrom r (Some c) s' (S i) 0
          end
      end
  end.

Definition matchAll (r : regex) (s : jsstring) : list found :=
  matchesFrom r None s 0 0.

(** [s.match(r)] under the flag [g]: the matched substrings; the empty
    list stands for [null]. *)
Definition matchG (r : regex) (s : jsstring) : list jsstring :=
  map (matched s) (matchAll r s).

(** [s.replace(r, by)] under the flag [g], for a replacement text without
    [$] patterns. *)
Fixpoint replaceFrom (r : regex) (by_ : jsstring) (p : option N)
         (s : jsstring) (i skip : nat) : jsstring :=
  match skip with
  | S skip' =>
      match s with
      | [] => []
      | c :: s' => replaceFrom r by_ (Some c) s' (S i) skip'
      end
  | O =>
      match matchAt r (mkState p s i []) with
      | Some m =>
          by_ ++
          match s with
          | [] => []
          | c :: s' =>
              if Nat.eqb (pos (stop m)) i
              then c :: replaceFrom r by_ (Some c) s' (S i) 0
              else replaceFrom r by_ (Some c) s' (S i) (pos (stop m) - i - 1)
          end
      | None =>
          match s with
          | [] => []
          | c :: s' => c :: replaceFrom r by_ (Some c) s' (S i) 0
          end
      end
  end.

Definition replaceG (r : regex) (by_ s : jsstring) : jsstring :=
  replaceFrom r by_ None s 0 0.

(** [s.replace(r, by)] without the flag [g]: the first match only. *)
Definition replace1 (r : regex) (by_ s : jsstring) : jsstring :=
  match exec r s with
  | Some m => firstn (start m) s ++ by_ ++ skipn (pos (stop m)) s
  | None => s
  end.

(** [s.split(r)] for a pattern without capturing groups.  [cur] holds, in
    reverse, the piece being read.  A match is tried at every position
    before the end; one that ends where the current piece starts does not
    split, and an empty match elsewhere splits without consuming. *)
Fixpoint splitFrom (r : regex) (p : option N) (s : jsstring) (i : nat)
         (cur : jsstring) (skip : nat) : list jsstring :=
  match s with
  | [] => [rev cur]
  | c :: s' =>
      match skip with
      | S skip' => splitFrom r (Some c) s' (S i) cur skip'
      | O =>
          match matchAt r (mkState p s i []) with
          | Some m =>
              if Nat.eqb (pos (stop m)) i
              then match cur with
                   | [] => splitFrom r (Some c) s' (S i) [c] 0
                   | _ :: _ => rev cur :: splitFrom r (Some c) s' (S i) [c] 0
                   end
              else rev cur
                   :: splitFrom r (Some c) s' (S i) [] (pos (stop m) - i - 1)
          | None => splitFrom r (Some c) s' (S i) (c :: cur) 0
          end
      end
  end.

Definition split (r : regex) (s : jsstring) : list jsstring :=
  match s with
  | [] => match matchAt r (mkState None [] 0 []) with
          | Some _ => []
          | None => [[]]
          end
  | _ :: _ => splitFrom r None s 0 [] 0
  end.

End Regex.

(* ================================================================= *)
(** ** memoryStorage.ts: the memory record *)

Inductive MemoryCategory :=
| ARCHITECTURE | CODE_STYLE | BUSINESS_RULE | API_SPEC | DATABASE
| CONFIG | CONSTRAINT | DOCUMENTATION | OTHER.

Inductive ImportanceLevel := CRITICAL | HIGH | MEDIUM | LOW.

Definition category_eqb (a b : MemoryCategory) : bool :=
  match a, b with
  | ARCHITECTURE, ARCHITECTURE | CODE_STYLE, CODE_STYLE
  | BUSINESS_RULE, BUSINESS_RULE | API_SPEC, API_SPEC
  | DATABASE, DATABASE | CONFIG, CONFIG | CONSTRAINT, CONSTRAINT
  | DOCUMENTATION, DOCUMENTATION | OTHER, OTHER => true
  | _, _ => false
  end.

Definition importance_eqb (a b : ImportanceLevel) : bool :=
  match a, b with
  | CRITICAL, CRITICAL | HIGH, HIGH | MEDIUM, MEDIUM | LOW, LOW => true
  | _, _ => false
  end.

Record Memory := mkMemory {
  id : jsstring;
  content : jsstring;
  category : MemoryCategory;
  timestamp : Z;
  tags : list jsstring;
  importance : ImportanceLevel;
  relatedFiles : option (list jsstring);
  confidence : option Q
}.

(** [{ ...memory, content: c }] *)
Definition withContent (memory : Memory) (c : jsstring) : Memory :=
  mkMemory (id memory) c (category memory) (timestamp memory) (tags memory)
           (importance memory) (relatedFiles memory) (confidence memory).

Definition isImportance (lvl : ImportanceLevel) (m : Memory) : bool :=
  importance_eqb (importance m) lvl.

(* ================================================================= *)
(** ** memoryInjector.ts: context compression *)

Module Injector.

(** The filler words removed by aggressive compression:
    '的', '了', '和', '或', '以及', '还有'. *)
Definition redundantWords : list jsstring :=
  [ [0x7684]; [0x4e86]; [0x548c]; [0x6216]; [0x4ee5; 0x53ca]; [0x8fd8; 0x6709] ]%N.

Definition ellipsis : jsstring := str "...".

(** [compressContent(content, aggressive)] *)
Definition compressContent (content : jsstring) (aggressive : bool) : jsstring :=
  let compressed := trim (collapseWs false content) in
  let compressed :=
    if aggressive
    then fold_left (fun acc word => removeAll word acc) redundantWords compressed
    else compressed in
  if (200 <? strlen compressed) && aggressive
  then substring compressed 0 100 ++ ellipsis
       ++ substring compressed (strlen compressed - 100) (strlen compressed)
  else if 300 <? strlen compressed
  then substring compressed 0 300 ++ ellipsis
  else compressed.

(** [/[\u4e00-\u9fa5]/] *)
Definition isCJK (c : N) : bool := ((0x4e00 <=? c) && (c <=? 0x9fa5))%N.

(** [/[a-zA-Z]/] *)
Definition isLatinLetter (c : N) : bool :=
  ((65 <=? c) && (c <=? 90) || (97 <=? c) && (c <=? 122))%N.

(** [Math.ceil] on an exact rational. *)
Definition Math_ceil (q : Q) : Z := Qceiling q.

(** [estimateTokens(text)] *)
Definition estimateTokens (text : jsstring) : Z :=
  let chineseChars := Z.of_nat (length (filter isCJK text)) in
  let englishWords :=
    Z.of_nat (length (filter (existsb isLatinLetter) (splitWs text))) in
  Math_ceil (inject_Z chineseChars * (3 # 2) + inject_Z englishWords)%Q.

(** The comparator of [compressMemories]. *)
Definition importanceOrder (lvl : ImportanceLevel) : Z :=
  match lvl with CRITICAL => 0 | HIGH => 1 | MEDIUM => 2 | LOW => 3 end.

Definition byImportance (a b : Memory) : Q :=
  inject_Z (importanceOrder (importance a) - importanceOrder (importance b)).

(** The loop of [compressMemories], with its two accumulators; the [else]
    branch ends the loop ([break]) whether or not it appended a record. *)
Fixpoint compressLoop (maxTokens : Z) (sorted compressed : list Memory)
         (tokenCount : Z) : list Memory :=
  match sorted with
  | [] => compressed
  | memory :: rest =>
      let compressedContent := compressContent (content memory) false in
      let contentTokens := estimateTokens compressedContent in
      if tokenCount + contentTokens <=? maxTokens
      then compressLoop maxTokens rest
             (compressed ++ [withContent memory compressedContent])
             (tokenCount + contentTokens)
      else if isImportance CRITICAL memory
              && (Z.of_nat (length compressed) <? 20)
      then compressed
           ++ [withContent memory (compressContent (content memory) true)]
      else compressed
  end.

(** [compressMemories(memories, maxTokens)] *)
Definition compressMemories (memories : list Memory) (maxTokens : Z)
  : list Memory :=
  compressLoop maxTokens (jsSort byImportance memories) [] 0.

Definition rule (c : String.string) : jsstring :=
  concat (repeat (str c) 40) ++ nl.
Arguments rule c%_string.

Definition headerMarker : jsstring := str "CURSOR MEMORY CONTEXT - PROJECT RULES".
Definition footerMarker : jsstring := str "END OF MEMORY CONTEXT".

Definition bundleHeader : jsstring :=
  nl ++ nl
  ++ rule "="
  ++ headerMarker ++ nl
  ++ rule "="
  ++ str "These are the project memories and rules that MUST be followed." ++ nl
  ++ str "DO NOT modify or ignore these rules." ++ nl
  ++ rule "=" ++ nl.

Definition bundleFooter : jsstring :=
  rule "=" ++ footerMarker ++ nl ++ rule "=" ++ nl.

(** One loop of the formatter: a line [bullet content] for each record. *)
Definition entries (bullet : jsstring) (ms : list Memory) : jsstring :=
  concat (map (fun memory => bullet ++ str " " ++ content memory ++ nl) ms).

Definition tick : jsstring := [0x2713%N].
Definition dot : jsstring := [0x2022%N].
Definition dash : jsstring := str "-".

Definition len {A} (l : list A) : Z := Z.of_nat (length l).

Definition defaultMaxTokens : Z := 2000.

Definition criticalTitle : jsstring :=
  str "[CRITICAL] MUST FOLLOW - DO NOT VIOLATE:".
Definition highTitle : jsstring := str "[HIGH] STRONGLY RECOMMENDED:".
Definition mediumTitle : jsstring := str "[MEDIUM] RECOMMENDED:".

(** [formatMemoriesAsContext(memories, maxTokens)]; the caller passes
    [defaultMaxTokens] where the source omits the argument. *)
Definition formatMemoriesAsContext (memories : list Memory) (maxTokens : Z)
  : jsstring :=
  if len memories =? 0 then [] else
  let compressedMemories := compressMemories memories maxTokens in
  let context := bundleHeader in
  let critical := filter (isImportance CRITICAL) compressedMemories in
  let high := filter (isImportance HIGH) compressedMemories in
  let medium := filter (isImportance MEDIUM) compressedMemories in
  let context :=
    if 0 <? len critical
    then context
         ++ criticalTitle ++ nl ++ rule "-"
         ++ entries tick (slice critical 0 10) ++ nl
    else context in
  let context :=
    if (0 <? len high) && (len critical <? 10)
    then let remaining := 10 - len critical in
         context
         ++ highTitle ++ nl ++ rule "-"
         ++ entries dot (slice high 0 remaining) ++ nl
    else context in
  let context :=
    if (0 <? len medium) && (len critical + len high <? 10)
    then let remaining := 10 - len critical - len high in
         context
         ++ mediumTitle ++ nl ++ rule "-"
         ++ entries dash (slice medium 0 remaining) ++ nl
    else context in
  context ++ bundleFooter.

(** [injectMemoriesToEditor(editor)] after the selector returned
    [memories], on a document whose text is [existingText] and whose
    language is [languageId]: the text inserted at the top of the document,
    or [None] when the function returns without editing.  The second
    marker is the legacy one, '--- 项目记忆上下文 ---'. *)
Definition legacyMarker : jsstring :=
  str "--- " ++ [0x9879; 0x76ee; 0x8bb0; 0x5fc6; 0x4e0a; 0x4e0b; 0x6587]%N
  ++ str " ---".

Definition commentLines (commentPrefix commentSuffix contextText : jsstring)
  : jsstring :=
  join nl
    (map (fun line =>
            match trim line with
            | [] => []
            | _ :: _ => commentPrefix ++ line ++ commentSuffix
            end)
         (splitChar 10%N contextText)).

Definition injectMemoriesToEditor (memories : list Memory)
           (existingText languageId : jsstring) : option jsstring :=
  if len memories =? 0 then None else
  let contextText := formatMemoriesAsContext memories defaultMaxTokens in
  if includes existingText (str "CURSOR MEMORY CONTEXT")
     || includes existingText legacyMarker
  then None
  else
    let isOneOf := arrayIncludes in
    if isOneOf [str "go"; str "javascript"; str "typescript"; str "java";
                str "c"; str "cpp"; str "csharp"] languageId
    then Some (commentLines (str "// ") [] contextText ++ nl ++ nl)
    else if isOneOf [str "python"; str "ruby"; str "shell"] languageId
    then Some (commentLines (str "# ") [] contextText ++ nl ++ nl)
    else if isOneOf [str "html"; str "xml"] languageId
    then Some (commentLines (str "<!-- ") (str " -->") contextText ++ nl ++ nl)
    else Some (commentLines [] [] contextText ++ nl ++ nl).

(** Names used to state the properties of the compressor. *)

(** A record as the loop keeps it when it fits the budget, and as the loop
    force-appends it. *)
Definition light (m : Memory) : Memory :=
  withContent m (compressContent (content m) false).

Definition elided (m : Memory) : Memory :=
  withContent m (compressContent (content m) true).

(** The estimated cost the loop charges for a record, and for a list. *)
Definition cost (m : Memory) : Z :=
  estimateTokens (compressContent (content m) false).

Definition totalCost (ms : list Memory) : Z :=
  fold_right (fun m acc => cost m + acc) 0 ms.

(** The records each section of the bundle prints. *)
Definition shownCritical (compressed : list Memory) : list Memory :=
  slice (filter (isImportance CRITICAL) compressed) 0 10.

Definition shownHigh (compressed : list Memory) : list Memory :=
  let critical := filter (isImportance CRITICAL) compressed in
  let high := filter (isImportance HIGH) compressed in
  if (0 <? len high) && (len critical <? 10)
  then slice high 0 (10 - len critical) else [].

Definition shownMedium (compressed : list Memory) : list Memory :=
  let critical := filter (isImportance CRITICAL) compressed in
  let high := filter (isImportance HIGH) compressed in
  let medium := filter (isImportance MEDIUM) compressed in
  if (0 <? len medium) && (len critical + len high <? 10)
  then slice medium 0 (10 - len critical - len high) else [].

(** A section of the bundle: nothing when it prints no record. *)
Definition bundleSection (title bullet : jsstring) (shown : list Memory)
  : jsstring :=
  match shown with
  | [] => []
  | _ :: _ => title ++ nl ++ rule "-" ++ entries bullet shown ++ nl
  end.



(** The two counts the estimator adds up. *)
Definition cjkCount (text : jsstring) : Z :=
  Z.of_nat (count_occ Bool.bool_dec (map isCJK text) true).

Definition wordCount (pieces : list jsstring) : Z :=
  Z.of_nat (length (filter (existsb isLatinLetter) pieces)).

(* ----------------------------------------------------------------- *)
(** *** Relevance scoring and selection *)

Module Features.
Record CodeFeatures := mkCodeFeatures {
  filePath : jsstring;
  fileName : jsstring;
  fileDir : jsstring;
  language : jsstring;
  functions : list jsstring;
  classes : list jsstring;
  imports : list jsstring;
  keywords : list jsstring;
  content : jsstring
}.
End Features.
Abbreviation CodeFeatures := Features.CodeFeatures.

Record MemoryRelevance := mkRelevance {
  memory : Memory;
  score : Q
}.

Section Selector.

(** [String.prototype.toLowerCase] of the host runtime. *)
Variable toLowerCase : jsstring -> jsstring.

(** [extractCodeFeatures(filePath)]: opens the document through the editor
    and scans it; the selection below only consumes its result. *)
Variable extractCodeFeatures : jsstring -> CodeFeatures.

(** [calculateRelevance(memory, features)] *)
Definition calculateRelevance (memory : Memory) (features : CodeFeatures) : Q :=
  let score : Q := 0%Q in
  let score :=
    if isImportance CRITICAL memory then (score + 100)%Q else score in
  let score :=
    match relatedFiles memory with
    | Some related =>
        if (0 <? len related)
           && existsb (fun relatedFile =>
                         includes (Features.filePath features) relatedFile
                         || includes relatedFile (Features.filePath features))
                      related
        then (score + 50)%Q else score
    | None => score
    end in
  let matchingTags :=
    filter (fun tag =>
      let tagLower := toLowerCase tag in
      includes (toLowerCase (Features.fileName features)) tagLower
      || includes (toLowerCase (Features.fileDir features)) tagLower
      || existsb (fun f => includes (toLowerCase f) tagLower)
                 (Features.functions features)
      || existsb (fun c => includes (toLowerCase c) tagLower)
                 (Features.classes features)
      || existsb (fun k => includes (toLowerCase k) tagLower)
                 (Features.keywords features))
      (tags memory) in
  let score := (score + inject_Z (len matchingTags) * 10)%Q in
  let matchingFunctions :=
    filter (fun f =>
      let fLower := toLowerCase f in
      includes (toLowerCase (content memory)) fLower
      || existsb (fun t => includes (toLowerCase t) fLower) (tags memory))
      (Features.functions features) in
  let score := (score + inject_Z (len matchingFunctions) * 5)%Q in
  let matchingClasses :=
    filter (fun c =>
      let cLower := toLowerCase c in
      includes (toLowerCase (content memory)) cLower
      || existsb (fun t => includes (toLowerCase t) cLower) (tags memory))
      (Features.classes features) in
  let score := (score + inject_Z (len matchingClasses) * 5)%Q in
  let matchingImports :=
    filter (fun imp =>
      let impLower := toLowerCase imp in
      includes (toLowerCase (content memory)) impLower)
      (Features.imports features) in
  let score := (score + inject_Z (len matchingImports) * 3)%Q in
  let matchingKeywords :=
    filter (fun k =>
      let kLower := toLowerCase k in
      includes (toLowerCase (content memory)) kLower
      || existsb (fun t => includes (toLowerCase t) kLower) (tags memory))
      (Features.keywords features) in
  let score := (score + inject_Z (len matchingKeywords) * 2)%Q in
  let contentLower := toLowerCase (content memory) in
  let featuresText :=
    toLowerCase (join (str " ")
                      (Features.functions features
                       ++ Features.classes features
                       ++ Features.keywords features)) in
  let commonWords :=
    filter (fun word => (3 <? strlen word) && includes contentLower word)
           (splitWs featuresText) in
  let score := (score + inject_Z (len commonWords) * 1)%Q in
  if isImportance HIGH memory then (score * (3 # 2))%Q
  else if isImportance MEDIUM memory then (score * (6 # 5))%Q
  else score.

(** The comparator [(a, b) => b.score - a.score]. *)
Definition byScoreDesc (a b : MemoryRelevance) : Q := (score b - score a)%Q.

(** [mr.score > 10] *)
Definition aboveThreshold (mr : MemoryRelevance) : bool :=
  negb (Qle_bool (score mr) 10%Q).

(** [getRelevantMemoriesForFile(filePath)] on the corpus [memories] that
    [storage.loadMemories()] returned.  [None] is an absent argument; the
    empty string is falsy as well. *)
Definition getRelevantMemoriesForFile (memories : list Memory)
           (filePath : option jsstring) : list Memory :=
  match filePath with
  | None | Some [] =>
      filter (fun m => isImportance CRITICAL m || isImportance HIGH m) memories
  | Some filePath =>
      let features := extractCodeFeatures filePath in
      let memoryRelevances :=
        map (fun memory => mkRelevance memory (calculateRelevance memory features))
            memories in
      let memoryRelevances := jsSort byScoreDesc memoryRelevances in
      let criticalMemories :=
        filter (fun mr => isImportance CRITICAL (memory mr)) memoryRelevances in
      let otherMemories :=
        filter (fun mr => negb (isImportance CRITICAL (memory mr))
                          && aboveThreshold mr)
               memoryRelevances in
      let relevantMemories := map memory criticalMemories in
      let remaining := 20 - len relevantMemories in
      relevantMemories ++ map memory (slice otherMemories 0 remaining)
  end.

(** Names for the intermediate values of the selection, used to state its
    properties: the scored corpus after the sort, and the two filters. *)
Definition scored (features : CodeFeatures) (m : Memory) : MemoryRelevance :=
  mkRelevance m (calculateRelevance m features).

Definition ranked (features : CodeFeatures) (memories : list Memory)
  : list MemoryRelevance :=
  jsSort byScoreDesc (map (scored features) memories).

Definition isCriticalMr (mr : MemoryRelevance) : bool :=
  isImportance CRITICAL (memory mr).

Definition isOtherMr (mr : MemoryRelevance) : bool :=
  negb (isImportance CRITICAL (memory mr)) && aboveThreshold mr.

(** The two halves of the selection. *)
Definition criticalHalf (f : CodeFeatures) (memories : list Memory) :=
  map memory (filter isCriticalMr (ranked f memories)).

Definition otherHalf (f : CodeFeatures) (memories : list Memory) :=
  map memory
    (slice (filter isOtherMr (ranked f memories)) 0
           (20 - len (criticalHalf f memories))).

(** [sameScore f s m]: the record [m] scores exactly [s] against [f]. *)
Definition sameScore (f : CodeFeatures) (s : Q) (m : Memory) : bool :=
  Qeq_bool (calculateRelevance m f) s.

(** A non-critical record that passes the threshold. *)
Definition isCandidate (f : CodeFeatures) (m : Memory) : bool :=
  negb (isImportance CRITICAL m) && negb (Qle_bool (calculateRelevance m f) 10%Q).

(** Descending order of score. *)
Definition scoreDesc (f : CodeFeatures) (a b : Memory) : Prop :=
  (calculateRelevance b f <= calculateRelevance a f)%Q.


End Selector.

End Injector.

(* ================================================================= *)
(** ** codePatternRecognizer.ts: pattern similarity *)

Module PatternRecognizer.

Record CodePattern := mkCodePattern {
  id : jsstring;
  name : jsstring;
  description : jsstring;
  language : jsstring;
  pattern : jsstring;
  category : MemoryCategory;
  importance : ImportanceLevel;
  examples : list jsstring;
  frequency : Z;
  files : list jsstring
}.

Record Issue := mkIssue {
  message : jsstring;
  line : Z
}.

Import Regex.

(** [/\/\/.*$/gm] *)
Definition lineComment : regex :=
  seqs [lit (str "//"); Star true dot; Eol true].

(** [/\/\*[\s\S]*?\*\//g] *)
Definition blockComment : regex :=
  seqs [lit (str "/*"); Star false anyChar; lit (str "*/")].

(** [/[Q][^Q]*[Q]/g], where [Q] stands for the two quote characters,
    the double quote and the single quote. *)
Definition stringLiteral : regex :=
  seqs [oneOf [34; 39]%N; Star true (noneOf [34; 39]%N); oneOf [34; 39]%N].

(** [/\b\d+\b/g] *)
Definition numberLiteral : regex :=
  seqs [WordBoundary; Plus true digit; WordBoundary].

(** [/\s+/g] *)
Definition whiteSpaces : regex := Plus true space.

(** [normalizeCode(code)] *)
Definition normalizeCode (code : jsstring) : jsstring :=
  let normalized := replaceG lineComment [] code in
  let normalized := replaceG blockComment [] normalized in
  let normalized := replaceG stringLiteral [34; 34]%N normalized in
  let normalized := replaceG numberLiteral (str "0") normalized in
  let normalized := replaceG whiteSpaces (str " ") normalized in
  trim normalized.

(** [generatePatternKey(code)] *)
Definition generatePatternKey (code : jsstring) : jsstring :=
  let lines := slice (splitChar 10%N code) 0 5 in
  substring (join (str " ") lines) 0 100.

(** [levenshteinDistance(str1, str2)].  The matrix has one row for every
    prefix of [str2] and one column for every prefix of [str1]; row 0 is
    [0, 1, ..., str1.length] and row [i] starts with [i].  [fillRow] is the
    inner loop: [above] is the row above from the column to the left on,
    [left] the entry just written. *)
Fixpoint fillRow (c2 : N) (str1 : jsstring) (above : list Z) (left : Z)
  : list Z :=
  match str1, above with
  | c1 :: str1', diag :: ((up :: _) as above') =>
      let v := if (c2 =? c1)%N then diag
               else Z.min (Z.min (diag + 1) (left + 1)) (up + 1) in
      v :: fillRow c2 str1' above' v
  | _, _ => []
  end.

Fixpoint fillMatrix (str1 str2 : jsstring) (i : Z) (above : list Z)
  : list (list Z) :=
  match str2 with
  | [] => []
  | c2 :: str2' =>
      let row := i :: fillRow c2 str1 above i in
      row :: fillMatrix str1 str2' (i + 1) row
  end.

Definition levenshteinMatrix (str1 str2 : jsstring) : list (list Z) :=
  let row0 := map Z.of_nat (seq 0 (S (length str1))) in
  row0 :: fillMatrix str1 str2 1 row0.

Definition levenshteinDistance (str1 str2 : jsstring) : Z :=
  nth (length str1) (nth (length str2) (levenshteinMatrix str1 str2) []) 0.

(** [calculateSimilarity(str1, str2)] *)
Definition calculateSimilarity (str1 str2 : jsstring) : Q :=
  let longer := if strlen str2 <? strlen str1 then str1 else str2 in
  let shorter := if strlen str2 <? strlen str1 then str2 else str1 in
  if strlen longer =? 0 then 1%Q
  else
    let distance := levenshteinDistance longer shorter in
    (inject_Z (strlen longer - distance) / inject_Z (strlen longer))%Q.

(** '代码风格与项目常见模式不一致。建议参考: ' *)
Definition inconsistencyPrefix : jsstring :=
  [0x4ee3; 0x7801; 0x98ce; 0x683c; 0x4e0e; 0x9879; 0x76ee; 0x5e38; 0x89c1;
   0x6a21; 0x5f0f; 0x4e0d; 0x4e00; 0x81f4; 0x3002; 0x5efa; 0x8bae; 0x53c2;
   0x8003; 0x3a; 0x20]%N.

(** The test of the loop of [detectPatternInconsistencies] on one pattern:
    it is common and its key is less than 0.3 similar to the key of the
    code. *)
Definition diverges (codeKey : jsstring) (p : CodePattern) : bool :=
  (5 <=? frequency p)
  && negb (Qle_bool (3 # 10)
                    (calculateSimilarity codeKey (generatePatternKey (pattern p)))).

(** [detectPatternInconsistencies(code, filePath, language)] in a
    recognizer whose table [this.patterns] holds [patterns], a map from
    keys to arrays of patterns in insertion order. *)
Definition detectPatternInconsistencies
           (patterns : list (jsstring * list CodePattern))
           (code filePath language_ : jsstring) : list Issue :=
  let languagePatterns :=
    filter (fun p => streq (language p) language_)
           (concat (map snd patterns)) in
  if Z.of_nat (length languagePatterns) =? 0 then [] else
  let normalized := normalizeCode code in
  let codeKey := generatePatternKey normalized in
  flat_map (fun pattern_ =>
              if 5 <=? frequency pattern_ then
                let patternKey := generatePatternKey (pattern pattern_) in
                let similarity := calculateSimilarity codeKey patternKey in
                if negb (Qle_bool (3 # 10) similarity)
                then [mkIssue (inconsistencyPrefix ++ name pattern_) 1]
                else []
              else [])
           languagePatterns.

(** Edit scripts between two strings and their cost: a script keeps a
    code unit, substitutes one, deletes one or inserts one. *)
Inductive EditScript : jsstring -> jsstring -> nat -> Prop :=
| edit_done : EditScript [] [] 0
| edit_keep a s t n : EditScript s t n -> EditScript (a :: s) (a :: t) n
| edit_subst a b s t n : EditScript s t n -> EditScript (a :: s) (b :: t) (S n)
| edit_delete a s t n : EditScript s t n -> EditScript (a :: s) t (S n)
| edit_insert b s t n : EditScript s t n -> EditScript s (b :: t) (S n).

(** [d] is the Levenshtein distance of [s] and [t]: the cost of a cheapest
    edit script. *)
Definition Levenshtein (s t : jsstring) (d : nat) : Prop :=
  EditScript s t d /\ forall n, EditScript s t n -> (d <= n)%nat.

(** The textbook recursion on the first code units, used to relate the
    matrix to edit scripts. *)
Fixpoint lev (s t : jsstring) : nat :=
  match s with
  | [] => length t
  | a :: s' =>
      (fix levRow (t : jsstring) : nat :=
         match t with
         | [] => length s
         | b :: t' =>
             if (a =? b)%N then lev s' t'
             else S (Nat.min (Nat.min (lev s' t') (levRow t')) (lev s' t))
         end) t
  end.

(** The row of the matrix for the prefix of [str2] whose reverse is [p2],
    from the column of the prefix of [str1] whose reverse is [done] on. *)
Fixpoint rowFrom (p2 done todo : jsstring) : list Z :=
  Z.of_nat (lev p2 done)
  :: match todo with
     | [] => []
     | c :: todo' => rowFrom p2 (c :: done) todo'
     end.

End PatternRecognizer.

(* ================================================================= *)
(** ** architectureChecker.ts and codeValidator.ts: validation *)

Module Validator.
Import Regex.

Inductive IssueType := error | warning | info.

Definition IssueType_eqb (a b : IssueType) : bool :=
  match a, b with
  | error, error | warning, warning | info, info => true
  | _, _ => false
  end.

(** Character classes and fragments shared by the patterns. *)
Definition isUpper (c : N) : bool := range 65 90 c.
Definition isLower (c : N) : bool := range 97 122 c.
Definition isAlpha_ (c : N) : bool := isUpper c || isLower c || (c =? 95)%N.
Definition isAlnum (c : N) : bool := isUpper c || isLower c || isDigit c.

(** [[A-Za-z_][A-Za-z0-9_]*] and [[A-Z][A-Za-z0-9_]*] *)
Definition identifier : regex := Seq (Chr isAlpha_) (Star true (Chr isWordChar)).
Definition upperIdentifier : regex :=
  Seq (Chr isUpper) (Star true (Chr isWordChar)).

Definition spaces : regex := Plus true space.        (* \s+ *)
Definition optSpaces : regex := Star true space.     (* \s* *)
Definition kw (s : String.string) : regex := lit (str s).
Arguments kw s%_string.

Definition quote2 : N := 34%N.                       (* the double quote *)
Definition quote1 : N := 39%N.                       (* the single quote *)
Definition colons : list N := [0xff1a; 58]%N.        (* [：:] *)

(** The value of [a || b] on two optional captures: an absent or empty
    first operand yields the second one. *)
Definition orElse (a b : option jsstring) : option jsstring :=
  match a with
  | Some (_ :: _) => a
  | _ => b
  end.

(** [m.match(r)?.[i]] *)
Definition captureOf (r : regex) (i : nat) (s : jsstring) : option jsstring :=
  match exec r s with
  | Some m => capture m i
  | None => None
  end.

(** Truthiness of an optional string. *)
Definition truthy (a : option jsstring) : option jsstring :=
  match a with
  | Some (_ :: _) => a
  | _ => None
  end.

(* ----------------------------------------------------------------- *)
(** *** ArchitectureChecker *)

Module Architecture.

Record ArchitectureIssue := mkIssue {
  type : IssueType;
  message : jsstring;
  file : option jsstring;
  line : option Z;
  column : option Z;
  memoryId : option jsstring;
  memoryContent : option jsstring;
  suggestion : option jsstring
}.

Record ArchitectureCheckResult := mkResult {
  passed : bool;
  issues : list ArchitectureIssue;
  summary : jsstring
}.

Record ModuleDependency := mkDependency {
  from : jsstring;
  to : jsstring;
  dependencyType : jsstring
}.

Record LayerRule := mkLayerRule {
  ruleFrom : jsstring;
  ruleTo : jsstring;
  allowed : bool
}.

(** The state of a checker: the cached records, the time of the last
    load, and the load the constructor started without awaiting it, which
    completes at the first suspension of the caller. *)
Record Checker := mkChecker {
  architectureMemories : list Memory;
  lastUpdateTime : Z;
  pendingLoad : option (list Memory)
}.

Definition updateInterval : Z := 10000.

Section Host.

(** The host runtime: [String.prototype.toLowerCase], and [path.basename]
    and [path.relative] of the platform. *)
Variable toLowerCase : jsstring -> jsstring.
Variable basename : jsstring -> jsstring.
Variable relative : jsstring -> jsstring -> jsstring.

(** The filter of [loadArchitectureMemories]. *)
Definition isArchitectureMemory (m : Memory) : bool :=
  category_eqb (category m) ARCHITECTURE
  || (category_eqb (category m) CONSTRAINT && isImportance CRITICAL m)
  || existsb (fun tag =>
                arrayIncludes [str "architecture"; str "arch"; str "structure";
                               str "module"; str "layer"]
                              (toLowerCase tag))
             (tags m).

(** [/[。！？\n]/] *)
Definition sentenceEnd : regex := oneOf [0x3002; 0xff01; 0xff1f; 10]%N.

(** [new RegExp(keyword + '[：:](.+?)(?:[。，,]|$)', 'i')] *)
Definition afterKeyword (keyword : jsstring) : regex :=
  seqs [litI keyword; oneOf colons; Group 1 (Plus false dot);
        Alt (oneOf [0x3002; 0xff0c; 44]%N) (Eol false)].

(** The common body of [extractForbiddenPatterns], [extractRequiredPatterns],
    [extractDirectoryRequirements], [extractModulePatterns] and
    [extractForbiddenDependencies]: for every sentence and every keyword
    the sentence contains (and that passes [also]), the trimmed text that
    follows the keyword and a colon. *)
Definition extractAfter (keywords : list jsstring)
           (also : jsstring -> bool) (content : jsstring) : list jsstring :=
  flat_map (fun sentence =>
    flat_map (fun keyword =>
      if includes (toLowerCase sentence) (toLowerCase keyword) && also sentence
      then match truthy (captureOf (afterKeyword keyword) 1 sentence) with
           | Some text => [trim text]
           | None => []
           end
      else [])
      keywords)
    (split sentenceEnd content).

Definition always (_ : jsstring) : bool := true.

(** '禁止', '不允许', '不能', '必须', '应该', '目录', '文件夹', '模块',
    '依赖', '层', '命名', '命名规范' *)
Definition zhForbid : jsstring := [0x7981; 0x6b62]%N.
Definition zhNotAllowed : jsstring := [0x4e0d; 0x5141; 0x8bb8]%N.
Definition zhCannot : jsstring := [0x4e0d; 0x80fd]%N.
Definition zhMust : jsstring := [0x5fc5; 0x987b]%N.
Definition zhShould : jsstring := [0x5e94; 0x8be5]%N.
Definition zhDirectory : jsstring := [0x76ee; 0x5f55]%N.
Definition zhFolder : jsstring := [0x6587; 0x4ef6; 0x5939]%N.
Definition zhModule : jsstring := [0x6a21; 0x5757]%N.
Definition zhDepend : jsstring := [0x4f9d; 0x8d56]%N.
Definition zhLayer : jsstring := [0x5c42]%N.
Definition zhNaming : jsstring := [0x547d; 0x540d]%N.
Definition zhNamingRule : jsstring := [0x547d; 0x540d; 0x89c4; 0x8303]%N.

Definition extractForbiddenPatterns : jsstring -> list jsstring :=
  extractAfter [zhForbid; zhNotAllowed; zhCannot;
                str "forbidden"; str "not allowed"; str "cannot"] always.

Definition extractRequiredPatterns : jsstring -> list jsstring :=
  extractAfter [zhMust; zhShould; str "must"; str "should"] always.

Definition extractDirectoryRequirements : jsstring -> list jsstring :=
  extractAfter [zhDirectory; zhFolder; str "directory"; str "folder"] always.

Definition extractModulePatterns : jsstring -> list jsstring :=
  extractAfter [zhModule; str "module"] always.

Definition extractForbiddenDependencies : jsstring -> list jsstring :=
  extractAfter [zhForbid; zhNotAllowed; str "forbidden"; str "not allowed"]
    (fun sentence =>
       includes (toLowerCase sentence) zhDepend
       || includes (toLowerCase sentence) (str "import")).

Definition includesAny (s : jsstring) (subs : list jsstring) : bool :=
  existsb (includes s) subs.

Definition some (x : jsstring) : option jsstring := Some x.

(** [checkArchitectureConstraints(code, filePath)] over the cache.
    The messages are '违反了架构约束: ' and '建议遵循架构要求: ' followed by
    the content of the record; the suggestions quote the pattern. *)
Definition checkArchitectureConstraints (cache : list Memory)
           (code filePath : jsstring) : list ArchitectureIssue :=
  let codeLower := toLowerCase code in
  flat_map (fun memory =>
    if negb (isImportance CRITICAL memory) then [] else
    let content_ := toLowerCase (content memory) in
    (if includesAny content_
          [zhForbid; zhNotAllowed; str "forbidden"; str "not allowed"]
     then
       flat_map (fun pattern =>
         if includes codeLower (toLowerCase pattern)
         then [mkIssue error ([0x8fdd; 0x53cd; 0x4e86; 0x67b6; 0x6784;
             0x7ea6; 0x675f; 0x3a; 0x20]%N ++ content memory)
                       None None None
                       (some (id memory)) (some (content memory))
                       (some ([0x8bf7; 0x79fb; 0x9664; 0x6216; 0x4fee;
                           0x6539; 0x5305; 0x542b;
                           0x20]%N ++ [quote2] ++ pattern
                              ++ [quote2] ++ [0x20; 0x7684; 0x4ee3;
                                  0x7801]%N))]
         else [])
         (extractForbiddenPatterns (content memory))
     else [])
    ++
    (if includesAny content_ [zhMust; zhShould; str "must"; str "should"]
     then
       flat_map (fun pattern =>
         if negb (includes codeLower (toLowerCase pattern))
         then [mkIssue warning ([0x5efa; 0x8bae; 0x9075; 0x5faa; 0x67b6;
             0x6784; 0x8981; 0x6c42; 0x3a; 0x20]%N ++ content memory)
                       None None None
                       (some (id memory)) (some (content memory))
                       (some ([0x8bf7; 0x786e; 0x4fdd; 0x4ee3; 0x7801;
                           0x5305; 0x542b; 0x20]%N ++ [quote2] ++ pattern
                              ++ [quote2] ++ [0x20; 0x76f8; 0x5173; 0x7684;
                                  0x5b9e; 0x73b0]%N))]
         else [])
         (extractRequiredPatterns (content memory))
     else []))
    cache.

(** [shouldBeInDirectory(fileName, code, dir)] *)
Definition shouldBeInDirectory (fileName code dir : jsstring) : bool :=
  let dirLower := toLowerCase dir in
  let about (word : jsstring) :=
    includes dirLower word
    && (includes (toLowerCase fileName) word
        || includes (toLowerCase code) word) in
  if about (str "controller") then true
  else if about (str "service") then true
  else if about (str "model") then true
  else false.

(** [hasModulePattern(code, pattern)] *)
Definition hasModulePattern (code pattern : jsstring) : bool :=
  includes (toLowerCase code) (toLowerCase pattern).

(** [checkModuleDivision(code, filePath, language)]; [workspaceFolder] is
    the path of the first workspace folder, if there is one.  The
    messages are '文件位置可能不符合架构要求: ' and '模块命名建议: '. *)
Definition checkModuleDivision (cache : list Memory)
           (workspaceFolder : option jsstring)
           (code filePath language : jsstring) : list ArchitectureIssue :=
  match workspaceFolder with
  | None => []
  | Some fsPath =>
      let fileName := basename filePath in
      let relativePath := relative fsPath filePath in
      flat_map (fun memory =>
        if negb (category_eqb (category memory) ARCHITECTURE) then [] else
        let content_ := toLowerCase (content memory) in
        (if includesAny content_
              [zhDirectory; zhFolder; str "directory"; str "folder"]
         then
           flat_map (fun dir =>
             if negb (includes (toLowerCase relativePath) (toLowerCase dir))
                && shouldBeInDirectory fileName code dir
             then [mkIssue warning
                           ([0x6587; 0x4ef6; 0x4f4d; 0x7f6e; 0x53ef; 0x80fd;
                               0x4e0d; 0x7b26; 0x5408; 0x67b6; 0x6784;
                               0x8981; 0x6c42; 0x3a;
                               0x20]%N ++ content memory)
                           (some filePath) None None
                           (some (id memory)) (some (content memory))
                           (some ([0x8003; 0x8651; 0x5c06; 0x6587; 0x4ef6;
                               0x79fb; 0x52a8; 0x5230; 0x5305; 0x542b;
                               0x20]%N ++ [quote2] ++ dir
                                  ++ [quote2] ++ [0x20; 0x7684; 0x76ee;
                                      0x5f55]%N))]
             else [])
             (extractDirectoryRequirements (content memory))
         else [])
        ++
        (if includesAny content_ [zhModule; str "module"]
         then
           flat_map (fun pattern =>
             if negb (includes (toLowerCase fileName) (toLowerCase pattern))
                && negb (hasModulePattern code pattern)
             then [mkIssue info ([0x6a21; 0x5757; 0x547d; 0x540d; 0x5efa;
                 0x8bae; 0x3a; 0x20]%N ++ content memory)
                           (some filePath) None None
                           (some (id memory)) (some (content memory))
                           None]
             else [])
             (extractModulePatterns (content memory))
         else []))
        cache
  end.

(** Line 449: [import], white space, then either a double-quoted text
    (group 1) or a parenthesised text (group 2); flag [g]. *)
Definition goImport : regex :=
  seqs [kw "import"; spaces;
        Alt (seqs [lit1 quote2; Group 1 (Plus true (noneOf [quote2])); lit1 quote2])
            (seqs [lit1 40; Group 2 (Plus true (noneOf [41%N])); lit1 41])].

(** Line 452: a double-quoted text, and a parenthesised text. *)
Definition quotedText : regex :=
  seqs [lit1 quote2; Group 1 (Plus true (noneOf [quote2])); lit1 quote2].
Definition parenthesised : regex :=
  seqs [lit1 40; Group 1 (Plus true (noneOf [41%N])); lit1 41].

(** Line 466: [import] or [require], white space, anything, [from], white
    space, a quoted text (group 1); or [require(] a quoted text (group 2)
    [)]; flag [g]. The quotes are of either kind. *)
Definition anyQuote : regex := oneOf [quote2; quote1].
Definition unquoted : regex := Plus true (noneOf [quote2; quote1]).

Definition jsImport : regex :=
  Alt (seqs [Alt (kw "import") (kw "require"); spaces; Star true dot;
             kw "from"; spaces; anyQuote; Group 1 unquoted; anyQuote])
      (seqs [kw "require("; anyQuote; Group 2 unquoted; anyQuote; lit1 41]).

(** Line 469 *)
Definition fromClause : regex :=
  seqs [kw "from"; spaces; anyQuote; Group 1 unquoted; anyQuote].
Definition requireCall : regex :=
  seqs [kw "require("; anyQuote; Group 1 unquoted; anyQuote; lit1 41].

Definition importDependency (target : jsstring) : ModuleDependency :=
  mkDependency [] target (str "import").

(** [extractDependencies(code, language)] *)
Definition extractDependencies (code language : jsstring)
  : list ModuleDependency :=
  (if streq language (str "go")
   then flat_map (fun m =>
          match orElse (captureOf quotedText 1 m)
                       (captureOf parenthesised 1 m) with
          | Some (c :: pkg) =>
              [importDependency (hd [] (split (Plus true space) (c :: pkg)))]
          | _ => []
          end)
          (matchG goImport code)
   else [])
  ++
  (if streq language (str "javascript") || streq language (str "typescript")
   then flat_map (fun m =>
          match orElse (captureOf fromClause 1 m)
                       (captureOf requireCall 1 m) with
          | Some (c :: pkg) => [importDependency (c :: pkg)]
          | _ => []
          end)
          (matchG jsImport code)
   else []).

(** [extractLayerRules(content)] *)
Definition extractLayerRules (content : jsstring) : list LayerRule :=
  if includes (toLowerCase content) (str "controller")
     && includes (toLowerCase content) (str "model")
  then if includes (toLowerCase content) zhCannot
          || includes (toLowerCase content) zhForbid
       then [mkLayerRule (str "controller") (str "model") false]
       else []
  else [].

(** [checkLayerRuleViolation(dependencies, rule, filePath)]: the advice
    '请移除对 <to> 层的直接依赖，使用 <from> 层应该通过服务层访问', or
    [None] for [null]. *)
Definition checkLayerRuleViolation (dependencies : list ModuleDependency)
           (rule : LayerRule) (filePath : jsstring) : option jsstring :=
  let fileName := toLowerCase (basename filePath) in
  if negb (includes fileName (toLowerCase (ruleFrom rule))) then None
  else if existsb (fun dep =>
                     includes (toLowerCase (to dep)) (toLowerCase (ruleTo rule))
                     && negb (allowed rule))
                  dependencies
  then Some ([0x8bf7; 0x79fb; 0x9664; 0x5bf9;
      0x20]%N ++ ruleTo rule ++ [0x20; 0x5c42; 0x7684; 0x76f4; 0x63a5;
      0x4f9d; 0x8d56; 0xff0c; 0x4f7f; 0x7528; 0x20]%N
             ++ ruleFrom rule ++ [0x20; 0x5c42; 0x5e94; 0x8be5; 0x901a;
                 0x8fc7; 0x670d; 0x52a1; 0x5c42; 0x8bbf; 0x95ee]%N)
  else None.

(** [checkDependencies(code, filePath, language)].  The messages are
    '违反了架构依赖约束: ' and '违反了架构分层规则: '. *)
Definition checkDependencies (cache : list Memory)
           (code filePath language : jsstring) : list ArchitectureIssue :=
  let dependencies := extractDependencies code language in
  flat_map (fun memory =>
    if negb (category_eqb (category memory) ARCHITECTURE) then [] else
    let content_ := toLowerCase (content memory) in
    (if includes content_ zhForbid
        && includesAny content_ [zhDepend; str "import"; str "dependency"]
     then
       let forbiddenDeps := extractForbiddenDependencies (content memory) in
       flat_map (fun dep =>
         flat_map (fun forbiddenDep =>
           if includes (toLowerCase (to dep)) (toLowerCase forbiddenDep)
           then [mkIssue error ([0x8fdd; 0x53cd; 0x4e86; 0x67b6; 0x6784;
               0x4f9d; 0x8d56; 0x7ea6; 0x675f; 0x3a;
               0x20]%N ++ content memory)
                         (some filePath) None None
                         (some (id memory)) (some (content memory))
                         (some ([0x8bf7; 0x79fb; 0x9664; 0x5bf9;
                             0x20]%N ++ [quote2] ++ to dep
                                ++ [quote2] ++ [0x20; 0x7684; 0x4f9d;
                                    0x8d56]%N))]
           else [])
           forbiddenDeps)
         dependencies
     else [])
    ++
    (if includesAny content_ [zhLayer; str "layer"]
     then
       flat_map (fun rule =>
         match truthy (checkLayerRuleViolation dependencies rule filePath) with
         | Some violation =>
             [mkIssue error ([0x8fdd; 0x53cd; 0x4e86; 0x67b6; 0x6784; 0x5206;
                 0x5c42; 0x89c4; 0x5219; 0x3a; 0x20]%N ++ content memory)
                      (some filePath) None None
                      (some (id memory)) (some (content memory))
                      (some violation)]
         | None => []
         end)
         (extractLayerRules (content memory))
     else []))
    cache.

(** [extractNamingRules(content)]; '驼峰', '帕斯卡', '下划线'. *)
Definition extractNamingRules (content : jsstring) : list jsstring :=
  (if includes (toLowerCase content) (str "camelcase")
      || includes (toLowerCase content) [0x9a7c; 0x5cf0]%N
   then [str "camelCase"] else [])
  ++ (if includes (toLowerCase content) (str "pascalcase")
         || includes (toLowerCase content) [0x5e15; 0x65af; 0x5361]%N
      then [str "PascalCase"] else [])
  ++ (if includes (toLowerCase content) (str "snake_case")
         || includes (toLowerCase content) [0x4e0b; 0x5212; 0x7ebf]%N
      then [str "snake_case"] else []).

(** Lines 568 to 591: the declarations of functions, types and classes. *)
Definition goFunc : regex :=
  seqs [kw "func"; spaces; Group 1 identifier; optSpaces; lit1 40].
Definition goFuncName : regex := seqs [kw "func"; spaces; Group 1 identifier].
Definition goType : regex :=
  seqs [kw "type"; spaces; Group 1 upperIdentifier; spaces].
Definition goTypeName : regex :=
  seqs [kw "type"; spaces; Group 1 upperIdentifier].
Definition jsDeclaration : regex :=
  alts [seqs [kw "function"; spaces; Group 1 identifier];
        seqs [kw "const"; spaces; Group 2 identifier; optSpaces; lit1 61;
              optSpaces; Opt (Seq (kw "async") spaces); lit1 40];
        seqs [kw "class"; spaces; Group 3 upperIdentifier]].
Definition jsDeclarationName : regex :=
  alts [seqs [kw "function"; spaces; Group 1 identifier];
        seqs [kw "const"; spaces; Group 2 identifier];
        seqs [kw "class"; spaces; Group 3 upperIdentifier]].

Definition nameOf (r : regex) (m : jsstring) : list jsstring :=
  match truthy (captureOf r 1 m) with
  | Some name => [name]
  | None => []
  end.

(** [extractIdentifiers(code, language)] *)
Definition extractIdentifiers (code language : jsstring) : list jsstring :=
  (if streq language (str "go")
   then flat_map (nameOf goFuncName) (matchG goFunc code)
        ++ flat_map (nameOf goTypeName) (matchG goType code)
   else [])
  ++
  (if streq language (str "javascript") || streq language (str "typescript")
   then flat_map (fun m =>
          match orElse (captureOf jsDeclarationName 1 m)
                       (orElse (captureOf jsDeclarationName 2 m)
                               (captureOf jsDeclarationName 3 m)) with
          | Some (c :: name) => [c :: name]
          | _ => []
          end)
          (matchG jsDeclaration code)
   else []).

(** [matchesNamingRule(identifier, rule)]: a lower-case (or upper-case)
    letter followed by letters and digits, or a lower-case letter
    followed by lower-case letters, digits and underscores, anchored at
    both ends. *)
Definition matchesNamingRule (identifier rule : jsstring) : bool :=
  if streq rule (str "camelCase")
  then test (seqs [Bol false; Chr isLower; Star true (Chr isAlnum); Eol false])
            identifier
  else if streq rule (str "PascalCase")
  then test (seqs [Bol false; Chr isUpper; Star true (Chr isAlnum); Eol false])
            identifier
  else if streq rule (str "snake_case")
  then test (seqs [Bol false; Chr isLower;
                   Star true (Chr (fun c => isLower c || isDigit c
                                            || (c =? 95)%N));
                   Eol false])
            identifier
  else true.

(** [checkArchitectureNaming(code, filePath, language)]; the message is
    '命名可能不符合架构规范: ' followed by the content of the record. *)
Definition checkArchitectureNaming (cache : list Memory)
           (code filePath language : jsstring) : list ArchitectureIssue :=
  flat_map (fun memory =>
    if negb (category_eqb (category memory) ARCHITECTURE)
       && negb (category_eqb (category memory) CODE_STYLE)
    then [] else
    let content_ := toLowerCase (content memory) in
    if includesAny content_ [zhNaming; str "naming"; zhNamingRule]
    then
      let namingRules := extractNamingRules (content memory) in
      let identifiers := extractIdentifiers code language in
      flat_map (fun identifier =>
        flat_map (fun rule =>
          if negb (matchesNamingRule identifier rule)
          then [mkIssue warning ([0x547d; 0x540d; 0x53ef; 0x80fd; 0x4e0d;
              0x7b26; 0x5408; 0x67b6; 0x6784; 0x89c4; 0x8303; 0x3a;
              0x20]%N ++ content memory)
                        (some filePath) None None
                        (some (id memory)) (some (content memory))
                        (some ([0x8bf7; 0x68c0; 0x67e5;
                            0x20]%N ++ [quote2] ++ identifier
                               ++ [quote2] ++ [0x20; 0x7684; 0x547d; 0x540d;
                                   0x662f; 0x5426; 0x7b26; 0x5408; 0x89c4;
                                   0x8303]%N))]
          else [])
          namingRules)
        identifiers
    else [])
    cache.

Definition countType (t : IssueType) (l : list ArchitectureIssue) : Z :=
  Z.of_nat (length (filter (fun i => IssueType_eqb (type i) t) l)).

(** The load the constructor starts, [loadArchitectureMemories] and the
    completion of a pending load at a suspension of the caller; [stored]
    is what [storage.loadMemories()] returns, [now] what [Date.now()]
    returns. *)
Definition newChecker (stored : list Memory) : Checker :=
  mkChecker [] 0 (Some (filter isArchitectureMemory stored)).

Definition loadArchitectureMemories (stored : list Memory) (now : Z)
           (c : Checker) : Checker :=
  mkChecker (filter isArchitectureMemory stored) now None.

Definition completePending (now : Z) (c : Checker) : Checker :=
  match pendingLoad c with
  | Some loaded => mkChecker loaded now None
  | None => c
  end.

(** [checkArchitecture(code, filePath, language)]: the result and the
    state of the checker afterwards.  The first two checks run before the
    first suspension of the function when the cache is not refreshed; a
    pending load completes at that suspension.  The summaries are
    '✅ 架构检查通过！代码完全符合项目架构要求。',
    '✅ 架构检查通过（无错误） | ⚠️ 警告: w | ℹ️ 提示: i' and
    '❌ 架构检查失败 | 🔴 错误: e | ⚠️ 警告: w | ℹ️ 提示: i'. *)
Definition checkArchitecture (c : Checker) (stored : list Memory) (now : Z)
           (workspaceFolder : option jsstring)
           (code filePath language : jsstring)
  : ArchitectureCheckResult * Checker :=
  let c1 := if updateInterval <? now - lastUpdateTime c
            then loadArchitectureMemories stored now c else c in
  let constraintIssues :=
    checkArchitectureConstraints (architectureMemories c1) code filePath in
  let moduleIssues :=
    checkModuleDivision (architectureMemories c1) workspaceFolder
                        code filePath language in
  let c2 := completePending now c1 in
  let dependencyIssues :=
    checkDependencies (architectureMemories c2) code filePath language in
  let namingIssues :=
    checkArchitectureNaming (architectureMemories c2) code filePath language in
  let issues := constraintIssues ++ moduleIssues ++ dependencyIssues
                ++ namingIssues in
  let errorCount := countType error issues in
  let warningCount := countType warning issues in
  let infoCount := countType info issues in
  let passed := errorCount =? 0 in
  let counts := [0x20; 0x7c; 0x20; 0x26a0; 0xfe0f; 0x20; 0x8b66; 0x544a;
      0x3a; 0x20]%N ++ numberToString warningCount
                ++ [0x20; 0x7c; 0x20; 0x2139; 0xfe0f; 0x20; 0x63d0; 0x793a;
                    0x3a; 0x20]%N ++ numberToString infoCount in
  let summary :=
    if passed && (Z.of_nat (length issues) =? 0)
    then [0x2705; 0x20; 0x67b6; 0x6784; 0x68c0; 0x67e5; 0x901a; 0x8fc7;
        0xff01; 0x4ee3; 0x7801; 0x5b8c; 0x5168; 0x7b26; 0x5408; 0x9879;
        0x76ee; 0x67b6; 0x6784; 0x8981; 0x6c42; 0x3002]%N
    else if passed
    then [0x2705; 0x20; 0x67b6; 0x6784; 0x68c0; 0x67e5; 0x901a; 0x8fc7;
        0xff08; 0x65e0; 0x9519; 0x8bef; 0xff09]%N ++ counts
    else [0x274c; 0x20; 0x67b6; 0x6784; 0x68c0; 0x67e5; 0x5931; 0x8d25; 0x20;
        0x7c; 0x20; 0xd83d; 0xdd34; 0x20; 0x9519; 0x8bef; 0x3a;
        0x20]%N ++ numberToString errorCount ++ counts in
  (mkResult passed issues summary, c2).

End Host.
End Architecture.

(* ----------------------------------------------------------------- *)
(** *** CodeValidator *)

Record ValidationIssue := mkIssue {
  type : IssueType;
  message : jsstring;
  line : option Z;
  column : option Z;
  memoryId : option jsstring;
  memoryContent : option jsstring
}.

Record ValidationResult := mkResult {
  passed : bool;
  issues : list ValidationIssue;
  summary : jsstring
}.

Record NamingStyle := mkNamingStyle {
  style : jsstring;
  styleImportance : ImportanceLevel
}.

Record NamingRules := mkNamingRules {
  variable : jsstring;
  function : jsstring;
  class : jsstring;
  constant : jsstring
}.

Inductive ConstraintType := forbidden | required | conditional.

Record BusinessConstraint := mkConstraint {
  constraintType : ConstraintType;
  patterns : list jsstring;
  condition : option jsstring;
  requirement : option (list jsstring)
}.

Record CodeValidator := mkValidator {
  memories : list Memory;
  architectureChecker : option Architecture.Checker
}.

Definition some (x : jsstring) : option jsstring := Some x.

Definition zhForbid : jsstring := [0x7981; 0x6b62]%N.
Definition zhNotAllowed : jsstring := [0x4e0d; 0x5141; 0x8bb8]%N.
Definition zhMust : jsstring := [0x5fc5; 0x987b]%N.
Definition zhDemand : jsstring := [0x8981; 0x6c42]%N.
Definition zhNaming : jsstring := [0x547d; 0x540d]%N.

(** [/禁止[：:]\s*([^。，]+)/g], [/禁止[：:]\s*/], and the same for
    '必须'. *)
Definition notStop : regex := noneOf [0x3002; 0xff0c]%N.
Definition ruleOf (word : jsstring) : regex :=
  seqs [lit word; oneOf colons; optSpaces; Group 1 (Plus true notStop)].
Definition ruleHead (word : jsstring) : regex :=
  seqs [lit word; oneOf colons; optSpaces].

(** The common body of [extractForbiddenPatterns], [extractForbiddenItems]
    and [extractRequiredItems]: every match of the rule pattern, without
    its head, trimmed, when something is left. *)
Definition extractRuleTexts (word content : jsstring) : list jsstring :=
  flat_map (fun m =>
              match trim (replace1 (ruleHead word) [] m) with
              | [] => []
              | c :: item => [c :: item]
              end)
           (matchG (ruleOf word) content).

Definition extractForbiddenPatterns : jsstring -> list jsstring :=
  extractRuleTexts zhForbid.
Definition extractForbiddenItems : jsstring -> list jsstring :=
  extractRuleTexts zhForbid.
Definition extractRequiredItems : jsstring -> list jsstring :=
  extractRuleTexts zhMust.

(** [/目录结构[：:]\s*(.+)/] *)
Definition structureRule : regex :=
  seqs [lit [0x76ee; 0x5f55; 0x7ed3;
      0x6784]%N; oneOf colons; optSpaces; Group 1 (Plus true dot)].

(** [validateArchitecture(code, filePath)].  The messages are
    '文件路径可能不符合架构要求。预期目录: ' followed by the expected
    directories, and '违反了架构约束: ' followed by the pattern. *)
Definition validateArchitecture (memories : list Memory)
           (code filePath : jsstring) : list ValidationIssue :=
  let architectureMemories :=
    filter (fun m => category_eqb (category m) ARCHITECTURE
                     && isImportance CRITICAL m) memories in
  flat_map (fun memory =>
    (if includes (content memory) [0x76ee; 0x5f55; 0x7ed3;
        0x6784]%N || includes (content memory) [0x76ee; 0x5f55]%N
     then match exec structureRule (content memory) with
          | Some structureMatch =>
              let expectedDirs :=
                map trim (splitChar 44%N
                            (match capture structureMatch 1 with
                             | Some text => text
                             | None => []
                             end)) in
              let fileDir :=
                join (str "/") (slice (splitChar 47%N filePath) 0 (-1)) in
              let isInExpectedDir := existsb (includes fileDir) expectedDirs in
              if negb isInExpectedDir && (0 <? Z.of_nat (length expectedDirs))
              then [mkIssue warning
                            ([0x6587; 0x4ef6; 0x8def; 0x5f84; 0x53ef; 0x80fd;
                                0x4e0d; 0x7b26; 0x5408; 0x67b6; 0x6784;
                                0x8981; 0x6c42; 0x3002; 0x9884; 0x671f;
                                0x76ee; 0x5f55; 0x3a; 0x20]%N
                             ++ join (str ", ") expectedDirs)
                            None None (some (id memory)) (some (content memory))]
              else []
          | None => []
          end
     else [])
    ++
    (if includes (content memory) zhForbid
        || includes (content memory) zhNotAllowed
     then flat_map (fun pattern =>
            if includes code pattern
            then [mkIssue error ([0x8fdd; 0x53cd; 0x4e86; 0x67b6; 0x6784;
                0x7ea6; 0x675f; 0x3a; 0x20]%N ++ pattern)
                          None None (some (id memory)) (some (content memory))]
            else [])
            (extractForbiddenPatterns (content memory))
     else []))
    architectureMemories.

(** [isValidNaming(name, style)] *)
Definition excluded : list jsstring :=
  [str "String"; str "Int"; str "Bool"; str "Error"; str "Context";
   str "Request"; str "Response"; str "true"; str "false"; str "nil";
   str "null"; str "undefined"; str "this"; str "self"].

Definition alnums : regex := Star true (Chr isAlnum).

Definition isValidNaming (name style_ : jsstring) : bool :=
  if arrayIncludes excluded name then true
  else if streq style_ (str "camelCase")
  then test (seqs [Bol false; Chr isLower; alnums; Eol false]) name
       || test (seqs [Bol false; Chr isLower; alnums; Chr isUpper; alnums;
                      Eol false]) name
  else if streq style_ (str "PascalCase")
  then test (seqs [Bol false; Chr isUpper; alnums; Eol false]) name
  else if streq style_ (str "snake_case")
  then test (seqs [Bol false; Chr isLower;
                   Star true (Chr (fun c => isLower c || isDigit c
                                            || (c =? 95)%N));
                   Eol false]) name
  else if streq style_ (str "UPPER_SNAKE_CASE")
  then test (seqs [Bol false; Chr isUpper;
                   Star true (Chr (fun c => isUpper c || isDigit c
                                            || (c =? 95)%N));
                   Eol false]) name
  else true.

(** [getNamingRulesForLanguage(language, expectedStyle)] *)
Definition getNamingRulesForLanguage (language expectedStyle : jsstring)
  : NamingRules :=
  if streq language (str "go")
  then mkNamingRules (str "camelCase")
         (if streq expectedStyle (str "PascalCase")
          then str "PascalCase" else str "camelCase")
         (str "PascalCase") (str "camelCase")
  else if streq language (str "java") || streq language (str "csharp")
  then mkNamingRules (str "camelCase") (str "camelCase") (str "PascalCase")
                     (str "UPPER_SNAKE_CASE")
  else if streq language (str "python")
  then mkNamingRules (str "snake_case") (str "snake_case") (str "PascalCase")
                     (str "UPPER_SNAKE_CASE")
  else if streq language (str "javascript") || streq language (str "typescript")
  then mkNamingRules (str "camelCase") (str "camelCase") (str "PascalCase")
                     (str "UPPER_SNAKE_CASE")
  else mkNamingRules expectedStyle expectedStyle (str "PascalCase")
                     (str "UPPER_SNAKE_CASE").

(** The violation text: '行 <n>: <kind> <name in double quotes> 不符合
    <style> 命名规范'. *)
Definition violationText (lineNumber : Z) (kind name expectedStyle : jsstring)
  : jsstring :=
  [0x884c; 0x20]%N ++ numberToString lineNumber ++ str ": " ++ kind ++ str " "
  ++ [quote2] ++ name ++ [quote2] ++ [0x20; 0x4e0d; 0x7b26; 0x5408;
      0x20]%N ++ expectedStyle
  ++ [0x20; 0x547d; 0x540d; 0x89c4; 0x8303]%N.

(** Lines 1082 to 1084: a declaration keyword and a name (group 1); a name
    (group 1) followed by a colon or an equals sign and one code unit
    that is not an equals sign; a type keyword (group 1) and a name
    (group 2).  All three start at a word boundary and have the flag [g]. *)
Definition variablePatterns : list regex :=
  [ seqs [WordBoundary; alts [kw "var"; kw "let"; kw "const"]; spaces;
          Group 1 identifier];
    seqs [WordBoundary; Group 1 identifier; optSpaces; oneOf [58; 61]%N;
          optSpaces; noneOf [61%N]];
    seqs [WordBoundary;
          Group 1 (alts [kw "int"; kw "string"; kw "float"; kw "bool";
                         kw "char"]);
          spaces; Group 2 identifier] ].

(** [checkVariableNaming(line, rules, lineNumber)]; the kind is '变量'. *)
Definition checkVariableNaming (line_ : jsstring) (rules : NamingRules)
           (lineNumber : Z) : list jsstring :=
  let expectedStyle := variable rules in
  flat_map (fun pattern =>
    flat_map (fun m =>
      match orElse (capture m 1) (capture m 2) with
      | Some (c :: varName) =>
          if negb (isValidNaming (c :: varName) expectedStyle)
          then [violationText lineNumber [0x53d8;
              0x91cf]%N (c :: varName) expectedStyle]
          else []
      | _ => []
      end)
      (matchAll pattern line_))
    variablePatterns.

(** Lines 1110 to 1114: the declarations of functions of Go, JavaScript,
    Python and Java and the arrow functions of JavaScript; the name is
    group 1 in each. *)
Definition word : regex := Plus true wordChar.       (* \w+ *)

Definition functionPatterns : list regex :=
  [ seqs [WordBoundary; kw "func"; spaces; Group 1 word; optSpaces; lit1 40];
    seqs [WordBoundary; kw "function"; spaces; Group 1 word; optSpaces; lit1 40];
    seqs [WordBoundary; kw "def"; spaces; Group 1 word; optSpaces; lit1 40];
    seqs [WordBoundary;
          Opt (alts [kw "public"; kw "private"; kw "protected"]); optSpaces;
          Opt (kw "static"); optSpaces;
          alts [kw "void"; kw "int"; kw "string"; kw "bool"]; spaces;
          Group 1 word; optSpaces; lit1 40];
    seqs [kw "const"; spaces; Group 1 word; optSpaces; lit1 61; optSpaces;
          Opt (Seq (kw "async") spaces); lit1 40] ].

(** [checkFunctionNaming(line, rules, language, lineNumber)]; '函数'. *)
Definition checkFunctionNaming (line_ : jsstring) (rules : NamingRules)
           (language : jsstring) (lineNumber : Z) : list jsstring :=
  let expectedStyle := function rules in
  flat_map (fun pattern =>
    flat_map (fun m =>
      match truthy (capture m 1) with
      | Some funcName =>
          if negb (isValidNaming funcName expectedStyle)
          then [violationText lineNumber [0x51fd;
              0x6570]%N funcName expectedStyle]
          else []
      | None => []
      end)
      (matchAll pattern line_))
    functionPatterns.

(** Lines 1140 to 1142 *)
Definition classPatterns : list regex :=
  [ seqs [WordBoundary; kw "type"; spaces; Group 1 word; spaces;
          Alt (kw "struct") (kw "interface")];
    seqs [WordBoundary; kw "class"; spaces; Group 1 word];
    seqs [WordBoundary; kw "interface"; spaces; Group 1 word] ].

(** [checkClassNaming(line, rules, language, lineNumber)]; '类/结构体'. *)
Definition checkClassNaming (line_ : jsstring) (rules : NamingRules)
           (language : jsstring) (lineNumber : Z) : list jsstring :=
  let expectedStyle := class rules in
  flat_map (fun pattern =>
    flat_map (fun m =>
      match truthy (capture m 1) with
      | Some className =>
          if negb (isValidNaming className expectedStyle)
          then [violationText lineNumber [0x7c7b; 0x2f; 0x7ed3; 0x6784;
              0x4f53]%N className expectedStyle]
          else []
      | None => []
      end)
      (matchAll pattern line_))
    classPatterns.

(** The loop of [checkNamingViolations] from line number [lineNumber]. *)
Fixpoint namingViolationsFrom (rules : NamingRules) (language : jsstring)
         (lineNumber : Z) (lines : list jsstring) : list jsstring :=
  match lines with
  | [] => []
  | line_ :: lines' =>
      checkVariableNaming line_ rules lineNumber
      ++ checkFunctionNaming line_ rules language lineNumber
      ++ checkClassNaming line_ rules language lineNumber
      ++ namingViolationsFrom rules language (lineNumber + 1) lines'
  end.

(** [checkNamingViolations(code, namingStyle, language)] *)
Definition checkNamingViolations (code : jsstring) (namingStyle : NamingStyle)
           (language : jsstring) : list jsstring :=
  let lines := splitChar 10%N code in
  let namingRules := getNamingRulesForLanguage language (style namingStyle) in
  namingViolationsFrom namingRules language 1 lines.

(** [extractNamingStyle(content)]; '驼峰', '蛇形', '帕斯卡'. *)
Definition extractNamingStyle (content : jsstring) : option NamingStyle :=
  if includes content [0x9a7c; 0x5cf0]%N || includes content (str "camelCase")
  then Some (mkNamingStyle (str "camelCase") HIGH)
  else if includes content [0x86c7;
      0x5f62]%N || includes content (str "snake_case")
  then Some (mkNamingStyle (str "snake_case") HIGH)
  else if includes content [0x5e15; 0x65af;
      0x5361]%N || includes content (str "PascalCase")
  then Some (mkNamingStyle (str "PascalCase") HIGH)
  else None.

Section Host.

Variable toLowerCase : jsstring -> jsstring.
Variable basename : jsstring -> jsstring.
Variable relative : jsstring -> jsstring -> jsstring.

(** [getDefaultNamingStyle(language)].  The table is an object literal, so
    that a key naming a property of [Object.prototype] finds that
    property, which is neither [undefined] nor one of the styles;
    [inherited] stands for it. *)
Definition inherited : jsstring := str "[inherited]".

Definition prototypeKeys : list jsstring :=
  [str "constructor"; str "__proto__"; str "hasOwnProperty";
   str "isPrototypeOf"; str "propertyIsEnumerable"; str "toLocaleString";
   str "toString"; str "valueOf"; str "__defineGetter__";
   str "__defineSetter__"; str "__lookupGetter__"; str "__lookupSetter__"].

Definition getDefaultNamingStyle (language : jsstring) : option jsstring :=
  let key := toLowerCase language in
  if streq key (str "go") then Some (str "camelCase")
  else if streq key (str "java") then Some (str "camelCase")
  else if streq key (str "javascript") then Some (str "camelCase")
  else if streq key (str "typescript") then Some (str "camelCase")
  else if streq key (str "python") then Some (str "snake_case")
  else if streq key (str "csharp") then Some (str "camelCase")
  else if arrayIncludes prototypeKeys key then Some inherited
  else None.

(** [validateNaming(code, language)] *)
Definition validateNaming (memories : list Memory) (code language : jsstring)
  : list ValidationIssue :=
  let namingMemories :=
    filter (fun m =>
              (category_eqb (category m) CODE_STYLE
               || arrayIncludes (tags m) (str "naming")
               || includes (content m) zhNaming)
              && (isImportance CRITICAL m || isImportance HIGH m))
           memories in
  let namingMemories :=
    if Z.of_nat (length namingMemories) =? 0
    then namingMemories
         ++ filter (fun m => category_eqb (category m) CODE_STYLE
                             && includes (content m) zhNaming)
                   memories
    else namingMemories in
  if Z.of_nat (length namingMemories) =? 0
  then match getDefaultNamingStyle language with
       | Some defaultStyle =>
           map (fun violation => mkIssue warning violation None None None None)
               (checkNamingViolations code (mkNamingStyle defaultStyle MEDIUM)
                                      language)
       | None => []
       end
  else
    flat_map (fun memory =>
      match extractNamingStyle (content memory) with
      | Some namingStyle =>
          map (fun violation =>
                 mkIssue (if importance_eqb (styleImportance namingStyle) CRITICAL
                          then error else warning)
                         violation None None
                         (some (id memory)) (some (content memory)))
              (checkNamingViolations code namingStyle language)
      | None => []
      end)
      namingMemories.

(** Line 1197: one of the words [function], [def], [fn]. *)
Definition functionWord : regex :=
  alts [seqs [WordBoundary; kw "function"; WordBoundary];
        seqs [WordBoundary; kw "def"; WordBoundary];
        seqs [WordBoundary; kw "fn"; WordBoundary]].

Definition countChar (c : N) (s : jsstring) : Z :=
  Z.of_nat (length (matchG (lit1 c) s)).

(** The loop of [countFunctionLines] from line [i]; [total] is the number
    of lines, returned when the loop ends without an early return. *)
Fixpoint countFunctionLinesFrom (lines : list jsstring)
         (i functionStart braceCount total : Z) : Z :=
  match lines with
  | [] => total
  | line_ :: lines' =>
      let found := test functionWord line_ in
      let functionStart := if found then i else functionStart in
      let braceCount := if found then 0 else braceCount in
      if 0 <=? functionStart
      then
        let braceCount := braceCount + countChar 123 line_ in
        let braceCount := braceCount - countChar 125 line_ in
        if (braceCount =? 0) && (0 <=? functionStart) && (functionStart <? i)
        then i - functionStart + 1
        else countFunctionLinesFrom lines' (i + 1) functionStart braceCount total
      else countFunctionLinesFrom lines' (i + 1) functionStart braceCount total
  end.

(** [countFunctionLines(code)] *)
Definition countFunctionLines (code : jsstring) : Z :=
  let lines := splitChar 10%N code in
  countFunctionLinesFrom lines 0 (-1) 0 (Z.of_nat (length lines)).

(** [validateCodeStyle(code, language)]; the records are searched for
    '注释', '函数长度' and '代码长度'; the messages are '建议添加代码注释'
    and '函数可能过长（<n> 行），建议拆分'. *)
Definition validateCodeStyle (memories : list Memory) (code language : jsstring)
  : list ValidationIssue :=
  let styleMemories :=
    filter (fun m => category_eqb (category m) CODE_STYLE
                     && isImportance HIGH m) memories in
  flat_map (fun memory =>
    (if includes (content memory) [0x6ce8; 0x91ca]%N
     then
       let hasComments := includes code (str "//") || includes code (str "/*")
                          || includes code (str "#") in
       if negb hasComments && (100 <? strlen code)
       then [mkIssue info [0x5efa; 0x8bae; 0x6dfb; 0x52a0; 0x4ee3; 0x7801;
           0x6ce8; 0x91ca]%N None None
                     (some (id memory)) (some (content memory))]
       else []
     else [])
    ++
    (if includes (content memory) [0x51fd; 0x6570; 0x957f; 0x5ea6]%N
        || includes (content memory) [0x4ee3; 0x7801; 0x957f; 0x5ea6]%N
     then
       let functionLines := countFunctionLines code in
       if 50 <? functionLines
       then [mkIssue warning
                     ([0x51fd; 0x6570; 0x53ef; 0x80fd; 0x8fc7; 0x957f;
                         0xff08]%N ++ numberToString functionLines
                      ++ [0x20; 0x884c; 0xff09; 0xff0c; 0x5efa; 0x8bae;
                          0x62c6; 0x5206]%N)
                     None None (some (id memory)) (some (content memory))]
       else []
     else []))
    styleMemories.

(** [extractKeywords(content)]: the pieces between runs of '，', '。' and
    white space that are longer than two code units and are not one of
    '的', '和', '或', '是', '在', '有'; at most five of them. *)
Definition extractKeywords (content : jsstring) : list jsstring :=
  let words :=
    split (Plus true (Chr (fun c => (c =? 0xff0c)%N || (c =? 0x3002)%N
                                    || isWhiteSpace c)))
          content in
  slice (filter (fun word =>
                   (2 <? strlen word)
                   && negb (arrayIncludes [[0x7684]%N; [0x548c]%N; [0x6216]%N; [0x662f]%N; [0x5728]%N; [0x6709]%N]
                                          word))
                words)
        0 5.

(** The items of a rule text: split at '，', '、' and ',', trimmed, the
    empty ones dropped. *)
Definition itemsOf (text : jsstring) : list jsstring :=
  filter (fun s => negb (streq s []))
         (map trim (split (oneOf [0xff0c; 0x3001; 44]%N) text)).

(** [/禁止[：:]\s*([^。，；]+)/g] and the same for '必须'. *)
Definition notStop3 : regex := noneOf [0x3002; 0xff0c; 0xff1b]%N.
Definition businessRuleOf (word : jsstring) : regex :=
  seqs [lit word; oneOf colons; optSpaces; Group 1 (Plus true notStop3)].

(** Lines 1329 to 1333: '如果' ... '则' colon rule; and lines 1350 to
    1354: '当' ... '时' comma '必须' colon rule. *)
Definition ifThen : regex :=
  seqs [lit [0x5982; 0x679c]%N; Plus true (noneOf [0xff0c;
      0x3002]%N); lit [0x5219]%N;
        oneOf colons; optSpaces; Group 1 (Plus true notStop3)].
Definition ifCondition : regex :=
  seqs [lit [0x5982;
      0x679c]%N; Group 1 (Plus true (noneOf [0x5219]%N)); lit [0x5219]%N].
Definition thenRequirement : regex :=
  seqs [lit [0x5219]%N; oneOf colons; optSpaces; Group 1 (Plus true dot)].
Definition whenMust : regex :=
  seqs [lit [0x5f53]%N; Plus true (noneOf [0xff0c; 0x3002]%N); lit [0x65f6]%N;
        oneOf [0xff0c; 44]%N; lit zhMust; oneOf colons; optSpaces;
        Group 1 (Plus true notStop3)].
Definition whenCondition : regex :=
  seqs [lit [0x5f53]%N; Group 1 (Plus true (noneOf [0x65f6]%N)); lit [0x65f6]%N].
Definition mustRequirement : regex :=
  seqs [lit zhMust; oneOf colons; optSpaces; Group 1 (Plus true dot)].

Definition simpleConstraints (kind : ConstraintType) (word rule : jsstring)
  : list BusinessConstraint :=
  flat_map (fun m =>
    let content_ := trim (replace1 (ruleHead word) [] m) in
    let items := itemsOf content_ in
    if 0 <? Z.of_nat (length items)
    then [mkConstraint kind items None None]
    else [])
    (matchG (businessRuleOf word) rule).

Definition conditionalConstraints (whole conditionRe requirementRe : regex)
           (rule : jsstring) : list BusinessConstraint :=
  flat_map (fun m =>
    match exec conditionRe m, exec requirementRe m with
    | Some conditionMatch, Some requirementMatch =>
        let condition_ :=
          trim (match capture conditionMatch 1 with
                | Some t => t | None => [] end) in
        let requirement_ :=
          itemsOf (match capture requirementMatch 1 with
                   | Some t => t | None => [] end) in
        match condition_ with
        | _ :: _ =>
            if 0 <? Z.of_nat (length requirement_)
            then [mkConstraint conditional [] (Some condition_)
                               (Some requirement_)]
            else []
        | [] => []
        end
    | _, _ => []
    end)
    (matchG whole rule).

(** [extractBusinessConstraints(rule)] *)
Definition extractBusinessConstraints (rule : jsstring)
  : list BusinessConstraint :=
  simpleConstraints forbidden zhForbid rule
  ++ simpleConstraints required zhMust rule
  ++ conditionalConstraints ifThen ifCondition thenRequirement rule
  ++ conditionalConstraints whenMust whenCondition mustRequirement rule.

(** The alternatives of a message: the items in double quotes, joined
    by ' 或 '. *)
Definition alternatives (items : list jsstring) : jsstring :=
  [quote2] ++ join ([quote2] ++ [0x20; 0x6216;
      0x20]%N ++ [quote2]) items ++ [quote2].

(** [checkBusinessRuleViolations(code, rule)].  The texts are
    '违反了业务规则: 禁止使用 <pattern>', '违反了业务规则: 必须包含
    <alternatives>' and '违反了业务规则: 当使用 <condition> 时，必须包含
    <alternatives>'. *)
Definition checkBusinessRuleViolations (code rule : jsstring)
  : list jsstring :=
  let codeLower := toLowerCase code in
  let hasOne (items : list jsstring) :=
    existsb (fun item => includes codeLower (toLowerCase item)) items in
  flat_map (fun constraint =>
    match constraintType constraint with
    | forbidden =>
        flat_map (fun pattern =>
          if includes codeLower (toLowerCase pattern)
          then [[0x8fdd; 0x53cd; 0x4e86; 0x4e1a; 0x52a1; 0x89c4; 0x5219;
              0x3a; 0x20; 0x7981; 0x6b62; 0x4f7f; 0x7528;
              0x20]%N ++ [quote2] ++ pattern ++ [quote2]]
          else [])
          (patterns constraint)
    | required =>
        if negb (hasOne (patterns constraint))
           && (0 <? Z.of_nat (length (patterns constraint)))
        then [[0x8fdd; 0x53cd; 0x4e86; 0x4e1a; 0x52a1; 0x89c4; 0x5219; 0x3a;
            0x20; 0x5fc5; 0x987b; 0x5305; 0x542b;
            0x20]%N ++ alternatives (patterns constraint)]
        else []
    | conditional =>
        match truthy (condition constraint), requirement constraint with
        | Some condition_, Some requirement_ =>
            if (0 <? Z.of_nat (length requirement_))
               && includes codeLower (toLowerCase condition_)
               && negb (hasOne requirement_)
            then [[0x8fdd; 0x53cd; 0x4e86; 0x4e1a; 0x52a1; 0x89c4; 0x5219;
                0x3a; 0x20; 0x5f53; 0x4f7f; 0x7528;
                0x20]%N ++ [quote2] ++ condition_
                  ++ [quote2] ++ [0x20; 0x65f6; 0xff0c; 0x5fc5; 0x987b;
                      0x5305; 0x542b; 0x20]%N ++ alternatives requirement_]
            else []
        | _, _ => []
        end
    end)
    (extractBusinessConstraints rule).

(** [validateBusinessRules(code)]; the message is '违反业务规则: '
    followed by the violation. *)
Definition validateBusinessRules (memories : list Memory) (code : jsstring)
  : list ValidationIssue :=
  let businessMemories :=
    filter (fun m => category_eqb (category m) BUSINESS_RULE
                     && isImportance CRITICAL m) memories in
  flat_map (fun memory =>
    let keywords := extractKeywords (content memory) in
    let codeLower := toLowerCase code in
    let hasRelatedCode :=
      existsb (fun keyword => includes codeLower (toLowerCase keyword))
              keywords in
    if hasRelatedCode
    then map (fun violation =>
                mkIssue error ([0x8fdd; 0x53cd; 0x4e1a; 0x52a1; 0x89c4;
                    0x5219; 0x3a; 0x20]%N ++ violation) None None
                        (some (id memory)) (some (content memory)))
             (checkBusinessRuleViolations code (content memory))
    else [])
    businessMemories.

(** [validateConstraints(code)]; the messages are '使用了禁止的内容: '
    and '建议使用: ' followed by the item. *)
Definition forbiddenContent : jsstring := [0x4f7f; 0x7528; 0x4e86; 0x7981;
    0x6b62; 0x7684; 0x5185; 0x5bb9; 0x3a; 0x20]%N.
Definition suggestUse : jsstring := [0x5efa; 0x8bae; 0x4f7f; 0x7528; 0x3a;
    0x20]%N.

Definition validateConstraints (memories : list Memory) (code : jsstring)
  : list ValidationIssue :=
  let constraintMemories :=
    filter (fun m => category_eqb (category m) CONSTRAINT
                     && isImportance CRITICAL m) memories in
  flat_map (fun memory =>
    (if includes (content memory) zhForbid
        || includes (content memory) zhNotAllowed
     then flat_map (fun item =>
            if includes code item
            then [mkIssue error (forbiddenContent ++ item) None None
                          (some (id memory)) (some (content memory))]
            else [])
            (extractForbiddenItems (content memory))
     else [])
    ++
    (if includes (content memory) zhMust || includes (content memory) zhDemand
     then flat_map (fun item =>
            if negb (includes code item)
            then [mkIssue warning (suggestUse ++ item) None None
                          (some (id memory)) (some (content memory))]
            else [])
            (extractRequiredItems (content memory))
     else []))
    constraintMemories.

(** [new CodeValidator(memories, storage)]: [stored] is what the storage
    holds when there is one. *)
Definition newCodeValidator (memories : list Memory)
           (stored : option (list Memory)) : CodeValidator :=
  mkValidator memories
    (match stored with
     | Some corpus => Some (Architecture.newChecker toLowerCase corpus)
     | None => None
     end).

Definition fromArchitecture (archIssue : Architecture.ArchitectureIssue)
  : ValidationIssue :=
  mkIssue (Architecture.type archIssue) (Architecture.message archIssue)
          (Architecture.line archIssue) (Architecture.column archIssue)
          (Architecture.memoryId archIssue)
          (Architecture.memoryContent archIssue).

Definition countType (t : IssueType) (l : list ValidationIssue) : Z :=
  Z.of_nat (length (filter (fun i => IssueType_eqb (type i) t) l)).

(** [validateCode(code, filePath, language)]: the result, and the
    validator with the state of its checker afterwards.  [stored], [now]
    and [workspaceFolder] are what the storage, the clock and the editor
    answer during the call.  The summaries are
    '✅ 代码验证通过！代码完全符合项目记忆要求。',
    '✅ 代码验证通过（无错误） | ⚠️ 警告: w | ℹ️ 提示: i' and
    '❌ 代码验证失败 | 🔴 错误: e | ⚠️ 警告: w | ℹ️ 提示: i'. *)
Definition validateCode (v : CodeValidator) (stored : list Memory) (now : Z)
           (workspaceFolder : option jsstring)
           (code filePath language : jsstring)
  : ValidationResult * CodeValidator :=
  let architectureIssues := validateArchitecture (memories v) code filePath in
  let '(archValidationIssues, checker) :=
    match architectureChecker v with
    | Some c =>
        let '(archResult, c') :=
          Architecture.checkArchitecture toLowerCase basename relative
            c stored now workspaceFolder code filePath language in
        (map fromArchitecture (Architecture.issues archResult), Some c')
    | None => ([], None)
    end in
  let namingIssues := validateNaming (memories v) code language in
  let styleIssues := validateCodeStyle (memories v) code language in
  let businessIssues := validateBusinessRules (memories v) code in
  let constraintIssues := validateConstraints (memories v) code in
  let issues := architectureIssues ++ archValidationIssues ++ namingIssues
                ++ styleIssues ++ businessIssues ++ constraintIssues in
  let errorCount := countType error issues in
  let warningCount := countType warning issues in
  let infoCount := countType info issues in
  let passed := errorCount =? 0 in
  let counts := [0x20; 0x7c; 0x20; 0x26a0; 0xfe0f; 0x20; 0x8b66; 0x544a;
      0x3a; 0x20]%N ++ numberToString warningCount
                ++ [0x20; 0x7c; 0x20; 0x2139; 0xfe0f; 0x20; 0x63d0; 0x793a;
                    0x3a; 0x20]%N ++ numberToString infoCount in
  let summary :=
    if passed && (Z.of_nat (length issues) =? 0)
    then [0x2705; 0x20; 0x4ee3; 0x7801; 0x9a8c; 0x8bc1; 0x901a; 0x8fc7;
        0xff01; 0x4ee3; 0x7801; 0x5b8c; 0x5168; 0x7b26; 0x5408; 0x9879;
        0x76ee; 0x8bb0; 0x5fc6; 0x8981; 0x6c42; 0x3002]%N
    else if passed
    then [0x2705; 0x20; 0x4ee3; 0x7801; 0x9a8c; 0x8bc1; 0x901a; 0x8fc7;
        0xff08; 0x65e0; 0x9519; 0x8bef; 0xff09]%N ++ counts
    else [0x274c; 0x20; 0x4ee3; 0x7801; 0x9a8c; 0x8bc1; 0x5931; 0x8d25; 0x20;
        0x7c; 0x20; 0xd83d; 0xdd34; 0x20; 0x9519; 0x8bef; 0x3a;
        0x20]%N ++ numberToString errorCount ++ counts in
  (mkResult passed issues summary, mkValidator (memories v) checker).



End Host.
End Validator.

(* ================================================================= *)
(** ** memoryInjector.ts: the comment delimiters of the injection *)

Module Injection.
Import Injector.

(** The variables [commentPrefix] and [commentSuffix] of
    [injectMemoriesToEditor], as the chain of tests on the language of
    the document sets them. *)
Definition commentPrefix (languageId : jsstring) : jsstring :=
  if arrayIncludes [str "go"; str "javascript"; str "typescript"; str "java";
                    str "c"; str "cpp"; str "csharp"] languageId
  then str "// "
  else if arrayIncludes [str "python"; str "ruby"; str "shell"] languageId
  then str "# "
  else if arrayIncludes [str "html"; str "xml"] languageId
  then str "<!-- "
  else [].

Definition commentSuffix (languageId : jsstring) : jsstring :=
  if arrayIncludes [str "go"; str "javascript"; str "typescript"; str "java";
                    str "c"; str "cpp"; str "csharp"] languageId
  then []
  else if arrayIncludes [str "python"; str "ruby"; str "shell"] languageId
  then []
  else if arrayIncludes [str "html"; str "xml"] languageId
  then str " -->"
  else [].

(** The text of the document after the edit: the insertion is made at
    line 0, column 0. *)
Definition afterInjection (inserted : option jsstring) (existingText : jsstring)
  : jsstring :=
  match inserted with
  | Some text => text ++ existingText
  | None => existingText
  end.

End Injection.

(* ================================================================= *)
(** ** memoryStorage.ts: the store

    The store is one JSON file.  [loadMemories] answers the empty corpus
    when the file is missing or is not JSON, and [saveMemories] rewrites
    the file whole; a write that fails throws.  The model keeps what the
    methods can observe of the disk: the state of the file and whether
    the location can be written.  A file [Holds] a corpus when it is the
    JSON text of that corpus, which is what [saveMemories] writes
    ([JSON.parse] gives back the records [JSON.stringify] was given:
    strings, numbers and arrays of strings).  An operation that throws
    returns [None]. *)

Module Storage.

Abbreviation len := Injector.len.

Inductive File :=
| Missing
| Malformed
| Holds (memories : list Memory).

Record Disk := mkDisk {
  file : File;
  writable : bool
}.

(** [loadMemories()] *)
Definition loadMemories (d : Disk) : list Memory :=
  match file d with
  | Holds memories => memories
  | Missing | Malformed => []
  end.

(** [saveMemories(memories)] *)
Definition saveMemories (memories : list Memory) (d : Disk) : option Disk :=
  if writable d then Some (mkDisk (Holds memories) (writable d)) else None.

(** [addMemory(memory)] *)
Definition addMemory (memory : Memory) (d : Disk) : option Disk :=
  let memories := loadMemories d in
  saveMemories (memories ++ [memory]) d.

(** [Partial<Memory>]: the keys an update carries.  For the two optional
    fields a key can be present and hold [undefined]. *)
Record MemoryUpdate := mkUpdate {
  newId : option jsstring;
  newContent : option jsstring;
  newCategory : option MemoryCategory;
  newTimestamp : option Z;
  newTags : option (list jsstring);
  newImportance : option ImportanceLevel;
  newRelatedFiles : option (option (list jsstring));
  newConfidence : option (option Q)
}.

Definition orKeep {A} (new : option A) (old : A) : A :=
  match new with Some x => x | None => old end.

(** [{ ...memory, ...updates }] *)
Definition applyUpdates (memory : Memory) (updates : MemoryUpdate) : Memory :=
  mkMemory (orKeep (newId updates) (id memory))
           (orKeep (newContent updates) (content memory))
           (orKeep (newCategory updates) (category memory))
           (orKeep (newTimestamp updates) (timestamp memory))
           (orKeep (newTags updates) (tags memory))
           (orKeep (newImportance updates) (importance memory))
           (orKeep (newRelatedFiles updates) (relatedFiles memory))
           (orKeep (newConfidence updates) (confidence memory)).

(** A whole record passed as an update, as the import does. *)
Definition asUpdate (memory : Memory) : MemoryUpdate :=
  mkUpdate (Some (id memory)) (Some (content memory)) (Some (category memory))
           (Some (timestamp memory)) (Some (tags memory))
           (Some (importance memory))
           (match relatedFiles memory with
            | Some files => Some (Some files) | None => None end)
           (match confidence memory with
            | Some c => Some (Some c) | None => None end).

(** [l.findIndex(p)]; [None] is -1. *)
Fixpoint findIndex {A} (p : A -> bool) (l : list A) : option nat :=
  match l with
  | [] => None
  | x :: l' => if p x then Some 0%nat else option_map S (findIndex p l')
  end.

(** [l[index] = f(l[index])] for an index inside the array, which is the
    only case [updateMemory] meets. *)
Fixpoint updateAt {A} (index : nat) (f : A -> A) (l : list A) : list A :=
  match l, index with
  | [], _ => []
  | x :: l', O => f x :: l'
  | x :: l', S index' => x :: updateAt index' f l'
  end.

(** [updateMemory(id, updates)]: nothing is written when no record has
    the id. *)
Definition updateMemory (id_ : jsstring) (updates : MemoryUpdate) (d : Disk)
  : option Disk :=
  let memories := loadMemories d in
  match findIndex (fun m => streq (id m) id_) memories with
  | Some index =>
      saveMemories (updateAt index (fun m => applyUpdates m updates) memories) d
  | None => Some d
  end.

(** [deleteMemory(id)] *)
Definition deleteMemory (id_ : jsstring) (d : Disk) : option Disk :=
  let memories := loadMemories d in
  let filtered := filter (fun m => negb (streq (id m) id_)) memories in
  saveMemories filtered d.

(** [getMemoriesByCategory(category)], [getMemoriesByImportance(importance)] *)
Definition getMemoriesByCategory (category_ : MemoryCategory) (d : Disk)
  : list Memory :=
  filter (fun m => category_eqb (category m) category_) (loadMemories d).

Definition getMemoriesByImportance (importance_ : ImportanceLevel) (d : Disk)
  : list Memory :=
  filter (fun m => importance_eqb (importance m) importance_) (loadMemories d).

(** [getMemoriesByTags(tags)] *)
Definition getMemoriesByTags (tags_ : list jsstring) (d : Disk) : list Memory :=
  filter (fun memory => existsb (fun tag => arrayIncludes (tags memory) tag) tags_)
         (loadMemories d).

(** The order of strings the default comparator of [sort] uses: by code
    units, a proper prefix first. *)
Fixpoint compareStrings (a b : jsstring) : comparison :=
  match a, b with
  | [], [] => Eq
  | [], _ :: _ => Lt
  | _ :: _, [] => Gt
  | c :: a', d :: b' =>
      match (c ?= d)%N with
      | Eq => compareStrings a' b'
      | Lt => Lt
      | Gt => Gt
      end
  end.

Definition defaultCompare (a b : jsstring) : Q :=
  match compareStrings a b with
  | Lt => (-1)%Q
  | Eq => 0%Q
  | Gt => 1%Q
  end.

Definition stringLt (a b : jsstring) : Prop := compareStrings a b = Lt.

(** [set.add(x)] on a [Set] kept in insertion order. *)
Definition setAdd (set : list jsstring) (x : jsstring) : list jsstring :=
  if arrayIncludes set x then set else set ++ [x].

(** [getAllTags()] *)
Definition getAllTags (d : Disk) : list jsstring :=
  let memories := loadMemories d in
  let tagSet :=
    fold_left (fun tagSet memory => fold_left setAdd (tags memory) tagSet)
              memories [] in
  jsSort defaultCompare tagSet.

(** [{ ...memory, importance }], the assignment [memory.importance = ...] *)
Definition withImportance (memory : Memory) (lvl : ImportanceLevel) : Memory :=
  mkMemory (id memory) (content memory) (category memory) (timestamp memory)
           (tags memory) lvl (relatedFiles memory) (confidence memory).

(** [updateMemoryTags(id, tags)] *)
Definition updateMemoryTags (id_ : jsstring) (tags_ : list jsstring) (d : Disk)
  : option Disk :=
  updateMemory id_ (mkUpdate None None None None (Some tags_) None None None) d.

(** [batchUpdateImportance(ids, importance)] *)
Definition batchUpdateImportance (ids : list jsstring)
           (importance_ : ImportanceLevel) (d : Disk) : option Disk :=
  let memories := loadMemories d in
  let memories :=
    map (fun memory => if arrayIncludes ids (id memory)
                       then withImportance memory importance_ else memory)
        memories in
  saveMemories memories d.

(** The default of [maxAge]: 90 days in milliseconds. *)
Definition defaultMaxAge : Z := 90 * 24 * 60 * 60 * 1000.

(** The filter of [cleanExpiredMemories]. *)
Definition survives (maxAge now : Z) (memory : Memory) : bool :=
  if isImportance CRITICAL memory || isImportance HIGH memory then true
  else if now - timestamp memory <? maxAge then true
  else false.

(** [cleanExpiredMemories(maxAge)] when [Date.now()] answers [now]: the
    number returned and the disk afterwards. *)
Definition cleanExpiredMemories (maxAge now : Z) (d : Disk)
  : option (Z * Disk) :=
  let memories := loadMemories d in
  let beforeCount := len memories in
  let filtered := filter (survives maxAge now) memories in
  match saveMemories filtered d with
  | Some d' => Some (beforeCount - len filtered, d')
  | None => None
  end.

Section Search.

Variable toLowerCase : jsstring -> jsstring.

(** [searchMemories(query)] *)
Definition searchMemories (query : jsstring) (d : Disk) : list Memory :=
  let memories := loadMemories d in
  let queryLower := toLowerCase query in
  filter (fun memory =>
            if includes (toLowerCase (content memory)) queryLower then true
            else if existsb (fun tag => includes (toLowerCase tag) queryLower)
                            (tags memory) then true
            else match relatedFiles memory with
                 | Some files =>
                     existsb (fun file_ => includes (toLowerCase file_) queryLower)
                             files
                 | None => false
                 end)
         memories.

(** [calculateMatchScore(memory, queryWords)] *)
Definition calculateMatchScore (memory : Memory) (queryWords : list jsstring)
  : Q :=
  let contentLower := toLowerCase (content memory) in
  let tagsLower := toLowerCase (join (str " ") (tags memory)) in
  fold_left
    (fun score word =>
       let score := if includes contentLower word then (score + 2)%Q else score in
       let score := if includes tagsLower word then (score + 3)%Q else score in
       if isImportance CRITICAL memory then (score + 1)%Q
       else if isImportance HIGH memory then (score + (1 # 2))%Q
       else score)
    queryWords 0%Q.

(** The test of the filter of [fuzzySearchMemories]: at least one word of
    the query occurs in the content or in the tags. *)
Definition matchesSome (queryWords : list jsstring) (memory : Memory) : bool :=
  let contentLower := toLowerCase (content memory) in
  let tagsLower := toLowerCase (join (str " ") (tags memory)) in
  let matchCount :=
    len (filter (fun word => includes contentLower word
                             || includes tagsLower word)
                queryWords) in
  0 <? matchCount.

(** The comparator of the sort of [fuzzySearchMemories]. *)
Definition byMatchScore (queryWords : list jsstring) (a b : Memory) : Q :=
  let aMatch := calculateMatchScore a queryWords in
  let bMatch := calculateMatchScore b queryWords in
  (bMatch - aMatch)%Q.

(** The words of a query. *)
Definition wordsOf (query : jsstring) : list jsstring :=
  filter (fun w => 0 <? strlen w) (splitWs (toLowerCase query)).

(** [fuzzySearchMemories(query)] *)
Definition fuzzySearchMemories (query : jsstring) (d : Disk) : list Memory :=
  let memories := loadMemories d in
  let queryWords := wordsOf query in
  if len queryWords =? 0 then memories
  else jsSort (byMatchScore queryWords)
              (filter (matchesSome queryWords) memories).

End Search.

End Storage.

(* ================================================================= *)
(** ** memoryManager.ts: the automatic adjustment of importance *)

Module Manager.
Import Storage.

(** The body of the loop of [autoAdjustImportance] for one record, when
    [Date.now()] answered [now]: the record afterwards, and whether the
    loop counted an adjustment.  A confidence is taken as the rational
    its JSON text denotes. *)
Definition adjust (now : Z) (memory : Memory) : Memory * bool :=
  let oneMonthAgo := now - 30 * 24 * 60 * 60 * 1000 in
  if oneMonthAgo <? timestamp memory
  then
    if isImportance LOW memory
    then (withImportance memory MEDIUM, true)
    else if isImportance MEDIUM memory
            && match confidence memory with
               | Some c => negb (Qeq_bool c 0) && negb (Qle_bool c (8 # 10))
               | None => false
               end
    then (withImportance memory HIGH, true)
    else (memory, false)
  else
    if isImportance HIGH memory
       && (timestamp memory <? oneMonthAgo - 60 * 24 * 60 * 60 * 1000)
    then (withImportance memory MEDIUM, true)
    else (memory, false).

(** [autoAdjustImportance()]: the number of adjustments the message
    reports and the disk afterwards; the corpus is saved only when a
    record was adjusted. *)
Definition autoAdjustImportance (now : Z) (d : Disk) : option (Z * Disk) :=
  let memories := loadMemories d in
  let adjusted := map (adjust now) memories in
  let adjustedCount := len (filter snd adjusted) in
  if 0 <? adjustedCount
  then match saveMemories (map fst adjusted) d with
       | Some d' => Some (adjustedCount, d')
       | None => None
       end
  else Some (adjustedCount, d).

(** One step on the scale of importance, as the adjustment takes it. *)
Definition oneStep (before after : ImportanceLevel) : Prop :=
  before = after
  \/ (before = LOW /\ after = MEDIUM)
  \/ (before = MEDIUM /\ after = HIGH)
  \/ (before = HIGH /\ after = MEDIUM).

End Manager.

(* ================================================================= *)
(** ** codePatternRecognizer.ts: snippets and common patterns *)

Module Mining.
Import Regex PatternRecognizer.

Abbreviation len := Injector.len.

(** [countBraces(line)].  The loop of the source goes by code points; the
    two braces are single code units, so that going by code units counts
    the same. *)
Definition countBraces (line_ : jsstring) : Z :=
  fold_left (fun count char =>
               let count := if (char =? 123)%N then count + 1 else count in
               if (char =? 125)%N then count - 1 else count)
            line_ 0.

Definition word : regex := Plus true wordChar.       (* \w+ *)
Definition spaces : regex := Plus true space.        (* \s+ *)
Definition optSpaces : regex := Star true space.     (* \s* *)
Definition kw (s : String.string) : regex := lit (str s).
Arguments kw s%_string.
Definition optAsync : regex := Opt (Seq (kw "async") spaces).

(** The table [functionPatterns] of [extractCodeSnippets]: the patterns
    of Go, JavaScript, TypeScript (a colon where JavaScript has the
    equals sign), Python, Java and Rust, each anchored at the start of
    the line. *)
Definition goFunction : regex := seqs [Bol false; kw "func"; spaces; word].

Definition scriptFunction (sign : N) : regex :=
  seqs [Bol false;
        Group 1
          (alts [seqs [kw "function"; spaces; word];
                 seqs [kw "const"; spaces; word; optSpaces; lit1 sign;
                       optSpaces; optAsync; lit1 40];
                 seqs [kw "export"; spaces; optAsync; kw "function"; spaces;
                       word]])].

Definition pythonFunction : regex := seqs [Bol false; kw "def"; spaces; word].

Definition javaFunction : regex :=
  seqs [Bol false; optSpaces;
        Opt (alts [kw "public"; kw "private"; kw "protected"]); optSpaces;
        Opt (kw "static"); optSpaces; word; spaces; word; optSpaces; lit1 40].

Definition rustFunction : regex :=
  seqs [Bol false; Opt (Seq (kw "pub") spaces); kw "fn"; spaces; word].

(** What [functionPatterns[language]] finds: a pattern of the table, a
    property inherited from [Object.prototype] (which is not a pattern:
    calling its [test] throws), or nothing. *)
Inductive Lookup :=
| Own (pattern : regex)
| Inherited
| Absent.

Definition functionPatterns (language_ : jsstring) : Lookup :=
  if streq language_ (str "go") then Own goFunction
  else if streq language_ (str "javascript") then Own (scriptFunction 61)
  else if streq language_ (str "typescript") then Own (scriptFunction 58)
  else if streq language_ (str "python") then Own pythonFunction
  else if streq language_ (str "java") then Own javaFunction
  else if streq language_ (str "rust") then Own rustFunction
  else if arrayIncludes Validator.prototypeKeys language_ then Inherited
  else Absent.

(** The loop of [extractCodeSnippets] over the lines still to read, with
    its three variables; [matches] is [pattern.test]. *)
Fixpoint snippetsFrom (matches : jsstring -> bool) (lines : list jsstring)
         (currentFunction : list jsstring) (inFunction : bool)
         (braceCount : Z) : list jsstring :=
  match lines with
  | [] => []
  | line_ :: lines' =>
      if matches line_
      then
        (if inFunction && (0 <? len currentFunction)
         then [join nl currentFunction] else [])
        ++ snippetsFrom matches lines' [line_] true (countBraces line_)
      else if inFunction
      then
        let currentFunction := currentFunction ++ [line_] in
        let braceCount := braceCount + countBraces line_ in
        if braceCount =? 0
        then join nl currentFunction
             :: snippetsFrom matches lines' [] false braceCount
        else snippetsFrom matches lines' currentFunction true braceCount
      else snippetsFrom matches lines' currentFunction inFunction braceCount
  end.

(** [extractCodeSnippets(content, language)]; [None] when it throws. *)
Definition extractCodeSnippets (content language_ : jsstring)
  : option (list jsstring) :=
  let lines := splitChar 10%N content in
  match functionPatterns language_ with
  | Absent => Some []
  | Inherited => None
  | Own pattern => Some (snippetsFrom (test pattern) lines [] false 0)
  end.

(** A snippet with the file it comes from, and the entry the map of
    [identifyCommonPatterns] keeps for a key; [files] is a [Set], kept in
    insertion order. *)
Record Snippet := mkSnippet {
  file : jsstring;
  code : jsstring
}.

Record PatternData := mkData {
  count : Z;
  dataFiles : list jsstring;
  dataExamples : list jsstring
}.

(** A [Map] from strings, in insertion order. *)
Definition PatternMap := list (jsstring * PatternData).

Definition has (m : PatternMap) (key : jsstring) : bool :=
  existsb (fun entry => streq (fst entry) key) m.

(** The mutation of the entry of [key] in place. *)
Definition update (key : jsstring) (f : PatternData -> PatternData)
           (m : PatternMap) : PatternMap :=
  map (fun entry => if streq (fst entry) key
                    then (fst entry, f (snd entry)) else entry) m.

(** The body of the first loop of [identifyCommonPatterns]. *)
Definition recordSnippet (patternMap : PatternMap) (snippet : Snippet)
  : PatternMap :=
  let normalized := normalizeCode (code snippet) in
  if strlen normalized <? 20 then patternMap else
  let key := generatePatternKey normalized in
  let patternMap :=
    if negb (has patternMap key)
    then patternMap ++ [(key, mkData 0 [] [])] else patternMap in
  update key
    (fun pattern_ =>
       mkData (count pattern_ + 1)
              (Storage.setAdd (dataFiles pattern_) (file snippet))
              (if len (dataExamples pattern_) <? 3
               then dataExamples pattern_ ++ [substring (code snippet) 0 200]
               else dataExamples pattern_))
    patternMap.

Section Identify.

(** [generateId()] draws on the clock and on [Math.random]; [generateId n]
    is what call number [n] answers. *)
Variable generateId : nat -> jsstring.

(** '常见模式 ', '项目中出现的常见代码模式（出现 ' and ' 次）' *)
Definition patternName (n : Z) : jsstring :=
  [0x5e38; 0x89c1; 0x6a21; 0x5f0f; 0x20]%N ++ numberToString n.

Definition patternDescription (n : Z) : jsstring :=
  [0x9879; 0x76ee; 0x4e2d; 0x51fa; 0x73b0; 0x7684; 0x5e38; 0x89c1; 0x4ee3;
      0x7801; 0x6a21; 0x5f0f; 0xff08; 0x51fa; 0x73b0;
      0x20]%N ++ numberToString n ++ [0x20; 0x6b21; 0xff09]%N.

(** The second loop of [identifyCommonPatterns]; [patterns] is the array
    built so far. *)
Fixpoint commonFrom (language_ : jsstring) (entries : PatternMap)
         (patterns : list CodePattern) : list CodePattern :=
  match entries with
  | [] => patterns
  | (key, data) :: entries' =>
      if (3 <=? count data) && (2 <=? len (dataFiles data))
      then commonFrom language_ entries'
             (patterns
              ++ [mkCodePattern (generateId (length patterns))
                    (patternName (len patterns + 1))
                    (patternDescription (count data))
                    language_ key CODE_STYLE MEDIUM
                    (dataExamples data) (count data) (dataFiles data)])
      else commonFrom language_ entries' patterns
  end.

(** [identifyCommonPatterns(snippets, language)] *)
Definition identifyCommonPatterns (snippets : list Snippet)
           (language_ : jsstring) : list CodePattern :=
  let patternMap := fold_left recordSnippet snippets [] in
  commonFrom language_ patternMap [].

(** [patternsToMemories(patterns)] when [Date.now()] answers [now]; the
    content is '代码模式: <name> - <description>。模式: <the first 200
    code units of the pattern>'. *)
Definition Math_min (a b : Q) : Q := if Qle_bool a b then a else b.

Definition patternsToMemories (now : Z) (patterns : list CodePattern)
  : list Memory :=
  map (fun pattern_ =>
         mkMemory (id pattern_)
                  ([0x4ee3; 0x7801; 0x6a21; 0x5f0f; 0x3a;
                      0x20]%N ++ name pattern_ ++ str " - "
                   ++ description pattern_ ++ [0x3002; 0x6a21; 0x5f0f; 0x3a;
                       0x20]%N
                   ++ substring (pattern pattern_) 0 200)
                  (category pattern_) now
                  [str "code-pattern"; language pattern_; str "auto-detected"]
                  (importance pattern_) None
                  (Some (Math_min (inject_Z (frequency pattern_) / 10)%Q 1%Q)))
      patterns.

End Identify.

(** The snippets that take part in the mining, and those of a key. *)
Definition eligible (snippet : Snippet) : bool :=
  negb (strlen (normalizeCode (code snippet)) <? 20).

Definition keyOf (snippet : Snippet) : jsstring :=
  generatePatternKey (normalizeCode (code snippet)).

Definition ofKey (key : jsstring) (snippet : Snippet) : bool :=
  eligible snippet && streq (keyOf snippet) key.

(** What the map holds for a key once the snippets [ss] were read: the
    number of the snippets of the key, their files without repetition,
    and the heads of the first three of them. *)
Definition summarises (ss : list Snippet) (key : jsstring) (data : PatternData)
  : Prop :=
  count data = len (filter (ofKey key) ss)
  /\ NoDup (dataFiles data)
  /\ (forall f, In f (dataFiles data) <->
        exists s, In s (filter (ofKey key) ss) /\ file s = f)
  /\ dataExamples data
     = map (fun s => substring (code s) 0 200)
           (firstn 3 (filter (ofKey key) ss)).

Definition mapInvariant (ss : list Snippet) (m : PatternMap) : Prop :=
  NoDup (map fst m)
  /\ (forall key data, In (key, data) m ->
        summarises ss key data /\ 1 <= count data)
  /\ (forall key, filter (ofKey key) ss <> [] -> In key (map fst m)).

(** The test of the second loop of [identifyCommonPatterns]. *)
Definition common (entry : jsstring * PatternData) : bool :=
  (3 <=? count (snd entry)) && (2 <=? len (dataFiles (snd entry))).

End Mining.

(* ================================================================= *)
(** ** unnamed/part_003: the rules file of the editor *)

(** [injectViaCursorRules] keeps a block of records in the file
    [.cursorrules] of the workspace folder.  The model keeps of the folder
    what the method observes: the text of the file, if the file exists,
    and whether the file can be written. *)

Module CursorRules.
Import Injector.

Record Folder := mkFolder {
  cursorrules : option jsstring;
  canWrite : bool
}.

(** [formatMemoriesAsRules(memories)] *)
Definition formatMemoriesAsRules (memories : list Memory) : jsstring :=
  let content := nl ++ str "=== CodeMind ===" ++ nl in
  let content :=
    content ++ [0x8fd9; 0x4e9b; 0x662f; 0x9879; 0x76ee; 0x7684; 0x5173;
        0x952e; 0x8bb0; 0x5fc6; 0x548c; 0x89c4; 0x5219; 0xff0c; 0x41; 0x49;
        0x20; 0x5fc5; 0x987b; 0x9075; 0x5b88; 0x3002]%N ++ nl ++ nl in
  let critical := filter (isImportance CRITICAL) memories in
  let high := filter (isImportance HIGH) memories in
  let content :=
    if 0 <? len critical
    then content ++ [0x3010; 0x5f3a; 0x5236; 0x9075; 0x5b88; 0x20; 0x2d;
        0x20; 0x4e0d; 0x53ef; 0x8fdd; 0x53cd; 0x3011]%N ++ nl
         ++ entries dash (slice critical 0 20) ++ nl
    else content in
  let content :=
    if 0 <? len high
    then content ++ [0x3010; 0x5efa; 0x8bae; 0x9075; 0x5b88; 0x3011]%N ++ nl
         ++ entries dash (slice high 0 20) ++ nl
    else content in
  content ++ [0x3d; 0x3d; 0x3d; 0x20; 0x8bb0; 0x5fc6; 0x7ed3; 0x675f; 0x20;
      0x3d; 0x3d; 0x3d]%N ++ nl.

(** [s.indexOf(sub)]: the index of the first occurrence, or -1. *)
Fixpoint indexFrom (i : Z) (s sub : jsstring) : Z :=
  if startsWith s sub then i
  else match s with
       | [] => -1
       | _ :: s' => indexFrom (i + 1) s' sub
       end.

Definition indexOf (s sub : jsstring) : Z := indexFrom 0 s sub.

(** [updateCursorRules(existingContent, newRules)] *)
Definition startMarker : jsstring := str "=== CodeMind ===".
Definition endMarker : jsstring := [0x3d; 0x3d; 0x3d; 0x20; 0x8bb0; 0x5fc6;
    0x7ed3; 0x675f; 0x20; 0x3d; 0x3d; 0x3d]%N.

Definition updateCursorRules (existingContent newRules : jsstring)
  : jsstring :=
  let startIndex := indexOf existingContent startMarker in
  let endIndex := indexOf existingContent endMarker in
  if negb (startIndex =? -1) && negb (endIndex =? -1)
  then let before := substring existingContent 0 startIndex in
       let after := substring existingContent (endIndex + strlen endMarker)
                              (strlen existingContent) in
       before ++ newRules ++ after
  else existingContent ++ nl ++ nl ++ newRules.

(** [injectViaCursorRules(memories)]: the answer and the folder
    afterwards.  Without a workspace folder the method answers [false];
    a write that fails throws, which the method catches to answer
    [false]. *)
Definition injectViaCursorRules (memories : list Memory)
           (workspaceFolder : option Folder) : bool * option Folder :=
  match workspaceFolder with
  | None => (false, None)
  | Some folder =>
      let rulesContent := formatMemoriesAsRules memories in
      let existingContent :=
        match cursorrules folder with
        | Some text => text
        | None => []
        end in
      let written :=
        if includes existingContent (str "=== CodeMind ===")
        then updateCursorRules existingContent rulesContent
        else existingContent ++ nl ++ nl ++ rulesContent in
      if canWrite folder
      then (true, Some (mkFolder (Some written) (canWrite folder)))
      else (false, workspaceFolder)
  end.

(** The same block as a list of lines, each ended by a line feed, up to
    the closing marker; the proofs locate the markers through it. *)
Definition unblock (ls : list jsstring) : jsstring :=
  concat (map (fun l => l ++ nl) ls).

Definition sectionBlocks (title : jsstring) (ms : list Memory)
  : list jsstring :=
  if 0 <? len ms
  then title :: map (fun memory => dash ++ str " " ++ content memory)
                    (slice ms 0 20) ++ [[]]
  else [].

Definition blocks (memories : list Memory) : list jsstring :=
  [[]; str "=== CodeMind ===";
   [0x8fd9; 0x4e9b; 0x662f; 0x9879; 0x76ee; 0x7684; 0x5173; 0x952e; 0x8bb0;
       0x5fc6; 0x548c; 0x89c4; 0x5219; 0xff0c; 0x41; 0x49; 0x20; 0x5fc5;
       0x987b; 0x9075; 0x5b88; 0x3002]%N; []]
  ++ sectionBlocks [0x3010; 0x5f3a; 0x5236; 0x9075; 0x5b88; 0x20; 0x2d; 0x20;
      0x4e0d; 0x53ef; 0x8fdd; 0x53cd; 0x3011]%N
       (filter (isImportance CRITICAL) memories)
  ++ sectionBlocks [0x3010; 0x5efa; 0x8bae; 0x9075; 0x5b88;
      0x3011]%N (filter (isImportance HIGH) memories).

End CursorRules.

(* ================================================================= *)
(** ** bestPracticeLibrary.ts: applying the practices to a project *)

Module Practices.
Import Storage.

Module BestPractice.
Record t := mk {
  id : jsstring;
  language : jsstring;
  category : MemoryCategory;
  title : jsstring;
  description : jsstring;
  content : jsstring;
  importance : ImportanceLevel;
  tags : list jsstring;
  examples : option (list jsstring);
  references : option (list jsstring)
}.
End BestPractice.

(** [ProjectLanguage] of projectScanner.ts *)
Inductive ProjectLanguage :=
| GO | JAVA | JAVASCRIPT | TYPESCRIPT | PYTHON | RUST | C | CPP | CSHARP
| PHP | RUBY | KOTLIN | SWIFT | DART | UNKNOWN.

(** [mapProjectLanguageToBestPracticeLanguage(language)] *)
Definition mapProjectLanguageToBestPracticeLanguage
           (language : ProjectLanguage) : jsstring :=
  match language with
  | GO => str "go"
  | JAVA => str "java"
  | JAVASCRIPT => str "javascript"
  | TYPESCRIPT => str "typescript"
  | PYTHON => str "python"
  | RUST => str "rust"
  | CPP => str "cpp"
  | C => str "c"
  | CSHARP => str "csharp"
  | PHP => str "php"
  | RUBY => str "ruby"
  | KOTLIN => str "kotlin"
  | SWIFT => str "swift"
  | DART => str "dart"
  | UNKNOWN => str "unknown"
  end.

(** The answer of [applyPracticesToProject]. *)
Record Applied := mkApplied {
  success : bool;
  practicesApplied : Z;
  error : option jsstring
}.

Section Library.

(** The map [this.practices] the constructor fills, the identifier the
    call number [k] of [generateId] returns, the time the call number [k]
    of [Date.now] in the conversion returns, the lower case of a string of
    the host, and the message of the error a failed write throws. *)
Variable practices : list (jsstring * list BestPractice.t).
Variable generateId : nat -> jsstring.
Variable now : nat -> Z.
Variable toLowerCase : jsstring -> jsstring.
Variable writeError : jsstring.

(** [getPracticesByLanguage(language)] *)
Definition getPracticesByLanguage (language : jsstring)
  : list BestPractice.t :=
  let lang := toLowerCase language in
  match find (fun entry => streq (fst entry) lang) practices with
  | Some entry => snd entry
  | None => []
  end.

(** The records the conversion of [applyPracticesToProject] makes. *)
Definition practiceMemories (found : list BestPractice.t) : list Memory :=
  map (fun numbered =>
         let practice := snd numbered in
         mkMemory (generateId (fst numbered))
                  (BestPractice.title practice ++ str ": "
                   ++ BestPractice.content practice)
                  (BestPractice.category practice)
                  (now (fst numbered))
                  (BestPractice.tags practice
                   ++ [str "best-practice"; str "auto-applied"])
                  (BestPractice.importance practice)
                  None
                  (Some (95 # 100)%Q))
      (combine (seq 0 (length found)) found).

(** The merge loop: a record is pushed unless a record of the same
    content and category is there already. *)
Definition exists_ (allMemories : list Memory) (memory : Memory) : bool :=
  existsb (fun m => streq (content m) (content memory)
                    && category_eqb (category m) (category memory))
          allMemories.

Definition mergeInto (allMemories converted : list Memory)
  : list Memory :=
  fold_left (fun allMemories memory =>
               if negb (exists_ allMemories memory)
               then allMemories ++ [memory]
               else allMemories)
            converted allMemories.

(** [applyPracticesToProject(language)] *)
Definition applyPracticesToProject (language : ProjectLanguage) (d : Disk)
  : Applied * Disk :=
  let lang := mapProjectLanguageToBestPracticeLanguage language in
  let found := getPracticesByLanguage lang in
  if len found =? 0
  then (mkApplied false 0
          (Some ([0x6ca1; 0x6709; 0x627e; 0x5230; 0x20]%N ++ lang ++ [0x20;
              0x8bed; 0x8a00; 0x7684; 0x6700; 0x4f73; 0x5b9e; 0x8df5]%N)), d)
  else
    let existingMemories := loadMemories d in
    let converted := practiceMemories found in
    let allMemories := mergeInto existingMemories converted in
    match saveMemories allMemories d with
    | Some d' => (mkApplied true (len converted) None, d')
    | None => (mkApplied false 0 (Some writeError), d)
    end.

End Library.

End Practices.

(* ================================================================= *)
(** ** memoryManager.ts: importing records *)

Module Importing.
Import Storage.

(** The item picked in the list of [importMemories]: skip the records
    whose id the store has, overwrite them, or add every record under a
    new id. *)
Inductive Action := Skip | Overwrite | AddAll.

(** How [importMemories] ends: one of the two messages about a file
    without records, the list closed without a choice, the summary with
    its three counters, or the message of a write that threw. *)
Inductive Outcome :=
| NoData
| NoValidData
| Cancelled
| Summary (addedCount skippedCount overwrittenCount : Z)
| Failed.

(** The test [m.id && m.content && m.category && m.importance] on a
    record: the empty string is the one string that is not truthy, and
    the names of the categories and of the levels are not empty. *)
Definition valid (m : Memory) : bool :=
  negb (strlen (id m) =? 0) && negb (strlen (content m) =? 0).

(** [{ ...memory, id: newId }] *)
Definition withId (memory : Memory) (newId : jsstring) : Memory :=
  mkMemory newId (content memory) (category memory) (timestamp memory)
           (tags memory) (importance memory) (relatedFiles memory)
           (confidence memory).

(** A loop of awaited calls to the store: the disk afterwards, and
    [false] when a call threw, which ends the loop. *)
Fixpoint perform (steps : list (Disk -> option Disk)) (d : Disk)
  : Disk * bool :=
  match steps with
  | [] => (d, true)
  | step :: steps' =>
      match step d with
      | Some d' => perform steps' d'
      | None => (d, false)
      end
  end.

(** [importMemories()] once the file is read: [memoriesToImport] is the
    array of the file and [action] the item picked, if any;
    [generateId k] is the id the call number [k] of [generateId]
    returns. *)
Definition importMemories (generateId : nat -> jsstring)
           (memoriesToImport : list Memory) (action : option Action)
           (d : Disk) : Outcome * Disk :=
  if len memoriesToImport =? 0 then (NoData, d) else
  let validMemories := filter valid memoriesToImport in
  if len validMemories =? 0 then (NoValidData, d) else
  match action with
  | None => (Cancelled, d)
  | Some picked =>
      let existingMemories := loadMemories d in
      let existingIds := map id existingMemories in
      match picked with
      | Skip =>
          let newMemories :=
            filter (fun m => negb (arrayIncludes existingIds (id m)))
                   validMemories in
          match perform (map addMemory newMemories) d with
          | (d', true) =>
              (Summary (len newMemories)
                       (len validMemories - len newMemories) 0, d')
          | (d', false) => (Failed, d')
          end
      | Overwrite =>
          let steps :=
            map (fun memory =>
                   if arrayIncludes existingIds (id memory)
                   then updateMemory (id memory) (asUpdate memory)
                   else addMemory memory)
                validMemories in
          match perform steps d with
          | (d', true) =>
              (Summary
                 (len (filter (fun m =>
                                 negb (arrayIncludes existingIds (id m)))
                              validMemories))
                 0
                 (len (filter (fun m => arrayIncludes existingIds (id m))
                              validMemories)), d')
          | (d', false) => (Failed, d')
          end
      | AddAll =>
          let steps :=
            map (fun numbered =>
                   addMemory (withId (snd numbered)
                                     (generateId (fst numbered))))
                (combine (seq 0 (length validMemories)) validMemories) in
          match perform steps d with
          | (d', true) => (Summary (len validMemories) 0 0, d')
          | (d', false) => (Failed, d')
          end
      end
  end.

End Importing.

(* ================================================================= *)
(** ** memoryCompletionProvider.ts: the records offered as completions *)

Module Completion.
Import Injector Regex.

(** What [analyzeCodeContext] returns. *)
Module Context.
Record t := mk {
  language : jsstring;
  functions : list jsstring;
  classes : list jsstring;
  imports : list jsstring;
  keywords : list jsstring;
  currentLine : jsstring;
  beforeCursor : jsstring
}.
End Context.

Section Select.

Variable toLowerCase : jsstring -> jsstring.

(** The score the loop of [selectRelevantMemories] gives a record. *)
Definition relevanceScore (memory : Memory) (context : Context.t)
           (beforeCursor : jsstring) : Q :=
  let score : Q := 0%Q in
  let score :=
    if isImportance CRITICAL memory then (score + 100)%Q else score in
  let matchingTags :=
    filter (fun tag =>
      let tagLower := toLowerCase tag in
      existsb (fun f => includes (toLowerCase f) tagLower)
              (Context.functions context)
      || existsb (fun c => includes (toLowerCase c) tagLower)
                 (Context.classes context)
      || existsb (fun k => includes (toLowerCase k) tagLower)
                 (Context.keywords context)
      || includes (toLowerCase beforeCursor) tagLower)
      (tags memory) in
  let score := (score + inject_Z (len matchingTags) * 10)%Q in
  let contentLower := toLowerCase (content memory) in
  let beforeCursorLower := toLowerCase beforeCursor in
  let score :=
    if 0 <? strlen beforeCursorLower
    then let words := split (Plus true space) beforeCursorLower in
         fold_left (fun score word =>
                      if (2 <? strlen word) && includes contentLower word
                      then (score + 5)%Q else score)
                   words score
    else score in
  let score :=
    if 0 <? len (Context.keywords context)
    then let keywordLower :=
           toLowerCase (join (str " ") (Context.keywords context)) in
         let score :=
           if category_eqb (category memory) API_SPEC
              && includes keywordLower (str "api")
           then (score + 20)%Q else score in
         let score :=
           if category_eqb (category memory) ARCHITECTURE
              && includes keywordLower (str "architecture")
           then (score + 20)%Q else score in
         if category_eqb (category memory) CODE_STYLE
            && includes keywordLower (str "style")
         then (score + 20)%Q else score
    else score in
  if isImportance HIGH memory then (score * (3 # 2))%Q else score.

(** [selectRelevantMemories(context, beforeCursor)] on the records
    [memories] the provider holds. *)
Definition selectRelevantMemories (memories : list Memory)
           (context : Context.t) (beforeCursor : jsstring) : list Memory :=
  let relevantMemories :=
    filter aboveThreshold
           (map (fun memory =>
                   mkRelevance memory
                               (relevanceScore memory context beforeCursor))
                memories) in
  let relevantMemories := jsSort byScoreDesc relevantMemories in
  map memory (slice relevantMemories 0 10).

End Select.

End Completion.

(* ================================================================= *)
(** ** memoryManager.ts: merging a new scan into the store *)

Module Refresh.
Import Storage.

(** The value of a member of [MemoryCategory]. *)
Definition categoryName (c : MemoryCategory) : jsstring :=
  match c with
  | ARCHITECTURE => str "architecture"
  | CODE_STYLE => str "code_style"
  | BUSINESS_RULE => str "business_rule"
  | API_SPEC => str "api_spec"
  | DATABASE => str "database"
  | CONFIG => str "config"
  | CONSTRAINT => str "constraint"
  | DOCUMENTATION => str "documentation"
  | OTHER => str "other"
  end.

(** The key of both loops of [mergeMemories]:
    [`${memory.category}_${memory.content.substring(0, 50)}`]. *)
Definition mergeKey (memory : Memory) : jsstring :=
  categoryName (category memory) ++ str "_"
  ++ substring (content memory) 0 50.

(** [existingMap.get(key)] once the first loop has run over [existing]:
    the map holds, for a key, the last record of the key, and the record
    is the object at the same index of [merged].  The answer is that
    index, counted from [i] for the head of the list. *)
Fixpoint lastIndex (key : jsstring) (existing : list Memory) (i : nat)
  : option nat :=
  match existing with
  | [] => None
  | memory :: rest =>
      match lastIndex key rest (S i) with
      | Some j => Some j
      | None => if streq (mergeKey memory) key then Some i else None
      end
  end.

(** [x || 0] on a confidence, and [Math.max]. *)
Definition orZero (c : option Q) : Q :=
  match c with Some q => q | None => 0%Q end.

Definition Math_max (a b : Q) : Q := if Qle_bool a b then b else a.

(** The loop over [newMemory.relatedFiles]. *)
Definition mergeFiles (old new : option (list jsstring))
  : option (list jsstring) :=
  match new with
  | None => old
  | Some files =>
      Some (fold_left (fun relatedFiles file =>
                         if arrayIncludes relatedFiles file
                         then relatedFiles
                         else relatedFiles ++ [file])
                      files
                      (match old with Some l => l | None => [] end))
  end.

(** What the second loop does to the record a new record matches, when
    [Date.now()] answers [time]. *)
Definition refreshed (time : Z) (newMemory existingMemory : Memory)
  : Memory :=
  mkMemory (id existingMemory) (content existingMemory)
           (category existingMemory) time (tags existingMemory)
           (importance existingMemory)
           (mergeFiles (relatedFiles existingMemory)
                       (relatedFiles newMemory))
           (Some (Math_max (orZero (confidence existingMemory))
                           (orZero (confidence newMemory)))).

Section Merge.

(** The time the call number [k] of [Date.now] answers. *)
Variable now : nat -> Z.

(** The second loop: [merged] so far and the number of calls of
    [Date.now] so far. *)
Fixpoint mergeLoop (existing newMemories merged : list Memory)
         (calls : nat) : list Memory * nat :=
  match newMemories with
  | [] => (merged, calls)
  | newMemory :: rest =>
      match lastIndex (mergeKey newMemory) existing 0 with
      | Some index =>
          mergeLoop existing rest
                    (updateAt index (refreshed (now calls) newMemory) merged)
                    (S calls)
      | None => mergeLoop existing rest (merged ++ [newMemory]) calls
      end
  end.

(** [mergeMemories(existing, newMemories)]; the filter is the one of
    [cleanExpiredMemories] with the age of 90 days. *)
Definition mergeMemories (existing newMemories : list Memory)
  : list Memory :=
  let looped := mergeLoop existing newMemories existing 0 in
  let merged := fst looped in
  let now_ := now (snd looped) in
  let maxAge := 90 * 24 * 60 * 60 * 1000 in
  filter (survives maxAge now_) merged.

End Merge.

End Refresh.

(* ================================================================= *)
(** ** Scenarios: closed inputs for the examples below *)

Module Scenarios.
Import Injector.

(** The record number [i]: its id is [m<i>], its content [rule <i>]. *)
Definition record (lvl : ImportanceLevel) (recordTags : list jsstring) (i : nat)
  : Memory :=
  mkMemory (str "m" ++ numberToString (Z.of_nat i))
           (str "rule " ++ numberToString (Z.of_nat i))
           OTHER 0 recordTags lvl None None.

(** The feature set of a file [/src/auth/handler.ts] that declares a
    function [login] and mentions the keyword [auth]. *)
Definition handlerPath : jsstring := str "/src/auth/handler.ts".

Definition handlerFeatures : CodeFeatures :=
  Features.mkCodeFeatures handlerPath (str "handler.ts") (str "/src/auth")
    (str "typescript") [str "login"] [] [] [str "auth"] [].

Definition extractHandler (_ : jsstring) : CodeFeatures := handlerFeatures.

Definition selectFor (memories : list Memory) (path : option jsstring)
  : list Memory :=
  getRelevantMemoriesForFile asciiToLower extractHandler memories path.

(** 25 high records, the first five tagged [auth]. *)
Definition corpus25 : list Memory :=
  map (record HIGH [str "auth"]) (seq 0 5) ++ map (record HIGH []) (seq 5 20).


(** 22 critical records and three tagged high records. *)
Definition corpus22 : list Memory :=
  map (record CRITICAL []) (seq 0 22)
  ++ map (record HIGH [str "auth"]) (seq 22 3).

(** Two critical records; only the second one is tagged [auth]. *)
Definition plainCritical : Memory := record CRITICAL [] 1.
Definition taggedCritical : Memory := record CRITICAL [str "auth"] 2.

(** Fifteen critical records for the compressor.  The content of record
    [i] is 210 copies of the ideograph U+4E00 + i, so that it costs
    ceil(210 * 1.5) = 315 tokens and contents differ between records. *)
Definition ideographs (i : nat) : jsstring := repeat (0x4e00 + N.of_nat i)%N 210.

Definition longCritical (i : nat) : Memory :=
  mkMemory (str "c" ++ numberToString (Z.of_nat i)) (ideographs i)
           CONSTRAINT 0 [] CRITICAL None None.

Definition fifteen : list Memory := map longCritical (seq 0 15).

(** Three short critical records (5 tokens each). *)
Definition shortCritical (i : nat) : Memory :=
  mkMemory (str "s" ++ numberToString (Z.of_nat i))
           (str "never call eval in module " ++ numberToString (Z.of_nat i))
           CONSTRAINT 0 [] CRITICAL None None.

Definition three : list Memory := map shortCritical (seq 0 3).

(** A snippet and two common patterns of its language: one with the very
    shape of the snippet, one that shares no code unit with it. *)
Definition snippet : jsstring := str "func add(a, b) { return a + b }".

Definition samePattern : PatternRecognizer.CodePattern :=
  PatternRecognizer.mkCodePattern
    (str "p1") (str "same") [] (str "go") snippet
    CODE_STYLE MEDIUM [] 5 [str "a.go"; str "b.go"].

Definition farPattern : PatternRecognizer.CodePattern :=
  PatternRecognizer.mkCodePattern
    (str "p2") (str "far") [] (str "go")
    (repeat 122%N 40)
    CODE_STYLE MEDIUM [] 7 [str "a.go"; str "b.go"].

Definition patternTable
  : list (jsstring * list PatternRecognizer.CodePattern) :=
  [(str "go", [samePattern; farPattern])].

(** A constraint record that forbids [eval], of a given importance, and
    a code text that calls [eval].  The content is '禁止: eval'. *)
Definition forbidsEval (lvl : ImportanceLevel) : Memory :=
  mkMemory (str "r1") ([0x7981; 0x6b62]%N ++ str ": eval")
           CONSTRAINT 0 [] lvl None None.

Definition callsEval : jsstring := str "x = eval(input)".

(** The clock: a time after 2023, in milliseconds since 1970. *)
Definition aTime : Z := 1700000000000.

Definition posixBasename (path : jsstring) : jsstring :=
  last (splitChar 47%N path) [].

Definition noRelative (_ path : jsstring) : jsstring := path.

Definition validate (v : Validator.CodeValidator) (stored : list Memory)
           (now : Z) (code : jsstring) :=
  Validator.validateCode asciiToLower posixBasename noRelative
    v stored now None code (str "/src/a.js") (str "javascript").


End Scenarios.

(* ================================================================= *)
(** ** Further closed inputs *)

Module Cases.
Import Injector Scenarios.

(** A Go document into which the three short critical records are
    injected, and the text the injection inserts. *)
Definition goDocument : jsstring := str "package main".

Definition goBanner : jsstring :=
  commentLines (str "// ") []
               (formatMemoriesAsContext three defaultMaxTokens)
  ++ nl ++ nl.

(** A disk that holds four records written long ago (at time 0): a
    critical one, a high one, a medium one and a low one; and the same
    records written at the time of the clock. *)
Definition aged (lvl : ImportanceLevel) (i : nat) (time : Z) : Memory :=
  mkMemory (str "m" ++ numberToString (Z.of_nat i))
           (str "rule " ++ numberToString (Z.of_nat i))
           OTHER time [str "go"; str "api"] lvl None (Some (9 # 10)).

Definition oldCorpus : list Memory :=
  [aged CRITICAL 0 0; aged HIGH 1 0; aged MEDIUM 2 0; aged LOW 3 0].

Definition oldDisk : Storage.Disk := Storage.mkDisk (Storage.Holds oldCorpus) true.

Definition recentDisk : Storage.Disk :=
  Storage.mkDisk
    (Storage.Holds [aged CRITICAL 0 aTime; aged MEDIUM 2 aTime;
                    aged LOW 3 aTime])
    true.

(** The old disk after a cleaning; after the promotion of the low
    record to high; and after a cleaning that follows the promotion. *)
Definition cleanedDisk : Storage.Disk :=
  Storage.mkDisk (Storage.Holds [aged CRITICAL 0 0; aged HIGH 1 0]) true.

Definition promotedDisk : Storage.Disk :=
  Storage.mkDisk
    (Storage.Holds [aged CRITICAL 0 0; aged HIGH 1 0; aged MEDIUM 2 0;
                    aged HIGH 3 0])
    true.

Definition promotedCleanDisk : Storage.Disk :=
  Storage.mkDisk
    (Storage.Holds [aged CRITICAL 0 0; aged HIGH 1 0; aged HIGH 3 0])
    true.

(** The recent disk after the automatic adjustment. *)
Definition adjustedDisk : Storage.Disk :=
  Storage.mkDisk
    (Storage.Holds [aged CRITICAL 0 aTime; aged HIGH 2 aTime;
                    aged MEDIUM 3 aTime])
    true.

(** A checker that loaded an empty corpus at the time of the clock. *)
Definition emptyCache : Validator.Architecture.Checker :=
  Validator.Architecture.mkChecker [] aTime None.

(** A Go source of two functions, the second one left open. *)
Definition goSource : jsstring :=
  str "package main" ++ nl
  ++ str "func add(a, b int) int {" ++ nl
  ++ str "  return a + b" ++ nl
  ++ str "}" ++ nl
  ++ str "func open() {" ++ nl
  ++ str "  for {".

Definition addFunction : jsstring :=
  str "func add(a, b int) int {" ++ nl
  ++ str "  return a + b" ++ nl
  ++ str "}".

(** Four snippets of one shape from two files, and one of another
    shape. *)
Definition handlerSnippet (file_ : String.string) (n : nat) : Mining.Snippet :=
  Mining.mkSnippet (str file_)
    (str "func handle(w http.ResponseWriter) { w.WriteHeader("
     ++ numberToString (Z.of_nat n) ++ str ") }").
Arguments handlerSnippet file_%_string n.

Definition loneSnippet : Mining.Snippet :=
  Mining.mkSnippet (str "c.go")
    (str "func main() { fmt.Println(1); os.Exit(0) }").

Definition minedSnippets : list Mining.Snippet :=
  [handlerSnippet "a.go" 200%nat; handlerSnippet "a.go" 404%nat; loneSnippet;
   handlerSnippet "b.go" 500%nat; handlerSnippet "b.go" 503%nat].

Definition countingId (n : nat) : jsstring :=
  str "pattern_" ++ numberToString (Z.of_nat n).

End Cases.

(* ================================================================= *)
(** ** Closed inputs for the library, the rules file and the import *)

Module MoreCases.
Import Injector Scenarios Cases.

(** A library with two practices for Go, the second one under the
    content and category of the first. *)
Definition checkErrors : Practices.BestPractice.t :=
  Practices.BestPractice.mk
    (str "go-errors") (str "go") CODE_STYLE (str "Errors")
    (str "How to treat errors") (str "check every returned error")
    CRITICAL [str "go"; str "error"] None None.

Definition checkErrorsAgain : Practices.BestPractice.t :=
  Practices.BestPractice.mk
    (str "go-errors-2") (str "go") CODE_STYLE (str "Errors")
    (str "The same rule once more") (str "check every returned error")
    HIGH [str "go"] None None.

Definition library : list (jsstring * list Practices.BestPractice.t) :=
  [(str "go", [checkErrors; checkErrorsAgain])].

Definition practiceId (k : nat) : jsstring :=
  str "practice_" ++ numberToString (Z.of_nat k).

Definition laterId (k : nat) : jsstring :=
  str "practice_later_" ++ numberToString (Z.of_nat k).

Definition clock (k : nat) : Z := aTime + Z.of_nat k.

Definition emptyDisk : Storage.Disk := Storage.mkDisk Storage.Missing true.

(** The one record the two practices leave in an empty store. *)
Definition appliedDisk : Storage.Disk :=
  Storage.mkDisk
    (Storage.Holds
       [mkMemory (str "practice_0")
                 (str "Errors: check every returned error") CODE_STYLE
                 aTime
                 [str "go"; str "error"; str "best-practice";
                  str "auto-applied"]
                 CRITICAL None (Some (95 # 100)%Q)])
    true.

(** A rules file of one line. *)
Definition ownRules : jsstring := str "# my rules".

(** A file to import: a record under an id the old disk has, and twice
    a record under a new id. *)
Definition imported : list Memory :=
  [aged MEDIUM 0 aTime; aged LOW 7 aTime; aged LOW 7 aTime].

Definition importedDisk : Storage.Disk :=
  Storage.mkDisk
    (Storage.Holds (oldCorpus ++ [aged LOW 7 aTime; aged LOW 7 aTime]))
    true.

(** Ten high records with seven tags that occur before the cursor, and
    one critical record without tags. *)
Definition tagged (i : nat) : Memory :=
  mkMemory (str "t" ++ numberToString (Z.of_nat i)) (str "use the handler")
           OTHER 0 (repeat (str "handler") 7) HIGH None None.

Definition crowd : list Memory :=
  shortCritical 0 :: map tagged (seq 0 10).

Definition atCursor : Completion.Context.t :=
  Completion.Context.mk (str "go") [] [] [] [] (str "handler := ")
                        (str "handler := ").

End MoreCases.

(* ================================================================= *)
(** * Properties *)

(** ** Facts about the runtime model *)

Section SortFacts.
Context {A : Type} (cmp : A -> A -> Q).

Lemma insertSorted_perm (x : A) (l : list A) :
  Permutation (insertSorted cmp x l) (x :: l).
Proof.
  induction l as [|y l IH]; simpl; [reflexivity|].
  destruct (Qle_bool (cmp x y) 0); [reflexivity|].
  rewrite IH. apply perm_swap.
Qed.

Lemma jsSort_perm (l : list A) : Permutation (jsSort cmp l) l.
Proof.
  induction l as [|x l IH]; simpl; [reflexivity|].
  rewrite insertSorted_perm. now constructor.
Qed.

Lemma jsSort_In (l : list A) (x : A) : In x (jsSort cmp l) <-> In x l.
Proof.
  split; apply Permutation_in; [|symmetry]; apply jsSort_perm.
Qed.


(** Stability: a class of elements that never compare greater than one
    another comes out of the sort in the order it went in. *)
Lemma filter_insertSorted (p : A -> bool) (x : A) (l : list A) :
  (forall y, In y l -> p x = true -> p y = true ->
             Qle_bool (cmp x y) 0 = true) ->
  filter p (insertSorted cmp x l) = filter p (x :: l).
Proof.
  induction l as [|y l IH]; intros Hc; [reflexivity|].
  simpl. destruct (Qle_bool (cmp x y) 0) eqn:E; [reflexivity|].
  simpl. rewrite IH by (intros; apply Hc; simpl; auto).
  simpl. destruct (p x) eqn:Px, (p y) eqn:Py; try reflexivity.
  rewrite Hc in E; simpl; auto; discriminate.
Qed.

Lemma jsSort_stable (p : A -> bool) (l : list A) :
  (forall x y, p x = true -> p y = true -> Qle_bool (cmp x y) 0 = true) ->
  filter p (jsSort cmp l) = filter p l.
Proof.
  intros Hc. induction l as [|x l IH]; [reflexivity|].
  simpl jsSort. rewrite filter_insertSorted by (intros; apply Hc; assumption).
  simpl. now rewrite IH.
Qed.

End SortFacts.

Section SortOrder.
Context {A : Type} (cmp : A -> A -> Q).

Hypothesis cmp_total :
  forall a b, Qle_bool (cmp a b) 0 = false -> notAfter cmp b a.
Hypothesis cmp_trans :
  forall a b c, notAfter cmp a b -> notAfter cmp b c -> notAfter cmp a c.

Lemma insertSorted_sorted (x : A) (l : list A) :
  StronglySorted (notAfter cmp) l -> StronglySorted (notAfter cmp) (insertSorted cmp x l).
Proof.
  induction 1 as [|y l Hs IH Hy]; simpl.
  - repeat constructor.
  - destruct (Qle_bool (cmp x y) 0) eqn:E.
    + constructor; [now constructor|].
      constructor; [exact E|].
      rewrite Forall_forall in *. intros z Hz. eapply cmp_trans; eauto.
    + constructor; [exact IH|].
      rewrite Forall_forall in *. intros z Hz.
      apply (Permutation_in _ (insertSorted_perm cmp x l)) in Hz.
      destruct Hz as [<-|Hz]; auto.
Qed.

Lemma jsSort_sorted (l : list A) : StronglySorted (notAfter cmp) (jsSort cmp l).
Proof.
  induction l; simpl; [constructor|]. now apply insertSorted_sorted.
Qed.

End SortOrder.

Lemma StronglySorted_filter {A} (R : A -> A -> Prop) (p : A -> bool) l :
  StronglySorted R l -> StronglySorted R (filter p l).
Proof.
  induction 1 as [|x l Hs IH Hx]; simpl; [constructor|].
  destruct (p x); [|exact IH].
  constructor; [exact IH|].
  rewrite Forall_forall in *. intros y Hy. apply filter_In in Hy. apply Hx, Hy.
Qed.

Lemma StronglySorted_firstn {A} (R : A -> A -> Prop) n l :
  StronglySorted R l -> StronglySorted R (firstn n l).
Proof.
  intros H. revert n. induction H as [|x l Hs IH Hx]; intros [|n]; simpl;
    try constructor; auto.
  rewrite Forall_forall in *. intros y Hy. apply Hx.
  eapply (In_nth _ _ y) in Hy. destruct Hy as (i & Hi & <-).
  rewrite length_firstn in Hi. rewrite nth_firstn.
  destruct (Nat.ltb_spec i n); [apply nth_In|]; lia.
Qed.

Lemma StronglySorted_map {A B} (R : B -> B -> Prop) (f : A -> B) l :
  StronglySorted (fun a b => R (f a) (f b)) l -> StronglySorted R (map f l).
Proof.
  induction 1 as [|x l Hs IH Hx]; simpl; constructor; auto.
  rewrite Forall_forall in *. intros y Hy. apply in_map_iff in Hy.
  destruct Hy as (z & <- & Hz). auto.
Qed.

(** [slice l 0 e] is an initial segment of [l], whatever the sign of [e]. *)
Lemma slice_0_firstn {A} (l : list A) (e : Z) :
  exists n, slice l 0 e = firstn n l
            /\ (0 <= e -> n = Nat.min (Z.to_nat e) (length l)).
Proof.
  unfold slice. change (0 <? 0) with false. cbv iota.
  rewrite (Z.min_l 0) by lia. simpl skipn.
  eexists; split; [reflexivity|].
  intros He. destruct (Z.ltb_spec e 0); lia.
Qed.

Lemma filter_all {A} (p : A -> bool) (l : list A) :
  (forall x, In x l -> p x = true) -> filter p l = l.
Proof.
  intros H. apply forallb_filter_id, forallb_forall, H.
Qed.

Lemma filter_none {A} (p : A -> bool) (l : list A) :
  (forall x, In x l -> p x = false) -> filter p l = [].
Proof.
  induction l as [|x l IH]; intros H; [reflexivity|].
  simpl. rewrite (H x) by (simpl; auto). apply IH. intros; apply H; simpl; auto.
Qed.

Lemma In_firstn {A} (n : nat) (l : list A) (x : A) :
  In x (firstn n l) -> In x l.
Proof.
  intros H. rewrite <- (firstn_skipn n l). apply in_or_app. now left.
Qed.


Lemma filter_firstn_prefix {A} (p : A -> bool) (n : nat) (l : list A) :
  filter p l = filter p (firstn n l) ++ filter p (skipn n l).
Proof. now rewrite <- filter_app, firstn_skipn. Qed.

Lemma filter_filter_and {A} (p q : A -> bool) (l : list A) :
  filter p (filter q l) = filter (fun x => q x && p x) l.
Proof.
  induction l as [|x l IH]; [reflexivity|]. simpl.
  destruct (q x); simpl; [destruct (p x)|]; now rewrite IH.
Qed.

Lemma StronglySorted_impl_in {A} (R R' : A -> A -> Prop) (l : list A) :
  (forall a b, In a l -> In b l -> R a b -> R' a b) ->
  StronglySorted R l -> StronglySorted R' l.
Proof.
  intros Himp H. induction H as [|x l Hs IH Hx]; constructor.
  - apply IH. intros; apply Himp; simpl; auto.
  - rewrite Forall_forall in *. intros y Hy. apply Himp; simpl; auto.
Qed.

(* ================================================================= *)
(** ** The selector ([getRelevantMemoriesForFile]) *)

Module SelectorFacts.
Import Injector.

Lemma byScoreDesc_notAfter (a b : MemoryRelevance) :
  notAfter byScoreDesc a b <-> (score b <= score a)%Q.
Proof.
  unfold notAfter, byScoreDesc. rewrite Qle_bool_iff.
  split; intros H; lra.
Qed.

Lemma byScoreDesc_total (a b : MemoryRelevance) :
  Qle_bool (byScoreDesc a b) 0 = false -> notAfter byScoreDesc b a.
Proof.
  intros H. apply byScoreDesc_notAfter.
  destruct (Qlt_le_dec (score a) (score b)) as [Hlt|Hle].
  - now apply Qlt_le_weak.
  - apply (proj2 (byScoreDesc_notAfter a b)) in Hle.
    unfold notAfter in Hle. congruence.
Qed.

Lemma byScoreDesc_trans (a b c : MemoryRelevance) :
  notAfter byScoreDesc a b -> notAfter byScoreDesc b c ->
  notAfter byScoreDesc a c.
Proof.
  rewrite !byScoreDesc_notAfter. intros H1 H2. lra.
Qed.

Section WithRuntime.
Variable toLowerCase : jsstring -> jsstring.
Variable extractCodeFeatures : jsstring -> CodeFeatures.

Abbreviation relevance := (calculateRelevance toLowerCase).
Abbreviation select :=
  (getRelevantMemoriesForFile toLowerCase extractCodeFeatures).
Abbreviation scored := (Injector.scored toLowerCase).
Abbreviation ranked := (Injector.ranked toLowerCase).

Lemma select_unfold (memories : list Memory) (c : N) (p : jsstring) :
  let f := extractCodeFeatures (c :: p) in
  select memories (Some (c :: p)) =
  map memory (filter isCriticalMr (ranked f memories))
  ++ map memory
       (slice (filter isOtherMr (ranked f memories)) 0
              (20 - len (map memory (filter isCriticalMr (ranked f memories))))).
Proof. reflexivity. Qed.

Lemma ranked_scored f memories mr :
  In mr (ranked f memories) -> mr = scored f (memory mr) /\ In (memory mr) memories.
Proof.
  unfold ranked. rewrite jsSort_In, in_map_iff.
  intros (m & <- & Hm). now split.
Qed.

Lemma ranked_score f memories mr :
  In mr (ranked f memories) -> score mr = relevance (memory mr) f.
Proof.
  unfold Injector.ranked. rewrite jsSort_In, in_map_iff.
  intros (m & <- & Hm). reflexivity.
Qed.

Abbreviation criticalHalf := (Injector.criticalHalf toLowerCase).
Abbreviation otherHalf := (Injector.otherHalf toLowerCase).

Lemma criticalHalf_critical f memories m :
  In m (criticalHalf f memories) -> isImportance CRITICAL m = true.
Proof.
  unfold criticalHalf. rewrite in_map_iff. intros (mr & <- & H).
  apply filter_In in H. apply H.
Qed.

Lemma otherHalf_other f memories m :
  In m (otherHalf f memories) ->
  isImportance CRITICAL m = false /\ (10 < relevance m f)%Q /\ In m memories.
Proof.
  unfold otherHalf. rewrite in_map_iff. intros (mr & <- & H).
  destruct (slice_0_firstn (filter isOtherMr (ranked f memories))
              (20 - len (criticalHalf f memories))) as (n & Hs & _).
  rewrite Hs in H.
  apply In_firstn, filter_In in H. destruct H as [Hin Hp].
  pose proof (ranked_score _ _ _ Hin) as Hsc.
  apply ranked_scored in Hin. destruct Hin as [_ Hin].
  unfold isOtherMr, aboveThreshold in Hp.
  apply andb_true_iff in Hp. destruct Hp as [Hc Ht].
  apply negb_true_iff in Hc, Ht. repeat split; auto.
  rewrite Hsc in Ht.
  apply Qnot_le_lt. intros Hle. apply Qle_bool_iff in Hle. congruence.
Qed.

Lemma select_halves memories c p :
  select memories (Some (c :: p)) =
  criticalHalf (extractCodeFeatures (c :: p)) memories
  ++ otherHalf (extractCodeFeatures (c :: p)) memories.
Proof. reflexivity. Qed.

Lemma select_filter_critical memories c p :
  filter (isImportance CRITICAL) (select memories (Some (c :: p))) =
  criticalHalf (extractCodeFeatures (c :: p)) memories.
Proof.
  rewrite select_halves, filter_app.
  rewrite (filter_all _ (criticalHalf _ _)) by apply criticalHalf_critical.
  rewrite (filter_none _ (otherHalf _ _)).
  - apply app_nil_r.
  - intros m Hm. now apply otherHalf_other in Hm.
Qed.

Lemma select_filter_other memories c p :
  filter (fun m => negb (isImportance CRITICAL m))
         (select memories (Some (c :: p))) =
  otherHalf (extractCodeFeatures (c :: p)) memories.
Proof.
  rewrite select_halves, filter_app.
  rewrite (filter_none _ (criticalHalf _ _)).
  - apply filter_all. intros m Hm. apply otherHalf_other in Hm.
    now destruct Hm as [-> _].
  - intros m Hm. apply criticalHalf_critical in Hm. now rewrite Hm.
Qed.


Lemma ranked_sorted f memories :
  StronglySorted (notAfter byScoreDesc) (ranked f memories).
Proof.
  apply jsSort_sorted; [apply byScoreDesc_total | apply byScoreDesc_trans].
Qed.

(** Records of one score class leave the sort in corpus order. *)
Lemma ranked_stable f memories (p : MemoryRelevance -> bool) (s : Q) :
  filter (fun mr => p mr && Qeq_bool (score mr) s) (ranked f memories) =
  filter (fun mr => p mr && Qeq_bool (score mr) s) (map (scored f) memories).
Proof.
  apply jsSort_stable. intros x y Hx Hy.
  apply andb_true_iff in Hx, Hy. destruct Hx as [_ Hx], Hy as [_ Hy].
  apply Qeq_bool_iff in Hx, Hy. apply Qle_bool_iff. unfold byScoreDesc. lra.
Qed.

Lemma class_of_ranked f memories (p : Memory -> bool) (s : Q) :
  filter (sameScore toLowerCase f s)
         (map memory (filter (fun mr => p (memory mr)) (ranked f memories))) =
  filter (fun m => p m && sameScore toLowerCase f s m) memories.
Proof.
  rewrite filter_map_swap, filter_filter_and.
  rewrite (filter_ext_in _
             (fun mr => (fun mr => p (memory mr)) mr && Qeq_bool (score mr) s)).
  - rewrite (ranked_stable f memories (fun mr => p (memory mr)) s).
    rewrite filter_map_swap, map_map. simpl. apply map_id.
  - intros mr Hmr. apply ranked_score in Hmr.
    unfold sameScore. now rewrite Hmr.
Qed.

Lemma criticalHalf_sorted f memories :
  StronglySorted (scoreDesc toLowerCase f) (criticalHalf f memories).
Proof.
  unfold Injector.criticalHalf. apply StronglySorted_map.
  apply StronglySorted_filter.
  apply (StronglySorted_impl_in (notAfter byScoreDesc)); [|apply ranked_sorted].
  intros a b Ha Hb Hab. apply byScoreDesc_notAfter in Hab.
  apply ranked_score in Ha, Hb.
  unfold scoreDesc. rewrite Ha, Hb in Hab. exact Hab.
Qed.

Lemma otherHalf_sorted f memories :
  StronglySorted (scoreDesc toLowerCase f) (otherHalf f memories).
Proof.
  unfold Injector.otherHalf.
  destruct (slice_0_firstn (filter isOtherMr (ranked f memories))
              (20 - len (criticalHalf f memories))) as (n & -> & _).
  apply StronglySorted_map, StronglySorted_firstn, StronglySorted_filter.
  apply (StronglySorted_impl_in (notAfter byScoreDesc)); [|apply ranked_sorted].
  intros a b Ha Hb Hab. apply byScoreDesc_notAfter in Hab.
  apply ranked_score in Ha, Hb.
  unfold scoreDesc. rewrite Ha, Hb in Hab. exact Hab.
Qed.


(** The candidates of one score class are emitted in corpus order; the cap
    can only cut the class at its end. *)
Lemma otherHalf_class f memories (s : Q) :
  exists cut,
    filter (fun m => isCandidate toLowerCase f m && sameScore toLowerCase f s m)
           memories =
    filter (sameScore toLowerCase f s) (otherHalf f memories) ++ cut.
Proof.
  unfold Injector.otherHalf.
  destruct (slice_0_firstn (filter isOtherMr (ranked f memories))
              (20 - len (criticalHalf f memories))) as (n & -> & _).
  exists (filter (sameScore toLowerCase f s)
            (map memory (skipn n (filter isOtherMr (ranked f memories))))).
  rewrite <- (class_of_ranked f memories (isCandidate toLowerCase f) s).
  rewrite (filter_ext_in (fun mr => isCandidate toLowerCase f (memory mr))
                         isOtherMr).
  - now rewrite <- filter_app, <- map_app, firstn_skipn.
  - intros mr Hmr. apply ranked_score in Hmr.
    unfold isCandidate, isOtherMr, aboveThreshold. now rewrite Hmr.
Qed.

(** C2 (critical-inclusion invariant).  For every corpus and every file
    path argument, absent and empty ones included, every record of the
    corpus whose importance is critical is in the list the selector
    returns, whatever its relevance score. *)
Theorem selector_keeps_every_critical
        (memories : list Memory) (filePath : option jsstring) (m : Memory) :
  In m memories ->
  importance m = CRITICAL ->
  In m (select memories filePath).
Proof.
  intros Hin Hc.
  assert (Hcrit : isImportance CRITICAL m = true)
    by (unfold isImportance; now rewrite Hc).
  destruct filePath as [[|c p]|].
  - simpl. apply filter_In. split; [exact Hin | now rewrite Hcrit].
  - rewrite select_halves. apply in_or_app. left.
    unfold Injector.criticalHalf. apply in_map_iff.
    exists (scored (extractCodeFeatures (c :: p)) m). split; [reflexivity|].
    apply filter_In. split; [|exact Hcrit].
    unfold Injector.ranked. apply jsSort_In, in_map, Hin.
  - simpl. apply filter_In. split; [exact Hin | now rewrite Hcrit].
Qed.


(** C4, amended (order).  Without a file path the selection is the
    critical and high records in corpus order.  With a file path the
    critical records come first and each of the two groups, critical and
    non-critical, is in descending order of score; inside a group, records
    of equal score keep their corpus order: the critical records that
    score [s] are emitted exactly as they stand in the corpus, and the
    emitted non-critical records that score [s] are an initial segment of
    the corpus candidates that score [s]. *)
Theorem selector_order (memories : list Memory) :
  select memories None =
    filter (fun m => isImportance CRITICAL m || isImportance HIGH m) memories
  /\ forall (c : N) (p : jsstring),
      let f := extractCodeFeatures (c :: p) in
      let out := select memories (Some (c :: p)) in
      let criticals := filter (isImportance CRITICAL) out in
      let others := filter (fun m => negb (isImportance CRITICAL m)) out in
      out = criticals ++ others
      /\ StronglySorted (scoreDesc toLowerCase f) criticals
      /\ StronglySorted (scoreDesc toLowerCase f) others
      /\ (forall s : Q,
            filter (sameScore toLowerCase f s) criticals =
            filter (fun m => isImportance CRITICAL m
                             && sameScore toLowerCase f s m) memories)
      /\ (forall s : Q, exists cut,
            filter (fun m => isCandidate toLowerCase f m
                             && sameScore toLowerCase f s m) memories =
            filter (sameScore toLowerCase f s) others ++ cut).
Proof.
  split; [reflexivity|].
  intros c p f out criticals others. subst criticals others out.
  rewrite select_filter_other, select_filter_critical, select_halves.
  fold f. repeat split.
  - apply criticalHalf_sorted.
  - apply otherHalf_sorted.
  - intros s. apply (class_of_ranked f memories (isImportance CRITICAL) s).
  - intros s. apply otherHalf_class.
Qed.

End WithRuntime.
End SelectorFacts.

(* ----------------------------------------------------------------- *)
(** *** The selector on closed inputs *)

Module SelectorExamples.
Import Injector Scenarios.

Lemma selector_keeps_every_critical_witness :
  In taggedCritical [plainCritical; taggedCritical]
  /\ importance taggedCritical = CRITICAL
  /\ In taggedCritical
        (selectFor [plainCritical; taggedCritical] (Some handlerPath)).
Proof.
  assert (H1 : In taggedCritical [plainCritical; taggedCritical])
    by (simpl; auto).
  assert (H2 : importance taggedCritical = CRITICAL) by reflexivity.
  repeat split; [exact H1|].
  exact (SelectorFacts.selector_keeps_every_critical asciiToLower
           extractHandler _ (Some handlerPath) _ H1 H2).
Defined.



(** The scenario of 25 high records of which five match by tag: exactly
    those five are selected (each scores 18); the records without any
    signal score 0, stay below the threshold and are not emitted. *)
Example select_corpus25 :
  map id (selectFor corpus25 (Some handlerPath))
  = [str "m0"; str "m1"; str "m2"; str "m3"; str "m4"]
  /\ Forall (fun m => calculateRelevance asciiToLower m handlerFeatures == 18)
            (firstn 5 corpus25)
  /\ Forall (fun m => calculateRelevance asciiToLower m handlerFeatures == 0)
            (skipn 5 corpus25).
Proof.
  split; [vm_compute; reflexivity|].
  split; repeat constructor.
Qed.

(** Beyond 20 critical records the count left for the others is negative
    and [slice] reads it from the end of the candidates: with 22 critical
    records and three candidates, one candidate is still appended. *)
Example select_corpus22 :
  len (selectFor corpus22 (Some handlerPath)) = 23.
Proof. vm_compute. reflexivity. Qed.

(** C4 as stated fails: the tagged critical record scores 112, the plain
    one 100, and the selector emits them in the reverse of their corpus
    order. *)
Lemma critical_order_reversed :
  selectFor [plainCritical; taggedCritical] (Some handlerPath)
  = [taggedCritical; plainCritical].
Proof. vm_compute. reflexivity. Qed.

End SelectorExamples.

(* ================================================================= *)
(** ** The compressor ([formatMemoriesAsContext], [compressMemories]) *)

Module CompressorFacts.
Import Injector.

Lemma slice_0_length {A} (l : list A) (e : Z) :
  0 <= e -> len (slice l 0 e) = Z.min e (len l).
Proof.
  intros He. destruct (slice_0_firstn l e) as (n & -> & Hn).
  specialize (Hn He). unfold len. rewrite length_firstn. lia.
Qed.

Lemma slice_0_In {A} (l : list A) (e : Z) (x : A) :
  In x (slice l 0 e) -> In x l.
Proof.
  destruct (slice_0_firstn l e) as (n & -> & _). apply In_firstn.
Qed.

Lemma len_pos_cons {A} (l : list A) :
  0 < len l -> exists x l', l = x :: l'.
Proof.
  destruct l as [|x l']; unfold len; simpl; [lia | eauto].
Qed.

Lemma len_zero_nil {A} (l : list A) : len l <= 0 -> l = [].
Proof. destruct l; unfold len; simpl; [reflexivity | lia]. Qed.

Lemma bundleSection_shown (title bullet : jsstring) (shown : list Memory) :
  0 < len shown ->
  bundleSection title bullet shown =
  title ++ nl ++ rule "-" ++ entries bullet shown ++ nl.
Proof.
  intros H. apply len_pos_cons in H. destruct H as (x & l' & ->). reflexivity.
Qed.

(** The text of the bundle is its header, the three sections and its
    footer; each section prints the records [shownCritical], [shownHigh]
    and [shownMedium] select. *)
Lemma format_sections (memories : list Memory) (maxTokens : Z) :
  memories <> [] ->
  let compressed := compressMemories memories maxTokens in
  formatMemoriesAsContext memories maxTokens =
  bundleHeader
  ++ bundleSection criticalTitle tick (shownCritical compressed)
  ++ bundleSection highTitle dot (shownHigh compressed)
  ++ bundleSection mediumTitle dash (shownMedium compressed)
  ++ bundleFooter.
Proof.
  intros Hne compressed. unfold formatMemoriesAsContext.
  destruct memories as [|m0 ms]; [congruence|].
  change (len (m0 :: ms) =? 0) with (Z.pos (Pos.of_succ_nat (length ms)) =? 0).
  cbv beta iota delta [Z.eqb]. fold compressed.
  unfold shownCritical, shownHigh, shownMedium.
  set (critical := filter (isImportance CRITICAL) compressed).
  set (high := filter (isImportance HIGH) compressed).
  set (medium := filter (isImportance MEDIUM) compressed).
  assert (Hc : bundleSection criticalTitle tick (slice critical 0 10) =
               if 0 <? len critical
               then criticalTitle ++ nl ++ rule "-"
                    ++ entries tick (slice critical 0 10) ++ nl
               else []).
  { destruct (Z.ltb_spec 0 (len critical)) as [H|H].
    - apply bundleSection_shown. rewrite slice_0_length; lia.
    - now rewrite (len_zero_nil _ H). }
  rewrite Hc. clear Hc.
  destruct (0 <? len critical);
    destruct ((0 <? len high) && (len critical <? 10)) eqn:Eh;
    destruct ((0 <? len medium) && (len critical + len high <? 10)) eqn:Em;
    cbv zeta;
    repeat match goal with
    | H : (_ && _) = true |- _ =>
        apply andb_true_iff in H; destruct H as [?H ?H]
    | H : (0 <? _) = true |- _ => apply Z.ltb_lt in H
    | H : (_ <? 10) = true |- _ => apply Z.ltb_lt in H
    end;
    cbn [bundleSection];
    repeat rewrite bundleSection_shown by (rewrite slice_0_length; lia);
    rewrite <- ?app_assoc, ?app_nil_r; reflexivity.
Qed.

Lemma isImportance_iff (lvl : ImportanceLevel) (m : Memory) :
  isImportance lvl m = true <-> importance m = lvl.
Proof.
  unfold isImportance. destruct (importance m), lvl; simpl; split;
    congruence.
Qed.

Lemma shown_sizes (compressed : list Memory) :
  len (shownCritical compressed) <= 10
  /\ len (shownCritical compressed) + len (shownHigh compressed)
     + len (shownMedium compressed) <= 10.
Proof.
  unfold shownCritical, shownHigh, shownMedium.
  set (critical := filter (isImportance CRITICAL) compressed).
  set (high := filter (isImportance HIGH) compressed).
  set (medium := filter (isImportance MEDIUM) compressed).
  assert (0 <= len critical /\ 0 <= len high /\ 0 <= len medium)
    by (unfold len; lia).
  rewrite slice_0_length by lia.
  destruct ((0 <? len high) && (len critical <? 10)) eqn:Eh;
    destruct ((0 <? len medium) && (len critical + len high <? 10)) eqn:Em;
    repeat match goal with
    | H : (_ && _) = true |- _ =>
        apply andb_true_iff in H; destruct H as [?H ?H]
    | H : (_ && _) = false |- _ =>
        apply andb_false_iff in H; destruct H as [?H | ?H]
    | H : (_ <? _) = true |- _ => apply Z.ltb_lt in H
    | H : (_ <? _) = false |- _ => apply Z.ltb_ge in H
    end;
    rewrite ?slice_0_length by lia; change (len (@nil Memory)) with 0; lia.
Qed.

Lemma shown_importance (compressed : list Memory) :
  Forall (fun m => importance m = CRITICAL /\ In m compressed)
         (shownCritical compressed)
  /\ Forall (fun m => importance m = HIGH /\ In m compressed)
            (shownHigh compressed)
  /\ Forall (fun m => importance m = MEDIUM /\ In m compressed)
            (shownMedium compressed).
Proof.
  unfold shownCritical, shownHigh, shownMedium.
  repeat split; rewrite Forall_forall; intros m Hm;
    repeat match goal with
    | H : In _ (if ?c then _ else _) |- _ => destruct c; [|destruct H]
    end;
    apply slice_0_In, filter_In in Hm; destruct Hm as [Hin Hp];
    apply isImportance_iff in Hp; auto.
Qed.

(** C9.  For every selection and every budget the bundle is its header,
    its [CRITICAL], [HIGH] and [MEDIUM] sections and its footer; the
    sections print at most 10 records in total, of which at most 10
    critical ones, the high and medium ones only within what is left of
    the 10; every printed record has the importance of its section, so a
    record of low importance is never printed. *)
Theorem bundle_at_most_ten (memories : list Memory) (maxTokens : Z) :
  let compressed := compressMemories memories maxTokens in
  let cs := shownCritical compressed in
  let hs := shownHigh compressed in
  let ms := shownMedium compressed in
  formatMemoriesAsContext memories maxTokens =
    match memories with
    | [] => []
    | _ :: _ =>
        bundleHeader
        ++ bundleSection criticalTitle tick cs
        ++ bundleSection highTitle dot hs
        ++ bundleSection mediumTitle dash ms
        ++ bundleFooter
    end
  /\ len cs <= 10
  /\ len hs <= 10 - len cs
  /\ len ms <= 10 - len cs - len hs
  /\ Forall (fun m => importance m = CRITICAL) cs
  /\ Forall (fun m => importance m = HIGH) hs
  /\ Forall (fun m => importance m = MEDIUM) ms
  /\ Forall (fun m => importance m <> LOW) (cs ++ hs ++ ms).
Proof.
  intros compressed cs hs ms.
  destruct (shown_sizes compressed) as [Hc Hall].
  destruct (shown_importance compressed) as (Ic & Ih & Im).
  fold cs in Hc, Hall, Ic. fold hs in Hall, Ih. fold ms in Hall, Im.
  assert (0 <= len hs /\ 0 <= len ms) by (unfold len; lia).
  split.
  { destruct memories as [|m0 l]; [reflexivity|].
    now apply format_sections. }
  repeat split; try lia.
  - eapply Forall_impl; [|exact Ic]. now intros m [Hm _].
  - eapply Forall_impl; [|exact Ih]. now intros m [Hm _].
  - eapply Forall_impl; [|exact Im]. now intros m [Hm _].
  - apply Forall_app. split; [|apply Forall_app; split].
    + eapply Forall_impl; [|exact Ic]. intros m [Hm _]. congruence.
    + eapply Forall_impl; [|exact Ih]. intros m [Hm _]. congruence.
    + eapply Forall_impl; [|exact Im]. intros m [Hm _]. congruence.
Qed.

(** C10.  An empty selection is formatted as the empty string, which
    contains neither the header marker nor the footer marker nor the
    marker the injection looks for; and the injection does not edit the
    document when the selection is empty. *)
Theorem format_empty_selection
        (maxTokens : Z) (existingText languageId : jsstring) :
  formatMemoriesAsContext [] maxTokens = []
  /\ includes (formatMemoriesAsContext [] maxTokens) headerMarker = false
  /\ includes (formatMemoriesAsContext [] maxTokens) footerMarker = false
  /\ includes (formatMemoriesAsContext [] maxTokens)
              (str "CURSOR MEMORY CONTEXT") = false
  /\ injectMemoriesToEditor [] existingText languageId = None.
Proof. repeat split. Qed.

(* ----------------------------------------------------------------- *)
(** *** The token estimator *)

Lemma splitWsFrom_ne (b : bool) (s : jsstring) : splitWsFrom b s <> [].
Proof.
  revert b. induction s as [|c s IH]; intros b; simpl; [discriminate|].
  destruct (isWhiteSpace c).
  - destruct b; [apply IH | discriminate].
  - destruct (splitWsFrom false s); discriminate.
Qed.










Lemma filter_count (text : jsstring) :
  Z.of_nat (length (filter isCJK text)) = cjkCount text.
Proof.
  unfold cjkCount. f_equal. induction text as [|c text IH]; [reflexivity|].
  simpl. destruct (isCJK c); simpl; [|exact IH].
  destruct (bool_dec true true); [now rewrite IH | congruence].
Qed.

Lemma ceil_halves (c w : Z) :
  Math_ceil (inject_Z c * (3 # 2) + inject_Z w)%Q = (3 * c + 1) / 2 + w.
Proof.
  unfold Math_ceil, Qceiling, Qfloor.
  cbn [inject_Z Qmult Qplus Qopp Qnum Qden Pos.mul].
  change (Z.pos (1 * 2 * 1)) with 2. change (Z.pos (1 * 2)) with 2.
  Z.div_mod_to_equations. lia.
Qed.

Lemma estimateTokens_closed (text : jsstring) :
  estimateTokens text
  = Qceiling (inject_Z (cjkCount text) * (3 # 2)
              + inject_Z (wordCount (splitWs text)))%Q
  /\ estimateTokens text
     = (3 * cjkCount text + 1) / 2 + wordCount (splitWs text).
Proof.
  assert (E : estimateTokens text =
              Qceiling (inject_Z (cjkCount text) * (3 # 2)
                        + inject_Z (wordCount (splitWs text)))%Q).
  { unfold estimateTokens, Math_ceil, wordCount. now rewrite filter_count. }
  split; [exact E|]. rewrite E. apply ceil_halves.
Qed.


(* ----------------------------------------------------------------- *)
(** *** The compression loop *)

Lemma estimateTokens_nonneg (text : jsstring) : 0 <= estimateTokens text.
Proof.
  destruct (estimateTokens_closed text) as [_ ->].
  unfold cjkCount, wordCount. Z.div_mod_to_equations. lia.
Qed.

Lemma totalCost_nonneg (ms : list Memory) : 0 <= totalCost ms.
Proof.
  induction ms as [|m ms IH]; simpl; [lia|].
  pose proof (estimateTokens_nonneg (compressContent (content m) false)).
  unfold cost. lia.
Qed.

(** While the records fit, the loop keeps them lightly compressed. *)
Lemma compressLoop_fits (maxTokens : Z) (pre rest acc : list Memory) (t : Z) :
  t + totalCost pre <= maxTokens ->
  compressLoop maxTokens (pre ++ rest) acc t =
  compressLoop maxTokens rest (acc ++ map light pre) (t + totalCost pre).
Proof.
  revert acc t. induction pre as [|m pre IH]; intros acc t Hfit; simpl.
  - now rewrite app_nil_r, Z.add_0_r.
  - simpl in Hfit. pose proof (totalCost_nonneg pre).
    fold (cost m).
    destruct (Z.leb_spec (t + cost m) maxTokens); [|lia].
    rewrite IH by lia. rewrite <- app_assoc. simpl.
    now rewrite Z.add_assoc.
Qed.

(** The first record that does not fit ends the loop; a critical one is
    appended in elided form when fewer than 20 records were kept. *)
Lemma compressLoop_overflow (maxTokens : Z) (m : Memory)
      (post acc : list Memory) (t : Z) :
  maxTokens < t + cost m ->
  compressLoop maxTokens (m :: post) acc t =
  if isImportance CRITICAL m && (len acc <? 20)
  then acc ++ [elided m] else acc.
Proof.
  intros H. simpl. fold (cost m).
  destruct (Z.leb_spec (t + cost m) maxTokens); [lia|]. reflexivity.
Qed.

Lemma compressMemories_overflow (memories : list Memory) (maxTokens : Z)
      (pre : list Memory) (m : Memory) (post : list Memory) :
  jsSort byImportance memories = pre ++ m :: post ->
  totalCost pre <= maxTokens ->
  maxTokens < totalCost pre + cost m ->
  compressMemories memories maxTokens =
  if isImportance CRITICAL m && (len pre <? 20)
  then map light pre ++ [elided m] else map light pre.
Proof.
  intros Hs Hfit Hover. unfold compressMemories. rewrite Hs.
  rewrite compressLoop_fits by lia. rewrite compressLoop_overflow by lia.
  simpl. unfold len. now rewrite length_map.
Qed.

Lemma byImportance_notAfter (a b : Memory) :
  notAfter byImportance a b <->
  importanceOrder (importance a) <= importanceOrder (importance b).
Proof.
  unfold notAfter, byImportance. rewrite Qle_bool_iff.
  unfold Qle. simpl. lia.
Qed.

Lemma byImportance_sorted (memories : list Memory) :
  StronglySorted (notAfter byImportance) (jsSort byImportance memories).
Proof.
  apply jsSort_sorted.
  - intros a b H. apply byImportance_notAfter.
    assert (Hn : ~ notAfter byImportance a b)
      by (unfold notAfter; congruence).
    rewrite byImportance_notAfter in Hn. lia.
  - intros a b c. rewrite !byImportance_notAfter. lia.
Qed.

(** In the sorted selection only critical records precede a critical one. *)
Lemma before_critical (memories pre : list Memory) (m : Memory)
      (post : list Memory) :
  jsSort byImportance memories = pre ++ m :: post ->
  importance m = CRITICAL ->
  Forall (fun x => isImportance CRITICAL x = true) pre.
Proof.
  intros Hs Hm. pose proof (byImportance_sorted memories) as Hsorted.
  rewrite Hs in Hsorted. clear Hs.
  induction pre as [|x pre IH]; [constructor|].
  simpl in Hsorted. inversion Hsorted as [|? ? Hrest Hx]; subst.
  constructor; [|now apply IH].
  rewrite Forall_forall in Hx.
  specialize (Hx m (in_elt m pre post)).
  apply byImportance_notAfter in Hx. rewrite Hm in Hx.
  apply isImportance_iff. destruct (importance x); simpl in Hx; auto; lia.
Qed.

Lemma startsWith_app (p s : jsstring) : startsWith (p ++ s) p = true.
Proof.
  induction p as [|c p IH]; [destruct s; reflexivity|].
  simpl. now rewrite N.eqb_refl.
Qed.

Lemma includes_unfold (s sub : jsstring) :
  includes s sub =
  startsWith s sub || match s with [] => false | _ :: s' => includes s' sub end.
Proof. destruct s; reflexivity. Qed.

Lemma includes_app (a x b : jsstring) : includes (a ++ x ++ b) x = true.
Proof.
  induction a as [|c a IH].
  - simpl app. now rewrite includes_unfold, startsWith_app.
  - simpl app. rewrite includes_unfold, IH. apply orb_true_r.
Qed.

Lemma startsWith_app_l (s x b : jsstring) :
  startsWith s x = true -> startsWith (s ++ b) x = true.
Proof.
  revert x. induction s as [|c s IH]; intros [|d x]; simpl; auto.
  - destruct b; reflexivity.
  - discriminate.
  - intros H. apply andb_true_iff in H. destruct H as [-> H]. simpl. auto.
Qed.

Lemma includes_app_l (s x b : jsstring) :
  includes s x = true -> includes (s ++ b) x = true.
Proof.
  induction s as [|c s IH].
  - rewrite includes_unfold, orb_false_r. intros H.
    pose proof (startsWith_app_l [] x b H) as H'. simpl app in *.
    rewrite includes_unfold. now rewrite H'.
  - simpl app. rewrite !(includes_unfold (c :: _)).
    intros H. apply orb_true_iff in H. destruct H as [H|H].
    + change (c :: s ++ b) with ((c :: s) ++ b).
      now rewrite (startsWith_app_l _ _ b H).
    + rewrite (IH H). apply orb_true_r.
Qed.

Lemma includes_app_r (a s x : jsstring) :
  includes s x = true -> includes (a ++ s) x = true.
Proof.
  intros H. induction a as [|c a IH]; [exact H|].
  simpl app. rewrite includes_unfold, IH. apply orb_true_r.
Qed.

Lemma includes_refl (x : jsstring) : includes x x = true.
Proof.
  rewrite includes_unfold. rewrite <- (app_nil_r x) at 1.
  now rewrite startsWith_app.
Qed.

Lemma entries_app (bullet : jsstring) (l1 l2 : list Memory) :
  entries bullet (l1 ++ l2) = entries bullet l1 ++ entries bullet l2.
Proof. unfold entries. now rewrite map_app, concat_app. Qed.

Lemma compressContent_elided_length (text : jsstring) :
  strlen (compressContent text true) <= 203.
Proof.
  unfold compressContent.
  set (c := fold_left _ _ _).
  destruct (Z.ltb_spec 200 (strlen c)) as [H|H]; simpl andb; cbv iota.
  - unfold strlen in *. rewrite !length_app. unfold substring, strlen.
    rewrite !length_firstn, !length_skipn. simpl length. lia.
  - destruct (Z.ltb_spec 300 (strlen c)); lia.
Qed.

(** C1, amended.  For every budget: the records of the sorted selection
    that fit the budget are kept, lightly compressed; when the first
    record [m] that does not fit is critical and fewer than 20 records
    were kept before it, [m] is appended in aggressively compressed form
    (at most 203 code units: head, "...", tail) without any budget check;
    and when fewer than 10 records precede it, the bundle prints it in
    that form in its [CRITICAL] section. *)
Theorem compressor_keeps_first_overflow
        (memories : list Memory) (maxTokens : Z)
        (pre : list Memory) (m : Memory) (post : list Memory) :
  jsSort byImportance memories = pre ++ m :: post ->
  totalCost pre <= maxTokens ->
  maxTokens < totalCost pre + cost m ->
  importance m = CRITICAL ->
  (length pre < 20)%nat ->
  (exists rest,
      compressMemories memories maxTokens = map light pre ++ elided m :: rest)
  /\ strlen (content (elided m)) <= 203
  /\ ((length pre < 10)%nat ->
      includes (formatMemoriesAsContext memories maxTokens)
               (entries tick [elided m]) = true).
Proof.
  intros Hs Hfit Hover Hm Hlen.
  assert (Hcrit : isImportance CRITICAL m = true) by now apply isImportance_iff.
  assert (Hc : compressMemories memories maxTokens = map light pre ++ [elided m]).
  { rewrite (compressMemories_overflow _ _ _ _ _ Hs Hfit Hover), Hcrit.
    destruct (Z.ltb_spec (len pre) 20); [reflexivity | unfold len in *; lia]. }
  split; [exists []; exact Hc|].
  split; [apply compressContent_elided_length|].
  intros Hten.
  assert (Hne : memories <> []).
  { intros ->. simpl in Hs. destruct pre; discriminate. }
  rewrite (format_sections _ _ Hne). cbv zeta. rewrite Hc.
  assert (Hshown : shownCritical (map light pre ++ [elided m]) =
                   map light pre ++ [elided m]).
  { unfold shownCritical. rewrite filter_all.
    - destruct (slice_0_firstn (map light pre ++ [elided m]) 10)
        as (n & -> & Hn).
      specialize (Hn ltac:(lia)). apply firstn_all2.
      rewrite Hn, length_app, length_map.
      change (Z.to_nat 10) with 10%nat. simpl length. lia.
    - intros x Hx. apply in_app_or in Hx. destruct Hx as [Hx|[<-|[]]].
      + apply in_map_iff in Hx. destruct Hx as (y & <- & Hy).
        pose proof (before_critical _ _ _ _ Hs Hm) as Hpre.
        rewrite Forall_forall in Hpre. exact (Hpre y Hy).
      + exact Hcrit. }
  rewrite Hshown, bundleSection_shown
    by (unfold len; rewrite length_app; simpl; lia).
  rewrite entries_app.
  apply includes_app_r, includes_app_l.
  do 3 apply includes_app_r. apply includes_app_l, includes_app_r.
  apply includes_refl.
Qed.

End CompressorFacts.

(* ----------------------------------------------------------------- *)
(** *** The compressor on closed inputs *)

Module CompressorExamples.
Import Injector Scenarios.

Lemma compressor_keeps_first_overflow_witness :
  jsSort byImportance fifteen
  = [longCritical 0] ++ longCritical 1 :: map longCritical (seq 2 13)
  /\ totalCost [longCritical 0] <= 500
  /\ 500 < totalCost [longCritical 0] + cost (longCritical 1)
  /\ importance (longCritical 1) = CRITICAL
  /\ (exists rest,
        compressMemories fifteen 500
        = map light [longCritical 0] ++ elided (longCritical 1) :: rest)
  /\ strlen (content (elided (longCritical 1))) <= 203
  /\ includes (formatMemoriesAsContext fifteen 500)
              (entries tick [elided (longCritical 1)]) = true.
Proof.
  assert (H1 : jsSort byImportance fifteen
               = [longCritical 0] ++ longCritical 1
                                  :: map longCritical (seq 2 13))
    by (vm_compute; reflexivity).
  assert (H2 : totalCost [longCritical 0] <= 500)
    by (vm_compute; discriminate).
  assert (H3 : 500 < totalCost [longCritical 0] + cost (longCritical 1))
    by (vm_compute; reflexivity).
  assert (H4 : importance (longCritical 1) = CRITICAL) by reflexivity.
  assert (H5 : (length [longCritical 0] < 20)%nat) by (simpl; lia).
  assert (H6 : (length [longCritical 0] < 10)%nat) by (simpl; lia).
  destruct (CompressorFacts.compressor_keeps_first_overflow
              fifteen 500 [longCritical 0] (longCritical 1)
              (map longCritical (seq 2 13)) H1 H2 H3 H4 H5) as (Ha & Hb & Hc).
  exact (conj H1 (conj H2 (conj H3 (conj H4 (conj Ha (conj Hb (Hc H6))))))).
Defined.

(** C1 as stated fails: of fifteen critical records of 315 tokens each,
    compressed under a budget of 500, only the first two are kept (the
    second one elided); the third record is not in the output, in no
    form: not even the first 100 code units of its content, which both
    forms of compression would keep, occur in the bundle. *)
Lemma compressor_drops_critical :
  length fifteen = 15%nat
  /\ Forall (fun m => importance m = CRITICAL /\ cost m = 315) fifteen
  /\ map id (compressMemories fifteen 500) = [str "c0"; str "c1"]
  /\ In (longCritical 2) fifteen
  /\ includes (formatMemoriesAsContext fifteen 500)
              (substring (content (longCritical 2)) 0 100) = false.
Proof.
  split; [reflexivity|].
  split; [repeat constructor|].
  split; [vm_compute; reflexivity|].
  split; [simpl; auto|].
  vm_compute; reflexivity.
Qed.

(** Three short critical records under the default budget are printed
    in full between the header and the footer. *)
Example compress_three :
  compressMemories three defaultMaxTokens = three
  /\ formatMemoriesAsContext three defaultMaxTokens
     = bundleHeader
       ++ criticalTitle ++ nl ++ rule "-" ++ entries tick three ++ nl
       ++ bundleFooter.
Proof. split; vm_compute; reflexivity. Qed.

End CompressorExamples.

(* ================================================================= *)
(** ** The pattern-similarity checker *)

Module SimilarityFacts.
Import PatternRecognizer.

(** *** Edit scripts *)

Lemma lev_nil_r (s : jsstring) : lev s [] = length s.
Proof. destruct s; reflexivity. Qed.

Lemma lev_cons (a b : N) (s t : jsstring) :
  lev (a :: s) (b :: t) =
  if (a =? b)%N then lev s t
  else S (Nat.min (Nat.min (lev s t) (lev (a :: s) t)) (lev s (b :: t))).
Proof. reflexivity. Qed.

Lemma script_inserts (t : jsstring) : EditScript [] t (length t).
Proof. induction t; simpl; constructor; auto. Qed.

Lemma script_deletes (s : jsstring) : EditScript s [] (length s).
Proof. induction s; simpl; constructor; auto. Qed.

(** [lev] is the cost of some script. *)
Lemma lev_script (s t : jsstring) : EditScript s t (lev s t).
Proof.
  revert t. induction s as [|a s IHs]; intros t.
  - apply script_inserts.
  - induction t as [|b t IHt].
    + rewrite lev_nil_r. apply script_deletes.
    + rewrite lev_cons. destruct (N.eqb_spec a b) as [->|Hab].
      * apply edit_keep, IHs.
      * destruct (Nat.min_spec (lev s t) (lev (a :: s) t)) as [[_ E1]|[_ E1]];
          rewrite E1;
          match goal with
          | |- context [Nat.min ?x ?y] =>
              destruct (Nat.min_spec x y) as [[_ E2]|[_ E2]]; rewrite E2
          end;
          first [ apply edit_subst, IHs
                | apply edit_insert, IHt
                | apply edit_delete, IHs ].
Qed.

(** Adding a code unit to either string moves [lev] by at most one. *)
Lemma lev_step (n : nat) (s t : jsstring) :
  (length s + length t <= n)%nat ->
  (forall a, lev (a :: s) t <= S (lev s t))%nat
  /\ (forall b, lev s (b :: t) <= S (lev s t))%nat
  /\ (forall b, lev s t <= S (lev s (b :: t)))%nat
  /\ (forall a, lev s t <= S (lev (a :: s) t))%nat.
Proof.
  revert s t. induction n as [n IH] using lt_wf_ind. intros s t Hn.
  assert (Hs : forall s' t', (length s' + length t' < length s + length t)%nat ->
             (forall a, lev (a :: s') t' <= S (lev s' t'))%nat
             /\ (forall b, lev s' (b :: t') <= S (lev s' t'))%nat
             /\ (forall b, lev s' t' <= S (lev s' (b :: t')))%nat
             /\ (forall a, lev s' t' <= S (lev (a :: s') t'))%nat).
  { intros s' t' Hlt. apply (IH (length s' + length t')%nat); lia. }
  clear IH Hn.
  repeat split.
  - (* delete *)
    intros a. destruct t as [|b t].
    + rewrite !lev_nil_r. simpl. lia.
    + rewrite lev_cons. destruct (a =? b)%N.
      * destruct (Hs s t ltac:(simpl; lia)) as (_ & _ & H3 & _). apply H3.
      * lia.
  - (* insert *)
    intros b. destruct s as [|a s].
    + simpl. lia.
    + rewrite lev_cons. destruct (a =? b)%N.
      * destruct (Hs s t ltac:(simpl; lia)) as (_ & _ & _ & H4). apply H4.
      * lia.
  - intros b. destruct s as [|a s].
    + simpl. lia.
    + rewrite lev_cons.
      destruct (Hs s t ltac:(simpl; lia)) as (H1 & _ & H3 & _).
      specialize (H1 a). specialize (H3 b).
      destruct (a =? b)%N; lia.
  - intros a. destruct t as [|b t].
    + rewrite !lev_nil_r. simpl. lia.
    + rewrite lev_cons.
      destruct (Hs s t ltac:(simpl; lia)) as (_ & H2 & _ & H4).
      specialize (H2 b). specialize (H4 a).
      destruct (a =? b)%N; lia.
Qed.

(** No script is cheaper than [lev]. *)
Lemma lev_least (s t : jsstring) (n : nat) :
  EditScript s t n -> (lev s t <= n)%nat.
Proof.
  induction 1 as [| a s t n _ IH | a b s t n _ IH | a s t n _ IH | b s t n _ IH].
  - simpl. lia.
  - rewrite lev_cons, N.eqb_refl. exact IH.
  - rewrite lev_cons. destruct (a =? b)%N; lia.
  - destruct (lev_step _ s t (Nat.le_refl _)) as (H1 & _). specialize (H1 a). lia.
  - destruct (lev_step _ s t (Nat.le_refl _)) as (_ & H2 & _).
    specialize (H2 b). lia.
Qed.

Lemma lev_Levenshtein (s t : jsstring) : Levenshtein s t (lev s t).
Proof. split; [apply lev_script | apply lev_least]. Qed.

Lemma script_sym (s t : jsstring) (n : nat) :
  EditScript s t n -> EditScript t s n.
Proof. induction 1; constructor; auto. Qed.

Lemma script_snoc_keep (s t : jsstring) (n : nat) (a : N) :
  EditScript s t n -> EditScript (s ++ [a]) (t ++ [a]) n.
Proof.
  induction 1; simpl; try (constructor; assumption).
  apply edit_keep, edit_done.
Qed.

Lemma script_snoc_subst (s t : jsstring) (n : nat) (a b : N) :
  EditScript s t n -> EditScript (s ++ [a]) (t ++ [b]) (S n).
Proof.
  induction 1; simpl; try (constructor; assumption).
  apply edit_subst, edit_done.
Qed.

Lemma script_snoc_delete (s t : jsstring) (n : nat) (a : N) :
  EditScript s t n -> EditScript (s ++ [a]) t (S n).
Proof.
  induction 1; simpl; try (constructor; assumption).
  apply edit_delete, edit_done.
Qed.

Lemma script_snoc_insert (s t : jsstring) (n : nat) (b : N) :
  EditScript s t n -> EditScript s (t ++ [b]) (S n).
Proof.
  induction 1; simpl; try (constructor; assumption).
  apply edit_insert, edit_done.
Qed.

Lemma script_rev (s t : jsstring) (n : nat) :
  EditScript s t n -> EditScript (rev s) (rev t) n.
Proof.
  induction 1; simpl.
  - constructor.
  - now apply script_snoc_keep.
  - now apply script_snoc_subst.
  - now apply script_snoc_delete.
  - now apply script_snoc_insert.
Qed.

Lemma Levenshtein_rev_sym (s t : jsstring) (d : nat) :
  Levenshtein (rev t) (rev s) d -> Levenshtein s t d.
Proof.
  intros [Hd Hmin]. split.
  - apply script_sym, script_rev in Hd. now rewrite !rev_involutive in Hd.
  - intros n Hn. apply Hmin. now apply script_rev, script_sym.
Qed.

(** *** The matrix *)

Lemma rowFrom_length (p2 done todo : jsstring) :
  length (rowFrom p2 done todo) = S (length todo).
Proof.
  revert done. induction todo as [|c todo IH]; intros done; simpl; auto.
Qed.

Lemma rowFrom_last (p2 done todo : jsstring) :
  nth (length todo) (rowFrom p2 done todo) 0
  = Z.of_nat (lev p2 (rev todo ++ done)).
Proof.
  revert done. induction todo as [|c todo IH]; intros done; [reflexivity|].
  simpl length. simpl rev. rewrite <- app_assoc. simpl app.
  rewrite <- IH. reflexivity.
Qed.

Lemma row0_rowFrom (done todo : jsstring) :
  map Z.of_nat (seq (length done) (S (length todo))) = rowFrom [] done todo.
Proof.
  revert done. induction todo as [|c todo IH]; intros done; [reflexivity|].
  change (rowFrom [] done (c :: todo))
    with (Z.of_nat (length done) :: rowFrom [] (c :: done) todo).
  rewrite <- IH. reflexivity.
Qed.

(** The inner loop writes the row of the next prefix of [str2]. *)
Lemma fillRow_rowFrom (c2 : N) (p2 done todo : jsstring) :
  Z.of_nat (lev (c2 :: p2) done)
  :: fillRow c2 todo (rowFrom p2 done todo) (Z.of_nat (lev (c2 :: p2) done))
  = rowFrom (c2 :: p2) done todo.
Proof.
  revert done. induction todo as [|c1 todo IH]; intros done; [reflexivity|].
  change (rowFrom (c2 :: p2) done (c1 :: todo))
    with (Z.of_nat (lev (c2 :: p2) done) :: rowFrom (c2 :: p2) (c1 :: done) todo).
  f_equal. rewrite <- IH.
  change (rowFrom p2 done (c1 :: todo))
    with (Z.of_nat (lev p2 done) :: rowFrom p2 (c1 :: done) todo).
  destruct (rowFrom p2 (c1 :: done) todo) as [|up above] eqn:E.
  { pose proof (rowFrom_length p2 (c1 :: done) todo) as Hl.
    rewrite E in Hl. discriminate. }
  assert (Hup : up = Z.of_nat (lev p2 (c1 :: done))).
  { destruct todo; simpl in E; congruence. }
  cbn [fillRow].
  assert (Hv : (if (c2 =? c1)%N then Z.of_nat (lev p2 done)
                else Z.min (Z.min (Z.of_nat (lev p2 done) + 1)
                                  (Z.of_nat (lev (c2 :: p2) done) + 1))
                           (up + 1))
               = Z.of_nat (lev (c2 :: p2) (c1 :: done))).
  { rewrite lev_cons, Hup. destruct (c2 =? c1)%N; lia. }
  rewrite Hv. reflexivity.
Qed.

Lemma fillMatrix_last (str1 p2 todo2 : jsstring) :
  nth (length todo2)
      (rowFrom p2 [] str1
       :: fillMatrix str1 todo2 (Z.of_nat (S (length p2))) (rowFrom p2 [] str1))
      []
  = rowFrom (rev todo2 ++ p2) [] str1.
Proof.
  revert p2. induction todo2 as [|c2 todo2 IH]; intros p2; [reflexivity|].
  simpl length. simpl rev. rewrite <- app_assoc. simpl app.
  rewrite <- (IH (c2 :: p2)).
  cbn [fillMatrix nth].
  replace (Z.of_nat (S (length p2))) with (Z.of_nat (lev (c2 :: p2) []))
    by (rewrite lev_nil_r; reflexivity).
  rewrite fillRow_rowFrom.
  replace (Z.of_nat (lev (c2 :: p2) []) + 1)
    with (Z.of_nat (S (length (c2 :: p2))))
    by (rewrite lev_nil_r; simpl length; lia).
  reflexivity.
Qed.

Lemma levenshteinDistance_lev (str1 str2 : jsstring) :
  levenshteinDistance str1 str2 = Z.of_nat (lev (rev str2) (rev str1)).
Proof.
  unfold levenshteinDistance, levenshteinMatrix.
  pose proof (row0_rowFrom [] str1) as H0.
  pose proof (fillMatrix_last str1 [] str2) as Hm.
  change (length (@nil N)) with 0%nat in H0, Hm.
  change (Z.of_nat 1) with 1 in Hm.
  cbv zeta. rewrite H0, Hm, rowFrom_last. now rewrite !app_nil_r.
Qed.

(** The matrix computes the Levenshtein distance. *)
Lemma levenshteinDistance_correct (str1 str2 : jsstring) :
  0 <= levenshteinDistance str1 str2
  /\ Levenshtein str1 str2 (Z.to_nat (levenshteinDistance str1 str2)).
Proof.
  rewrite levenshteinDistance_lev. split; [lia|].
  rewrite Nat2Z.id. apply Levenshtein_rev_sym, lev_Levenshtein.
Qed.

Lemma Levenshtein_sym (s t : jsstring) (d : nat) :
  Levenshtein s t d -> Levenshtein t s d.
Proof.
  intros [Hd Hmin]. split; [now apply script_sym|].
  intros n Hn. now apply Hmin, script_sym.
Qed.

Lemma Levenshtein_unique (s t : jsstring) (d1 d2 : nat) :
  Levenshtein s t d1 -> Levenshtein s t d2 -> d1 = d2.
Proof.
  intros [H1 M1] [H2 M2]. specialize (M1 _ H2). specialize (M2 _ H1). lia.
Qed.

Lemma quotient_complement (L d : Z) :
  0 < L ->
  (inject_Z (L - d) / inject_Z L == 1 - inject_Z d / inject_Z L)%Q.
Proof.
  intros HL. unfold Z.sub. rewrite inject_Z_plus, inject_Z_opp.
  field. intros H. apply (inject_Z_injective L 0) in H. lia.
Qed.

(** *** Similarity and detection *)

Lemma calculateSimilarity_formula (str1 str2 : jsstring) :
  exists d : nat,
    Levenshtein str1 str2 d
    /\ calculateSimilarity str1 str2 ==
       if Z.max (strlen str1) (strlen str2) =? 0 then 1
       else 1 - inject_Z (Z.of_nat d)
                / inject_Z (Z.max (strlen str1) (strlen str2)).
Proof.
  unfold calculateSimilarity.
  destruct (Z.ltb_spec (strlen str2) (strlen str1)) as [Hlt|Hge].
  - destruct (levenshteinDistance_correct str1 str2) as [H0 HL].
    exists (Z.to_nat (levenshteinDistance str1 str2)). split; [exact HL|].
    rewrite Z.max_l by lia.
    destruct (strlen str1 =? 0); [reflexivity|].
    rewrite Z2Nat.id by lia. apply quotient_complement. unfold strlen in *. lia.
  - destruct (levenshteinDistance_correct str2 str1) as [H0 HL].
    exists (Z.to_nat (levenshteinDistance str2 str1)).
    split; [now apply Levenshtein_sym|].
    rewrite Z.max_r by lia.
    destruct (Z.eqb_spec (strlen str2) 0); [reflexivity|].
    rewrite Z2Nat.id by lia. apply quotient_complement. unfold strlen in *. lia.
Qed.

Lemma flat_map_filter {A B} (p : A -> bool) (f : A -> B) (l : list A) :
  flat_map (fun x => if p x then [f x] else []) l = map f (filter p l).
Proof.
  induction l as [|x l IH]; [reflexivity|]. simpl.
  destruct (p x); simpl; now rewrite IH.
Qed.

(** C6, amended.  The similarity of two keys is 1 minus their Levenshtein
    distance (the cost of a cheapest edit script) divided by the length of
    the longer key, and 1 when both are empty.  Detection emits one
    diagnostic, in table order, for every pattern of the language that is
    common (frequency at least 5) and whose key is less than 0.3 similar
    to the key of the snippet; the diagnostic names that pattern. *)
Theorem similarity_and_detection
        (patterns : list (jsstring * list CodePattern))
        (code filePath language_ : jsstring) (str1 str2 : jsstring) :
  (exists d : nat,
      Levenshtein str1 str2 d
      /\ calculateSimilarity str1 str2 ==
         if Z.max (strlen str1) (strlen str2) =? 0 then 1
         else 1 - inject_Z (Z.of_nat d)
                  / inject_Z (Z.max (strlen str1) (strlen str2)))
  /\ let codeKey := generatePatternKey (normalizeCode code) in
     detectPatternInconsistencies patterns code filePath language_ =
     map (fun p => mkIssue (inconsistencyPrefix ++ name p) 1)
         (filter (diverges codeKey)
                 (filter (fun p => streq (language p) language_)
                         (concat (map snd patterns))))
     /\ forall p,
         diverges codeKey p = true <->
         5 <= frequency p
         /\ (calculateSimilarity codeKey (generatePatternKey (pattern p))
             < 3 # 10)%Q.
Proof.
  split; [apply calculateSimilarity_formula|].
  intros codeKey. split.
  - unfold detectPatternInconsistencies. fold codeKey.
    set (lp := filter _ (concat _)).
    rewrite <- (flat_map_filter (diverges codeKey)).
    destruct lp as [|p0 lp0] eqn:E; [reflexivity|].
    change (Z.of_nat (length (p0 :: lp0)) =? 0) with false. cbv iota.
    apply flat_map_ext. intros p. unfold diverges.
    destruct (5 <=? frequency p); reflexivity.
  - intros p. unfold diverges. rewrite andb_true_iff, negb_true_iff.
    rewrite Z.leb_le. split; intros [H5 Hs]; split; auto.
    + apply Qnot_le_lt. intros Hle. apply Qle_bool_iff in Hle. congruence.
    + destruct (Qle_bool (3 # 10) _) eqn:E; [|reflexivity].
      apply Qle_bool_iff in E. exfalso. apply (Qlt_not_le _ _ Hs E).
Qed.

End SimilarityFacts.

(* ----------------------------------------------------------------- *)
(** *** The checker on closed inputs *)

Module SimilarityExamples.
Import PatternRecognizer Scenarios.

(** C6 as stated fails: the best match of the snippet is the common
    pattern [same], with similarity 1, which is not below 0.3; a
    diagnostic is emitted all the same, because the other common
    pattern, [far], has similarity 0. *)
Lemma diagnostic_despite_best_match :
  calculateSimilarity (generatePatternKey (normalizeCode snippet))
                      (generatePatternKey (pattern samePattern)) == 1
  /\ calculateSimilarity (generatePatternKey (normalizeCode snippet))
                         (generatePatternKey (pattern farPattern)) == 0
  /\ detectPatternInconsistencies patternTable snippet (str "c.go") (str "go")
     = [mkIssue (inconsistencyPrefix ++ str "far") 1].
Proof.
  split; [vm_compute; reflexivity|].
  split; vm_compute; reflexivity.
Qed.

(** One common pattern and a snippet less than 30% similar to it: one
    diagnostic, naming the pattern. *)
Example one_inconsistency :
  detectPatternInconsistencies [(str "go", [farPattern])] snippet
    (str "c.go") (str "go")
  = [mkIssue (inconsistencyPrefix ++ str "far") 1].
Proof. vm_compute. reflexivity. Qed.

Example kitten_sitting :
  levenshteinDistance (str "kitten") (str "sitting") = 3
  /\ calculateSimilarity (str "kitten") (str "sitting") == 4 # 7.
Proof. split; vm_compute; reflexivity. Qed.

Example normalize_snippet :
  normalizeCode (str "x = 42; // answer") = str "x = 0;".
Proof. vm_compute. reflexivity. Qed.

End SimilarityExamples.

(* ================================================================= *)
(** ** The validator *)

Module ValidatorFacts.
Import Validator.



Section WithRuntime.
Variable toLowerCase : jsstring -> jsstring.

(** *** Severity of the constraint checks *)






(** *** Determinism *)

Variable basename : jsstring -> jsstring.
Variable relative : jsstring -> jsstring -> jsstring.

Abbreviation current stored :=
  (filter (Architecture.isArchitectureMemory toLowerCase) stored).

Abbreviation check c stored now ws code path lang :=
  (Architecture.checkArchitecture toLowerCase basename relative
     c stored now ws code path lang).

Abbreviation run v stored now ws code path lang :=
  (validateCode toLowerCase basename relative v stored now ws code path lang).






End WithRuntime.
End ValidatorFacts.

(* ----------------------------------------------------------------- *)
(** *** The validator on closed inputs *)

Module ValidatorExamples.
Import Validator Scenarios.



(** The same record with critical importance: the validator reports the
    item once itself and once through the architecture checker, both as
    errors, and the validation fails. *)
Example critical_record_yields_errors :
  let result :=
    fst (validate (newCodeValidator asciiToLower [forbidsEval CRITICAL]
                                    (Some [forbidsEval CRITICAL]))
                  [forbidsEval CRITICAL] aTime callsEval) in
  map type (issues result) = [error; error]
  /\ map memoryId (issues result) = [Some (str "r1"); Some (str "r1")]
  /\ passed result = false.
Proof. repeat split; vm_compute; reflexivity. Qed.


(** Coherence cannot be dropped: a checker that cached an empty corpus a
    moment ago, while the storage now holds a critical record, answers
    from its cache at first and from the storage once the cache is 10
    seconds old. *)
Example stale_cache_changes_result :
  let v := mkValidator [] (Some (Architecture.mkChecker [] aTime None)) in
  let first := validate v [forbidsEval CRITICAL] (aTime + 1) callsEval in
  let second := validate (snd first) [forbidsEval CRITICAL] (aTime + 20000)
                         callsEval in
  passed (fst first) = true /\ passed (fst second) = false.
Proof. split; vm_compute; reflexivity. Qed.

End ValidatorExamples.

(* ================================================================= *)
(** * Part III: further properties of the code *)

(* ================================================================= *)
(** ** codePatternRecognizer.ts: the edit distance is a metric *)

Module SimilarityLaws.
Import PatternRecognizer SimilarityFacts.

(** A script of cost 0 changes nothing. *)
Lemma script_zero (s t : jsstring) (n : nat) :
  EditScript s t n -> n = 0%nat -> s = t.
Proof.
  induction 1; intros E; try discriminate; auto.
  f_equal. auto.
Qed.

Lemma script_refl (s : jsstring) : EditScript s s 0.
Proof. induction s; constructor; auto. Qed.

(** A script changes the length by at most its cost. *)
Lemma script_length (s t : jsstring) (n : nat) :
  EditScript s t n ->
  (length s <= length t + n)%nat /\ (length t <= length s + n)%nat.
Proof. induction 1; simpl; lia. Qed.

(** Substituting along the shorter string and then deleting or inserting
    the rest costs the length of the longer string. *)
Lemma script_max (s t : jsstring) :
  exists n, (n <= Nat.max (length s) (length t))%nat /\ EditScript s t n.
Proof.
  revert t. induction s as [|a s IH]; intros t.
  - exists (length t). split; [simpl; lia | apply script_inserts].
  - destruct t as [|b t].
    + exists (length (a :: s)). split; [simpl; lia | apply script_deletes].
    + destruct (IH t) as (n & Hn & Hs).
      exists (S n). split; [simpl; lia | now apply edit_subst].
Qed.

(** Scripts compose, at no more than the sum of their costs. *)
Lemma script_trans (s t : jsstring) (n : nat) :
  EditScript s t n ->
  forall (u : jsstring) (m : nat),
    EditScript t u m -> exists k, (k <= n + m)%nat /\ EditScript s u k.
Proof.
  induction 1 as [| a s t n H1 IH | a b s t n H1 IH | a s t n H1 IH
                  | b s t n H1 IH]; intros u m H2.
  - exists m. split; [lia | exact H2].
  - remember (a :: t) as t0 eqn:Et.
    induction H2 as [| a' t' u' m' H2 _ | a' c t' u' m' H2 _
                     | a' t' u' m' H2 _ | c t' u' m' H2 IH2];
      try discriminate.
    + injection Et as -> ->.
      destruct (IH _ _ H2) as (k & Hk & Hs).
      exists k. split; [lia | now apply edit_keep].
    + injection Et as -> ->.
      destruct (IH _ _ H2) as (k & Hk & Hs).
      exists (S k). split; [lia | now apply edit_subst].
    + injection Et as -> ->.
      destruct (IH _ _ H2) as (k & Hk & Hs).
      exists (S k). split; [lia | now apply edit_delete].
    + destruct (IH2 Et) as (k & Hk & Hs).
      exists (S k). split; [lia | now apply edit_insert].
  - remember (b :: t) as t0 eqn:Et.
    induction H2 as [| a' t' u' m' H2 _ | a' c t' u' m' H2 _
                     | a' t' u' m' H2 _ | c t' u' m' H2 IH2];
      try discriminate.
    + injection Et as -> ->.
      destruct (IH _ _ H2) as (k & Hk & Hs).
      exists (S k). split; [lia | now apply edit_subst].
    + injection Et as -> ->.
      destruct (IH _ _ H2) as (k & Hk & Hs).
      exists (S k). split; [lia | now apply edit_subst].
    + injection Et as -> ->.
      destruct (IH _ _ H2) as (k & Hk & Hs).
      exists (S k). split; [lia | now apply edit_delete].
    + destruct (IH2 Et) as (k & Hk & Hs).
      exists (S k). split; [lia | now apply edit_insert].
  - destruct (IH _ _ H2) as (k & Hk & Hs).
    exists (S k). split; [lia | now apply edit_delete].
  - remember (b :: t) as t0 eqn:Et.
    induction H2 as [| a' t' u' m' H2 _ | a' c t' u' m' H2 _
                     | a' t' u' m' H2 _ | c t' u' m' H2 IH2];
      try discriminate.
    + injection Et as -> ->.
      destruct (IH _ _ H2) as (k & Hk & Hs).
      exists (S k). split; [lia | now apply edit_insert].
    + injection Et as -> ->.
      destruct (IH _ _ H2) as (k & Hk & Hs).
      exists (S k). split; [lia | now apply edit_insert].
    + injection Et as -> ->.
      destruct (IH _ _ H2) as (k & Hk & Hs).
      exists k. split; [lia | exact Hs].
    + destruct (IH2 Et) as (k & Hk & Hs).
      exists (S k). split; [lia | now apply edit_insert].
Qed.

(** The distance in terms of scripts. *)
Lemma distance_script (s t : jsstring) :
  exists d : nat,
    levenshteinDistance s t = Z.of_nat d
    /\ EditScript s t d
    /\ forall n, EditScript s t n -> (d <= n)%nat.
Proof.
  destruct (levenshteinDistance_correct s t) as [H0 [Hs Hmin]].
  exists (Z.to_nat (levenshteinDistance s t)).
  split; [lia | split; assumption].
Qed.

Lemma distance_sym (s t : jsstring) :
  levenshteinDistance s t = levenshteinDistance t s.
Proof.
  destruct (distance_script s t) as (d1 & E1 & S1 & M1).
  destruct (distance_script t s) as (d2 & E2 & S2 & M2).
  pose proof (M1 _ (script_sym _ _ _ S2)).
  pose proof (M2 _ (script_sym _ _ _ S1)). lia.
Qed.

Lemma distance_bounds (s t : jsstring) :
  Z.abs (strlen s - strlen t) <= levenshteinDistance s t
  /\ levenshteinDistance s t <= Z.max (strlen s) (strlen t).
Proof.
  destruct (distance_script s t) as (d & E & S & M).
  destruct (script_length _ _ _ S) as [L1 L2].
  destruct (script_max s t) as (n & Hn & Sn).
  pose proof (M _ Sn). unfold strlen. lia.
Qed.

Lemma distance_zero (s t : jsstring) :
  levenshteinDistance s t = 0 <-> s = t.
Proof.
  destruct (distance_script s t) as (d & E & S & M). split.
  - intros H0. apply (script_zero _ _ _ S). lia.
  - intros ->. pose proof (M _ (script_refl t)). lia.
Qed.

(** X1.  The edit distance the recognizer computes is a metric on
    strings up to the triangle inequality proved next: it is never
    negative, it is 0 exactly for equal strings, it does not depend on
    the order of its arguments, and it lies between the difference of the
    two lengths and the length of the longer string. *)
Theorem levenshteinDistance_metric (str1 str2 : jsstring) :
  0 <= levenshteinDistance str1 str2
  /\ (levenshteinDistance str1 str2 = 0 <-> str1 = str2)
  /\ levenshteinDistance str1 str2 = levenshteinDistance str2 str1
  /\ Z.abs (strlen str1 - strlen str2) <= levenshteinDistance str1 str2
  /\ levenshteinDistance str1 str2 <= Z.max (strlen str1) (strlen str2).
Proof.
  split; [apply levenshteinDistance_correct|].
  split; [apply distance_zero|].
  split; [apply distance_sym|].
  apply distance_bounds.
Qed.

(** X2.  The triangle inequality: going through a third string never
    shortens the edit distance. *)
Theorem levenshteinDistance_triangle (str1 str2 str3 : jsstring) :
  levenshteinDistance str1 str3
  <= levenshteinDistance str1 str2 + levenshteinDistance str2 str3.
Proof.
  destruct (distance_script str1 str2) as (d12 & E12 & S12 & _).
  destruct (distance_script str2 str3) as (d23 & E23 & S23 & _).
  destruct (distance_script str1 str3) as (d13 & E13 & _ & M13).
  destruct (script_trans _ _ _ S12 _ _ S23) as (k & Hk & Sk).
  pose proof (M13 _ Sk). lia.
Qed.

Lemma similarity_value (str1 str2 : jsstring) :
  let L := Z.max (strlen str1) (strlen str2) in
  calculateSimilarity str1 str2 =
  if L =? 0 then 1%Q
  else (inject_Z (L - levenshteinDistance str1 str2) / inject_Z L)%Q.
Proof.
  unfold calculateSimilarity. cbv zeta.
  destruct (Z.ltb_spec (strlen str2) (strlen str1)) as [Hlt|Hge].
  - rewrite Z.max_l by lia. reflexivity.
  - rewrite Z.max_r by lia. now rewrite (distance_sym str2 str1).
Qed.

Lemma ratio_range (L d : Z) :
  0 < L -> 0 <= d <= L ->
  (0 <= inject_Z (L - d) / inject_Z L)%Q
  /\ (inject_Z (L - d) / inject_Z L <= 1)%Q
  /\ ((inject_Z (L - d) / inject_Z L == 1)%Q <-> d = 0).
Proof.
  intros HL Hd.
  assert (HLq : (0 < inject_Z L)%Q).
  { change (inject_Z 0 < inject_Z L)%Q. rewrite <- Zlt_Qlt. exact HL. }
  assert (Hne : ~ (inject_Z L == 0)%Q).
  { intros H. rewrite H in HLq. now apply Qlt_irrefl in HLq. }
  split; [|split].
  - apply Qle_shift_div_l; [exact HLq|].
    rewrite Qmult_0_l. change (inject_Z 0 <= inject_Z (L - d))%Q.
    rewrite <- Zle_Qle. lia.
  - apply Qle_shift_div_r; [exact HLq|].
    rewrite Qmult_1_l. rewrite <- Zle_Qle. lia.
  - split.
    + intros H.
      assert (H' : (inject_Z (L - d) == inject_Z L)%Q).
      { rewrite <- (Qmult_1_l (inject_Z L)), <- H.
        rewrite Qmult_comm, Qmult_div_r; [reflexivity | exact Hne]. }
      apply (proj1 (inject_Z_injective (L - d) L)) in H'. lia.
    + intros ->. rewrite Z.sub_0_r. unfold Qdiv. now apply Qmult_inv_r.
Qed.

(** X3.  The similarity of two keys is a number between 0 and 1; it is 1
    exactly when the keys are equal, and it does not depend on the order
    of the two keys. *)
Theorem calculateSimilarity_range (str1 str2 : jsstring) :
  (0 <= calculateSimilarity str1 str2)%Q
  /\ (calculateSimilarity str1 str2 <= 1)%Q
  /\ ((calculateSimilarity str1 str2 == 1)%Q <-> str1 = str2)
  /\ calculateSimilarity str1 str2 = calculateSimilarity str2 str1.
Proof.
  pose proof (similarity_value str1 str2) as E. cbv zeta in E.
  pose proof (distance_zero str1 str2) as Hz.
  destruct (distance_bounds str1 str2) as [Hlo Hhi].
  assert (H0 : 0 <= levenshteinDistance str1 str2) by lia.
  assert (Hsymm : calculateSimilarity str1 str2 = calculateSimilarity str2 str1).
  { rewrite E, (similarity_value str2 str1). cbv zeta.
    now rewrite (Z.max_comm (strlen str2)), (distance_sym str2 str1). }
  split; [|split; [|split; [|exact Hsymm]]]; rewrite E;
    destruct (Z.eqb_spec (Z.max (strlen str1) (strlen str2)) 0) as [HL|HL];
    try easy.
  - assert (HLpos : 0 < Z.max (strlen str1) (strlen str2))
      by (unfold strlen in *; lia).
    apply (ratio_range _ _ HLpos (conj H0 Hhi)).
  - assert (HLpos : 0 < Z.max (strlen str1) (strlen str2))
      by (unfold strlen in *; lia).
    apply (ratio_range _ _ HLpos (conj H0 Hhi)).
  - split; [|reflexivity]. intros _. unfold strlen in HL.
    destruct str1, str2; simpl in HL; try lia. reflexivity.
  - assert (HLpos : 0 < Z.max (strlen str1) (strlen str2))
      by (unfold strlen in *; lia).
    destruct (ratio_range _ _ HLpos (conj H0 Hhi)) as (_ & _ & Req).
    rewrite Req. exact Hz.
Qed.

End SimilarityLaws.

(* ================================================================= *)
(** ** memoryInjector.ts: what compression guarantees *)

Module CompressorLaws.
Import Injector CompressorFacts.

Lemma In_dropWhile {A} (p : A -> bool) (l : list A) (x : A) :
  In x (dropWhile p l) -> In x l.
Proof.
  induction l as [|y l IH]; simpl; [tauto|].
  destruct (p y); simpl; tauto.
Qed.

Lemma In_trim (s : jsstring) (c : N) : In c (trim s) -> In c s.
Proof.
  unfold trim. intros H.
  apply in_rev, In_dropWhile, in_rev, In_dropWhile in H. exact H.
Qed.

Lemma In_skipn {A} (n : nat) (l : list A) (x : A) :
  In x (skipn n l) -> In x l.
Proof.
  intros H. rewrite <- (firstn_skipn n l). apply in_or_app. now right.
Qed.

Lemma In_substring (s : jsstring) (a b : Z) (c : N) :
  In c (substring s a b) -> In c s.
Proof. unfold substring. intros H. now apply In_firstn, In_skipn in H. Qed.

Lemma In_removeAllFrom (w : jsstring) (k : nat) (s : jsstring) (c : N) :
  In c (removeAllFrom w k s) -> In c s.
Proof.
  revert k. induction s as [|d s IH]; intros k; [simpl; tauto|].
  cbn [removeAllFrom]. destruct k as [|k].
  - destruct (startsWith (d :: s) w).
    + intros H. right. eapply IH, H.
    + intros [->|H]; [now left | right; eapply IH, H].
  - intros H. right. eapply IH, H.
Qed.

Lemma In_removeWords (words : list jsstring) (s : jsstring) (c : N) :
  In c (fold_left (fun acc word => removeAll word acc) words s) -> In c s.
Proof.
  revert s. induction words as [|w words IH]; intros s; simpl; [tauto|].
  intros H. apply IH in H. eapply In_removeAllFrom, H.
Qed.

(** After the runs of white space are collapsed the only white space
    left is the space. *)
Lemma collapseWs_spaces (b : bool) (s : jsstring) (c : N) :
  In c (collapseWs b s) -> isWhiteSpace c = true -> c = 32%N.
Proof.
  revert b. induction s as [|d s IH]; intros b; simpl; [tauto|].
  destruct (isWhiteSpace d) eqn:Ed.
  - destruct b; [apply IH|]. intros [<-|H]; [reflexivity | eapply IH, H].
  - intros [<-|H]; [congruence | eapply IH, H].
Qed.

Lemma compressContent_light_length (text : jsstring) :
  strlen (compressContent text false) <= 303.
Proof.
  unfold compressContent.
  set (c := trim _). rewrite andb_false_r.
  destruct (Z.ltb_spec 300 (strlen c)) as [H|H]; [|lia].
  unfold strlen in *. rewrite !length_app. unfold substring, strlen.
  rewrite !length_firstn, !length_skipn. simpl length. lia.
Qed.

Lemma compressContent_spaces (content : jsstring) (aggressive : bool) (c : N) :
  In c (compressContent content aggressive) ->
  isWhiteSpace c = true -> c = 32%N.
Proof.
  revert c. unfold compressContent.
  set (c0 := trim (collapseWs false content)).
  set (c1 := if aggressive then _ else c0).
  assert (H1 : forall c, In c c1 -> isWhiteSpace c = true -> c = 32%N).
  { intros c Hc. apply (collapseWs_spaces false content), In_trim.
    fold c0. subst c1. destruct aggressive; [|exact Hc].
    eapply In_removeWords, Hc. }
  intros c Hc.
  destruct ((200 <? strlen c1) && aggressive).
  - apply in_app_or in Hc. destruct Hc as [Hc|Hc];
      [apply In_substring in Hc; now apply H1|].
    apply in_app_or in Hc. destruct Hc as [Hc|Hc];
      [|apply In_substring in Hc; now apply H1].
    simpl in Hc. intros Hw.
    destruct Hc as [<-|[<-|[<-|[]]]]; discriminate Hw.
  - destruct (300 <? strlen c1); [|now apply H1].
    apply in_app_or in Hc. destruct Hc as [Hc|Hc];
      [apply In_substring in Hc; now apply H1|].
    simpl in Hc. intros Hw.
    destruct Hc as [<-|[<-|[<-|[]]]]; discriminate Hw.
Qed.

Lemma compressContent_one_line (content : jsstring) (aggressive : bool) (c : N) :
  In c (compressContent content aggressive) ->
  Regex.isLineTerminator c = false.
Proof.
  intros Hc. pose proof (compressContent_spaces _ _ _ Hc) as Hws.
  destruct (Regex.isLineTerminator c) eqn:El; [|reflexivity].
  assert (Hw : isWhiteSpace c = true).
  { unfold Regex.isLineTerminator in El. unfold isWhiteSpace.
    repeat (apply orb_true_iff in El; destruct El as [El|El]);
      apply N.eqb_eq in El; subst c; reflexivity. }
  rewrite (Hws Hw) in El. discriminate El.
Qed.

Lemma compressContent_length (content : jsstring) (aggressive : bool) :
  strlen (compressContent content aggressive)
    <= (if aggressive then 203 else 303).
Proof.
  destruct aggressive;
    [apply compressContent_elided_length | apply compressContent_light_length].
Qed.

(** X4.  Whatever the content of a record, its compressed form is short
    and fits on one line: at most 303 code units in the light form and at
    most 203 in the aggressive form, and the only white space left in it
    is the space U+0020, so that it holds no line terminator. *)
Theorem compressContent_shape (content : jsstring) (aggressive : bool) :
  strlen (compressContent content aggressive)
    <= (if aggressive then 203 else 303)
  /\ (forall c, In c (compressContent content aggressive) ->
        isWhiteSpace c = true -> c = 32%N)
  /\ (forall c, In c (compressContent content aggressive) ->
        Regex.isLineTerminator c = false).
Proof.
  split; [apply compressContent_length|].
  split; intros c Hc;
    [exact (compressContent_spaces _ _ _ Hc)
    | exact (compressContent_one_line _ _ _ Hc)].
Qed.

(** *** The estimator *)

Lemma words_le_letters (b : bool) (s : jsstring) :
  (length (filter (existsb isLatinLetter) (splitWsFrom b s))
   <= length (filter isLatinLetter s))%nat.
Proof.
  revert b. induction s as [|c s IH]; intros b; [simpl; lia|].
  cbn [splitWsFrom]. destruct (isWhiteSpace c) eqn:Ew.
  - assert (El : isLatinLetter c = false).
    { unfold isWhiteSpace in Ew. unfold isLatinLetter.
      destruct (65 <=? c)%N eqn:E1; destruct (c <=? 90)%N eqn:E2;
        destruct (97 <=? c)%N eqn:E3; destruct (c <=? 122)%N eqn:E4;
        try reflexivity; exfalso;
        repeat match goal with
        | H : (_ <=? _)%N = true |- _ => apply N.leb_le in H
        | H : (_ <=? _)%N = false |- _ => apply N.leb_gt in H
        end;
        repeat (apply orb_true_iff in Ew; destruct Ew as [Ew|Ew]);
        try (apply andb_true_iff in Ew; destruct Ew as [Ew1 Ew2];
             apply N.leb_le in Ew1; apply N.leb_le in Ew2);
        try apply N.eqb_eq in Ew; lia. }
    cbn [filter]. rewrite El.
    destruct b; [apply IH|]. cbn [filter existsb]. apply IH.
  - specialize (IH false).
    destruct (splitWsFrom false s) as [|p ps] eqn:Es.
    + cbn [filter existsb] in *. rewrite orb_false_r.
      destruct (isLatinLetter c); simpl; lia.
    + cbn [filter existsb] in *.
      destruct (isLatinLetter c); simpl.
      * destruct (existsb isLatinLetter p); simpl in *; lia.
      * destruct (existsb isLatinLetter p); simpl in *; lia.
Qed.

Lemma classes_le_length (s : jsstring) :
  (length (filter isCJK s) + length (filter isLatinLetter s) <= length s)%nat.
Proof.
  induction s as [|c s IH]; [simpl; lia|]. cbn [filter length].
  assert (H : isCJK c = true -> isLatinLetter c = false).
  { unfold isCJK, isLatinLetter. intros H.
    apply andb_true_iff in H. destruct H as [H1 _]. apply N.leb_le in H1.
    destruct (c <=? 90)%N eqn:E2; [apply N.leb_le in E2; lia|].
    destruct (c <=? 122)%N eqn:E4; [apply N.leb_le in E4; lia|].
    now rewrite !andb_false_r. }
  destruct (isCJK c); [rewrite H by reflexivity; simpl; lia|].
  destruct (isLatinLetter c); simpl; lia.
Qed.

Lemma estimateTokens_upper (text : jsstring) :
  estimateTokens text <= (3 * strlen text + 1) / 2.
Proof.
  destruct (estimateTokens_closed text) as [_ E].
  pose proof (words_le_letters false text) as Hw. fold (splitWs text) in Hw.
  pose proof (classes_le_length text) as Hc.
  pose proof (filter_count text) as Hk.
  rewrite E. unfold strlen.
  change (wordCount (splitWs text))
    with (Z.of_nat (length (filter (existsb isLatinLetter) (splitWs text)))).
  rewrite <- Hk.
  set (k := length (filter isCJK text)) in *.
  set (w := length (filter (existsb isLatinLetter) (splitWs text))) in *.
  set (l := length (filter isLatinLetter text)) in *.
  set (n := length text) in *.
  Z.div_mod_to_equations. lia.
Qed.

(** X5.  The estimate is never negative and never more than one and a
    half tokens per code unit, rounded up; a text without ideographs and
    without Latin letters (digits and punctuation, say) costs nothing. *)
Theorem estimateTokens_bounds (text : jsstring) :
  0 <= estimateTokens text
  /\ estimateTokens text <= (3 * strlen text + 1) / 2
  /\ (forallb (fun c => negb (isCJK c) && negb (isLatinLetter c)) text = true ->
      estimateTokens text = 0).
Proof.
  destruct (estimateTokens_closed text) as [_ E].
  pose proof (words_le_letters false text) as Hw. fold (splitWs text) in Hw.
  pose proof (classes_le_length text) as Hc.
  pose proof (filter_count text) as Hk.
  assert (Hwc : wordCount (splitWs text)
                = Z.of_nat (length (filter (existsb isLatinLetter)
                                           (splitWs text)))) by reflexivity.
  split; [|split].
  - rewrite E. unfold strlen.
    assert (0 <= (3 * cjkCount text + 1) / 2)
      by (apply Z.div_pos; lia).
    lia.
  - apply estimateTokens_upper.
  - intros Hnone.
    assert (H0 : length (filter isCJK text) = 0%nat
                 /\ length (filter isLatinLetter text) = 0%nat).
    { clear -Hnone. induction text as [|c text IH]; [split; reflexivity|].
      simpl in Hnone. apply andb_true_iff in Hnone. destruct Hnone as [Hc Ht].
      apply andb_true_iff in Hc. destruct Hc as [H1 H2].
      apply negb_true_iff in H1. apply negb_true_iff in H2.
      cbn [filter]. rewrite H1, H2. now apply IH. }
    destruct H0 as [Hk0 Hl0].
    rewrite E, Hwc, <- Hk, Hk0. rewrite Hl0 in Hw.
    assert (length (filter (existsb isLatinLetter) (splitWs text)) = 0%nat)
      by lia.
    rewrite H. reflexivity.
Qed.

(** *** The loop *)

Lemma totalCost_app (l1 l2 : list Memory) :
  totalCost (l1 ++ l2) = totalCost l1 + totalCost l2.
Proof. induction l1 as [|m l1 IH]; simpl; [reflexivity|]. rewrite IH. lia. Qed.

(** The loop keeps a prefix that fits and stops at the first record that
    does not. *)
Lemma compressLoop_shape (maxTokens : Z) (sorted acc : list Memory) (t : Z) :
  exists kept rest,
    sorted = kept ++ rest
    /\ (kept = [] \/ t + totalCost kept <= maxTokens)
    /\ match rest with
       | [] => compressLoop maxTokens sorted acc t = acc ++ map light kept
       | m :: _ =>
           maxTokens < t + totalCost kept + cost m
           /\ compressLoop maxTokens sorted acc t =
              if isImportance CRITICAL m
                 && (len (acc ++ map light kept) <? 20)
              then (acc ++ map light kept) ++ [elided m]
              else acc ++ map light kept
       end.
Proof.
  revert acc t. induction sorted as [|m sorted IH]; intros acc t.
  - exists [], []. repeat split; [now left | simpl; now rewrite app_nil_r].
  - destruct (Z.leb_spec (t + cost m) maxTokens) as [Hfit|Hover].
    + destruct (IH (acc ++ [light m]) (t + cost m))
        as (kept & rest & -> & Hb & Hr).
      exists (m :: kept), rest. split; [reflexivity|]. split.
      * right. destruct Hb as [->|Hb]; simpl; lia.
      * pose proof (compressLoop_fits maxTokens [m] (kept ++ rest) acc t) as Hf.
        change (totalCost [m]) with (cost m + 0) in Hf.
        rewrite Z.add_0_r in Hf. specialize (Hf Hfit).
        change ([m] ++ kept ++ rest) with (m :: (kept ++ rest)) in Hf.
        change (map light [m]) with [light m] in Hf.
        rewrite Hf. clear Hf. cbn [map totalCost].
        replace (acc ++ light m :: map light kept)
          with ((acc ++ [light m]) ++ map light kept)
          by (now rewrite <- app_assoc).
        replace (t + (cost m + totalCost kept))
          with (t + cost m + totalCost kept) by lia.
        destruct rest as [|r rest]; [exact Hr|].
        destruct Hr as [Hlt Hr]. split; [simpl totalCost; lia | exact Hr].
    + exists [], (m :: sorted). split; [reflexivity|].
      split; [now left|]. simpl totalCost. simpl map. rewrite !app_nil_r.
      split; [lia|]. apply compressLoop_overflow. lia.
Qed.

(** X6.  The shape of every compression: the compressor keeps, in light
    form, the longest prefix of the selection sorted by importance whose
    estimated cost fits the budget, and after it at most one more record,
    in aggressive form: the first record that does not fit, when it is
    critical and fewer than 20 records were kept.  Nothing that comes
    after the first record that does not fit is kept. *)
Theorem compressMemories_shape (memories : list Memory) (maxTokens : Z) :
  exists kept rest,
    jsSort byImportance memories = kept ++ rest
    /\ (kept = [] \/ totalCost kept <= maxTokens)
    /\ match rest with
       | [] => compressMemories memories maxTokens = map light kept
       | m :: _ =>
           maxTokens < totalCost kept + cost m
           /\ compressMemories memories maxTokens =
              if isImportance CRITICAL m && (len kept <? 20)
              then map light kept ++ [elided m]
              else map light kept
       end.
Proof.
  destruct (compressLoop_shape maxTokens (jsSort byImportance memories) [] 0)
    as (kept & rest & Hs & Hb & Hr).
  exists kept, rest. split; [exact Hs|]. split; [exact Hb|].
  unfold compressMemories. simpl app in Hr.
  replace (len (map light kept)) with (len kept) in Hr
    by (unfold len; now rewrite length_map).
  destruct rest; simpl in Hr |- *; exact Hr.
Qed.

Lemma cost_le (m : Memory) : cost m <= 455.
Proof.
  unfold cost.
  pose proof (estimateTokens_upper (compressContent (content m) false)) as H.
  pose proof (compressContent_light_length (content m)).
  assert ((3 * strlen (compressContent (content m) false) + 1) / 2 <= 455)
    by (Z.div_mod_to_equations; lia).
  lia.
Qed.

Lemma totalCost_le (l : list Memory) : totalCost l <= 455 * len l.
Proof.
  induction l as [|m l IH]; [unfold len; simpl; lia|].
  simpl totalCost. pose proof (cost_le m). unfold len in *.
  simpl length. lia.
Qed.

Lemma compressLoop_prefix (maxTokens : Z) (sorted acc : list Memory) (t : Z) :
  exists more, compressLoop maxTokens sorted acc t = acc ++ more.
Proof.
  destruct (compressLoop_shape maxTokens sorted acc t)
    as (kept & rest & _ & _ & Hr).
  destruct rest as [|m rest].
  - eauto.
  - destruct Hr as [_ ->].
    destruct (_ && _); [rewrite <- app_assoc|]; eauto.
Qed.

(** X7.  A budget of 455 tokens per record is always enough: the first
    [n] records of the selection sorted by importance are all kept, in
    light form, whenever the budget is at least [455 * n], whatever their
    contents.  Under the default budget of 2000 tokens the first four
    records are never dropped. *)
Theorem compressMemories_keeps (memories : list Memory) (maxTokens : Z)
        (n : nat) :
  455 * Z.of_nat n <= maxTokens ->
  firstn n (compressMemories memories maxTokens)
  = map light (firstn n (jsSort byImportance memories)).
Proof.
  intros Hn. unfold compressMemories.
  set (sorted := jsSort byImportance memories).
  pose proof (totalCost_le (firstn n sorted)) as Hc.
  assert (Hl : len (firstn n sorted) <= Z.of_nat n)
    by (unfold len; rewrite length_firstn; lia).
  assert (Hfit : compressLoop maxTokens sorted [] 0
                 = compressLoop maxTokens (skipn n sorted)
                     (map light (firstn n sorted))
                     (0 + totalCost (firstn n sorted))).
  { rewrite <- (firstn_skipn n sorted) at 1.
    now rewrite compressLoop_fits by lia. }
  rewrite Hfit. clear Hfit.
  destruct (Nat.le_gt_cases n (length sorted)) as [Hle|Hgt].
  - destruct (compressLoop_prefix maxTokens (skipn n sorted)
                (map light (firstn n sorted))
                (0 + totalCost (firstn n sorted))) as [more ->].
    rewrite firstn_app.
    replace (n - length (map light (firstn n sorted)))%nat with 0%nat
      by (rewrite length_map, length_firstn; lia).
    rewrite firstn_O, app_nil_r. apply firstn_all2.
    rewrite length_map, length_firstn. lia.
  - rewrite (skipn_all2 sorted) by lia. cbn [compressLoop].
    apply firstn_all2. rewrite length_map, length_firstn. lia.
Qed.

(** *** The size of the bundle *)

Lemma compressed_content (memories : list Memory) (maxTokens : Z) (m : Memory) :
  In m (compressMemories memories maxTokens) ->
  exists m0 aggressive,
    In m0 memories
    /\ m = withContent m0 (compressContent (content m0) aggressive).
Proof.
  unfold compressMemories.
  destruct (compressLoop_shape maxTokens (jsSort byImportance memories) [] 0)
    as (kept & rest & Hs & _ & Hr).
  simpl app in Hr.
  assert (Hin : forall x, In x (kept ++ rest) -> In x memories).
  { intros x Hx. rewrite <- Hs in Hx. now apply jsSort_In in Hx. }
  assert (Hk : In m (map light kept) ->
               exists m0 aggressive,
                 In m0 memories
                 /\ m = withContent m0 (compressContent (content m0) aggressive)).
  { intros H. apply in_map_iff in H. destruct H as (m0 & <- & H0).
    exists m0, false. split; [apply Hin, in_or_app; now left | reflexivity]. }
  destruct rest as [|r rest].
  - rewrite Hr. exact Hk.
  - destruct Hr as [_ ->].
    destruct (_ && _); [|exact Hk].
    intros H. apply in_app_or in H. destruct H as [H|[<-|[]]]; [now apply Hk|].
    exists r, true. split; [|reflexivity].
    apply Hin, in_or_app. right. now left.
Qed.

Lemma entries_length (bullet : jsstring) (ms : list Memory) :
  Forall (fun m => strlen (content m) <= 303) ms ->
  strlen (entries bullet ms) <= (strlen bullet + 305) * len ms.
Proof.
  unfold entries, len, strlen.
  induction 1 as [|m ms Hm _ IH]; [simpl; lia|].
  cbn [map concat]. rewrite !length_app.
  change (length (str " ")) with 1%nat. change (length nl) with 1%nat.
  cbn [length]. unfold strlen in Hm. nia.
Qed.

Lemma bundleSection_length (title bullet : jsstring) (shown : list Memory) :
  Forall (fun m => strlen (content m) <= 303) shown ->
  strlen (bundleSection title bullet shown)
  <= (if len shown =? 0 then 0 else strlen title + 43)
     + (strlen bullet + 305) * len shown.
Proof.
  intros H. destruct shown as [|m shown]; [unfold len, strlen; simpl; lia|].
  pose proof (entries_length bullet _ H) as He.
  change (len (m :: shown) =? 0) with false. cbv iota.
  cbn [bundleSection]. unfold strlen in *.
  rewrite !length_app. change (length nl) with 1%nat.
  change (length (rule "-")) with 41%nat. lia.
Qed.

Lemma shown_in_compressed (compressed : list Memory) (m : Memory) :
  In m (shownCritical compressed ++ shownHigh compressed
        ++ shownMedium compressed) ->
  In m compressed.
Proof.
  unfold shownCritical, shownHigh, shownMedium. intros H.
  repeat (apply in_app_or in H; destruct H as [H|H]);
    repeat match type of H with
    | In _ (if ?c then _ else _) => destruct c; [|contradiction]
    end;
    apply slice_0_In, filter_In in H; tauto.
Qed.

(** X8.  The bundle has a bounded size whatever the selection and the
    budget: at most 3648 code units, which is the header, the three
    section titles, ten records of 303 code units with their bullets,
    and the footer. *)
Theorem bundle_size (memories : list Memory) (maxTokens : Z) :
  strlen (formatMemoriesAsContext memories maxTokens) <= 3648.
Proof.
  destruct memories as [|m0 ms]; [unfold strlen; simpl; lia|].
  rewrite format_sections by discriminate. cbv zeta.
  set (compressed := compressMemories (m0 :: ms) maxTokens).
  assert (Hall : forall m, In m compressed -> strlen (content m) <= 303).
  { intros m Hm. apply compressed_content in Hm.
    destruct Hm as (x & a & _ & ->). simpl.
    pose proof (compressContent_length (content x) a) as H.
    destruct a; lia. }
  assert (Hshown : forall l,
             (forall m, In m l ->
                In m (shownCritical compressed ++ shownHigh compressed
                      ++ shownMedium compressed)) ->
             Forall (fun m => strlen (content m) <= 303) l).
  { intros l Hl. apply Forall_forall. intros m Hm.
    apply Hall, shown_in_compressed, Hl, Hm. }
  pose proof (bundleSection_length criticalTitle tick (shownCritical compressed)
                (Hshown _ (fun m H => in_or_app _ _ _ (or_introl H)))) as Hc.
  pose proof (bundleSection_length highTitle dot (shownHigh compressed)
                (Hshown _ (fun m H =>
                   in_or_app _ _ _ (or_intror
                     (in_or_app _ _ _ (or_introl H)))))) as Hh.
  pose proof (bundleSection_length mediumTitle dash (shownMedium compressed)
                (Hshown _ (fun m H =>
                   in_or_app _ _ _ (or_intror
                     (in_or_app _ _ _ (or_intror H)))))) as Hm.
  destruct (shown_sizes compressed) as [_ Hten].
  change (strlen criticalTitle) with 40 in Hc.
  change (strlen highTitle) with 28 in Hh.
  change (strlen mediumTitle) with 21 in Hm.
  change (strlen tick) with 1 in Hc.
  change (strlen dot) with 1 in Hh.
  change (strlen dash) with 1 in Hm.
  assert (0 <= len (shownCritical compressed)
          /\ 0 <= len (shownHigh compressed)
          /\ 0 <= len (shownMedium compressed)) by (unfold len; lia).
  unfold strlen in *. rewrite !length_app.
  change (length bundleHeader) with 265%nat.
  change (length bundleFooter) with 105%nat.
  destruct (len (shownCritical compressed) =? 0);
    destruct (len (shownHigh compressed) =? 0);
    destruct (len (shownMedium compressed) =? 0); lia.
Qed.

End CompressorLaws.

(* ================================================================= *)
(** ** memoryInjector.ts: the injection into the document *)

Module InjectionLaws.
Import Injector Injection CompressorFacts CompressorLaws.

Lemma startsWith_split (s x : jsstring) :
  startsWith s x = true -> exists b, s = x ++ b.
Proof.
  revert s. induction x as [|c x IH]; intros s H; [now exists s|].
  destruct s as [|d s]; [discriminate|]. simpl in H.
  apply andb_true_iff in H. destruct H as [Hc H]. apply N.eqb_eq in Hc.
  destruct (IH _ H) as [b ->]. exists b. now subst.
Qed.

Lemma includes_split (s x : jsstring) :
  includes s x = true <-> exists a b, s = a ++ x ++ b.
Proof.
  split.
  - induction s as [|c s IH]; rewrite includes_unfold; intros H;
      apply orb_true_iff in H; destruct H as [H|H]; try discriminate.
    + apply startsWith_split in H. destruct H as [b ->]. now exists [], b.
    + apply startsWith_split in H. destruct H as [b ->]. now exists [], b.
    + destruct (IH H) as (a & b & ->). now exists (c :: a), b.
  - intros (a & b & ->). apply includes_app.
Qed.

Lemma includes_trans (s t x : jsstring) :
  includes s t = true -> includes t x = true -> includes s x = true.
Proof.
  intros H1 H2. apply includes_split in H1. apply includes_split in H2.
  destruct H1 as (a & b & ->). destruct H2 as (a' & b' & ->).
  apply includes_split. exists (a ++ a'), (b' ++ b).
  now rewrite <- !app_assoc.
Qed.

Lemma includes_join (sep : jsstring) (l : list jsstring) (x : jsstring) :
  In x l -> includes (join sep l) x = true.
Proof.
  induction l as [|y l IH]; [contradiction|].
  intros [->|H].
  - destruct l; [apply includes_refl|].
    cbn [join]. apply (includes_app [] x).
  - specialize (IH H). destruct l as [|z l]; [contradiction|].
    cbn [join] in *. now apply includes_app_r, includes_app_r.
Qed.

(** *** Lines *)

Lemma splitChar_ne (sep : N) (s : jsstring) : splitChar sep s <> [].
Proof.
  induction s as [|c s IH]; simpl; [discriminate|].
  destruct (c =? sep)%N; [discriminate|].
  destruct (splitChar sep s); discriminate.
Qed.

Lemma splitChar_line (sep : N) (p s : jsstring) :
  ~ In sep p -> splitChar sep (p ++ sep :: s) = p :: splitChar sep s.
Proof.
  induction p as [|c p IH]; intros Hp.
  - simpl. now rewrite N.eqb_refl.
  - simpl app. cbn [splitChar].
    destruct (N.eqb_spec c sep) as [->|Hc]; [exfalso; apply Hp; now left|].
    rewrite IH by (intros H; apply Hp; now right). reflexivity.
Qed.

Lemma splitChar_last (sep : N) (p : jsstring) :
  ~ In sep p -> splitChar sep p = [p].
Proof.
  induction p as [|c p IH]; intros Hp; [reflexivity|].
  cbn [splitChar].
  destruct (N.eqb_spec c sep) as [->|Hc]; [exfalso; apply Hp; now left|].
  rewrite IH by (intros H; apply Hp; now right). reflexivity.
Qed.

Lemma splitChar_pieces (sep : N) (s : jsstring) :
  Forall (fun p => ~ In sep p) (splitChar sep s).
Proof.
  induction s as [|c s IH]; simpl; [repeat constructor; tauto|].
  destruct (N.eqb_spec c sep) as [->|Hc]; [constructor; [tauto | exact IH]|].
  destruct (splitChar sep s) as [|p ps]; [repeat constructor|].
  - simpl. intros [H|H]; [congruence | contradiction].
  - inversion IH as [|? ? Hp Hps]; subst. constructor; [|exact Hps].
    simpl. intros [H|H]; [congruence | contradiction].
Qed.

(** Joining lines and splitting the text again gives the lines back. *)
Lemma splitChar_join (sep : N) (l : list jsstring) :
  l <> [] -> Forall (fun p => ~ In sep p) l ->
  splitChar sep (join [sep] l) = l.
Proof.
  induction l as [|p l IH]; [congruence|]. intros _ H.
  inversion H as [|? ? Hp Hl]; subst.
  destruct l as [|q l]; [now apply splitChar_last|].
  cbn [join]. simpl app. rewrite splitChar_line by exact Hp.
  f_equal. now apply IH.
Qed.

Lemma join_split (sep : N) (s : jsstring) :
  join [sep] (splitChar sep s) = s.
Proof.
  induction s as [|c s IH]; [reflexivity|]. cbn [splitChar].
  pose proof (splitChar_ne sep s) as Hne.
  destruct (N.eqb_spec c sep) as [->|Hc].
  - destruct (splitChar sep s) as [|p ps] eqn:E; [congruence|].
    change (join [sep] ([] :: p :: ps)) with (sep :: join [sep] (p :: ps)).
    now rewrite IH.
  - destruct (splitChar sep s) as [|p ps] eqn:E; [congruence|].
    rewrite <- IH. destruct ps; reflexivity.
Qed.

Lemma join_snoc (sep : jsstring) (l : list jsstring) (x : jsstring) :
  l <> [] -> join sep (l ++ [x]) = join sep l ++ sep ++ x.
Proof.
  induction l as [|y l IH]; [congruence|]. intros _.
  destruct l as [|z l]; [reflexivity|].
  change ((y :: z :: l) ++ [x]) with (y :: (z :: l) ++ [x]).
  change (join sep (y :: (z :: l) ++ [x]))
    with (y ++ sep ++ join sep ((z :: l) ++ [x])).
  rewrite IH by discriminate. cbn [join]. now rewrite <- !app_assoc.
Qed.

Lemma In_join (sep : jsstring) (l : list jsstring) (c : N) :
  In c (join sep l) -> In c sep \/ exists x, In x l /\ In c x.
Proof.
  induction l as [|x l IH]; [contradiction|].
  destruct l as [|y l].
  - intros H. right. exists x. split; [now left | exact H].
  - cbn [join]. intros H.
    apply in_app_or in H. destruct H as [H|H];
      [right; exists x; split; [now left | exact H]|].
    apply in_app_or in H. destruct H as [H|H]; [now left|].
    destruct (IH H) as [Hs|(z & Hz & Hc)]; [now left|].
    right. exists z. split; [now right | exact Hc].
Qed.

Lemma In_splitChar (sep : N) (s p : jsstring) (c : N) :
  In p (splitChar sep s) -> In c p -> In c s.
Proof.
  intros Hp Hc. rewrite <- (join_split sep s).
  induction (splitChar sep s) as [|x l IH]; [contradiction|].
  destruct l as [|y l].
  - destruct Hp as [->|[]]. exact Hc.
  - cbn [join]. destruct Hp as [->|Hp].
    + apply in_or_app. now left.
    + apply in_or_app. right. apply in_or_app. right. now apply IH.
Qed.

(** A line between two separators is one of the pieces. *)
Lemma splitChar_tail_line (sep : N) (a line b : jsstring) :
  ~ In sep line ->
  In line (tl (splitChar sep (a ++ sep :: line ++ sep :: b))).
Proof.
  intros Hl. induction a as [|c a IH].
  - simpl app. cbn [splitChar]. rewrite N.eqb_refl. cbn [tl].
    rewrite splitChar_line by exact Hl. now left.
  - simpl app. cbn [splitChar].
    destruct (c =? sep)%N.
    + cbn [tl]. destruct (splitChar sep _); [contradiction | now right].
    + destruct (splitChar sep _); [contradiction | exact IH].
Qed.

(** *** The inserted text *)

Lemma inject_unfold (memories : list Memory) (existingText languageId : jsstring) :
  injectMemoriesToEditor memories existingText languageId =
  if len memories =? 0 then None
  else if includes existingText (str "CURSOR MEMORY CONTEXT")
          || includes existingText legacyMarker
  then None
  else Some (commentLines (commentPrefix languageId) (commentSuffix languageId)
               (formatMemoriesAsContext memories defaultMaxTokens)
             ++ nl ++ nl).
Proof.
  unfold injectMemoriesToEditor, commentPrefix, commentSuffix.
  destruct (len memories =? 0); [reflexivity|].
  destruct (_ || _); [reflexivity|].
  repeat match goal with
         | |- context [if ?c then _ else _] => destruct c
         end; reflexivity.
Qed.

Lemma header_line :
  exists a b,
    bundleHeader = a ++ 10%N :: headerMarker ++ 10%N :: b.
Proof.
  exists (nl ++ nl ++ concat (repeat (str "=") 40)).
  eexists. vm_compute. reflexivity.
Qed.

(** X9.  An injection happens once.  When the injection edits the
    document, the inserted text holds the marker [CURSOR MEMORY CONTEXT],
    and so does the document afterwards (the text is inserted at its
    top); from then on no injection edits the document again, whatever
    the selection and the language. *)
Theorem injection_happens_once
        (memories : list Memory) (existingText languageId text : jsstring) :
  injectMemoriesToEditor memories existingText languageId = Some text ->
  includes text (str "CURSOR MEMORY CONTEXT") = true
  /\ forall (memories' : list Memory) (languageId' : jsstring),
       injectMemoriesToEditor memories'
         (afterInjection (Some text) existingText) languageId' = None.
Proof.
  rewrite inject_unfold.
  destruct (Z.eqb_spec (len memories) 0) as [|Hne]; [discriminate|].
  destruct (_ || _); [discriminate|].
  intros H. injection H as Htext.
  assert (Hinc : includes text (str "CURSOR MEMORY CONTEXT") = true).
  { rewrite <- Htext. apply includes_app_l.
    assert (Hm : memories <> []) by (intros ->; now apply Hne).
    rewrite (format_sections memories defaultMaxTokens Hm). cbv zeta.
    destruct header_line as (a & b & ->).
    set (rest := bundleSection _ _ _ ++ _).
    unfold commentLines.
    set (f := fun line : jsstring => _).
    assert (Hin : In headerMarker
                     (splitChar 10 ((a ++ 10%N :: headerMarker ++ 10%N :: b)
                                    ++ rest))).
    { replace ((a ++ 10%N :: headerMarker ++ 10%N :: b) ++ rest)
        with (a ++ 10%N :: headerMarker ++ 10%N :: (b ++ rest))
        by (now rewrite <- app_assoc, <- app_comm_cons, <- app_assoc,
                        <- app_comm_cons).
      pose proof (splitChar_tail_line 10 a headerMarker (b ++ rest)) as Ht.
      destruct (splitChar 10 _); [apply Ht | right; apply Ht];
        vm_compute; intuition discriminate. }
    apply (in_map f) in Hin.
    apply (includes_join nl) in Hin.
    eapply includes_trans; [exact Hin|].
    subst f. cbv beta.
    change (trim headerMarker) with headerMarker.
    change headerMarker
      with (67%N :: tl headerMarker) at 1.
    cbv iota.
    eapply includes_trans; [apply includes_app|].
    vm_compute. reflexivity. }
  split; [exact Hinc|].
  intros memories' languageId'. rewrite inject_unfold.
  destruct (len memories' =? 0); [reflexivity|].
  unfold afterInjection.
  rewrite (includes_app_l _ _ existingText Hinc). reflexivity.
Qed.

(** *** The inserted text is made of comments *)

Lemma closed_terminators (s : jsstring) :
  forallb (fun c => negb (Regex.isLineTerminator c) || (c =? 10)%N) s = true ->
  forall c, In c s -> Regex.isLineTerminator c = true -> c = 10%N.
Proof.
  intros H c Hc Ht. rewrite forallb_forall in H. specialize (H c Hc).
  rewrite Ht in H. simpl in H. now apply N.eqb_eq.
Qed.

Lemma In_entries (bullet : jsstring) (ms : list Memory) (c : N) :
  In c (entries bullet ms) ->
  In c bullet \/ c = 32%N \/ c = 10%N \/ exists m, In m ms /\ In c (content m).
Proof.
  unfold entries. induction ms as [|m ms IH]; [contradiction|].
  cbn [map concat]. intros H.
  apply in_app_or in H. destruct H as [H|H].
  - apply in_app_or in H. destruct H as [H|H]; [now left|].
    apply in_app_or in H. destruct H as [[<-|[]]|H]; [tauto|].
    apply in_app_or in H. destruct H as [H|[<-|[]]]; [|tauto].
    do 3 right. exists m. split; [now left | exact H].
  - destruct (IH H) as [?|[?|[?|(x & Hx & Hc)]]]; try tauto.
    do 3 right. exists x. split; [now right | exact Hc].
Qed.

Lemma section_terminators (title bullet : jsstring) (shown : list Memory) :
  forallb (fun c => negb (Regex.isLineTerminator c) || (c =? 10)%N)
          (title ++ bullet) = true ->
  (forall m c, In m shown -> In c (content m) ->
     Regex.isLineTerminator c = false) ->
  forall c, In c (bundleSection title bullet shown) ->
    Regex.isLineTerminator c = true -> c = 10%N.
Proof.
  intros Hclosed Hshown c Hc Ht.
  pose proof (closed_terminators _ Hclosed) as Hcl.
  destruct shown as [|m0 shown]; [contradiction|].
  cbn [bundleSection] in Hc.
  apply in_app_or in Hc. destruct Hc as [Hc|Hc];
    [apply Hcl; [apply in_or_app; now left | exact Ht]|].
  apply in_app_or in Hc. destruct Hc as [[<-|[]]|Hc]; [reflexivity|].
  apply in_app_or in Hc. destruct Hc as [Hc|Hc].
  { revert Hc Ht. apply closed_terminators. vm_compute. reflexivity. }
  apply in_app_or in Hc. destruct Hc as [Hc|[<-|[]]]; [|reflexivity].
  apply In_entries in Hc.
  destruct Hc as [Hc|[->|[->|(m & Hm & Hc)]]].
  - apply Hcl; [apply in_or_app; now right | exact Ht].
  - discriminate Ht.
  - reflexivity.
  - rewrite (Hshown m c Hm Hc) in Ht. discriminate Ht.
Qed.

(** The bundle has no line terminator but the line feed. *)
Lemma bundle_terminators (memories : list Memory) (maxTokens : Z) (c : N) :
  In c (formatMemoriesAsContext memories maxTokens) ->
  Regex.isLineTerminator c = true -> c = 10%N.
Proof.
  destruct memories as [|m0 ms]; [contradiction|].
  rewrite format_sections by discriminate. cbv zeta.
  set (compressed := compressMemories (m0 :: ms) maxTokens).
  assert (Hall : forall l,
             (forall m, In m l ->
                In m (shownCritical compressed ++ shownHigh compressed
                      ++ shownMedium compressed)) ->
             forall m c, In m l -> In c (content m) ->
               Regex.isLineTerminator c = false).
  { intros l Hl m d Hm Hd.
    apply Hl, shown_in_compressed, compressed_content in Hm.
    destruct Hm as (x & a & _ & ->). simpl in Hd.
    now apply (compressContent_one_line (content x) a). }
  intros Hc Ht.
  apply in_app_or in Hc. destruct Hc as [Hc|Hc].
  { revert Hc Ht. apply closed_terminators. vm_compute. reflexivity. }
  apply in_app_or in Hc. destruct Hc as [Hc|Hc].
  { revert c Hc Ht. apply section_terminators; [vm_compute; reflexivity|].
    apply Hall. intros m H. apply in_or_app. now left. }
  apply in_app_or in Hc. destruct Hc as [Hc|Hc].
  { revert c Hc Ht. apply section_terminators; [vm_compute; reflexivity|].
    apply Hall. intros m H. apply in_or_app. right. apply in_or_app. now left. }
  apply in_app_or in Hc. destruct Hc as [Hc|Hc].
  { revert c Hc Ht. apply section_terminators; [vm_compute; reflexivity|].
    apply Hall. intros m H. apply in_or_app. right. apply in_or_app. now right. }
  revert Hc Ht. apply closed_terminators. vm_compute. reflexivity.
Qed.

Lemma delimiters_plain (languageId : jsstring) (c : N) :
  In c (commentPrefix languageId) \/ In c (commentSuffix languageId) ->
  Regex.isLineTerminator c = false.
Proof.
  unfold commentPrefix, commentSuffix.
  repeat match goal with
         | |- context [if ?b then _ else _] => destruct b
         end;
    simpl; intros H;
    repeat match goal with
           | H : _ \/ _ |- _ => destruct H as [H|H]
           | H : False |- _ => contradiction
           | H : _ = c |- _ => subst c
           end; reflexivity.
Qed.

(** X10.  What the injection inserts is made of whole comment lines.
    The only line terminator of the inserted text is the line feed
    (record contents are printed on one line each), and every line of the
    text is either empty or starts with the comment prefix of the
    language of the document and ends with its comment suffix. *)
Theorem injected_text_is_commented
        (memories : list Memory) (existingText languageId text : jsstring) :
  injectMemoriesToEditor memories existingText languageId = Some text ->
  (forall c, In c text -> Regex.isLineTerminator c = true -> c = 10%N)
  /\ Forall (fun line =>
               line = []
               \/ exists body,
                    line = commentPrefix languageId ++ body
                           ++ commentSuffix languageId)
            (splitChar 10 text).
Proof.
  rewrite inject_unfold.
  destruct (len memories =? 0); [discriminate|].
  destruct (_ || _); [discriminate|].
  intros H. injection H as Htext.
  set (ctx := formatMemoriesAsContext memories defaultMaxTokens) in *.
  unfold commentLines in Htext.
  set (f := fun line : jsstring => _) in Htext.
  set (L := map f (splitChar 10 ctx)) in *.
  assert (Hf : forall p, f p = [] \/ f p = commentPrefix languageId ++ p
                                          ++ commentSuffix languageId).
  { intros p. subst f. cbv beta. destruct (trim p); [now left | now right]. }
  assert (HL : L <> []).
  { subst L. pose proof (splitChar_ne 10 ctx).
    destruct (splitChar 10 ctx); [congruence | discriminate]. }
  split.
  - intros c Hc Ht. rewrite <- Htext in Hc.
    apply in_app_or in Hc. destruct Hc as [Hc|Hc].
    + apply In_join in Hc. destruct Hc as [[<-|[]]|(x & Hx & Hc)];
        [reflexivity|].
      subst L. apply in_map_iff in Hx. destruct Hx as (p & <- & Hp).
      destruct (Hf p) as [E|E]; rewrite E in Hc; [contradiction|].
      apply in_app_or in Hc. destruct Hc as [Hc|Hc].
      { rewrite (delimiters_plain languageId c) in Ht by now left.
        discriminate Ht. }
      apply in_app_or in Hc. destruct Hc as [Hc|Hc].
      { apply (bundle_terminators memories defaultMaxTokens); [|exact Ht].
        eapply In_splitChar; eassumption. }
      rewrite (delimiters_plain languageId c) in Ht by now right.
      discriminate Ht.
    + simpl in Hc. destruct Hc as [<-|[<-|[]]]; reflexivity.
  - assert (Hjoin : text = join [10%N] ((L ++ [[]]) ++ [[]])).
    { rewrite !join_snoc by (try exact HL; destruct L; discriminate).
      rewrite <- Htext. rewrite !app_nil_r, <- !app_assoc. reflexivity. }
    assert (Hno : Forall (fun p => ~ In 10%N p) ((L ++ [[]]) ++ [[]])).
    { apply Forall_app. split; [apply Forall_app; split|];
        try (repeat constructor; tauto).
      subst L. apply Forall_forall. intros x Hx.
      apply in_map_iff in Hx. destruct Hx as (p & <- & Hp).
      pose proof (splitChar_pieces 10 ctx) as Hpieces.
      rewrite Forall_forall in Hpieces. specialize (Hpieces p Hp).
      destruct (Hf p) as [E|E]; rewrite E; [tauto|].
      intros Hin. apply in_app_or in Hin. destruct Hin as [Hin|Hin].
      { pose proof (delimiters_plain languageId 10 (or_introl Hin)).
        discriminate. }
      apply in_app_or in Hin. destruct Hin as [Hin|Hin]; [tauto|].
      pose proof (delimiters_plain languageId 10 (or_intror Hin)).
      discriminate. }
    rewrite Hjoin, splitChar_join by (try exact Hno; destruct L; discriminate).
    apply Forall_app. split; [apply Forall_app; split|];
      try (repeat constructor; tauto).
    subst L. apply Forall_forall. intros x Hx.
    apply in_map_iff in Hx. destruct Hx as (p & <- & Hp).
    destruct (Hf p) as [E|E]; rewrite E; [now left | right; now exists p].
Qed.

End InjectionLaws.

(* ================================================================= *)
(** ** memoryStorage.ts: the store *)

Module StorageLaws.
Import Injector Storage.

Lemma streq_eq (a b : jsstring) : streq a b = true <-> a = b.
Proof.
  revert b. induction a as [|c a IH]; intros [|d b]; simpl;
    try (split; [discriminate | congruence]); [tauto|].
  rewrite andb_true_iff, N.eqb_eq, IH. split; [intros [-> ->] | intros [=]];
    auto.
Qed.

Lemma streq_neq (a b : jsstring) : streq a b = false <-> a <> b.
Proof.
  rewrite <- streq_eq. destruct (streq a b); split; congruence.
Qed.

Lemma arrayIncludes_In (l : list jsstring) (x : jsstring) :
  arrayIncludes l x = true <-> In x l.
Proof.
  unfold arrayIncludes. rewrite existsb_exists. split.
  - intros (y & Hy & E). apply streq_eq in E. now subst.
  - intros H. exists x. split; [exact H | now apply streq_eq].
Qed.

Lemma saveMemories_load (memories : list Memory) (d d' : Disk) :
  saveMemories memories d = Some d' ->
  loadMemories d' = memories /\ writable d' = true.
Proof.
  unfold saveMemories. destruct (writable d) eqn:E; [|discriminate].
  intros [= <-]. now split.
Qed.


Lemma findIndex_none {A} (p : A -> bool) (l : list A) :
  (forall x, In x l -> p x = false) -> findIndex p l = None.
Proof.
  induction l as [|x l IH]; intros H; [reflexivity|]. simpl.
  rewrite (H x) by now left. rewrite IH; [reflexivity|].
  intros y Hy. apply H. now right.
Qed.

Lemma findIndex_first {A} (p : A -> bool) (pre : list A) (x : A)
      (post : list A) :
  (forall y, In y pre -> p y = false) -> p x = true ->
  findIndex p (pre ++ x :: post) = Some (length pre).
Proof.
  induction pre as [|y pre IH]; intros Hpre Hx; simpl.
  - now rewrite Hx.
  - rewrite (Hpre y) by now left.
    rewrite IH; [reflexivity | | exact Hx].
    intros z Hz. apply Hpre. now right.
Qed.

Lemma updateAt_middle {A} (f : A -> A) (pre : list A) (x : A) (post : list A) :
  updateAt (length pre) f (pre ++ x :: post) = pre ++ f x :: post.
Proof. induction pre as [|y pre IH]; simpl; [reflexivity | now rewrite IH]. Qed.

(** X12.  Updating by id changes the first record that has the id and
    nothing else: the records before and after it, later records of the
    same id included, stay as they are, so the corpus keeps its length and
    order.  When no record has the id nothing is written: the disk stays
    as it is and the call succeeds even where writing is impossible. *)
Theorem updateMemory_first_match
        (id_ : jsstring) (updates : MemoryUpdate) (d : Disk) :
  ((forall m, In m (loadMemories d) -> id m <> id_) ->
   updateMemory id_ updates d = Some d)
  /\ forall pre m post,
      loadMemories d = pre ++ m :: post ->
      (forall x, In x pre -> id x <> id_) ->
      id m = id_ ->
      updateMemory id_ updates d
      = saveMemories (pre ++ applyUpdates m updates :: post) d.
Proof.
  split.
  - intros Hnone. unfold updateMemory.
    rewrite findIndex_none; [reflexivity|].
    intros m Hm. apply streq_neq, Hnone, Hm.
  - intros pre m post Hl Hpre Hm. unfold updateMemory. rewrite Hl.
    rewrite findIndex_first.
    + now rewrite updateAt_middle.
    + intros x Hx. apply streq_neq, Hpre, Hx.
    + now apply streq_eq.
Qed.

Lemma survives_iff (maxAge now : Z) (m : Memory) :
  survives maxAge now m = true <->
  importance m = CRITICAL \/ importance m = HIGH \/ now - timestamp m < maxAge.
Proof.
  unfold survives, isImportance.
  destruct (importance m); simpl.
  - split; [intros _; tauto | reflexivity].
  - split; [intros _; tauto | reflexivity].
  - destruct (Z.ltb_spec (now - timestamp m) maxAge) as [Hlt|Hge]; split;
      [intros Ht | intros [Hc|[Hc|Hc]] | intros Ht | intros [Hc|[Hc|Hc]]];
      first [discriminate | reflexivity | tauto | lia].
  - destruct (Z.ltb_spec (now - timestamp m) maxAge) as [Hlt|Hge]; split;
      [intros Ht | intros [Hc|[Hc|Hc]] | intros Ht | intros [Hc|[Hc|Hc]]];
      first [discriminate | reflexivity | tauto | lia].
Qed.

Lemma filter_length_le {A} (p : A -> bool) (l : list A) :
  (length (filter p l) <= length l)%nat.
Proof.
  induction l as [|x l IH]; simpl; [lia|]. destruct (p x); simpl; lia.
Qed.

Lemma filter_idem {A} (p : A -> bool) (l : list A) :
  filter p (filter p l) = filter p l.
Proof.
  apply filter_all. intros x Hx. apply filter_In in Hx. tauto.
Qed.

(** X13.  Cleaning.  [cleanExpiredMemories] keeps, in order, every
    critical record, every high record and every record younger than the
    age limit, and removes the others: the medium and low records at
    least as old as the limit.  The number it returns is the number of
    records removed, and cleaning again at the same time removes
    nothing. *)
Theorem cleanExpiredMemories_spec (maxAge now : Z) (d d' : Disk) (n : Z) :
  cleanExpiredMemories maxAge now d = Some (n, d') ->
  loadMemories d' = filter (survives maxAge now) (loadMemories d)
  /\ n = len (loadMemories d) - len (loadMemories d')
  /\ 0 <= n
  /\ (forall m, In m (loadMemories d') <->
        In m (loadMemories d)
        /\ (importance m = CRITICAL \/ importance m = HIGH
            \/ now - timestamp m < maxAge))
  /\ (forall m, In m (loadMemories d) -> ~ In m (loadMemories d') ->
        (importance m = MEDIUM \/ importance m = LOW)
        /\ maxAge <= now - timestamp m)
  /\ cleanExpiredMemories maxAge now d' = Some (0, d').
Proof.
  unfold cleanExpiredMemories.
  destruct (saveMemories _ d) as [d1|] eqn:Es; [|discriminate].
  intros [= <- <-].
  destruct (saveMemories_load _ _ _ Es) as [Hl Hw].
  assert (Hin : forall m, In m (loadMemories d1) <->
                  In m (loadMemories d)
                  /\ (importance m = CRITICAL \/ importance m = HIGH
                      \/ now - timestamp m < maxAge)).
  { intros m. rewrite Hl, filter_In, survives_iff. reflexivity. }
  split; [exact Hl|]. split; [now rewrite Hl|]. split.
  { pose proof (filter_length_le (survives maxAge now) (loadMemories d)).
    unfold Injector.len. lia. }
  split; [exact Hin|]. split.
  - intros m Hm Hnot. rewrite Hin in Hnot.
    assert (Hc : importance m <> CRITICAL) by (intros E; apply Hnot; tauto).
    assert (Hh : importance m <> HIGH) by (intros E; apply Hnot; tauto).
    assert (Ha : ~ now - timestamp m < maxAge)
      by (intros E; apply Hnot; tauto).
    split; [destruct (importance m); first [tauto | congruence] | lia].
  - rewrite Hl. rewrite filter_idem. unfold saveMemories in *.
    rewrite Hw. destruct (writable d); [|discriminate].
    injection Es as <-. cbn [writable]. rewrite Z.sub_diag. reflexivity.
Qed.

Lemma clean_load (maxAge now : Z) (d d' : Disk) (n : Z) :
  cleanExpiredMemories maxAge now d = Some (n, d') ->
  loadMemories d' = filter (survives maxAge now) (loadMemories d).
Proof.
  unfold cleanExpiredMemories.
  destruct (saveMemories _ d) as [d1|] eqn:Es; [|discriminate].
  intros [= <- <-]. now apply saveMemories_load in Es.
Qed.

Lemma batch_load (ids : list jsstring) (lvl : ImportanceLevel) (d d1 : Disk) :
  batchUpdateImportance ids lvl d = Some d1 ->
  loadMemories d1
  = map (fun memory => if arrayIncludes ids (id memory)
                       then withImportance memory lvl else memory)
        (loadMemories d).
Proof. intros H. now apply saveMemories_load in H. Qed.

(** X14.  Promotion protects.  [batchUpdateImportance] changes nothing
    but the importance of the records whose id is listed (the corpus
    keeps its ids and their order), and a record promoted to critical or
    high this way is never removed by a later cleaning, however old it
    is. *)
Theorem promoted_records_survive
        (ids : list jsstring) (lvl : ImportanceLevel) (maxAge now : Z)
        (d d1 d2 : Disk) (n : Z) :
  lvl = CRITICAL \/ lvl = HIGH ->
  batchUpdateImportance ids lvl d = Some d1 ->
  cleanExpiredMemories maxAge now d1 = Some (n, d2) ->
  map id (loadMemories d1) = map id (loadMemories d)
  /\ forall m,
      In m (loadMemories d) -> In (id m) ids ->
      In (withImportance m lvl) (loadMemories d1)
      /\ In (withImportance m lvl) (loadMemories d2).
Proof.
  intros Hlvl Hb Hc. pose proof (batch_load _ _ _ _ Hb) as Hl.
  split.
  - rewrite Hl, map_map. apply map_ext. intros m.
    destruct (arrayIncludes ids (id m)); reflexivity.
  - intros m Hm Hid.
    assert (H1 : In (withImportance m lvl) (loadMemories d1)).
    { rewrite Hl. apply in_map_iff. exists m. split; [|exact Hm].
      now rewrite (proj2 (arrayIncludes_In ids (id m)) Hid). }
    split; [exact H1|].
    rewrite (clean_load _ _ _ _ _ Hc). apply filter_In.
    split; [exact H1|]. apply survives_iff.
    simpl. destruct Hlvl as [->| ->]; tauto.
Qed.

(** *** The list of tags *)

Lemma compareStrings_eq (a b : jsstring) :
  compareStrings a b = Eq <-> a = b.
Proof.
  revert b. induction a as [|c a IH]; intros [|d b]; simpl;
    try (split; [discriminate | congruence]); [tauto|].
  destruct (N.compare_spec c d) as [->|Hlt|Hgt].
  - rewrite IH. split; [intros -> | intros [=]]; auto.
  - split; [discriminate | intros [= -> _]; lia].
  - split; [discriminate | intros [= -> _]; lia].
Qed.

Lemma compareStrings_antisym (a b : jsstring) :
  compareStrings b a = CompOpp (compareStrings a b).
Proof.
  revert b. induction a as [|c a IH]; intros [|d b]; simpl; try reflexivity.
  rewrite (N.compare_antisym c d).
  destruct (c ?= d)%N; simpl; [apply IH | reflexivity | reflexivity].
Qed.

Lemma compareStrings_lt_trans (a b c : jsstring) :
  compareStrings a b = Lt -> compareStrings b c = Lt ->
  compareStrings a c = Lt.
Proof.
  revert b c. induction a as [|x a IH]; intros [|y b] [|z c]; simpl;
    try discriminate; try reflexivity.
  destruct (N.compare_spec x y) as [->|Hxy|Hxy]; try discriminate.
  - destruct (N.compare_spec y z) as [->|Hyz|Hyz]; try discriminate.
    + apply IH.
    + reflexivity.
  - intros _.
    destruct (N.compare_spec y z) as [->|Hyz|Hyz]; try discriminate; intros _.
    + destruct (N.compare_spec x z); [lia | reflexivity | lia].
    + destruct (N.compare_spec x z); [lia | reflexivity | lia].
Qed.

Lemma defaultCompare_notAfter (a b : jsstring) :
  notAfter defaultCompare a b <-> compareStrings a b <> Gt.
Proof.
  unfold notAfter, defaultCompare.
  destruct (compareStrings a b); cbv; split;
    first [discriminate | reflexivity | congruence | tauto].
Qed.

Lemma defaultCompare_total (a b : jsstring) :
  Qle_bool (defaultCompare a b) 0 = false -> notAfter defaultCompare b a.
Proof.
  intros H. apply defaultCompare_notAfter.
  rewrite compareStrings_antisym.
  unfold defaultCompare in H.
  destruct (compareStrings a b); cbv in H |- *; congruence.
Qed.

Lemma defaultCompare_trans (a b c : jsstring) :
  notAfter defaultCompare a b -> notAfter defaultCompare b c ->
  notAfter defaultCompare a c.
Proof.
  rewrite !defaultCompare_notAfter. intros Hab Hbc.
  destruct (compareStrings a b) eqn:Eab; [| |congruence].
  - apply compareStrings_eq in Eab. now subst.
  - destruct (compareStrings b c) eqn:Ebc; [| |congruence].
    + apply compareStrings_eq in Ebc. subst. now rewrite Eab.
    + now rewrite (compareStrings_lt_trans _ _ _ Eab Ebc).
Qed.

Lemma setAdd_In (set : list jsstring) (x y : jsstring) :
  In y (setAdd set x) <-> In y set \/ y = x.
Proof.
  unfold setAdd. destruct (arrayIncludes set x) eqn:E.
  - apply arrayIncludes_In in E. split; [tauto | intros [H| ->]; auto].
  - rewrite in_app_iff. simpl. split.
    + intros [H|[<-|[]]]; auto.
    + intros [H| ->]; auto.
Qed.

Lemma setAdd_NoDup (set : list jsstring) (x : jsstring) :
  NoDup set -> NoDup (setAdd set x).
Proof.
  intros H. unfold setAdd. destruct (arrayIncludes set x) eqn:E; [exact H|].
  assert (Hx : ~ In x set).
  { intros Hin. apply arrayIncludes_In in Hin. congruence. }
  clear E. induction H as [|y l Hy Hl IH]; simpl.
  - constructor; [tauto | constructor].
  - constructor.
    + rewrite in_app_iff. simpl. intros [H|[H|[]]]; [tauto|].
      apply Hx. now left.
    + apply IH. intros H. apply Hx. now right.
Qed.

Lemma addTags_spec (l set : list jsstring) :
  (forall y, In y (fold_left setAdd l set) <-> In y set \/ In y l)
  /\ (NoDup set -> NoDup (fold_left setAdd l set)).
Proof.
  revert set. induction l as [|x l IH]; intros set; simpl.
  - split; [intros y; tauto | auto].
  - destruct (IH (setAdd set x)) as [Hin Hnd]. split.
    + intros y. rewrite Hin, setAdd_In. split; intros [H|H]; auto.
      * destruct H as [H| ->]; auto.
      * destruct H as [<-|H]; auto.
    + intros H. now apply Hnd, setAdd_NoDup.
Qed.

Lemma tagSet_spec (memories : list Memory) (set : list jsstring) :
  let tagSet := fold_left (fun tagSet memory =>
                             fold_left setAdd (tags memory) tagSet)
                          memories set in
  (forall y, In y tagSet <->
     In y set \/ exists m, In m memories /\ In y (tags m))
  /\ (NoDup set -> NoDup tagSet).
Proof.
  revert set. induction memories as [|m memories IH]; intros set; simpl.
  - split; [|auto]. intros y. split; [tauto|].
    intros [H|(m & [] & _)]. exact H.
  - destruct (IH (fold_left setAdd (tags m) set)) as [Hin Hnd].
    destruct (addTags_spec (tags m) set) as [Hin1 Hnd1]. split.
    + intros y. rewrite Hin, Hin1. split.
      * intros [[H|H]|(x & Hx & Hy)]; eauto 6.
      * intros [H|(x & [<-|Hx] & Hy)]; eauto 6.
    + intros H. now apply Hnd, Hnd1.
Qed.

(** X15.  The list of tags is a sorted set: [getAllTags] answers the
    tags in strictly ascending order of their code units, so that no tag
    comes twice, and it answers exactly the tags that some record of the
    corpus carries. *)
Theorem getAllTags_sorted_set (d : Disk) :
  StronglySorted stringLt (getAllTags d)
  /\ forall tag,
      In tag (getAllTags d) <->
      exists m, In m (loadMemories d) /\ In tag (tags m).
Proof.
  unfold getAllTags.
  destruct (tagSet_spec (loadMemories d) []) as [Hin Hnd]. cbv zeta in *.
  set (tagSet := fold_left _ _ _) in *.
  split.
  - assert (Hs : StronglySorted (notAfter defaultCompare)
                   (jsSort defaultCompare tagSet))
      by (apply jsSort_sorted;
          [apply defaultCompare_total | apply defaultCompare_trans]).
    assert (Hn : NoDup (jsSort defaultCompare tagSet)).
    { eapply Permutation_NoDup;
        [symmetry; apply jsSort_perm | apply Hnd; constructor]. }
    induction Hs as [|x l Hs IH Hx]; [constructor|].
    inversion Hn as [|? ? Hnotin Hn']; subst.
    constructor; [now apply IH|].
    rewrite Forall_forall in *. intros y Hy.
    specialize (Hx y Hy). apply defaultCompare_notAfter in Hx.
    unfold stringLt. destruct (compareStrings x y) eqn:E; [|reflexivity|congruence].
    apply compareStrings_eq in E. subst. contradiction.
  - intros tag. rewrite jsSort_In, Hin. split; [intros [[]|H]; exact H | auto].
Qed.

(** *** The fuzzy search *)

Section Search.
Variable toLowerCase : jsstring -> jsstring.

Abbreviation score := (calculateMatchScore toLowerCase).

Lemma byMatchScore_notAfter (words : list jsstring) (a b : Memory) :
  notAfter (byMatchScore toLowerCase words) a b <->
  (score b words <= score a words)%Q.
Proof.
  unfold notAfter, byMatchScore. rewrite Qle_bool_iff. split; intros H; lra.
Qed.

Lemma score_fold (m : Memory) (words : list jsstring) (acc : Q) :
  let step := fun (score : Q) (word : jsstring) =>
    let score :=
      if includes (toLowerCase (content m)) word then (score + 2)%Q else score in
    let score :=
      if includes (toLowerCase (join (str " ") (tags m))) word
      then (score + 3)%Q else score in
    if isImportance CRITICAL m then (score + 1)%Q
    else if isImportance HIGH m then (score + (1 # 2))%Q
    else score in
  (acc <= fold_left step words acc)%Q
  /\ ((exists word, In word words
         /\ includes (toLowerCase (content m)) word
            || includes (toLowerCase (join (str " ") (tags m))) word = true) ->
      (acc + 2 <= fold_left step words acc)%Q).
Proof.
  intros step. revert acc. induction words as [|w words IH]; intros acc.
  - split; [simpl; lra|]. intros (word & [] & _).
  - cbn [fold_left].
    destruct (IH (step acc w)) as [Hmono Hmatch].
    assert (Hstep : (acc <= step acc w)%Q).
    { subst step. cbv beta zeta.
      destruct (includes (toLowerCase (content m)) w);
        destruct (includes (toLowerCase (join (str " ") (tags m))) w);
        destruct (isImportance CRITICAL m);
        destruct (isImportance HIGH m); lra. }
    split; [lra|].
    intros (word & [<-|Hw] & Hinc).
    + assert (Hstep2 : (acc + 2 <= step acc w)%Q).
      { subst step. cbv beta zeta.
        destruct (includes (toLowerCase (content m)) w);
          destruct (includes (toLowerCase (join (str " ") (tags m))) w);
          try discriminate Hinc;
          destruct (isImportance CRITICAL m);
          destruct (isImportance HIGH m); lra. }
      lra.
    + assert ((step acc w + 2 <= fold_left step words (step acc w))%Q)
        by (apply Hmatch; eauto).
      lra.
Qed.

Lemma matchesSome_word (words : list jsstring) (m : Memory) :
  matchesSome toLowerCase words m = true ->
  exists word, In word words
    /\ includes (toLowerCase (content m)) word
       || includes (toLowerCase (join (str " ") (tags m))) word = true.
Proof.
  unfold matchesSome. cbv zeta. intros H. apply Z.ltb_lt in H.
  destruct (filter _ words) as [|w l] eqn:E; [unfold Injector.len in H; simpl in H; lia|].
  assert (Hw : In w (filter
                 (fun word => includes (toLowerCase (content m)) word
                              || includes (toLowerCase
                                             (join (str " ") (tags m))) word)
                 words)) by (rewrite E; now left).
  apply filter_In in Hw. exists w. exact Hw.
Qed.

(** X16.  The fuzzy search.  A query without a word (empty, or white
    space only) answers the whole corpus in stored order.  Otherwise the
    answer holds exactly the records in which at least one word of the
    query occurs, in the content or in the tags; it is in descending
    order of match score, records of equal score in stored order, and
    every record of the answer scores at least 2. *)
Theorem fuzzySearchMemories_spec (query : jsstring) (d : Disk) :
  let words := wordsOf toLowerCase query in
  let answer := fuzzySearchMemories toLowerCase query d in
  (words = [] -> answer = loadMemories d)
  /\ (words <> [] ->
      Permutation answer
        (filter (matchesSome toLowerCase words) (loadMemories d))
      /\ StronglySorted
           (fun a b => (score b words <= score a words)%Q) answer
      /\ (forall s : Q,
            filter (fun m => Qeq_bool (score m words) s) answer
            = filter (fun m => matchesSome toLowerCase words m
                               && Qeq_bool (score m words) s)
                     (loadMemories d))
      /\ (forall m, In m answer -> (2 <= score m words)%Q)).
Proof.
  intros words answer. subst answer. unfold fuzzySearchMemories.
  fold words. split.
  - intros ->. reflexivity.
  - intros Hne.
    assert (E : (Injector.len words =? 0) = false).
    { apply Z.eqb_neq. unfold Injector.len.
      destruct words; [congruence | simpl; lia]. }
    rewrite E. clear E.
    split; [apply jsSort_perm|]. split; [|split].
    + eapply StronglySorted_impl_in;
        [|apply jsSort_sorted].
      * intros a b _ _ H. now apply byMatchScore_notAfter.
      * intros a b H. apply byMatchScore_notAfter.
        unfold byMatchScore in H. cbv zeta in H.
        destruct (Qle_bool _ 0) eqn:Eq in H; [discriminate|].
        assert (~ (score b words - score a words <= 0)%Q)
          by (rewrite <- Qle_bool_iff; congruence).
        lra.
      * intros a b c. rewrite !byMatchScore_notAfter. lra.
    + intros s. rewrite jsSort_stable.
      * apply filter_filter_and.
      * intros x y Hx Hy. apply Qeq_bool_iff in Hx. apply Qeq_bool_iff in Hy.
        apply byMatchScore_notAfter. lra.
    + intros m Hm. apply jsSort_In, filter_In in Hm. destruct Hm as [_ Hm].
      apply matchesSome_word in Hm.
      pose proof (score_fold m words 0) as [_ H]. cbv zeta in H.
      specialize (H Hm). unfold calculateMatchScore. cbv zeta. lra.
Qed.

End Search.

End StorageLaws.

(* ================================================================= *)
(** ** codeValidator.ts and architectureChecker.ts: verdict and cache *)

Module ValidatorLaws.
Import Validator.

Lemma countType_zero (l : list ValidationIssue) :
  countType error l = 0 <-> Forall (fun i => type i <> error) l.
Proof.
  unfold countType. induction l as [|i l IH]; simpl.
  - split; [constructor | reflexivity].
  - destruct (type i) eqn:E; simpl.
    + split; [lia|]. intros H. inversion H; subst. congruence.
    + rewrite IH. split; [constructor; [congruence | assumption]|].
      intros H. now inversion H.
    + rewrite IH. split; [constructor; [congruence | assumption]|].
      intros H. now inversion H.
Qed.

Lemma countType_sum (l : list ValidationIssue) :
  countType error l + countType warning l + countType info l
  = Z.of_nat (length l).
Proof.
  unfold countType. induction l as [|i l IH]; [reflexivity|].
  cbn [filter length]. destruct (type i); simpl IssueType_eqb; cbv iota;
    cbn [length]; lia.
Qed.

Lemma countType_app (t : IssueType) (l1 l2 : list ValidationIssue) :
  countType t (l1 ++ l2) = countType t l1 + countType t l2.
Proof. unfold countType. rewrite filter_app, length_app. lia. Qed.

Lemma countType_nonneg (t : IssueType) (l : list ValidationIssue) :
  0 <= countType t l.
Proof. unfold countType. lia. Qed.

Lemma countType_fromArchitecture (t : IssueType)
      (l : list Architecture.ArchitectureIssue) :
  countType t (map fromArchitecture l) = Architecture.countType t l.
Proof.
  unfold countType, Architecture.countType. f_equal.
  induction l as [|i l IH]; [reflexivity|]. simpl.
  destruct (IssueType_eqb (Architecture.type i) t); simpl; now rewrite IH.
Qed.

Section WithRuntime.
Variable toLowerCase : jsstring -> jsstring.
Variable basename : jsstring -> jsstring.
Variable relative : jsstring -> jsstring -> jsstring.

Abbreviation check c stored now ws code path lang :=
  (Architecture.checkArchitecture toLowerCase basename relative
     c stored now ws code path lang).

Abbreviation run v stored now ws code path lang :=
  (validateCode toLowerCase basename relative v stored now ws code path lang).

(** The issues of a validation, by stage. *)
Lemma run_issues (v : CodeValidator) (stored : list Memory) (now : Z)
      (ws : option jsstring) (code path lang : jsstring) :
  let result := fst (run v stored now ws code path lang) in
  issues result =
    validateArchitecture (memories v) code path
    ++ match architectureChecker v with
       | Some c =>
           map fromArchitecture
               (Architecture.issues (fst (check c stored now ws code path lang)))
       | None => []
       end
    ++ validateNaming toLowerCase (memories v) code lang
    ++ validateCodeStyle (memories v) code lang
    ++ validateBusinessRules toLowerCase (memories v) code
    ++ validateConstraints (memories v) code
  /\ passed result = (countType error (issues result) =? 0).
Proof.
  unfold validateCode.
  destruct (architectureChecker v) as [c|].
  - destruct (check c stored now ws code path lang) as [r c']. split; reflexivity.
  - split; reflexivity.
Qed.

(** X17.  The verdict.  A validation passes exactly when none of its
    diagnostics is an error: warnings and hints never fail it.  The three
    counts of its summary add up to the number of diagnostics.  And an
    error of the architecture checker is an error of the validation:
    when the check of the validator's checker fails, so does the
    validation. *)
Theorem validateCode_verdict
        (v : CodeValidator) (stored : list Memory) (now : Z)
        (ws : option jsstring) (code path lang : jsstring) :
  let result := fst (run v stored now ws code path lang) in
  (passed result = true <->
   Forall (fun i => type i <> error) (issues result))
  /\ countType error (issues result) + countType warning (issues result)
     + countType info (issues result) = Z.of_nat (length (issues result))
  /\ match architectureChecker v with
     | Some c =>
         Architecture.passed (fst (check c stored now ws code path lang))
           = false ->
         passed result = false
     | None => True
     end.
Proof.
  intros result.
  destruct (run_issues v stored now ws code path lang) as [Hi Hp].
  fold result in Hi, Hp.
  split; [|split].
  - rewrite Hp, Z.eqb_eq. apply countType_zero.
  - apply countType_sum.
  - destruct (architectureChecker v) as [c|] eqn:Ec; [|exact I].
    intros Hfail. rewrite Hp, Hi.
    rewrite !countType_app, countType_fromArchitecture.
    assert (Ha : Architecture.countType error
                   (Architecture.issues
                      (fst (check c stored now ws code path lang))) <> 0).
    { unfold Architecture.checkArchitecture in Hfail |- *.
      cbn [fst Architecture.passed Architecture.issues] in Hfail |- *.
      now apply Z.eqb_neq in Hfail. }
    apply Z.eqb_neq.
    pose proof (countType_nonneg error
                  (validateArchitecture (memories v) code path)).
    pose proof (countType_nonneg error
                  (validateNaming toLowerCase (memories v) code lang)).
    pose proof (countType_nonneg error
                  (validateCodeStyle (memories v) code lang)).
    pose proof (countType_nonneg error
                  (validateBusinessRules toLowerCase (memories v) code)).
    pose proof (countType_nonneg error
                  (validateConstraints (memories v) code)).
    assert (0 <= Architecture.countType error
                   (Architecture.issues
                      (fst (check c stored now ws code path lang))))
      by (unfold Architecture.countType; lia).
    lia.
Qed.

(** X18.  Validation without memories.  A validator constructed on an
    empty corpus, without storage or with a storage that holds nothing,
    never fails: its only diagnostics are the naming warnings of the
    default style of the language, which refer to no record; for a
    language without a default style there is no diagnostic at all. *)
Theorem validation_without_memories
        (withStorage : bool) (now : Z) (ws : option jsstring)
        (code path lang : jsstring) :
  let storage := if withStorage then Some [] else None in
  let result :=
    fst (run (newCodeValidator toLowerCase [] storage)
             [] now ws code path lang) in
  passed result = true
  /\ Forall (fun i => type i = warning /\ memoryId i = None) (issues result)
  /\ (getDefaultNamingStyle toLowerCase lang = None -> issues result = []).
Proof.
  intros storage result.
  destruct (run_issues (newCodeValidator toLowerCase [] storage)
                       [] now ws code path lang) as [Hi Hp].
  fold result in Hi, Hp. clearbody result.
  assert (Harch : match architectureChecker
                          (newCodeValidator toLowerCase [] storage) with
                  | Some c =>
                      map fromArchitecture
                        (Architecture.issues
                           (fst (check c [] now ws code path lang)))
                  | None => []
                  end = []).
  { subst storage. destruct withStorage; [|reflexivity].
    cbn [newCodeValidator architectureChecker].
    unfold Architecture.checkArchitecture, Architecture.newChecker.
    cbn [filter Architecture.lastUpdateTime].
    destruct (Architecture.updateInterval <? now - 0);
      cbn [Architecture.loadArchitectureMemories Architecture.completePending
           Architecture.architectureMemories Architecture.pendingLoad filter
           Architecture.checkArchitectureConstraints
           Architecture.checkModuleDivision Architecture.checkDependencies
           Architecture.checkArchitectureNaming flat_map app fst map
           Architecture.issues];
      destruct ws; reflexivity. }
  rewrite Harch in Hi. cbn in Hi.
  unfold validateNaming in Hi. cbn in Hi. rewrite app_nil_r in Hi.
  assert (Hall : Forall (fun i => type i = warning /\ memoryId i = None)
                        (issues result)).
  { rewrite Hi. destruct (getDefaultNamingStyle toLowerCase lang); [|constructor].
    apply Forall_forall. intros i Hin. apply in_map_iff in Hin.
    destruct Hin as (x & <- & _). split; reflexivity. }
  split; [|split].
  - rewrite Hp. apply Z.eqb_eq, countType_zero.
    eapply Forall_impl; [|exact Hall]. intros i [-> _]. discriminate.
  - exact Hall.
  - intros Hnone. rewrite Hi, Hnone. reflexivity.
Qed.

(** X19.  The cache of the architecture checker.  A checker that loaded
    its records no more than 10 seconds ago, and has no load pending,
    answers from its cache: the check does not depend on what the storage
    holds now, and leaves the checker as it was.  A checker whose cache
    is older reads the storage: after the check its cache holds the
    architecture records stored at that time. *)
Theorem architecture_cache_policy
        (c : Architecture.Checker) (stored stored' : list Memory) (now : Z)
        (ws : option jsstring) (code path lang : jsstring) :
  Architecture.pendingLoad c = None ->
  (now - Architecture.lastUpdateTime c <= Architecture.updateInterval ->
   check c stored now ws code path lang = check c stored' now ws code path lang
   /\ snd (check c stored now ws code path lang) = c)
  /\ (Architecture.updateInterval < now - Architecture.lastUpdateTime c ->
      snd (check c stored now ws code path lang)
      = Architecture.mkChecker
          (filter (Architecture.isArchitectureMemory toLowerCase) stored)
          now None).
Proof.
  intros Hp. unfold Architecture.checkArchitecture. split.
  - intros Hfresh.
    assert (E : (Architecture.updateInterval
                 <? now - Architecture.lastUpdateTime c) = false)
      by (apply Z.ltb_ge; exact Hfresh).
    rewrite E. cbv zeta.
    unfold Architecture.completePending. rewrite Hp.
    split; reflexivity.
  - intros Hstale.
    assert (E : (Architecture.updateInterval
                 <? now - Architecture.lastUpdateTime c) = true)
      by (apply Z.ltb_lt; exact Hstale).
    rewrite E. reflexivity.
Qed.

End WithRuntime.
End ValidatorLaws.

(* ================================================================= *)
(** ** memoryManager.ts: the automatic adjustment *)

Module ManagerLaws.
Import Storage Manager StorageLaws.

Lemma withImportance_same (m : Memory) : withImportance m (importance m) = m.
Proof. destruct m. reflexivity. Qed.

Lemma adjust_spec (now : Z) (m : Memory) :
  fst (adjust now m) = withImportance m (importance (fst (adjust now m)))
  /\ oneStep (importance m) (importance (fst (adjust now m)))
  /\ (snd (adjust now m) = false -> fst (adjust now m) = m)
  /\ (importance m = CRITICAL -> adjust now m = (m, false)).
Proof.
  unfold adjust, oneStep, isImportance. cbv zeta.
  destruct (_ <? timestamp m).
  - destruct (importance m) eqn:Ei; cbn [importance_eqb andb].
    + rewrite <- Ei, withImportance_same. rewrite Ei. repeat split; auto.
    + rewrite <- Ei, withImportance_same. rewrite Ei. repeat split; auto.
    + destruct (match confidence m with Some _ => _ | None => _ end);
        cbn [fst snd].
      * repeat split; try discriminate; auto.
      * rewrite <- Ei, withImportance_same. rewrite Ei. repeat split; auto.
    + cbn [fst snd]. repeat split; try discriminate; auto.
  - destruct (importance m) eqn:Ei; cbn [importance_eqb andb];
      try (rewrite <- Ei, withImportance_same; rewrite Ei;
           repeat split; auto; fail).
    destruct (timestamp m <? _); cbn [fst snd].
    + repeat split; try discriminate; auto 6.
    + rewrite <- Ei, withImportance_same. rewrite Ei. repeat split; auto.
Qed.

(** X20.  The automatic adjustment moves the importance of a record by
    one step at most, and only between low, medium and high: low to
    medium, medium to high, high to medium.  It changes nothing else in a
    record, it leaves the critical records alone and makes no record
    critical or low; and when no record is adjusted the corpus is not
    written. *)
Theorem autoAdjustImportance_one_step (now : Z) (d d' : Disk) (n : Z) :
  autoAdjustImportance now d = Some (n, d') ->
  Forall2 (fun before after =>
             after = withImportance before (importance after)
             /\ oneStep (importance before) (importance after)
             /\ (importance before = CRITICAL -> after = before))
          (loadMemories d) (loadMemories d')
  /\ 0 <= n <= Injector.len (loadMemories d)
  /\ (n = 0 -> d' = d).
Proof.
  unfold autoAdjustImportance. cbv zeta.
  set (adjusted := map (adjust now) (loadMemories d)).
  assert (Hcount : 0 <= Injector.len (filter snd adjusted)
                   <= Injector.len (loadMemories d)).
  { pose proof (filter_length_le snd adjusted) as H.
    subst adjusted. rewrite length_map in H. unfold Injector.len. lia. }
  assert (Hall : Forall2 (fun before after =>
             after = withImportance before (importance after)
             /\ oneStep (importance before) (importance after)
             /\ (importance before = CRITICAL -> after = before))
          (loadMemories d) (map fst adjusted)).
  { subst adjusted. clear Hcount.
    induction (loadMemories d) as [|m l IH]; [constructor|].
    cbn [map]. constructor; [|exact IH].
    destruct (adjust_spec now m) as (H1 & H2 & _ & H4).
    split; [exact H1|]. split; [exact H2|].
    intros Hc. now rewrite (H4 Hc). }
  destruct (Z.ltb_spec 0 (Injector.len (filter snd adjusted))) as [Hpos|Hzero].
  - destruct (saveMemories _ d) as [d1|] eqn:Es; [|discriminate].
    intros [= <- <-]. apply saveMemories_load in Es. destruct Es as [-> _].
    split; [exact Hall|]. split; [exact Hcount | lia].
  - intros [= <- <-]. split; [|split; [exact Hcount | reflexivity]].
    assert (Hsame : map fst adjusted = loadMemories d).
    { assert (Hnone : filter snd adjusted = []).
      { destruct (filter snd adjusted); [reflexivity|].
        unfold Injector.len in Hzero. simpl in Hzero. lia. }
      subst adjusted. clear -Hnone.
      induction (loadMemories d) as [|m l IH]; [reflexivity|].
      cbn [map filter] in *.
      destruct (snd (adjust now m)) eqn:E; [discriminate|].
      rewrite IH by exact Hnone. f_equal.
      now apply (adjust_spec now m). }
    rewrite Hsame in Hall. exact Hall.
Qed.

End ManagerLaws.

(* ================================================================= *)
(** ** codePatternRecognizer.ts: pattern keys *)

Module KeyLaws.
Import PatternRecognizer InjectionLaws SimilarityLaws CompressorFacts
       CompressorLaws.

Lemma substring_length (s : jsstring) (a b : Z) :
  strlen (substring s a b) <= Z.max 0 (Z.abs (b - a)).
Proof.
  unfold substring, strlen. rewrite length_firstn, length_skipn. lia.
Qed.

Lemma substring_whole (s : jsstring) (b : Z) :
  strlen s <= b -> substring s 0 b = s.
Proof.
  intros H. unfold substring, strlen in *.
  rewrite (Z.max_l 0 0), (Z.min_l 0) by lia.
  rewrite (Z.max_l b 0), (Z.min_r b) by lia.
  rewrite Z.min_l, Z.max_r by lia.
  simpl skipn. rewrite Z.sub_0_r, Nat2Z.id. apply firstn_all.
Qed.

(** X21.  Pattern keys.  The key of a code text has at most 100 code
    units and no line feed, and the key of a key is the key itself, so
    that detection compares the key of the code with the keys the mining
    stored, unchanged.  A snippet whose key equals the key of a pattern
    is exactly as similar to it as can be, and is never reported against
    that pattern. *)
Theorem generatePatternKey_shape (code : jsstring) :
  let key := generatePatternKey code in
  strlen key <= 100
  /\ ~ In 10%N key
  /\ generatePatternKey key = key
  /\ forall p : CodePattern,
       generatePatternKey (pattern p) = key ->
       (calculateSimilarity key (generatePatternKey (pattern p)) == 1)%Q
       /\ diverges key p = false.
Proof.
  intros key.
  assert (Hlen : strlen key <= 100).
  { subst key. unfold generatePatternKey.
    pose proof (substring_length
                  (join (str " ") (slice (splitChar 10 code) 0 5)) 0 100).
    lia. }
  assert (Hnl : ~ In 10%N key).
  { subst key. unfold generatePatternKey. intros H.
    apply In_substring in H. apply In_join in H.
    destruct H as [[H|[]]|(x & Hx & Hc)]; [discriminate H|].
    apply slice_0_In in Hx.
    pose proof (splitChar_pieces 10 code) as Hp.
    rewrite Forall_forall in Hp. exact (Hp x Hx Hc). }
  split; [exact Hlen|]. split; [exact Hnl|]. split.
  - unfold generatePatternKey at 1.
    rewrite (splitChar_last 10 key Hnl).
    change (slice [key] 0 5) with [key]. cbn [join].
    now apply substring_whole.
  - intros p Hp. rewrite Hp.
    assert (Hs : (calculateSimilarity key key == 1)%Q).
    { rewrite similarity_value. cbv zeta. rewrite Z.max_id.
      destruct (Z.eqb_spec (strlen key) 0) as [E|E]; [reflexivity|].
      assert (Hpos : 0 < strlen key) by (unfold strlen in *; lia).
      rewrite (proj2 (distance_zero key key) eq_refl).
      apply (ratio_range (strlen key) 0 Hpos); lia. }
    split; [exact Hs|].
    unfold diverges. rewrite Hp.
    assert (Hle : Qle_bool (3 # 10) (calculateSimilarity key key) = true).
    { apply Qle_bool_iff. rewrite Hs. discriminate. }
    rewrite Hle. apply andb_false_r.
Qed.

End KeyLaws.

(* ================================================================= *)
(** ** codePatternRecognizer.ts: snippets and mining *)

Module MiningLaws.
Import Regex PatternRecognizer Mining InjectionLaws StorageLaws
       CompressorFacts.

(** *** Snippets *)

Lemma join_app (sep : jsstring) (a b : list jsstring) :
  a <> [] -> b <> [] -> join sep (a ++ b) = join sep a ++ sep ++ join sep b.
Proof.
  intros Ha Hb. induction a as [|x a IH]; [congruence|].
  destruct a as [|y a].
  - destruct b; [congruence | reflexivity].
  - change ((x :: y :: a) ++ b) with (x :: (y :: a) ++ b).
    change (join sep (x :: (y :: a) ++ b))
      with (x ++ sep ++ join sep ((y :: a) ++ b)).
    rewrite IH by discriminate. cbn [join]. now rewrite <- !app_assoc.
Qed.

Lemma includes_join_block (sep : jsstring) (pre block post : list jsstring) :
  block <> [] ->
  includes (join sep (pre ++ block ++ post)) (join sep block) = true.
Proof.
  intros Hb.
  assert (Hbp : includes (join sep (block ++ post)) (join sep block) = true).
  { destruct post as [|p post].
    - rewrite app_nil_r. apply includes_refl.
    - rewrite join_app by (try exact Hb; discriminate).
      apply (includes_app [] (join sep block)). }
  destruct pre as [|x pre]; [exact Hbp|].
  rewrite join_app;
    [| discriminate | destruct block; [congruence | discriminate]].
  now apply includes_app_r, includes_app_r.
Qed.

Lemma snippetsFrom_shape (matches : jsstring -> bool) (lines : list jsstring) :
  forall (before cur : list jsstring) (inF : bool) (bc : Z),
    (inF = true ->
     exists first rest,
       cur = first :: rest /\ matches first = true
       /\ Forall (fun l => matches l = false) rest) ->
    (inF = false -> cur = []) ->
    (exists before0, before = before0 ++ cur) ->
    forall s, In s (snippetsFrom matches lines cur inF bc) ->
      exists pre first rest post,
        before ++ lines = pre ++ (first :: rest) ++ post
        /\ s = join nl (first :: rest)
        /\ matches first = true
        /\ Forall (fun l => matches l = false) rest.
Proof.
  induction lines as [|line_ lines IH]; intros before cur inF bc Hin Hout Hb s Hs;
    [contradiction|].
  cbn [snippetsFrom] in Hs.
  assert (Hnext : before ++ line_ :: lines = (before ++ [line_]) ++ lines)
    by (now rewrite <- app_assoc).
  destruct (matches line_) eqn:Em.
  - apply in_app_or in Hs. destruct Hs as [Hs|Hs].
    + destruct inF; [|contradiction].
      destruct (Hin eq_refl) as (first & rest & -> & Hf & Hr).
      destruct Hb as [before0 ->].
      cbn in Hs. destruct Hs as [<-|[]].
      exists before0, first, rest, (line_ :: lines).
      split; [now rewrite <- !app_assoc|]. now repeat split.
    + rewrite Hnext.
      apply (IH (before ++ [line_]) [line_] true (countBraces line_));
        try exact Hs.
      * intros _. exists line_, []. now repeat split.
      * discriminate.
      * now exists before.
  - destruct inF.
    + destruct (Hin eq_refl) as (first & rest & -> & Hf & Hr).
      destruct Hb as [before0 ->].
      assert (Hr' : Forall (fun l => matches l = false) (rest ++ [line_]))
        by (apply Forall_app; split; [exact Hr | now constructor]).
      cbv zeta in Hs.
      destruct (bc + countBraces line_ =? 0).
      * destruct Hs as [<-|Hs].
        -- exists before0, first, (rest ++ [line_]), lines.
           split; [now rewrite <- !app_assoc; cbn; rewrite <- !app_assoc|].
           now repeat split.
        -- rewrite Hnext.
           apply (IH ((before0 ++ first :: rest) ++ [line_]) [] false
                     (bc + countBraces line_)); try exact Hs.
           ++ discriminate.
           ++ reflexivity.
           ++ eexists. now rewrite app_nil_r.
      * rewrite Hnext.
        apply (IH ((before0 ++ first :: rest) ++ [line_])
                  ((first :: rest) ++ [line_]) true
                  (bc + countBraces line_)); try exact Hs.
        -- intros _. exists first, (rest ++ [line_]). now repeat split.
        -- discriminate.
        -- exists before0. now rewrite <- !app_assoc.
    + rewrite (Hout eq_refl) in *. rewrite Hnext.
      apply (IH (before ++ [line_]) [] false bc); try exact Hs.
      * discriminate.
      * reflexivity.
      * eexists. now rewrite app_nil_r.
Qed.

(** X22.  Snippets.  For a language without a pattern in the table no
    snippet is extracted.  Otherwise every snippet is a block of whole,
    consecutive lines of the content, joined by line feeds as they were:
    the first line of the block matches the function pattern of the
    language and no other line of the block does, and the snippet occurs
    in the content as it stands. *)
Theorem extractCodeSnippets_shape
        (content language_ : jsstring) (snippets : list jsstring) :
  extractCodeSnippets content language_ = Some snippets ->
  (functionPatterns language_ = Absent -> snippets = [])
  /\ forall s, In s snippets ->
      exists pattern pre first rest post,
        functionPatterns language_ = Own pattern
        /\ splitChar 10 content = pre ++ (first :: rest) ++ post
        /\ s = join nl (first :: rest)
        /\ test pattern first = true
        /\ Forall (fun l => test pattern l = false) rest
        /\ includes content s = true.
Proof.
  unfold extractCodeSnippets. cbv zeta.
  destruct (functionPatterns language_) as [pattern| |] eqn:Ep;
    [| discriminate |].
  - intros [= <-]. split; [discriminate|].
    intros s Hs.
    destruct (snippetsFrom_shape (test pattern) (splitChar 10 content)
                [] [] false 0) with (s := s)
      as (pre & first & rest & post & Hl & -> & Hf & Hr);
      [discriminate | reflexivity | now exists [] | exact Hs |].
    simpl app in Hl.
    exists pattern, pre, first, rest, post.
    repeat split; try assumption.
    rewrite <- (join_split 10 content) at 1. rewrite Hl.
    apply (includes_join_block nl pre (first :: rest) post). discriminate.
  - intros [= <-]. split; [reflexivity | contradiction].
Qed.

(** *** Mining *)

Abbreviation example := (fun s : Snippet => substring (code s) 0 200).

Lemma has_In (m : PatternMap) (key : jsstring) :
  has m key = true <-> In key (map fst m).
Proof.
  unfold has. rewrite existsb_exists, in_map_iff. split.
  - intros (e & He & E). apply streq_eq in E. now exists e.
  - intros (e & E & He). exists e. split; [exact He | now apply streq_eq].
Qed.

Lemma update_keys (key : jsstring) (f : PatternData -> PatternData)
      (m : PatternMap) :
  map fst (update key f m) = map fst m.
Proof.
  unfold update. rewrite map_map. apply map_ext. intros e.
  destruct (streq (fst e) key); reflexivity.
Qed.

Lemma update_In (k : jsstring) (f : PatternData -> PatternData)
      (m : PatternMap) (key : jsstring) (data : PatternData) :
  In (key, data) (update k f m) <->
  exists data0, In (key, data0) m
                /\ data = if streq key k then f data0 else data0.
Proof.
  unfold update. rewrite in_map_iff. split.
  - intros ([key0 data0] & E & He). cbn [fst snd] in E.
    destruct (streq key0 k) eqn:Ek; injection E as <- <-;
      exists data0; rewrite Ek; auto.
  - intros (data0 & He & ->). exists (key, data0). cbn [fst snd].
    split; [|exact He]. destruct (streq key k); reflexivity.
Qed.

Lemma members_snoc (key : jsstring) (ss : list Snippet) (s : Snippet) :
  filter (ofKey key) (ss ++ [s])
  = filter (ofKey key) ss ++ (if ofKey key s then [s] else []).
Proof. rewrite filter_app. reflexivity. Qed.

Lemma summarises_snoc_other (ss : list Snippet) (s : Snippet)
      (key : jsstring) (data : PatternData) :
  ofKey key s = false ->
  summarises ss key data -> summarises (ss ++ [s]) key data.
Proof.
  intros Hk H. unfold summarises in *.
  rewrite members_snoc, Hk, app_nil_r. exact H.
Qed.

Lemma summarises_snoc_same (ss : list Snippet) (s : Snippet)
      (data : PatternData) :
  eligible s = true ->
  summarises ss (keyOf s) data ->
  summarises (ss ++ [s]) (keyOf s)
    (mkData (count data + 1)
            (Storage.setAdd (dataFiles data) (file s))
            (if len (dataExamples data) <? 3
             then dataExamples data ++ [example s]
             else dataExamples data)).
Proof.
  intros He (Hc & Hn & Hf & Hx).
  assert (Hk : ofKey (keyOf s) s = true).
  { unfold ofKey. rewrite He. now apply streq_eq. }
  unfold summarises. rewrite members_snoc, Hk. cbn [count dataFiles dataExamples].
  set (M := filter (ofKey (keyOf s)) ss) in *.
  split; [|split; [|split]].
  - rewrite Hc. unfold Injector.len. rewrite length_app. simpl. lia.
  - now apply setAdd_NoDup.
  - intros f. rewrite setAdd_In, Hf. split.
    + intros [(x & Hx1 & Hx2)| ->].
      * exists x. split; [apply in_or_app; now left | exact Hx2].
      * exists s. split; [apply in_or_app; right; now left | reflexivity].
    + intros (x & Hx1 & Hx2). apply in_app_or in Hx1.
      destruct Hx1 as [Hx1|[<-|[]]]; [left; eauto | now right].
  - rewrite Hx. unfold Injector.len. rewrite length_map, length_firstn.
    destruct (Nat.lt_ge_cases (length M) 3) as [Hlt|Hge].
    + replace (Z.of_nat (Nat.min 3 (length M)) <? 3) with true
        by (symmetry; apply Z.ltb_lt; lia).
      rewrite (firstn_all2 M) by lia.
      rewrite (firstn_all2 (M ++ [s])) by (rewrite length_app; simpl; lia).
      now rewrite map_app.
    + replace (Z.of_nat (Nat.min 3 (length M)) <? 3) with false
        by (symmetry; apply Z.ltb_ge; lia).
      rewrite firstn_app.
      replace (3 - length M)%nat with 0%nat by lia.
      now rewrite firstn_O, app_nil_r.
Qed.

Lemma recordSnippet_invariant (ss : list Snippet) (m : PatternMap)
      (s : Snippet) :
  mapInvariant ss m -> mapInvariant (ss ++ [s]) (recordSnippet m s).
Proof.
  intros (Hnd & Hsum & Hall). unfold recordSnippet. cbv zeta.
  fold (eligible s) (keyOf s).
  assert (Hel : (strlen (normalizeCode (code s)) <? 20) = negb (eligible s))
    by (unfold eligible; now rewrite negb_involutive).
  rewrite Hel. destruct (eligible s) eqn:He; cbn [negb].
  - set (k := keyOf s).
    set (m1 := if negb (has m k) then m ++ [(k, mkData 0 [] [])] else m).
    assert (Hm1 : forall key data, In (key, data) m1 ->
              summarises ss key data /\ (key <> k -> 1 <= count data)).
    { intros key data Hin. subst m1.
      destruct (has m k) eqn:Eh; cbn [negb] in Hin.
      - destruct (Hsum key data Hin). split; auto.
      - apply in_app_or in Hin. destruct Hin as [Hin|[[= <- <-]|[]]].
        + destruct (Hsum key data Hin). split; auto.
        + split; [|congruence].
          assert (Hempty : filter (ofKey k) ss = []).
          { destruct (filter (ofKey k) ss) eqn:E; [reflexivity|].
            assert (Hk : In k (map fst m)) by (apply Hall; congruence).
            apply has_In in Hk. congruence. }
          unfold summarises. rewrite Hempty. cbn.
          repeat split; try constructor; try tauto.
          intros (x & [] & _). }
    assert (Hkeys1 : NoDup (map fst m1)
                     /\ In k (map fst m1)
                     /\ forall key, In key (map fst m) -> In key (map fst m1)).
    { subst m1. destruct (has m k) eqn:Eh; cbn [negb].
      - split; [exact Hnd|]. split; [now apply has_In | auto].
      - rewrite map_app. cbn [map fst]. split; [|split].
        + apply NoDup_app; [exact Hnd | repeat constructor; tauto |].
          intros x Hx [<-|[]]. apply has_In in Hx. congruence.
        + apply in_or_app. right. now left.
        + intros key Hkey. apply in_or_app. now left. }
    destruct Hkeys1 as (Hnd1 & Hk1 & Hsub1).
    split; [|split].
    + now rewrite update_keys.
    + intros key data Hin. apply update_In in Hin.
      destruct Hin as (data0 & Hin & ->).
      destruct (Hm1 key data0 Hin) as [Hs0 Hc0].
      destruct (streq key k) eqn:Ek.
      * apply streq_eq in Ek. subst key.
        split; [now apply summarises_snoc_same|].
        cbn [count]. destruct Hs0 as [-> _]. unfold Injector.len. lia.
      * apply streq_neq in Ek. split; [|now apply Hc0].
        apply summarises_snoc_other; [|exact Hs0].
        unfold ofKey. fold k.
        assert (streq k key = false) by (apply streq_neq; congruence).
        rewrite H. apply andb_false_r.
    + intros key Hne. rewrite update_keys.
      destruct (streq k key) eqn:Ek.
      * apply streq_eq in Ek. now subst.
      * apply Hsub1, Hall. rewrite members_snoc in Hne.
        unfold ofKey in Hne at 2. fold k in Hne. rewrite Ek, andb_false_r in Hne.
        now rewrite app_nil_r in Hne.
  - assert (Hno : forall key, ofKey key s = false)
      by (intros key; unfold ofKey; now rewrite He).
    split; [exact Hnd|]. split.
    + intros key data Hin. destruct (Hsum key data Hin) as [H1 H2].
      split; [|exact H2]. now apply summarises_snoc_other.
    + intros key Hne. apply Hall.
      now rewrite members_snoc, Hno, app_nil_r in Hne.
Qed.

Lemma fold_invariant (ss ss0 : list Snippet) (m : PatternMap) :
  mapInvariant ss0 m ->
  mapInvariant (ss0 ++ ss) (fold_left recordSnippet ss m).
Proof.
  revert ss0 m. induction ss as [|s ss IH]; intros ss0 m H.
  - now rewrite app_nil_r.
  - cbn [fold_left].
    replace (ss0 ++ s :: ss) with ((ss0 ++ [s]) ++ ss)
      by (now rewrite <- app_assoc).
    now apply IH, recordSnippet_invariant.
Qed.

Section Identify.
Variable generateId : nat -> jsstring.

Lemma commonFrom_spec (language_ : jsstring) (entries : PatternMap) :
  forall acc,
    map pattern (commonFrom generateId language_ entries acc)
    = map pattern acc ++ map fst (filter common entries)
    /\ forall p, In p (commonFrom generateId language_ entries acc) ->
         In p acc
         \/ exists key data,
              In (key, data) entries /\ common (key, data) = true
              /\ pattern p = key /\ frequency p = count data
              /\ files p = dataFiles data /\ examples p = dataExamples data
              /\ language p = language_ /\ category p = CODE_STYLE
              /\ importance p = MEDIUM.
Proof.
  induction entries as [|[key data] entries IH]; intros acc.
  - cbn. rewrite app_nil_r. split; [reflexivity | auto].
  - cbn [commonFrom filter]. unfold common at 1 3. cbn [fst snd].
    destruct ((3 <=? count data) && (2 <=? len (dataFiles data))) eqn:Ec.
    + destruct (IH (acc ++ [mkCodePattern (generateId (length acc))
                              (patternName (len acc + 1))
                              (patternDescription (count data))
                              language_ key CODE_STYLE MEDIUM
                              (dataExamples data) (count data)
                              (dataFiles data)])) as [Hmap Hin].
      split.
      * rewrite Hmap, map_app, <- app_assoc. reflexivity.
      * intros p Hp. destruct (Hin p Hp) as [Hacc|(k & dt & H1 & H2)].
        -- apply in_app_or in Hacc. destruct Hacc as [Hacc|[<-|[]]];
             [now left|].
           right. exists key, data.
           split; [now left|]. split; [exact Ec|]. now repeat split.
        -- right. exists k, dt. split; [now right | exact H2].
    + destruct (IH acc) as [Hmap Hin]. split; [exact Hmap|].
      intros p Hp. destruct (Hin p Hp) as [Hacc|(k & dt & H1 & H2)];
        [now left|].
      right. exists k, dt. split; [now right | exact H2].
Qed.

(** The entries that pass the test keep distinct keys. *)
Lemma common_keys_distinct (m : PatternMap) :
  NoDup (map fst m) -> NoDup (map fst (filter common m)).
Proof.
  induction m as [|entry m IH]; cbn [map filter]; [auto|]. intros H.
  inversion H as [|? ? Hfresh Hrest]; subst.
  destruct (common entry); [|now apply IH].
  cbn [map]. constructor; [|now apply IH].
  intros Hin. apply Hfresh. apply in_map_iff in Hin.
  destruct Hin as (other & E & Hother). apply filter_In in Hother.
  apply in_map_iff. exists other. tauto.
Qed.

Lemma two_files (l : list jsstring) (a b : jsstring) :
  In a l -> In b l -> a <> b -> 2 <= len l.
Proof.
  unfold Injector.len. destruct l as [|x [|y l]]; simpl.
  - tauto.
  - intros [<-|[]] [<-|[]]. congruence.
  - lia.
Qed.

(** X23.  Mining.  [identifyCommonPatterns] reports one pattern for every
    key that at least three snippets share and that occurs in at least
    two files, and no other; the snippets counted are those whose
    normalized code has at least 20 code units.  For each pattern the
    frequency is the number of the snippets of its key, the files are the
    files of these snippets, each once, and the examples are the first
    200 code units of the first three of them.  No two patterns have the
    same key; every pattern has the language asked for, the category code
    style and medium importance. *)
Theorem identifyCommonPatterns_spec
        (snippets : list Snippet) (language_ : jsstring) :
  let patterns := identifyCommonPatterns generateId snippets language_ in
  NoDup (map pattern patterns)
  /\ Forall (fun p =>
               frequency p = len (filter (ofKey (pattern p)) snippets)
               /\ 3 <= frequency p
               /\ 2 <= len (files p)
               /\ NoDup (files p)
               /\ (forall f, In f (files p) <->
                     exists s, In s (filter (ofKey (pattern p)) snippets)
                               /\ file s = f)
               /\ examples p
                  = map example (firstn 3 (filter (ofKey (pattern p)) snippets))
               /\ language p = language_
               /\ category p = CODE_STYLE
               /\ importance p = MEDIUM)
            patterns
  /\ forall key s1 s2,
       3 <= len (filter (ofKey key) snippets) ->
       In s1 (filter (ofKey key) snippets) -> In s2 (filter (ofKey key) snippets) ->
       file s1 <> file s2 ->
       In key (map pattern patterns).
Proof.
  intros patterns. subst patterns. unfold identifyCommonPatterns. cbv zeta.
  assert (Hinv : mapInvariant snippets (fold_left recordSnippet snippets [])).
  { apply (fold_invariant snippets [] []).
    split; [constructor|]. split; [intros ? ? [] | intros key H; now elim H]. }
  set (m := fold_left recordSnippet snippets []) in *.
  destruct Hinv as (Hnd & Hsum & Hall).
  destruct (commonFrom_spec language_ m []) as [Hmap Hin].
  cbn [map app] in Hmap.
  split; [|split].
  - rewrite Hmap. now apply common_keys_distinct.
  - apply Forall_forall. intros p Hp.
    destruct (Hin p Hp) as [[]|(key & data & He & Hc & Hk & Hf & Hfi & Hx
                                 & Hl & Hcat & Him)].
    destruct (Hsum key data He) as [(Hs1 & Hs2 & Hs3 & Hs4) _].
    unfold common in Hc. cbn [fst snd] in Hc.
    apply andb_true_iff in Hc. destruct Hc as [Hc1 Hc2].
    apply Z.leb_le in Hc1. apply Z.leb_le in Hc2.
    rewrite Hk, Hf, Hfi, Hx. repeat split; try assumption.
    + apply Hs3.
    + apply Hs3.
  - intros key s1 s2 Hthree H1 H2 Hdiff. rewrite Hmap.
    assert (Hkey : In key (map fst m)).
    { apply Hall. intros E. rewrite E in H1. contradiction. }
    apply in_map_iff in Hkey. destruct Hkey as ([k data] & E & He).
    cbn [fst] in E. subst k.
    destruct (Hsum key data He) as [(Hs1 & Hs2 & Hs3 & Hs4) _].
    apply in_map_iff. exists (key, data). split; [reflexivity|].
    apply filter_In. split; [exact He|].
    unfold common. cbn [fst snd]. apply andb_true_iff. split.
    + apply Z.leb_le. now rewrite Hs1.
    + apply Z.leb_le. apply (two_files _ (file s1) (file s2)); try assumption.
      * apply Hs3. now exists s1.
      * apply Hs3. now exists s2.
Qed.

End Identify.

End MiningLaws.

(* ================================================================= *)
(** ** The further properties on closed inputs *)

Module CasesChecked.
Import Injector Injection Scenarios Cases.

Lemma compressMemories_keeps_witness :
  455 * Z.of_nat 4 <= defaultMaxTokens
  /\ firstn 4 (compressMemories fifteen defaultMaxTokens)
     = map light (firstn 4 (jsSort byImportance fifteen)).
Proof.
  assert (H : 455 * Z.of_nat 4 <= defaultMaxTokens)
    by (vm_compute; discriminate).
  exact (conj H (CompressorLaws.compressMemories_keeps
                   fifteen defaultMaxTokens 4 H)).
Defined.

Lemma injection_happens_once_witness :
  injectMemoriesToEditor three goDocument (str "go") = Some goBanner
  /\ includes goBanner (str "CURSOR MEMORY CONTEXT") = true
  /\ injectMemoriesToEditor fifteen (goBanner ++ goDocument) (str "python")
     = None.
Proof.
  assert (H : injectMemoriesToEditor three goDocument (str "go")
              = Some goBanner) by (vm_compute; reflexivity).
  pose proof (InjectionLaws.injection_happens_once
                three goDocument (str "go") goBanner H) as [H1 H2].
  exact (conj H (conj H1 (H2 fifteen (str "python")))).
Defined.

Lemma injected_text_is_commented_witness :
  injectMemoriesToEditor three goDocument (str "go") = Some goBanner
  /\ Forall (fun line =>
               line = []
               \/ exists body,
                    line = commentPrefix (str "go") ++ body
                           ++ commentSuffix (str "go"))
            (splitChar 10 goBanner).
Proof.
  assert (H : injectMemoriesToEditor three goDocument (str "go")
              = Some goBanner) by (vm_compute; reflexivity).
  exact (conj H (proj2 (InjectionLaws.injected_text_is_commented
                          three goDocument (str "go") goBanner H))).
Defined.

(** The inserted text of the example: 22 lines, the three records on
    lines of their own. *)
Example goBanner_lines :
  length (splitChar 10 goBanner) = 22%nat
  /\ nth 11 (splitChar 10 goBanner) []
     = str "// " ++ tick ++ str " never call eval in module 0".
Proof. split; vm_compute; reflexivity. Qed.

(** *** The store *)

Lemma cleanExpiredMemories_spec_witness :
  Storage.cleanExpiredMemories Storage.defaultMaxAge aTime oldDisk
  = Some (2, cleanedDisk)
  /\ Storage.cleanExpiredMemories Storage.defaultMaxAge aTime cleanedDisk
     = Some (0, cleanedDisk).
Proof.
  assert (H : Storage.cleanExpiredMemories Storage.defaultMaxAge aTime oldDisk
              = Some (2, cleanedDisk)) by (vm_compute; reflexivity).
  exact (conj H
    (proj2 (proj2 (proj2 (proj2 (proj2
       (StorageLaws.cleanExpiredMemories_spec
          Storage.defaultMaxAge aTime oldDisk cleanedDisk 2 H))))))).
Defined.

Lemma promoted_records_survive_witness :
  (HIGH = CRITICAL \/ HIGH = HIGH)
  /\ Storage.batchUpdateImportance [str "m3"] HIGH oldDisk = Some promotedDisk
  /\ Storage.cleanExpiredMemories Storage.defaultMaxAge aTime promotedDisk
     = Some (1, promotedCleanDisk)
  /\ In (aged LOW 3 0) (Storage.loadMemories oldDisk)
  /\ In (id (aged LOW 3 0)) [str "m3"]
  /\ In (Storage.withImportance (aged LOW 3 0) HIGH)
        (Storage.loadMemories promotedDisk)
  /\ In (Storage.withImportance (aged LOW 3 0) HIGH)
        (Storage.loadMemories promotedCleanDisk).
Proof.
  assert (H1 : HIGH = CRITICAL \/ HIGH = HIGH) by (right; reflexivity).
  assert (H2 : Storage.batchUpdateImportance [str "m3"] HIGH oldDisk
               = Some promotedDisk) by (vm_compute; reflexivity).
  assert (H3 : Storage.cleanExpiredMemories Storage.defaultMaxAge aTime
                 promotedDisk = Some (1, promotedCleanDisk))
    by (vm_compute; reflexivity).
  assert (H4 : In (aged LOW 3 0) (Storage.loadMemories oldDisk))
    by (simpl; tauto).
  assert (H5 : In (id (aged LOW 3 0)) [str "m3"]) by (left; reflexivity).
  exact (conj H1 (conj H2 (conj H3 (conj H4 (conj H5
    (proj2 (StorageLaws.promoted_records_survive
              [str "m3"] HIGH Storage.defaultMaxAge aTime
              oldDisk promotedDisk promotedCleanDisk 1 H1 H2 H3)
           (aged LOW 3 0) H4 H5)))))).
Defined.

(** Adding to a missing file and to a malformed one, deleting by an id
    that two records share, and updating the first of them. *)
Example store_roundtrip :
  let twin := aged LOW 1 0 in
  Storage.addMemory twin (Storage.mkDisk Storage.Missing true)
  = Some (Storage.mkDisk (Storage.Holds [twin]) true)
  /\ Storage.addMemory twin (Storage.mkDisk Storage.Malformed true)
     = Some (Storage.mkDisk (Storage.Holds [twin]) true)
  /\ Storage.addMemory twin (Storage.mkDisk Storage.Missing false) = None
  /\ option_map Storage.loadMemories (Storage.addMemory twin oldDisk)
     = Some (oldCorpus ++ [twin])
  /\ option_map Storage.loadMemories
       (Storage.deleteMemory (str "m1")
          (Storage.mkDisk (Storage.Holds (oldCorpus ++ [twin])) true))
     = Some [aged CRITICAL 0 0; aged MEDIUM 2 0; aged LOW 3 0]
  /\ option_map Storage.loadMemories
       (Storage.updateMemoryTags (str "m1") []
          (Storage.mkDisk (Storage.Holds (oldCorpus ++ [twin])) true))
     = Some [aged CRITICAL 0 0;
             mkMemory (str "m1") (str "rule 1") OTHER 0 [] HIGH None
                      (Some (9 # 10));
             aged MEDIUM 2 0; aged LOW 3 0; twin].
Proof. repeat split; vm_compute; reflexivity. Qed.

(** The tags of the old corpus, sorted, each once; and a fuzzy search:
    the critical and the high record outrank the others on the bonus of
    their importance. *)
Example tags_and_search :
  Storage.getAllTags oldDisk = [str "api"; str "go"]
  /\ map id (Storage.fuzzySearchMemories asciiToLower (str " GO  rule ") oldDisk)
     = [str "m0"; str "m1"; str "m2"; str "m3"]
  /\ map (fun m => Qred (Storage.calculateMatchScore asciiToLower m
                           [str "go"; str "rule"]))
         oldCorpus
     = [7; 6; 5; 5]%Q
  /\ Storage.fuzzySearchMemories asciiToLower (str "  ") oldDisk = oldCorpus
  /\ Storage.fuzzySearchMemories asciiToLower (str "absent") oldDisk = [].
Proof. repeat split; vm_compute; reflexivity. Qed.

(** *** The checker, the adjustment, the recognizer *)

Lemma architecture_cache_policy_witness :
  Validator.Architecture.pendingLoad emptyCache = None
  /\ aTime + 5000 - Validator.Architecture.lastUpdateTime emptyCache
     <= Validator.Architecture.updateInterval
  /\ Validator.Architecture.checkArchitecture asciiToLower posixBasename
       noRelative emptyCache [forbidsEval CRITICAL] (aTime + 5000) None
       callsEval (str "/src/a.js") (str "javascript")
     = Validator.Architecture.checkArchitecture asciiToLower posixBasename
         noRelative emptyCache [] (aTime + 5000) None
         callsEval (str "/src/a.js") (str "javascript").
Proof.
  assert (H1 : Validator.Architecture.pendingLoad emptyCache = None)
    by reflexivity.
  assert (H2 : aTime + 5000 - Validator.Architecture.lastUpdateTime emptyCache
               <= Validator.Architecture.updateInterval)
    by (vm_compute; discriminate).
  exact (conj H1 (conj H2
    (proj1 (proj1 (ValidatorLaws.architecture_cache_policy
                     asciiToLower posixBasename noRelative emptyCache
                     [forbidsEval CRITICAL] [] (aTime + 5000) None
                     callsEval (str "/src/a.js") (str "javascript") H1)
                  H2)))).
Defined.

Lemma autoAdjustImportance_one_step_witness :
  Manager.autoAdjustImportance aTime recentDisk = Some (2, adjustedDisk)
  /\ 0 <= 2 <= Injector.len (Storage.loadMemories recentDisk).
Proof.
  assert (H : Manager.autoAdjustImportance aTime recentDisk
              = Some (2, adjustedDisk)) by (vm_compute; reflexivity).
  exact (conj H
    (proj1 (proj2 (ManagerLaws.autoAdjustImportance_one_step
                     aTime recentDisk adjustedDisk 2 H)))).
Defined.

(** Old records: only the high one is touched, and only when it is
    older than three months. *)
Example adjust_old_records :
  map (fun m => importance (fst (Manager.adjust aTime m))) oldCorpus
  = [CRITICAL; MEDIUM; MEDIUM; LOW].
Proof. vm_compute. reflexivity. Qed.

Lemma extractCodeSnippets_shape_witness :
  Mining.extractCodeSnippets goSource (str "go") = Some [addFunction]
  /\ In addFunction [addFunction]
  /\ exists pattern pre first rest post,
       Mining.functionPatterns (str "go") = Mining.Own pattern
       /\ splitChar 10 goSource = pre ++ (first :: rest) ++ post
       /\ addFunction = join nl (first :: rest)
       /\ Regex.test pattern first = true
       /\ Forall (fun l => Regex.test pattern l = false) rest
       /\ includes goSource addFunction = true.
Proof.
  assert (H : Mining.extractCodeSnippets goSource (str "go")
              = Some [addFunction]) by (vm_compute; reflexivity).
  assert (Hin : In addFunction [addFunction]) by (left; reflexivity).
  exact (conj H (conj Hin
    (proj2 (MiningLaws.extractCodeSnippets_shape
              goSource (str "go") [addFunction] H) addFunction Hin))).
Defined.

(** Snippets of a language without a pattern, and of a key that names a
    property of [Object.prototype]. *)
Example extractCodeSnippets_edges :
  Mining.extractCodeSnippets goSource (str "ruby") = Some []
  /\ Mining.extractCodeSnippets goSource (str "constructor") = None
  /\ Mining.extractCodeSnippets [] (str "go") = Some [].
Proof. repeat split; vm_compute; reflexivity. Qed.

(** Mining five snippets: the four handlers share a key, since numbers
    are normalized, and come from two files. *)
Example mined_pattern :
  let patterns :=
    Mining.identifyCommonPatterns countingId minedSnippets (str "go") in
  map PatternRecognizer.frequency patterns = [4]
  /\ map PatternRecognizer.files patterns = [[str "a.go"; str "b.go"]]
  /\ map (fun p => length (PatternRecognizer.examples p)) patterns = [3%nat]
  /\ map PatternRecognizer.pattern patterns
     = [str "func handle(w http.ResponseWriter) { w.WriteHeader(0) }"]
  /\ map PatternRecognizer.id patterns = [str "pattern_0"].
Proof. repeat split; vm_compute; reflexivity. Qed.

End CasesChecked.

(* ================================================================= *)
(** ** unnamed/part_005: what the naming styles accept *)

Module NamingLaws.
Import Regex Validator.

(** A greedy class under a star reads one code unit at a time. *)
Lemma star_class_nil (q : N -> bool) (k : state -> option state)
      (p : option N) (i : nat) (cs : list (nat * jsstring)) :
  run (Star true (Chr q)) (mkState p [] i cs) k = k (mkState p [] i cs).
Proof. reflexivity. Qed.

Lemma star_class_cons (q : N -> bool) (k : state -> option state)
      (p : option N) (c : N) (l : jsstring) (i : nat)
      (cs : list (nat * jsstring)) :
  run (Star true (Chr q)) (mkState p (c :: l) i cs) k
  = if q c
    then match run (Star true (Chr q)) (mkState (Some c) l (S i) cs) k with
         | Some e => Some e
         | None => k (mkState p (c :: l) i cs)
         end
    else k (mkState p (c :: l) i cs).
Proof.
  cbn [run rest pos caps length]. destruct (q c); [|reflexivity].
  rewrite (proj2 (Nat.eqb_neq (S i) i)) by lia. reflexivity.
Qed.

(** Followed by the end of the input, the star succeeds exactly when
    every code unit left is in the class. *)
Lemma star_class_eol (q : N -> bool) (l : jsstring) (p : option N) (i : nat)
      (cs : list (nat * jsstring)) :
  match run (Star true (Chr q)) (mkState p l i cs)
            (fun st => run (Eol false) st Some) with
  | Some _ => forallb q l = true
  | None => forallb q l = false
  end.
Proof.
  revert p i. induction l as [|c l IH]; intros p i; [reflexivity|].
  rewrite star_class_cons. cbn [forallb].
  destruct (q c); [|reflexivity].
  specialize (IH (Some c) (S i)).
  destruct (run (Star true (Chr q)) (mkState (Some c) l (S i) cs) _);
    [exact IH|].
  cbn. exact IH.
Qed.

(** Whatever follows the star, a match reads a run of code units of the
    class and hands the rest to what follows. *)
Lemma star_class_sound (q : N -> bool) (k : state -> option state)
      (l : jsstring) (p : option N) (i : nat) (cs : list (nat * jsstring))
      (e : state) :
  run (Star true (Chr q)) (mkState p l i cs) k = Some e ->
  exists l1 l2 p' i',
    l = l1 ++ l2 /\ forallb q l1 = true
    /\ k (mkState p' l2 i' cs) = Some e.
Proof.
  revert p i. induction l as [|c l IH]; intros p i.
  - rewrite star_class_nil. intros H. now exists [], [], p, i.
  - rewrite star_class_cons. destruct (q c) eqn:Eq.
    + destruct (run (Star true (Chr q)) (mkState (Some c) l (S i) cs) k)
        as [e'|] eqn:Er.
      * intros [= <-].
        destruct (IH _ _ Er) as (l1 & l2 & p' & i' & -> & H1 & H2).
        exists (c :: l1), l2, p', i'. cbn [forallb]. rewrite Eq, H1.
        now repeat split.
      * intros H. now exists [], (c :: l), p, i.
    + intros H. now exists [], (c :: l), p, i.
Qed.

(** A pattern anchored at the start matches at index 0 or not at all. *)
Lemma searchFrom_anchored (r : regex) (c : N) (s : jsstring) (i : nat) :
  searchFrom (Seq (Bol false) r) (Some c) s i = None.
Proof.
  revert c i. induction s as [|d s IH]; intros c i; [reflexivity|].
  cbn [searchFrom]. unfold matchAt. cbn [run prev rest pos andb]. apply IH.
Qed.

Lemma test_anchored (r : regex) (s : jsstring) :
  test (Seq (Bol false) r) s
  = match run r (mkState None s 0 []) Some with
    | Some _ => true
    | None => false
    end.
Proof.
  unfold test, exec. destruct s as [|c s].
  - cbn [searchFrom]. unfold matchAt. cbn [run prev rest pos].
    now destruct (run r (mkState None [] 0 []) Some).
  - cbn [searchFrom]. unfold matchAt. cbn [run prev rest pos].
    destruct (run r (mkState None (c :: s) 0 []) Some); [reflexivity|].
    now rewrite searchFrom_anchored.
Qed.

(** The pattern of a first code unit of one class followed, to the end,
    by code units of a second class. *)
Lemma test_first_then_class (first other : N -> bool) (s : jsstring) :
  test (seqs [Bol false; Chr first; Star true (Chr other); Eol false]) s
  = match s with
    | c :: rest => first c && forallb other rest
    | [] => false
    end.
Proof.
  cbn [seqs]. rewrite test_anchored. destruct s as [|c s]; [reflexivity|].
  change (run (Seq (Chr first) (Seq (Star true (Chr other)) (Eol false)))
              (mkState None (c :: s) 0 []) Some)
    with (if first c
          then run (Star true (Chr other)) (mkState (Some c) s 1 [])
                   (fun st => run (Eol false) st Some)
          else None).
  destruct (first c); [|reflexivity].
  cbn [andb].
  pose proof (star_class_eol other s (Some c) 1 []) as H.
  destruct (run (Star true (Chr other)) _ _); now rewrite H.
Qed.

(** The second pattern of the camel case accepts nothing the first one
    rejects. *)
Lemma camel_second_pattern (s : jsstring) :
  test (seqs [Bol false; Chr isLower; alnums; Chr isUpper; alnums;
              Eol false]) s = true ->
  test (seqs [Bol false; Chr isLower; alnums; Eol false]) s = true.
Proof.
  unfold alnums. rewrite test_first_then_class.
  cbn [seqs]. rewrite test_anchored. destruct s as [|c s]; [easy|].
  change (run (Seq (Chr isLower) _) (mkState None (c :: s) 0 []) Some)
    with (if isLower c
          then run (Star true (Chr isAlnum)) (mkState (Some c) s 1 [])
                   (fun st =>
                      run (Seq (Chr isUpper)
                               (Seq (Star true (Chr isAlnum)) (Eol false)))
                          st Some)
          else None).
  destruct (isLower c); [|easy].
  cbn [andb].
  destruct (run (Star true (Chr isAlnum)) _ _) as [e|] eqn:Er; [|easy].
  intros _. apply star_class_sound in Er.
  destruct Er as (l1 & l2 & p' & i' & -> & H1 & H2).
  destruct l2 as [|u l3]; [discriminate|].
  change (run (Seq (Chr isUpper) _) (mkState p' (u :: l3) i' []) Some)
    with (if isUpper u
          then run (Star true (Chr isAlnum)) (mkState (Some u) l3 (S i') [])
                   (fun st => run (Eol false) st Some)
          else None) in H2.
  destruct (isUpper u) eqn:Eu; [|discriminate].
  pose proof (star_class_eol isAlnum l3 (Some u) (S i') []) as H3.
  rewrite H2 in H3.
  rewrite forallb_app, H1. cbn [forallb andb].
  unfold isAlnum at 1. now rewrite Eu, H3.
Qed.

(** X24.  What the validator accepts as a name.  A name of the list of
    excluded words is valid under every style.  Any other name is valid
    in camel case exactly when it starts with a lower-case ASCII letter
    and holds ASCII letters and digits only, in Pascal case when it
    starts with an upper-case letter and holds letters and digits only,
    in snake case when it starts with a lower-case letter and holds
    lower-case letters, digits and underscores only, and in upper snake
    case likewise with upper-case letters; the empty name is valid in
    none of the four.  Under any other style every name is valid. *)
Theorem isValidNaming_spec (name : jsstring) :
  let shaped (first other : N -> bool) :=
    match name with
    | c :: rest => first c && forallb other rest
    | [] => false
    end in
  let known := arrayIncludes excluded name in
  isValidNaming name (str "camelCase") = known || shaped isLower isAlnum
  /\ isValidNaming name (str "PascalCase") = known || shaped isUpper isAlnum
  /\ isValidNaming name (str "snake_case")
     = known || shaped isLower
                  (fun c => isLower c || isDigit c || (c =? 95)%N)
  /\ isValidNaming name (str "UPPER_SNAKE_CASE")
     = known || shaped isUpper
                  (fun c => isUpper c || isDigit c || (c =? 95)%N)
  /\ forall style_,
       existsb (streq style_)
         [str "camelCase"; str "PascalCase"; str "snake_case";
          str "UPPER_SNAKE_CASE"] = false ->
       isValidNaming name style_ = true.
Proof.
  cbv zeta. unfold isValidNaming.
  destruct (arrayIncludes excluded name); [repeat split; reflexivity|].
  cbn [orb]. repeat split.
  - change (streq (str "camelCase") (str "camelCase")) with true. cbv iota.
    pose proof (camel_second_pattern name) as H.
    unfold alnums in *. rewrite test_first_then_class in *.
    destruct (match name with [] => false | _ => _ end); [reflexivity|].
    cbn [orb]. destruct (test _ name); [symmetry; now apply H | reflexivity].
  - change (streq (str "PascalCase") (str "camelCase")) with false.
    change (streq (str "PascalCase") (str "PascalCase")) with true.
    cbv iota. unfold alnums. apply test_first_then_class.
  - change (streq (str "snake_case") (str "camelCase")) with false.
    change (streq (str "snake_case") (str "PascalCase")) with false.
    change (streq (str "snake_case") (str "snake_case")) with true.
    cbv iota. apply test_first_then_class.
  - change (streq (str "UPPER_SNAKE_CASE") (str "camelCase")) with false.
    change (streq (str "UPPER_SNAKE_CASE") (str "PascalCase")) with false.
    change (streq (str "UPPER_SNAKE_CASE") (str "snake_case")) with false.
    change (streq (str "UPPER_SNAKE_CASE") (str "UPPER_SNAKE_CASE")) with true.
    cbv iota. apply test_first_then_class.
  - intros style_ H. cbn [existsb] in H.
    repeat (apply orb_false_iff in H; destruct H as [? H]).
    now repeat match goal with
               | E : streq _ _ = false |- _ => rewrite E; clear E
               end.
Qed.

End NamingLaws.

(* ================================================================= *)
(** ** bestPracticeLibrary.ts: practices are applied once *)

Module PracticeLaws.
Import Storage Practices StorageLaws.

Lemma exists_self (l1 l2 : list Memory) (m : Memory) :
  exists_ (l1 ++ m :: l2) m = true.
Proof.
  unfold exists_. rewrite existsb_app. cbn [existsb].
  rewrite (proj2 (streq_eq (content m) (content m)) eq_refl).
  replace (category_eqb (category m) (category m)) with true
    by (now destruct (category m)).
  cbn [andb orb]. apply orb_true_r.
Qed.

Lemma exists_more (l l' : list Memory) (m : Memory) :
  exists_ l m = true -> exists_ (l ++ l') m = true.
Proof. unfold exists_. rewrite existsb_app. now intros ->. Qed.

Lemma exists_same_rule (l : list Memory) (m m' : Memory) :
  content m = content m' -> category m = category m' ->
  exists_ l m = exists_ l m'.
Proof. unfold exists_. now intros -> ->. Qed.

(** The merge loop appends: what it adds comes from the converted
    records, every converted record is represented afterwards, and a
    record is added only when nothing before it has its content and
    category. *)
Lemma mergeInto_spec (converted allMemories : list Memory) :
  exists added,
    mergeInto allMemories converted = allMemories ++ added
    /\ (forall m, In m added -> In m converted)
    /\ (forall m, In m converted -> exists_ (allMemories ++ added) m = true)
    /\ (forall a1 m a2, added = a1 ++ m :: a2 ->
          exists_ (allMemories ++ a1) m = false).
Proof.
  revert allMemories.
  induction converted as [|m converted IH]; intros allMemories.
  - exists []. rewrite app_nil_r. repeat split; try easy.
    intros [|? ?] ? ? H; discriminate H.
  - unfold mergeInto. cbn [fold_left].
    destruct (exists_ allMemories m) eqn:Em; cbn [negb].
    + destruct (IH allMemories) as (added & E & H1 & H2 & H3).
      exists added. split; [exact E|]. split; [|split; [|exact H3]].
      * intros x Hx. right. now apply H1.
      * intros x [<-|Hx]; [now apply exists_more | now apply H2].
    + destruct (IH (allMemories ++ [m])) as (added & E & H1 & H2 & H3).
      exists (m :: added). split; [|split; [|split]].
      * unfold mergeInto in E. rewrite E. now rewrite <- app_assoc.
      * intros x [<-|Hx]; [now left | right; now apply H1].
      * intros x [<-|Hx]; [apply exists_self|].
        specialize (H2 x Hx). now rewrite <- app_assoc in H2.
      * intros [|y a1] x a2 Ha.
        -- injection Ha as <- _. now rewrite app_nil_r.
        -- injection Ha as <- Ha. specialize (H3 a1 x a2 Ha).
           now rewrite <- app_assoc in H3.
Qed.

Lemma mergeInto_nothing (converted allMemories : list Memory) :
  (forall m, In m converted -> exists_ allMemories m = true) ->
  mergeInto allMemories converted = allMemories.
Proof.
  unfold mergeInto. induction converted as [|m converted IH]; [reflexivity|].
  intros H. cbn [fold_left]. rewrite (H m) by now left.
  cbn [negb]. apply IH. intros x Hx. apply H. now right.
Qed.

(** The content and the category of the converted records depend on the
    practices only, not on the identifiers and the times. *)
Lemma practiceMemories_rules (generateId generateId' : nat -> jsstring)
      (now now' : nat -> Z) (found : list BestPractice.t) (m' : Memory) :
  In m' (practiceMemories generateId' now' found) ->
  exists m, In m (practiceMemories generateId now found)
            /\ content m' = content m /\ category m' = category m.
Proof.
  unfold practiceMemories. intros H. apply in_map_iff in H.
  destruct H as (kp & <- & Hk). eexists. split.
  - apply in_map_iff. exists kp. split; [reflexivity | exact Hk].
  - split; reflexivity.
Qed.

Lemma practiceMemories_length (generateId : nat -> jsstring) (now : nat -> Z)
      (found : list BestPractice.t) :
  length (practiceMemories generateId now found) = length found.
Proof.
  unfold practiceMemories.
  rewrite length_map, length_combine, length_seq. apply Nat.min_id.
Qed.

(** X25.  Practices are applied once.  Where the library has practices
    for the language and the store can be written, applying them appends
    to the corpus, after the records it had, one record for each practice
    whose content and category no record before it has: nothing is
    removed or reordered, every practice is represented afterwards, and
    no duplicate is created.  The number of practices applied that the
    method reports is the number of practices of the language, whether or
    not records were added: applying the practices a second time reports
    the same number and leaves the store as it is. *)
Theorem applyPracticesToProject_once
        (practices : list (jsstring * list BestPractice.t))
        (toLowerCase : jsstring -> jsstring) (writeError : jsstring)
        (generateId generateId' : nat -> jsstring) (now now' : nat -> Z)
        (language : ProjectLanguage) (d : Disk) :
  let found :=
    getPracticesByLanguage practices toLowerCase
      (mapProjectLanguageToBestPracticeLanguage language) in
  found <> [] -> writable d = true ->
  exists added d',
    applyPracticesToProject practices generateId now toLowerCase writeError
                            language d
    = (mkApplied true (len found) None, d')
    /\ loadMemories d' = loadMemories d ++ added
    /\ (forall m, In m added -> In m (practiceMemories generateId now found))
    /\ (forall m, In m (practiceMemories generateId now found) ->
          exists_ (loadMemories d') m = true)
    /\ (forall a1 m a2, added = a1 ++ m :: a2 ->
          exists_ (loadMemories d ++ a1) m = false)
    /\ applyPracticesToProject practices generateId' now' toLowerCase
                               writeError language d'
       = (mkApplied true (len found) None, d').
Proof.
  intros found Hfound Hw.
  destruct (mergeInto_spec (practiceMemories generateId now found)
                           (loadMemories d)) as (added & E & H1 & H2 & H3).
  exists added, (mkDisk (Holds (loadMemories d ++ added)) true).
  assert (Hlen : (len found =? 0) = false).
  { apply Z.eqb_neq. unfold Injector.len. destruct found; [easy|].
    simpl length. lia. }
  assert (Hcount : forall g n,
             len (practiceMemories g n found) = len found).
  { intros g n. unfold Injector.len. now rewrite practiceMemories_length. }
  split; [|split; [reflexivity|split; [exact H1|split; [exact H2|split;
    [exact H3|]]]]].
  - unfold applyPracticesToProject. fold found. rewrite Hlen.
    rewrite E. unfold saveMemories. rewrite Hw. now rewrite Hcount.
  - unfold applyPracticesToProject. fold found. rewrite Hlen.
    cbn [loadMemories file].
    rewrite mergeInto_nothing.
    + unfold saveMemories. cbn [writable]. now rewrite Hcount.
    + intros m' Hm'.
      destruct (practiceMemories_rules generateId generateId' now now'
                  found m' Hm') as (m & Hm & Hc & Hk).
      rewrite (exists_same_rule _ m' m Hc Hk). now apply H2.
Qed.

End PracticeLaws.

(* ================================================================= *)
(** ** unnamed/part_003: refreshing the rules file *)

Module CursorLaws.
Import Injector CursorRules CompressorFacts InjectionLaws.

(** A text without the separator starts where the separator comes only
    if it starts before it. *)
Lemma startsWith_sep (sep : N) (u v sub : jsstring) :
  ~ In sep sub -> startsWith (u ++ sep :: v) sub = startsWith u sub.
Proof.
  revert sub. induction u as [|d u IH]; intros [|c sub] Hs; try reflexivity.
  - simpl. destruct (N.eqb_spec c sep) as [->|_]; [|reflexivity].
    exfalso. apply Hs. now left.
  - simpl. rewrite IH; [reflexivity|]. intros H. apply Hs. now right.
Qed.

Lemma indexFrom_unfold (i : Z) (s sub : jsstring) :
  indexFrom i s sub
  = if startsWith s sub then i
    else match s with
         | [] => -1
         | _ :: s' => indexFrom (i + 1) s' sub
         end.
Proof. now destruct s. Qed.

Lemma indexFrom_block (sep : N) (u v sub : jsstring) (i : Z) :
  ~ In sep sub -> sub <> [] -> includes u sub = false ->
  indexFrom i (u ++ sep :: v) sub = indexFrom (i + strlen u + 1) v sub.
Proof.
  intros Hs Hne. revert i. induction u as [|d u IH]; intros i Hu.
  - rewrite indexFrom_unfold, (startsWith_sep sep [] v sub Hs).
    destruct sub as [|c sub]; [congruence|]. cbn [startsWith app].
    f_equal. unfold strlen. simpl length. lia.
  - rewrite includes_unfold in Hu. apply orb_false_iff in Hu.
    destruct Hu as [H1 H2].
    rewrite indexFrom_unfold, (startsWith_sep sep (d :: u) v sub Hs), H1.
    cbn [app]. rewrite IH by exact H2. f_equal.
    unfold strlen. simpl length. lia.
Qed.

Lemma unblock_cons (l : jsstring) (ls : list jsstring) :
  unblock (l :: ls) = l ++ 10%N :: unblock ls.
Proof. unfold unblock. cbn [map concat]. now rewrite <- app_assoc. Qed.

Lemma unblock_app (ls ls' : list jsstring) :
  unblock (ls ++ ls') = unblock ls ++ unblock ls'.
Proof. unfold unblock. now rewrite map_app, concat_app. Qed.

Lemma unblock_empty (n : nat) : unblock (repeat [] n) = repeat 10%N n.
Proof.
  induction n as [|n IH]; [reflexivity|].
  cbn [repeat]. rewrite unblock_cons, IH. reflexivity.
Qed.

(** The first occurrence of a one-line text comes after the lines that
    do not hold it. *)
Lemma indexOf_blocks (ls : list jsstring) (sub rest : jsstring) :
  ~ In 10%N sub -> sub <> [] ->
  Forall (fun l => includes l sub = false) ls ->
  indexOf (unblock ls ++ sub ++ rest) sub = strlen (unblock ls).
Proof.
  intros Hs Hne Hls. unfold indexOf.
  assert (H : forall i,
             indexFrom i (unblock ls ++ sub ++ rest) sub
             = i + strlen (unblock ls)).
  { induction Hls as [|l ls Hl _ IH]; intros i.
    - change (unblock [] ++ sub ++ rest) with (sub ++ rest).
      rewrite indexFrom_unfold, startsWith_app.
      unfold strlen. simpl. lia.
    - rewrite unblock_cons, <- app_assoc. cbn [app].
      rewrite (indexFrom_block 10%N) by assumption.
      rewrite IH. unfold strlen. rewrite length_app. simpl length. lia. }
  rewrite H. lia.
Qed.

Lemma substring_prefix (a b : jsstring) :
  substring (a ++ b) 0 (strlen a) = a.
Proof.
  unfold substring, strlen. rewrite length_app.
  replace (Z.min (Z.max 0 0) (Z.of_nat (length a + length b))) with 0 by lia.
  replace (Z.min (Z.max (Z.of_nat (length a)) 0)
                 (Z.of_nat (length a + length b)))
    with (Z.of_nat (length a)) by lia.
  replace (Z.min 0 (Z.of_nat (length a))) with 0 by lia.
  replace (Z.max 0 (Z.of_nat (length a))) with (Z.of_nat (length a)) by lia.
  rewrite Z.sub_0_r, Nat2Z.id. cbn [Z.to_nat skipn].
  rewrite firstn_app, Nat.sub_diag, firstn_all. simpl. apply app_nil_r.
Qed.

Lemma substring_suffix (a b : jsstring) :
  substring (a ++ b) (strlen a) (strlen (a ++ b)) = b.
Proof.
  unfold substring, strlen. rewrite length_app.
  set (la := length a). set (lb := length b).
  replace (Z.min (Z.max (Z.of_nat la) 0) (Z.of_nat (la + lb)))
    with (Z.of_nat la) by lia.
  replace (Z.min (Z.max (Z.of_nat (la + lb)) 0) (Z.of_nat (la + lb)))
    with (Z.of_nat (la + lb)) by lia.
  replace (Z.min (Z.of_nat la) (Z.of_nat (la + lb))) with (Z.of_nat la)
    by lia.
  replace (Z.max (Z.of_nat la) (Z.of_nat (la + lb)))
    with (Z.of_nat (la + lb)) by lia.
  replace (Z.to_nat (Z.of_nat (la + lb) - Z.of_nat la)) with lb by lia.
  rewrite Nat2Z.id. subst la lb.
  rewrite skipn_app, skipn_all, Nat.sub_diag. simpl. apply firstn_all.
Qed.

(** *** The block as lines *)

Lemma section_text (title : jsstring) (ms : list Memory) :
  unblock (sectionBlocks title ms)
  = if 0 <? len ms
    then title ++ nl ++ entries dash (slice ms 0 20) ++ nl
    else [].
Proof.
  unfold sectionBlocks. destruct (0 <? len ms); [|reflexivity].
  rewrite unblock_cons, unblock_app. f_equal.
  change (10%N :: ?x) with (nl ++ x). f_equal. f_equal.
  unfold unblock, entries. now rewrite map_map.
Qed.

Lemma rules_blocks (memories : list Memory) :
  formatMemoriesAsRules memories
  = unblock (blocks memories) ++ endMarker ++ nl.
Proof.
  unfold formatMemoriesAsRules, blocks. cbv zeta.
  rewrite !unblock_app, !section_text.
  destruct (0 <? len (filter (isImportance CRITICAL) memories));
    destruct (0 <? len (filter (isImportance HIGH) memories));
    unfold unblock, endMarker; cbn [map concat];
    rewrite <- ?app_assoc, ?app_nil_r; reflexivity.
Qed.

Lemma section_clean (title : jsstring) (ms : list Memory) :
  includes title endMarker = false ->
  (forall m, In m ms -> includes (content m) endMarker = false) ->
  Forall (fun l => includes l endMarker = false) (sectionBlocks title ms).
Proof.
  intros Ht Hms. unfold sectionBlocks. destruct (0 <? len ms); [|constructor].
  constructor; [exact Ht|]. apply Forall_app. split; [|now repeat constructor].
  apply Forall_forall. intros l Hl. apply in_map_iff in Hl.
  destruct Hl as (m & <- & Hm). apply slice_0_In in Hm.
  change (dash ++ str " " ++ content m) with (45%N :: 32%N :: content m).
  rewrite includes_unfold, (includes_unfold (32%N :: _)), (Hms m Hm).
  reflexivity.
Qed.

Lemma blocks_clean (memories : list Memory) :
  (forall m, In m memories -> includes (content m) endMarker = false) ->
  Forall (fun l => includes l endMarker = false) (blocks memories).
Proof.
  intros H. unfold blocks.
  apply Forall_app. split; [|apply Forall_app; split].
  - repeat constructor.
  - apply section_clean; [reflexivity|].
    intros m Hm. apply filter_In in Hm. now apply H.
  - apply section_clean; [reflexivity|].
    intros m Hm. apply filter_In in Hm. now apply H.
Qed.

Lemma blocks_head (memories : list Memory) :
  blocks memories = [] :: startMarker :: skipn 2 (blocks memories).
Proof. reflexivity. Qed.

Lemma startMarker_line : ~ In 10%N startMarker.
Proof.
  intros H. repeat (destruct H as [H|H]; [discriminate H|]). exact H.
Qed.

Lemma endMarker_line : ~ In 10%N endMarker.
Proof.
  intros H. repeat (destruct H as [H|H]; [discriminate H|]). exact H.
Qed.

(** X26.  Refreshing the rules file.  The first injection into a rules
    file that holds neither marker (or into no file) appends two line
    feeds and the block of the records.  A later injection replaces the
    block by the block of the new records and keeps the text before it,
    but it is not idempotent: every refresh leaves one more line feed
    before the block and one more after it, so that the file grows by
    two code units each time even when the records are the same.  The
    records injected before must not hold the closing marker in their
    content. *)
Theorem injectViaCursorRules_refresh
        (start : option jsstring) (old new : list Memory) (n : nat) :
  let initial := match start with Some text => text | None => [] end in
  includes initial startMarker = false ->
  includes initial endMarker = false ->
  (forall m, In m old -> includes (content m) endMarker = false) ->
  let file k ms :=
    initial ++ nl ++ nl ++ repeat 10%N k ++ formatMemoriesAsRules ms
    ++ repeat 10%N k in
  injectViaCursorRules old (Some (mkFolder start true))
  = (true, Some (mkFolder (Some (file 0%nat old)) true))
  /\ injectViaCursorRules new (Some (mkFolder (Some (file n old)) true))
     = (true, Some (mkFolder (Some (file (S n) new)) true)).
Proof.
  intros initial Hs He Hold file. split.
  - unfold injectViaCursorRules. cbn [cursorrules canWrite]. fold initial.
    change (str "=== CodeMind ===") with startMarker. rewrite Hs.
    unfold file. cbn [repeat app]. now rewrite app_nil_r.
  - set (T := file n old).
    set (before := unblock (initial :: [] :: repeat [] n ++ [[]])).
    set (upto := unblock (initial :: [] :: repeat [] n ++ blocks old)).
    assert (Hend : T = upto ++ endMarker ++ nl ++ repeat 10%N n).
    { unfold T, upto, file. rewrite rules_blocks.
      rewrite !unblock_cons, unblock_app, unblock_empty.
      rewrite <- !app_assoc. cbn [app nl]. now rewrite <- !app_assoc. }
    assert (Hstart : T = before ++ startMarker
                         ++ nl ++ unblock (skipn 2 (blocks old))
                         ++ endMarker ++ nl ++ repeat 10%N n).
    { rewrite Hend. unfold upto, before. rewrite (blocks_head old) at 1.
      rewrite !unblock_cons, !unblock_app, !unblock_cons.
      rewrite <- !app_assoc. cbn [app nl]. now rewrite <- !app_assoc. }
    assert (Hsi : indexOf T startMarker = strlen before).
    { rewrite Hstart. apply indexOf_blocks;
        [exact startMarker_line | discriminate |].
      constructor; [exact Hs|]. constructor; [reflexivity|].
      apply Forall_app. split; [|now repeat constructor].
      apply Forall_forall. intros l Hl. apply repeat_spec in Hl.
      now subst l. }
    assert (Hei : indexOf T endMarker = strlen upto).
    { rewrite Hend. apply indexOf_blocks;
        [exact endMarker_line | discriminate |].
      constructor; [exact He|]. constructor; [reflexivity|].
      apply Forall_app. split; [|now apply blocks_clean].
      apply Forall_forall. intros l Hl. apply repeat_spec in Hl.
      now subst l. }
    unfold injectViaCursorRules. cbn [cursorrules canWrite]. fold T.
    change (str "=== CodeMind ===") with startMarker.
    replace (includes T startMarker) with true
      by (rewrite Hstart; symmetry; apply includes_app).
    unfold updateCursorRules. rewrite Hsi, Hei.
    replace (negb (strlen before =? -1) && negb (strlen upto =? -1))
      with true
      by (destruct (Z.eqb_spec (strlen before) (-1));
          destruct (Z.eqb_spec (strlen upto) (-1));
          unfold strlen in *; first [lia | reflexivity]).
    replace (substring T 0 (strlen before)) with before
      by (rewrite Hstart at 1; symmetry; apply substring_prefix).
    replace (substring T (strlen upto + strlen endMarker) (strlen T))
      with (nl ++ repeat 10%N n).
    2:{ rewrite Hend, (app_assoc upto endMarker).
        replace (strlen upto + strlen endMarker)
          with (strlen (upto ++ endMarker))
          by (unfold strlen; rewrite length_app; lia).
        symmetry. apply substring_suffix. }
    do 4 f_equal. unfold before, file.
    rewrite !unblock_cons, unblock_app, unblock_empty.
    rewrite <- !app_assoc. cbn [app nl unblock map concat repeat].
    assert (Hr : forall x, repeat 10%N n ++ 10%N :: x
                           = 10%N :: repeat 10%N n ++ x).
    { intros x. change (10%N :: x) with ([10%N] ++ x).
      now rewrite app_assoc, <- repeat_cons. }
    rewrite Hr, app_nil_r. reflexivity.
Qed.

End CursorLaws.

(* ================================================================= *)
(** ** memoryManager.ts: what an import does to the store *)

Module ImportLaws.
Import Storage Importing StorageLaws.

Lemma addMemory_load (m : Memory) (d d' : Disk) :
  addMemory m d = Some d' ->
  loadMemories d' = loadMemories d ++ [m] /\ writable d' = true.
Proof. unfold addMemory. apply saveMemories_load. Qed.

(** A loop of additions appends the records added, in order. *)
Lemma perform_additions (ms : list Memory) (d : Disk) :
  exists done,
    loadMemories (fst (perform (map addMemory ms) d))
    = loadMemories d ++ done
    /\ (snd (perform (map addMemory ms) d) = true -> done = ms).
Proof.
  revert d. induction ms as [|m ms IH]; intros d.
  - exists []. now rewrite app_nil_r.
  - cbn [map perform]. destruct (addMemory m d) as [d1|] eqn:E.
    + destruct (addMemory_load _ _ _ E) as [Hl _].
      destruct (IH d1) as (done & H1 & H2).
      exists (m :: done). rewrite H1, Hl, <- app_assoc. split; [reflexivity|].
      intros Hs. now rewrite (H2 Hs).
    + exists []. cbn [fst snd]. rewrite app_nil_r. split; [reflexivity|].
      discriminate.
Qed.

Lemma perform_writable (ms : list Memory) (d : Disk) :
  writable d = true -> snd (perform (map addMemory ms) d) = true.
Proof.
  revert d. induction ms as [|m ms IH]; intros d Hw; [reflexivity|].
  cbn [map perform]. unfold addMemory at 1, saveMemories. rewrite Hw.
  now apply IH.
Qed.

(** The first record of an id that occurs. *)
Lemma first_of_id (id_ : jsstring) (l : list Memory) :
  In id_ (map id l) ->
  exists pre m post,
    l = pre ++ m :: post
    /\ (forall x, In x pre -> streq (id x) id_ = false)
    /\ streq (id m) id_ = true.
Proof.
  induction l as [|x l IH]; [contradiction|]. intros H.
  destruct (streq (id x) id_) eqn:E.
  - now exists [], x, l.
  - destruct H as [H|H]; [apply streq_neq in E; contradiction|].
    destruct (IH H) as (pre & m & post & -> & Hpre & Hm).
    exists (x :: pre), m, post. split; [reflexivity|]. split; [|exact Hm].
    intros y [<-|Hy]; [exact E | now apply Hpre].
Qed.

(** An overwriting step keeps the ids of the records the store had and
    what was added after them. *)
Lemma overwrite_step (memory : Memory) (d d' : Disk)
      (kept added : list Memory) :
  loadMemories d = kept ++ added ->
  In (id memory) (map id kept) ->
  updateMemory (id memory) (asUpdate memory) d = Some d' ->
  exists kept',
    loadMemories d' = kept' ++ added /\ map id kept' = map id kept.
Proof.
  intros Hl Hin. destruct (first_of_id _ _ Hin)
    as (pre & m & post & -> & Hpre & Hm).
  unfold updateMemory. rewrite Hl, <- app_assoc. cbn [app].
  rewrite (findIndex_first _ pre m (post ++ added) Hpre Hm).
  rewrite updateAt_middle. intros H. apply saveMemories_load in H.
  destruct H as [H _].
  exists (pre ++ applyUpdates m (asUpdate memory) :: post).
  rewrite H, <- app_assoc. split; [reflexivity|].
  rewrite !map_app. cbn [map]. f_equal. f_equal.
  cbn [applyUpdates asUpdate newId orKeep id].
  apply streq_eq in Hm. now symmetry.
Qed.

Lemma perform_overwrite (existingIds : list jsstring) (ms : list Memory)
      (d : Disk) (kept added : list Memory) :
  loadMemories d = kept ++ added ->
  map id kept = existingIds ->
  let steps :=
    map (fun memory =>
           if arrayIncludes existingIds (id memory)
           then updateMemory (id memory) (asUpdate memory)
           else addMemory memory) ms in
  exists kept' done,
    loadMemories (fst (perform steps d)) = kept' ++ added ++ done
    /\ map id kept' = existingIds
    /\ (snd (perform steps d) = true ->
        done = filter (fun m => negb (arrayIncludes existingIds (id m))) ms).
Proof.
  revert d kept added. induction ms as [|m ms IH]; intros d kept added Hl Hk.
  - exists kept, []. cbn. now rewrite app_nil_r.
  - cbn [map perform filter].
    destruct (arrayIncludes existingIds (id m)) eqn:Ei; cbn [negb].
    + destruct (updateMemory (id m) (asUpdate m) d) as [d1|] eqn:E.
      * apply arrayIncludes_In in Ei. rewrite <- Hk in Ei.
        destruct (overwrite_step _ _ _ _ _ Hl Ei E) as (kept1 & Hl1 & Hk1).
        apply (IH d1 kept1 added Hl1). congruence.
      * exists kept, []. cbn [fst snd]. rewrite app_nil_r.
        split; [exact Hl|]. split; [exact Hk | discriminate].
    + destruct (addMemory m d) as [d1|] eqn:E.
      * destruct (addMemory_load _ _ _ E) as [Hl1 _].
        rewrite Hl, <- app_assoc in Hl1.
        destruct (IH d1 kept (added ++ [m]) Hl1 Hk)
          as (kept' & done & H1 & H2 & H3).
        exists kept', (m :: done). rewrite H1, <- app_assoc.
        split; [reflexivity|]. split; [exact H2|].
        intros Hs. now rewrite (H3 Hs).
      * exists kept, []. cbn [fst snd]. rewrite app_nil_r.
        split; [exact Hl|]. split; [exact Hk | discriminate].
Qed.

Lemma filter_split_length {A} (p : A -> bool) (l : list A) :
  Injector.len (filter (fun x => negb (p x)) l) + Injector.len (filter p l)
  = Injector.len l.
Proof.
  unfold Injector.len. induction l as [|x l IH]; [reflexivity|].
  cbn [filter]. destruct (p x); cbn [negb length]; lia.
Qed.

Lemma nothing_to_add (ids : list jsstring) (ms : list Memory) :
  (forall m, In m ms -> In (id m) ids) ->
  filter (fun m => negb (arrayIncludes ids (id m))) ms = [].
Proof.
  induction ms as [|m ms IH]; intros H; [reflexivity|]. cbn [filter].
  rewrite (proj2 (arrayIncludes_In ids (id m))) by (apply H; now left).
  apply IH. intros x Hx. apply H. now right.
Qed.

(** X27.  An import never removes or reorders a record.  Whatever the
    file holds and whichever item is picked, the corpus afterwards is the
    corpus before, record for record under the same ids, followed by the
    records added; only the overwriting import changes a record the store
    had.  When the import ends with its summary, the count of additions
    is the number of records added, and additions, skipped and
    overwritten records together are the valid records of the file. *)
Theorem importMemories_keeps_records
        (generateId : nat -> jsstring) (memoriesToImport : list Memory)
        (action : option Action) (d : Disk) :
  let result := importMemories generateId memoriesToImport action d in
  exists kept added,
    loadMemories (snd result) = kept ++ added
    /\ map id kept = map id (loadMemories d)
    /\ (action <> Some Overwrite -> kept = loadMemories d)
    /\ forall addedCount skippedCount overwrittenCount,
         fst result = Summary addedCount skippedCount overwrittenCount ->
         addedCount = Injector.len added
         /\ addedCount + skippedCount + overwrittenCount
            = Injector.len (filter valid memoriesToImport).
Proof.
  cbv zeta. unfold importMemories.
  assert (Hnone : exists kept added,
             loadMemories d = kept ++ added
             /\ map id kept = map id (loadMemories d)
             /\ (action <> Some Overwrite -> kept = loadMemories d)).
  { exists (loadMemories d), []. now rewrite app_nil_r. }
  destruct (Injector.len memoriesToImport =? 0).
  { destruct Hnone as (k & a & H1 & H2 & H3). exists k, a. cbn [fst snd].
    repeat split; try assumption; discriminate. }
  set (validMemories := filter valid memoriesToImport).
  destruct (Injector.len validMemories =? 0).
  { destruct Hnone as (k & a & H1 & H2 & H3). exists k, a. cbn [fst snd].
    repeat split; try assumption; discriminate. }
  destruct action as [[| |]|].
  - set (fresh := filter _ validMemories).
    destruct (perform_additions fresh d) as (done & H1 & H2).
    destruct (perform (map addMemory fresh) d) as [d' [|]];
      cbn [fst snd] in *; exists (loadMemories d), done;
      (split; [exact H1|]); (split; [reflexivity|]);
      (split; [reflexivity|]); [|discriminate].
    intros a s o [= <- <- <-]. rewrite (H2 eq_refl). lia.
  - set (steps := map _ validMemories).
    destruct (perform_overwrite (map id (loadMemories d)) validMemories d
                (loadMemories d) [] (eq_sym (app_nil_r _)) eq_refl)
      as (kept' & done & H1 & H2 & H3).
    fold steps in H1, H3.
    destruct (perform steps d) as [d' [|]];
      cbn [fst snd app] in *; exists kept', done;
      (split; [exact H1|]); (split; [exact H2|]);
      (split; [congruence|]); [|discriminate].
    intros a s o [= <- <- <-]. rewrite (H3 eq_refl).
    split; [reflexivity|].
    rewrite Z.add_0_r. apply filter_split_length.
  - set (renamed := map (fun numbered => withId (snd numbered)
                                           (generateId (fst numbered)))
                        (combine (seq 0 (length validMemories))
                                 validMemories)).
    assert (Hsteps :
              map (fun numbered =>
                     addMemory (withId (snd numbered)
                                       (generateId (fst numbered))))
                  (combine (seq 0 (length validMemories)) validMemories)
              = map addMemory renamed)
      by (unfold renamed; now rewrite map_map).
    rewrite Hsteps.
    destruct (perform_additions renamed d) as (done & H1 & H2).
    destruct (perform (map addMemory renamed) d) as [d' [|]];
      cbn [fst snd] in *; exists (loadMemories d), done;
      (split; [exact H1|]); (split; [reflexivity|]);
      (split; [reflexivity|]); [|discriminate].
    intros a s o [= <- <- <-]. rewrite (H2 eq_refl).
    unfold renamed, Injector.len.
    rewrite length_map, length_combine, length_seq, Nat.min_id. lia.
  - destruct Hnone as (k & a & H1 & H2 & H3). exists k, a. cbn [fst snd].
    repeat split; try assumption; discriminate.
Qed.

(** X28.  Importing with the duplicates skipped, from a file with a valid
    record into a store that can be written: the records of the file
    whose id the store did not have are appended, in the order of the
    file (a record whose id occurs twice in the file is added twice), the
    others are counted as skipped, and importing the same file again adds
    nothing and leaves the store as it is. *)
Theorem importMemories_skip_once
        (generateId : nat -> jsstring) (memoriesToImport : list Memory)
        (d : Disk) :
  let validMemories := filter valid memoriesToImport in
  let fresh :=
    filter (fun m => negb (arrayIncludes (map id (loadMemories d)) (id m)))
           validMemories in
  validMemories <> [] -> writable d = true ->
  exists d',
    importMemories generateId memoriesToImport (Some Skip) d
    = (Summary (Injector.len fresh)
               (Injector.len validMemories - Injector.len fresh) 0, d')
    /\ loadMemories d' = loadMemories d ++ fresh
    /\ importMemories generateId memoriesToImport (Some Skip) d'
       = (Summary 0 (Injector.len validMemories) 0, d').
Proof.
  intros validMemories fresh Hne Hw.
  assert (Hlen : (Injector.len validMemories =? 0) = false).
  { apply Z.eqb_neq. unfold Injector.len.
    destruct validMemories; [easy | simpl length; lia]. }
  assert (Hlen0 : (Injector.len memoriesToImport =? 0) = false).
  { apply Z.eqb_neq. unfold Injector.len. subst validMemories.
    destruct memoriesToImport; [easy | simpl length; lia]. }
  destruct (perform_additions fresh d) as (done & H1 & H2).
  pose proof (perform_writable fresh d Hw) as Hs.
  specialize (H2 Hs). subst done.
  destruct (perform (map addMemory fresh) d) as [d' ok] eqn:Ep.
  cbn [fst snd] in *. subst ok. exists d'.
  split; [|split; [exact H1|]].
  - unfold importMemories. fold validMemories. rewrite Hlen0, Hlen.
    fold fresh. now rewrite Ep.
  - unfold importMemories. fold validMemories. rewrite Hlen0, Hlen.
    assert (Hnone :
              filter (fun m =>
                        negb (arrayIncludes (map id (loadMemories d')) (id m)))
                     validMemories = []).
    { apply nothing_to_add. intros m Hm.
      rewrite H1, map_app. apply in_or_app.
      destruct (arrayIncludes (map id (loadMemories d)) (id m)) eqn:E.
      - left. now apply arrayIncludes_In.
      - right. apply in_map. apply filter_In. now rewrite E. }
    rewrite Hnone. cbn [map perform].
    change (Injector.len []) with 0. now rewrite Z.sub_0_r.
Qed.

End ImportLaws.

(* ================================================================= *)
(** ** memoryCompletionProvider.ts: the choice of the completions *)

Module CompletionLaws.
Import Injector Completion SelectorFacts.

Section WithRuntime.

Variable toLowerCase : jsstring -> jsstring.

Abbreviation value := (relevanceScore toLowerCase).




End WithRuntime.

End CompletionLaws.

(* ================================================================= *)
(** ** memoryManager.ts: what a refresh keeps *)

Module RefreshLaws.
Import Storage Refresh StorageLaws.

Section WithClock.

Variable now : nat -> Z.

(** A record of the store after the second loop: the record it was, but
    for the time, the confidence and the related files when a new record
    matched it. *)
Abbreviation kept e r :=
  (id r = id e /\ content r = content e /\ category r = category e
   /\ tags r = tags e /\ importance r = importance e
   /\ (r = e \/ exists k, timestamp r = now k)).

Lemma lastIndex_bound (key : jsstring) (existing : list Memory) (i j : nat) :
  lastIndex key existing i = Some j -> (i <= j < i + length existing)%nat.
Proof.
  revert i. induction existing as [|m rest IH]; intros i; [discriminate|].
  cbn [lastIndex length]. destruct (lastIndex key rest (S i)) eqn:E.
  - intros [= ->]. apply IH in E. lia.
  - destruct (streq (mergeKey m) key); [|discriminate].
    intros [= <-]. lia.
Qed.

Lemma lastIndex_none (key : jsstring) (existing : list Memory) (i : nat) :
  lastIndex key existing i = None ->
  existsb (fun e => streq (mergeKey e) key) existing = false.
Proof.
  revert i. induction existing as [|m rest IH]; intros i; [reflexivity|].
  cbn [lastIndex existsb]. destruct (lastIndex key rest (S i)) eqn:E;
    [discriminate|].
  destruct (streq (mergeKey m) key); [discriminate|].
  intros _. now apply (IH (S i)).
Qed.

Lemma lastIndex_some (key : jsstring) (existing : list Memory) (i j : nat) :
  lastIndex key existing i = Some j ->
  existsb (fun e => streq (mergeKey e) key) existing = true.
Proof.
  revert i j. induction existing as [|m rest IH]; intros i j; [discriminate|].
  cbn [lastIndex existsb]. destruct (lastIndex key rest (S i)) eqn:E.
  - intros _. rewrite (IH _ _ E). apply orb_true_r.
  - destruct (streq (mergeKey m) key); [reflexivity | discriminate].
Qed.

Lemma updateAt_inside {A} (f : A -> A) (index : nat) (l1 l2 : list A) :
  (index < length l1)%nat ->
  updateAt index f (l1 ++ l2) = updateAt index f l1 ++ l2.
Proof.
  revert index. induction l1 as [|x l1 IH]; intros index H;
    [simpl in H; lia|].
  destruct index as [|index]; [reflexivity|].
  cbn [app updateAt]. rewrite IH; [reflexivity | simpl in H; lia].
Qed.

Lemma updateAt_kept (time : Z) (newMemory : Memory) (index : nat)
      (existing stored : list Memory) :
  (exists k, time = now k) ->
  Forall2 (fun e r => kept e r) existing stored ->
  Forall2 (fun e r => kept e r) existing
          (updateAt index (refreshed time newMemory) stored).
Proof.
  intros [k ->] H. revert index.
  induction H as [|e r existing stored Hr Hrest IH]; intros index;
    [destruct index; constructor|].
  destruct index as [|index]; cbn [updateAt].
  - constructor; [|exact Hrest].
    destruct Hr as (H1 & H2 & H3 & H4 & H5 & _).
    cbn [refreshed id content category tags importance timestamp].
    repeat split; try assumption. right. now exists k.
  - constructor; [exact Hr | apply IH].
Qed.

(** The second loop refreshes records of the store in place and appends
    the new records no record of the store matches. *)
Lemma mergeLoop_spec (existing newMemories stored added : list Memory)
      (calls : nat) :
  Forall2 (fun e r => kept e r) existing stored ->
  exists stored' calls',
    mergeLoop now existing newMemories (stored ++ added) calls
    = (stored' ++ added
       ++ filter (fun n =>
                    negb (existsb (fun e => streq (mergeKey e) (mergeKey n))
                                  existing))
                 newMemories, calls')
    /\ Forall2 (fun e r => kept e r) existing stored'.
Proof.
  revert stored added calls.
  induction newMemories as [|n rest IH]; intros stored added calls H.
  - exists stored, calls. cbn. now rewrite app_nil_r.
  - cbn [mergeLoop filter].
    destruct (lastIndex (mergeKey n) existing 0) as [index|] eqn:E.
    + rewrite (lastIndex_some _ _ _ _ E). cbn [negb].
      apply lastIndex_bound in E.
      rewrite updateAt_inside
        by (rewrite <- (Forall2_length H); lia).
      apply IH. apply updateAt_kept; [now exists calls | exact H].
    + rewrite (lastIndex_none _ _ _ E). cbn [negb].
      destruct (IH stored (added ++ [n]) calls H) as (s' & c' & Hl & Hk).
      exists s', c'. split; [|exact Hk].
      rewrite <- app_assoc. rewrite Hl. now rewrite <- !app_assoc.
Qed.

Lemma kept_self (existing : list Memory) :
  Forall2 (fun e r => kept e r) existing existing.
Proof.
  induction existing as [|e l IH]; constructor; [|exact IH].
  repeat split. now left.
Qed.

(** X30.  What a refresh keeps.  The merge returns, in order, the records
    of the store and after them the new records whose key (the category
    and the first 50 code units of the content) no record of the store
    has, and drops from both the medium and low records at least 90 days
    old at the time of the last call of the clock.  A record of the store
    keeps its id, content, category, tags and importance; only its time,
    confidence and related files change, when a new record of its key
    refreshes it.  So no critical or high record is lost, of the store or
    of the scan, unless a new one is taken for a record of the store. *)
Theorem mergeMemories_spec (existing newMemories : list Memory) :
  let merged := mergeMemories now existing newMemories in
  let unmatched :=
    filter (fun n =>
              negb (existsb (fun e => streq (mergeKey e) (mergeKey n))
                            existing))
           newMemories in
  exists stored time,
    merged = filter (survives (90 * 24 * 60 * 60 * 1000) time)
                    (stored ++ unmatched)
    /\ Forall2 (fun e r => kept e r) existing stored
    /\ (forall e, In e existing ->
          importance e = CRITICAL \/ importance e = HIGH ->
          exists r, In r merged /\ id r = id e /\ content r = content e
                    /\ importance r = importance e)
    /\ (forall n, In n newMemories ->
          importance n = CRITICAL \/ importance n = HIGH ->
          In n merged
          \/ exists e, In e existing /\ mergeKey e = mergeKey n).
Proof.
  intros merged unmatched.
  destruct (mergeLoop_spec existing newMemories existing [] 0
              (kept_self existing)) as (stored & calls & Hl & Hk).
  rewrite app_nil_r in Hl. cbn [app] in Hl.
  exists stored, (now calls).
  assert (Hm : merged = filter (survives (90 * 24 * 60 * 60 * 1000)
                                         (now calls))
                               (stored ++ unmatched)).
  { unfold merged, mergeMemories. cbv zeta. now rewrite Hl. }
  assert (Hs : forall m, importance m = CRITICAL \/ importance m = HIGH ->
                 survives (90 * 24 * 60 * 60 * 1000) (now calls) m = true).
  { intros m Hi. apply survives_iff. tauto. }
  split; [exact Hm|]. split; [exact Hk|]. split.
  - intros e He Hi.
    assert (Hr : exists r, In r stored /\ kept e r).
    { clear -He Hk. induction Hk as [|e0 r0 l l' H0 _ IH];
        [contradiction|].
      destruct He as [->|He]; [exists r0; split; [now left | exact H0]|].
      destruct (IH He) as (r & Hr & Hkr). exists r. split; [now right|].
      exact Hkr. }
    destruct Hr as (r & Hr & H1 & H2 & _ & _ & H5 & _).
    exists r. rewrite Hm. repeat split; try assumption.
    apply filter_In. split; [apply in_or_app; now left|].
    apply Hs. now rewrite H5.
  - intros n Hn Hi.
    destruct (existsb (fun e => streq (mergeKey e) (mergeKey n)) existing)
      eqn:E.
    + right. apply existsb_exists in E. destruct E as (e & He & Hkey).
      exists e. split; [exact He | now apply streq_eq].
    + left. rewrite Hm. apply filter_In. split; [|now apply Hs].
      apply in_or_app. right. apply filter_In. now rewrite E.
Qed.

End WithClock.

End RefreshLaws.

(* ================================================================= *)
(** ** The properties of this part on closed inputs *)

Module MoreCasesChecked.
Import Injector Scenarios Cases MoreCases.

Lemma applyPracticesToProject_once_witness :
  Practices.getPracticesByLanguage library asciiToLower
    (Practices.mapProjectLanguageToBestPracticeLanguage Practices.GO) <> []
  /\ Storage.writable emptyDisk = true
  /\ exists added d',
       Practices.applyPracticesToProject library practiceId clock
         asciiToLower (str "EACCES") Practices.GO emptyDisk
       = (Practices.mkApplied true 2 None, d')
       /\ Storage.loadMemories d' = Storage.loadMemories emptyDisk ++ added
       /\ Practices.applyPracticesToProject library laterId clock
            asciiToLower (str "EACCES") Practices.GO d'
          = (Practices.mkApplied true 2 None, d').
Proof.
  assert (H1 : Practices.getPracticesByLanguage library asciiToLower
                 (Practices.mapProjectLanguageToBestPracticeLanguage
                    Practices.GO) <> []) by (vm_compute; discriminate).
  assert (H2 : Storage.writable emptyDisk = true) by reflexivity.
  destruct (PracticeLaws.applyPracticesToProject_once
              library asciiToLower (str "EACCES") practiceId laterId
              clock clock Practices.GO emptyDisk H1 H2)
    as (added & d' & E1 & E2 & _ & _ & _ & E3).
  exact (conj H1 (conj H2
    (ex_intro _ added (ex_intro _ d' (conj E1 (conj E2 E3)))))).
Defined.

Lemma injectViaCursorRules_refresh_witness :
  includes ownRules CursorRules.startMarker = false
  /\ includes ownRules CursorRules.endMarker = false
  /\ (forall m, In m three ->
        includes (content m) CursorRules.endMarker = false)
  /\ CursorRules.injectViaCursorRules oldCorpus
       (Some (CursorRules.mkFolder
                (Some (ownRules ++ nl ++ nl
                       ++ CursorRules.formatMemoriesAsRules three))
                true))
     = (true,
        Some (CursorRules.mkFolder
                (Some (ownRules ++ nl ++ nl ++ nl
                       ++ CursorRules.formatMemoriesAsRules oldCorpus
                       ++ nl))
                true)).
Proof.
  assert (H1 : includes ownRules CursorRules.startMarker = false)
    by (vm_compute; reflexivity).
  assert (H2 : includes ownRules CursorRules.endMarker = false)
    by (vm_compute; reflexivity).
  assert (H3 : forall m, In m three ->
                 includes (content m) CursorRules.endMarker = false).
  { intros m Hm. simpl in Hm.
    destruct Hm as [<-|[<-|[<-|[]]]]; vm_compute; reflexivity. }
  exact (conj H1 (conj H2 (conj H3
    (proj2 (CursorLaws.injectViaCursorRules_refresh
              (Some ownRules) three oldCorpus 0 H1 H2 H3))))).
Defined.

Lemma importMemories_skip_once_witness :
  filter Importing.valid imported <> []
  /\ Storage.writable oldDisk = true
  /\ exists d',
       Importing.importMemories practiceId imported (Some Importing.Skip)
                                oldDisk
       = (Importing.Summary 2 1 0, d')
       /\ Storage.loadMemories d' = Storage.loadMemories importedDisk
       /\ Importing.importMemories practiceId imported
            (Some Importing.Skip) d'
          = (Importing.Summary 0 3 0, d').
Proof.
  assert (H1 : filter Importing.valid imported <> [])
    by (vm_compute; discriminate).
  assert (H2 : Storage.writable oldDisk = true) by reflexivity.
  destruct (ImportLaws.importMemories_skip_once practiceId imported oldDisk
              H1 H2) as (d' & E1 & E2 & E3).
  exact (conj H1 (conj H2 (ex_intro _ d' (conj E1 (conj E2 E3))))).
Defined.

(** The two practices of one content and category leave one record, and
    the count reported is 2 all the same. *)
Example practices_applied :
  Practices.applyPracticesToProject library practiceId clock asciiToLower
    (str "EACCES") Practices.GO emptyDisk
  = (Practices.mkApplied true 2 None, appliedDisk)
  /\ fst (Practices.applyPracticesToProject library practiceId clock
            asciiToLower (str "EACCES") Practices.TYPESCRIPT emptyDisk)
     = Practices.mkApplied false 0
         (Some ([0x6ca1; 0x6709; 0x627e; 0x5230; 0x20; 0x74; 0x79; 0x70;
             0x65; 0x73; 0x63; 0x72; 0x69; 0x70; 0x74; 0x20; 0x8bed; 0x8a00;
             0x7684; 0x6700; 0x4f73; 0x5b9e; 0x8df5]%N)).
Proof. split; vm_compute; reflexivity. Qed.

(** Names under the four styles. *)
Example naming_styles :
  Validator.isValidNaming (str "userName") (str "camelCase") = true
  /\ Validator.isValidNaming (str "user_name") (str "camelCase") = false
  /\ Validator.isValidNaming (str "UserName") (str "camelCase") = false
  /\ Validator.isValidNaming (str "String") (str "camelCase") = true
  /\ Validator.isValidNaming (str "username") (str "snake_case") = true
  /\ Validator.isValidNaming (str "MAX_SIZE") (str "UPPER_SNAKE_CASE") = true
  /\ Validator.isValidNaming (str "max_size") (str "PascalCase") = false
  /\ Validator.isValidNaming (str "max size") (str "kebab-case") = true.
Proof. repeat split; vm_compute; reflexivity. Qed.

(** The rules file after one injection and after three. *)
Example rules_grow :
  let once :=
    snd (CursorRules.injectViaCursorRules three
           (Some (CursorRules.mkFolder None true))) in
  let twice := snd (CursorRules.injectViaCursorRules three once) in
  let thrice := snd (CursorRules.injectViaCursorRules three twice) in
  once = Some (CursorRules.mkFolder
                 (Some (nl ++ nl ++ CursorRules.formatMemoriesAsRules three))
                 true)
  /\ thrice = Some (CursorRules.mkFolder
                      (Some (nl ++ nl ++ nl ++ nl
                             ++ CursorRules.formatMemoriesAsRules three
                             ++ nl ++ nl))
                      true).
Proof. split; vm_compute; reflexivity. Qed.

(** Ten high records of 112.5 points (seven tags and one word, times
    1.5) leave no room for a critical record of 100. *)
Example completion_crowded :
  Completion.relevanceScore asciiToLower (shortCritical 0) atCursor
    (str "handler := ") == 100
  /\ Completion.relevanceScore asciiToLower (tagged 0) atCursor
       (str "handler := ") == 225 # 2
  /\ Completion.selectRelevantMemories asciiToLower crowd atCursor
       (str "handler := ")
     = map tagged (seq 0 10).
Proof. repeat split; vm_compute; reflexivity. Qed.

(** A refresh drops the two old records of low importance, refreshes the
    record the scan found again and adds the one it did not know. *)
Example refresh_merges :
  Refresh.mergeMemories clock oldCorpus
    [aged LOW 3 aTime; aged LOW 8 aTime]
  = [aged CRITICAL 0 0; aged HIGH 1 0;
     mkMemory (str "m3") (str "rule 3") OTHER aTime [str "go"; str "api"]
              LOW None (Some (9 # 10)%Q);
     aged LOW 8 aTime].
Proof. vm_compute. reflexivity. Qed.

End MoreCasesChecked.
